(* ===== verification/_CoqProject ===== *)
-Q . S2P
Prelude.v
OrdMap.v
Ring.v
RingMem.v
RingLog.v
Seqlock.v
Wakeup.v
Record.v
Chain.v
Disk.v
SegmentReader.v
SegmentWriter.v
Config.v
Stats.v
WalV1.v
WalRecovery.v
WalFlusher.v
WalApi.v
WalFollow.v
SegmentV2.v
Mmap.v
WalV2.v
WalV2Spec.v
WalV2Api.v
WalV2Follow.v
WalV2Calls.v
WalV2Restart.v
WalV2Sync.v
WalV2Demo.v
WalV2Replay.v
Publisher.v
Subscriber.v
PySubscription.v
Topic.v
TopicWake.v
TopicV2.v
Waker.v
ProducerLock.v
Bus.v
BusSpec.v
PyBus.v
Text.v
Prometheus.v
PyStats.v
Frame.v
Queue.v
BridgeConfig.v
Bridge.v
BridgeSpec.v
BridgeMesh.v
OriginId.v
QuicIdentity.v
Quic.v
Forwarder.v
BridgeStart.v
PyBridge.v
PyLocks.v
