(* ===== verification/Prelude.v ===== *)
(** * mmbus: a verification development

    mmbus is a publish/subscribe bus between the processes of one machine, over memory-mapped files.  A
    _bus_ is a name; each _topic_ of it is a directory with a ring buffer, a socket, a producer lock and,
    when it is enabled, a write-ahead log.  One publisher per topic writes messages to the ring (and first to
    the log); any number of subscribers, up to the size of the cursor table, read them at their own pace and
    sleep on an eventfd in between.  [mmbus-bridge] joins buses of several machines: it subscribes to topics,
    sends their messages to its peers over TCP, and publishes what it receives.

    The sources are [src/crates/mmbus/src/] and [src/crates/mmbus-bridge/src/]; file names below are relative
    to them.

    ** What models what

    This file is the prelude: fallible and stateful code ([result], the monad [M], whose state survives an
    error as [&mut self] does across [?]), machine integers, bytes, little-endian fields, list slices with
    [Z] lengths, and the tactics and hints the other files share.

    - The ring.  [Ring.v] has [ring.rs]'s state and operations, one function each, over the messages a ring
      holds ([ring_repr]).  [RingLog.v] has the broadcast log that it promises to be, with a position and a flag per
      subscriber, and refines every call to it.  [RingMem.v] has the same operations as loads, stores and copies on the bytes of
      the mapping.  [Seqlock.v] takes the slot protocol of [write_slot] and [try_receive]
      apart into single memory accesses and interleaves them.  [Wakeup.v] does so for the handshake between
      [broadcast_wakeup] and [wait_readable], under total store order.
    - The v1 log.  [Record.v] is [wal/record.rs]; [SegmentReader.v] and [SegmentWriter.v] the files of those
      names, over the failing disk of [Disk.v]; [WalV1.v], [WalRecovery.v] and [WalFlusher.v] are
      [wal/wal.rs] and [wal/reader.rs]: the aggregator, opening after a crash, the background flusher.
      [Chain.v] and [OrdMap.v] hold what both logs share: segments as lists of records, the ordered index.
    - The v2 log ([wal/v2/]).  [Mmap.v] is the directory of mapped files; [SegmentV2.v] a mapped segment with
      the single stores of an append; [WalV2.v] the aggregator.  [WalV2Spec.v] ties it to a list of records;
      [WalV2Calls.v], [WalV2Restart.v], [WalV2Sync.v] and [WalV2Replay.v] state what it promises over
      sequences of calls, restarts, syncs and replays; [WalV2Demo.v] has the concrete runs.
    - The two logs behind one interface.  [wal/mod.rs] exports one or the other under the same names.
      [WalApi.v] states what the publisher and the subscriber rely on ([WalBackend], [WalLaws],
      [ReplayBackend], [ReplayLaws]) and shows it of v1; [WalV2Api.v] shows it of v2.  [WalFollow.v] and
      [WalV2Follow.v] do so for a log that is appended to while subscribers replay it ([FollowLaws]).
    - [Config.v] and [Stats.v]: [config.rs], [wal/config.rs], [stats.rs], [wal/stats.rs], [error.rs].
    - [Publisher.v] is [publisher.rs] over the ring and a [WalBackend]; [Subscriber.v] is [subscriber.rs] and
      [subscription.rs] over the ring and a [ReplayBackend].  Their theorems hold for both logs.  [Topic.v] and
      [TopicWake.v] put a publisher and its subscribers together and let their calls follow one another in
      any order, with replays of the growing log; [TopicV2.v] has a run on the v2 log.  [Waker.v] is [waker.rs]: how a subscriber hands its descriptor, or on Windows its semaphore,
      to the publisher, and the thread that accepts subscribers there.
    - [ProducerLock.v] is [producer_lock.rs], one call and interleaved; [Bus.v] and [BusSpec.v] are [bus.rs]
      and the directory and lock part of [Publisher::create], refined to independent topics.
    - [Text.v] has Rust's strings, [Prometheus.v] is [prometheus.rs].
    - The bridge.  [Frame.v], [Queue.v] and [BridgeConfig.v] are [frame.rs], [queue.rs] and [config.rs];
      [Bridge.v] has the threads of [bridge.rs] as functions of what their calls on sockets, queues and
      subscriptions give; [BridgeSpec.v] and [BridgeMesh.v] what comes of them; [Forwarder.v] the forwarder and the
      listener over any number of connections.  [OriginId.v] is
      [random_origin_id]; [QuicIdentity.v] and [Quic.v] are [quic.rs] with the runtime and identity part of
      [bridge.rs]: certificate files, pinning, and the tasks that carry a peer's messages.  [BridgeStart.v] is
      [Bridge::start] and [shutdown], as the workers they spawn and stop.
    - Python.  [PySubscription.v] is [python/subscription.rs] and [python/exceptions.rs] over [Subscriber.v];
      [PyStats.v] has that file's statistics objects;
      [PyBus.v] is [python/bus.rs] over [Bus.v];
      [PyBridge.v] is the state machine of the bridge's [python.rs] over [BridgeStart.v], and [PyLocks.v] what
      its methods do with the interpreter's lock and the mutex.

    ** How the parts meet

    [Publisher.create] and [Bus.create_publisher_in] open the ring with [Ring.create_or_reuse] and set its
    tail to the log's pending cursor.  [Publisher.publish] accepts waiting clients, appends to the log through
    [wb_append], writes the ring with [Ring.try_publish] or [Ring.publish_drop_oldest], and wakes the clients
    whose flag is set.  [Subscriber.connect_with] claims a cursor with [Ring.claim_cursor], announces itself,
    and starts in the ring or, for a position the ring no longer has, in the log; [Subscriber] reads come
    from the log's replayer until it meets the ring, then from [Ring.try_receive].  A bridge's subscriber
    thread gives each message to [Queue.send], the forwarder writes what [Queue.recv_timeout] takes out,
    the peer's reader decodes it with [Frame.decode] and hands it to the thread that publishes.

    ** What the theorems show

    - Delivery: under the error policy every subscriber of a topic gets every message in order, from where it
      starts on, be it back in the log, if that shows its records at once and keeps them ([Topic.topic_delivers_in_order]); when the oldest are dropped no publish is held up, and who falls behind
      goes on in order with what the ring holds ([Topic.lossy_topic_keeps_going]); none sleeps while it has one to
      read, as long as nobody leaves and nobody connects inside a publish ([TopicWake.sleeper_is_woken]); ring operations refine
      a broadcast log ([RingLog.ring_is_a_broadcast_log]), the accesses to the mapping implement them and stay inside, whatever it holds ([RingMem]); readers
      never return torn data under any interleaving ([Seqlock.no_torn_read]); a subscriber that starts in
      the log and moves to the ring gets every message once ([Subscriber.subscriber_catches_up]); a batch is
      the sequence of its messages; a blocking receive returns what it waits for, and a subscriber known to
      the publisher is never left asleep with a message unread ([Wakeup.no_lost_wakeup]).
    - Durability: what a power cut leaves of a segment, what a cut between two calls leaves of a log, what opening makes of any such directory, what
      replay then yields, for both logs; the flusher publishes only what it synced; replay of any directory, hostile
      bytes included, ends.
    - Exclusion and isolation: one producer per path ([ProducerLock.one_producer_per_path]); a bus is its
      topics, as long as their names are single components of a path ([BusSpec.bus_is_its_topics]).
    - The network: frames round-trip and are decoded the same however the stream is cut; a peer's queue keeps the
      newest, and loses nothing while it has room; from one bridge's queue to the other's publisher messages arrive at most once, each connection's in
      order, in some interleaving of the connections, and none without an accepted key ([Forwarder.bridge_delivers]); the same over QUIC, counting
      what its second queue drops ([Quic.quic_messages_arrive]); a pin accepts one certificate, and an identity
      survives a restart.
    - Python: a batch read returns the next messages; a handle has its topic to itself
      ([PyBus.handle_is_exclusive]); whatever starts and shutdowns are called, the workers of
      a bridge are accounted for ([PyBridge.bridge_workers_are_accounted_for]); polling and stopping a
      bridge never deadlock ([PyLocks.calls_never_deadlock]).
    - Defects: some theorems and examples prove behaviour that the code's documentation denies: a bridged
      message goes round forever ([BridgeMesh]), and two can change places on a reconnect ([Forwarder]); a v2 segment that is rotated away is never synced
      ([WalV2Sync]); a segment without records stops the log ([WalV2Restart]); a message published right
      before the publisher exits is lost ([Subscriber]); a subscriber that starts in the log skips what the log has
      only buffered ([Topic]), and one that asks for a position past the tail stops the publisher ([Topic]); a subscriber that connects late or again is not woken
      ([Wakeup], [Publisher]), and one that opens a ring that is being created finds no room ([RingMem]); a start that fails leaves threads behind, and one that is polled deadlocks
      ([PyBridge], [PyLocks]); one silent client stops the exporter ([Prometheus]).  Each is next to the definitions it concerns.

    ** Conventions, bounds and fuel

    Machine integers are [Z] with the range as a predicate ([is_u64]) and wrap-around written out ([wrap64]);
    lengths are [Z] ([zlen]).  Counters that are only reported (of published, dropped, received messages) are not wrapped.  A load
    from a mapping that the code has no right to make (misaligned, or past its end, in [wal/v2/mmap_segment_reader.rs]) gets no value
    made up for it: it is an outcome of its own ([SegmentV2.BadLoad], [WalV2.UndefinedLoad]) and the last one.  A connection's
    handshake is its outcome: [Publisher.v] and [Subscriber.v] have all of them, the runs of [Topic.v] only those that
    succeed, and there calls are whole.  Cursors are assumed below [2^64] where a theorem says so.  A blocking call, a
    socket or a queue is the list of the outcomes of its system calls, or of what the rest of the system does while
    the caller sleeps; theorems quantify over these lists.  Loops that are not structural take fuel that
    their callers compute from the state, and lemmas show that it suffices: the scan of a segment takes the
    bytes of the file ([scan_fuel]), a replay the records and segments of the index ([replay_bound]), the
    broadcast the number of clients, retention the number of segments, the bridge's decoder the bytes of
    its buffer.  Decimal numbers take 20 digits, enough for 64 bits.

    Code outside the repository is a parameter: CRC-32C is the class [Crc] and SHA-256 the class [Sha256], of
    which only the width of the result is used.  Sleeps in slices take fuel that their length bounds.  The standard library's files, maps, strings and buffered writers are modelled.

    ** What is not modelled

    - Of [quic.rs], what quinn, rustls and tokio do: their calls are outcomes.
    - How [waker.rs] creates and opens system objects ([Publisher.v] and [Subscriber.v] use an eventfd as the
      counter it is), and the variants for macOS.  For Windows, only what [Waker.v] and [PyLocks.v] say.
    - [python/mod.rs], the conversion of Python arguments, and the checks of borrowing that pyo3 makes at run time.
    - [logging.rs], [mmbus-bridge/src/main.rs], the crate roots: no state.
    - Parsing TOML, JSON and addresses.
    - Weak memory beyond store buffering: the seqlock and the handshake are interleaved on sequentially
      consistent and store-buffered memory.
    - In the bus, failures to create a directory, a ring or a socket. *)

From Stdlib Require Import ZArith Lia Bool Strings.Byte.
From stdpp Require Import base option strings gmap list.

#[global] Open Scope Z_scope.

(** ** Fallible and stateful code

    [result E A] is Rust's [Result<A, E>].  [M S E A] is a method on [&mut self] (or [&self] with
    interior mutability) that may fail: the state it leaves behind is kept on both branches, as in
    Rust, where [?] returns early without undoing earlier writes. *)

Inductive result (E A : Type) : Type :=
  | Ok (a : A)
  | Err (e : E).
Arguments Ok {E A} a.
Arguments Err {E A} e.

Definition is_ok {E A} (r : result E A) : bool :=
  match r with Ok _ => true | Err _ => false end.

Definition map_err {E F A} (f : E -> F) (r : result E A) : result F A :=
  match r with Ok a => Ok a | Err e => Err (f e) end.

Definition M (S E A : Type) : Type := S -> S * result E A.

Definition ret {S E A} (a : A) : M S E A := fun s => (s, Ok a).
Definition fail {S E A} (e : E) : M S E A := fun s => (s, Err e).
Definition get {S E} : M S E S := fun s => (s, Ok s).
Definition put {S E} (s' : S) : M S E unit := fun _ => (s', Ok tt).
Definition modify {S E} (f : S -> S) : M S E unit := fun s => (f s, Ok tt).
Definition lift {S E A} (r : result E A) : M S E A := fun s => (s, r).

Definition bind {S E A B} (m : M S E A) (k : A -> M S E B) : M S E B := fun s =>
  match m s with
  | (s', Ok a) => k a s'
  | (s', Err e) => (s', Err e)
  end.

Lemma bind_ok {S E A B} (m : M S E A) (k : A -> M S E B) s s' a :
  m s = (s', Ok a) -> bind m k s = k a s'.
Proof. unfold bind. by intros ->. Qed.

Lemma bind_err {S E A B} (m : M S E A) (k : A -> M S E B) s s' e :
  m s = (s', Err e) -> bind m k s = (s', Err e).
Proof. unfold bind. by intros ->. Qed.

Lemma bind_assoc {S E A B C} (m : M S E A) (k : A -> M S E B) (k' : B -> M S E C) s :
  bind m (fun a => bind (k a) k') s = bind (bind m k) k' s.
Proof. unfold bind. by destruct (m s) as [s' [a|e]]. Qed.

Lemma bind_modify {S E B} (f : S -> S) (k : unit -> M S E B) s : bind (modify f) k s = k tt (f s).
Proof. done. Qed.

(** Runs the first call of a sequence, by an equation for it. *)
Ltac step_ok H := (erewrite bind_ok by exact H); cbv beta iota zeta.
Ltac step_err H := (erewrite bind_err by exact H).

Declare Scope mm_scope.
Delimit Scope mm_scope with mm.
#[global] Open Scope mm_scope.

Notation "'let!' x ':=' m 'in' k" := (bind m (fun x => k))
  (at level 10, x pattern, m at level 100, k at level 200) : mm_scope.
Notation "'do!' m 'in' k" := (bind m (fun _ => k))
  (at level 10, m at level 100, k at level 200) : mm_scope.
Notation "'let?' x ':=' r 'in' k" :=
  (match r with Ok x => k | Err e => Err e end)
  (at level 10, x pattern, r at level 100, k at level 200) : mm_scope.

(** ** Machine integers

    A [u64], [u32] or [usize] is a [Z]; the operations that wrap or saturate in the source do so
    here.  [wrap64] is the behaviour of a release build, which has no overflow checks. *)

Definition two63 : Z := 2 ^ 63.
Definition two64 : Z := 2 ^ 64.
Definition two32 : Z := 2 ^ 32.
Definition u64_MAX : Z := two64 - 1.

Definition wrap64 (z : Z) : Z := z mod two64.
Definition wrapping_sub (a b : Z) : Z := wrap64 (a - b).
Definition saturating_sub (a b : Z) : Z := Z.max 0 (a - b).

(** [(n + (a - 1)) & !(a - 1)] on non-negative integers, for [a] a power of two. *)
Definition align_up (a n : Z) : Z := Z.land (n + (a - 1)) (Z.lnot (a - 1)).

Definition is_u64 (z : Z) : Prop := 0 <= z < two64.

(** ** Bytes and little-endian integers *)

Abbreviation byte := Byte.byte.

#[global] Instance byte_eq_decision : EqDecision byte := Byte.byte_eq_dec.

Definition byte_to_Z (b : byte) : Z := Z.of_N (Byte.to_N b).

Definition byte_of_Z (z : Z) : byte :=
  match Byte.of_N (Z.to_N (z mod 256)) with
  | Some b => b
  | None => Byte.x00
  end.

(** [to_le n z] is [z.to_le_bytes()] for an [n]-byte unsigned integer. *)
Fixpoint to_le (n : nat) (z : Z) : list byte :=
  match n with
  | O => []
  | S n' => byte_of_Z z :: to_le n' (z / 256)
  end.

(** [from_le bs] is [uN::from_le_bytes(bs)]. *)
Fixpoint from_le (bs : list byte) : Z :=
  match bs with
  | [] => 0
  | b :: bs' => byte_to_Z b + 256 * from_le bs'
  end.

(** ** Slices: lengths and offsets are [Z], as [usize] is *)

Definition zlen {A} (l : list A) : Z := Z.of_nat (length l).
Definition ztake {A} (n : Z) (l : list A) : list A := take (Z.to_nat n) l.
Definition zdrop {A} (n : Z) (l : list A) : list A := drop (Z.to_nat n) l.
(** [&l[lo..hi]] *)
Definition zslice {A} (lo hi : Z) (l : list A) : list A := ztake (hi - lo) (zdrop lo l).
(** [l[off..off + bs.len()].copy_from_slice(bs)], when it is in range. *)
Definition zsplice {A} (off : Z) (bs l : list A) : list A :=
  ztake off l ++ bs ++ zdrop (off + zlen bs) l.
(** [vec![x; n]] *)
Definition zrep {A} (n : Z) (x : A) : list A := replicate (Z.to_nat n) x.

(** ** Automation *)

(** Case analysis on the boolean comparisons of the goal and the hypotheses, then arithmetic. *)
Ltac zbool :=
  repeat match goal with
  | H : context [?a <? ?b] |- _ => destruct (Z.ltb_spec a b)
  | H : context [?a <=? ?b] |- _ => destruct (Z.leb_spec a b)
  | H : context [?a =? ?b] |- _ => destruct (Z.eqb_spec a b)
  | |- context [?a <? ?b] => destruct (Z.ltb_spec a b)
  | |- context [?a <=? ?b] => destruct (Z.leb_spec a b)
  | |- context [?a =? ?b] => destruct (Z.eqb_spec a b)
  end; try lia; try done.

(** Inversion of equations between results, options and pairs. *)
Ltac minv :=
  repeat match goal with
  | H : (_, _) = (_, _) |- _ => injection H; clear H; intros; subst
  | H : Ok _ = Ok _ |- _ => injection H; clear H; intros; subst
  | H : Err _ = Err _ |- _ => injection H; clear H; intros; subst
  | H : Some _ = Some _ |- _ => injection H; clear H; intros; subst
  | H : Ok _ = Err _ |- _ => discriminate H
  | H : Err _ = Ok _ |- _ => discriminate H
  | H : Some _ = None |- _ => discriminate H
  | H : None = Some _ |- _ => discriminate H
  end.

(** Splits the scrutinee of the innermost match of a hypothesis. *)
Ltac dmatch H :=
  match type of H with
  | context [match ?x with _ => _ end] =>
      lazymatch x with
      | context [match _ with _ => _ end] => fail
      | _ => let E := fresh "E" in destruct x eqn:E
      end
  end.

Ltac dgoal :=
  match goal with
  | |- context [match ?x with _ => _ end] =>
      lazymatch x with
      | context [match _ with _ => _ end] => fail
      | _ => let E := fresh "E" in destruct x eqn:E
      end
  end.

Create HintDb mm.
Create Rewrite HintDb zlen.

(** ** Lemmas on machine integers *)

Lemma two64_eq : two64 = 18446744073709551616.
Proof. reflexivity. Qed.
Lemma two63_eq : two63 = 9223372036854775808.
Proof. reflexivity. Qed.
Lemma two32_eq : two32 = 4294967296.
Proof. reflexivity. Qed.

(** Normalises the named powers of two, then [lia]. *)
Ltac ulia :=
  unfold u64_MAX, is_u64, saturating_sub in *;
  rewrite ?two64_eq, ?two63_eq, ?two32_eq in *; lia.

Lemma wrap64_small z : 0 <= z < two64 -> wrap64 z = z.
Proof. intros ?. unfold wrap64. apply Z.mod_small. ulia. Qed.

Lemma wrap64_range z : 0 <= wrap64 z < two64.
Proof. apply Z.mod_pos_bound. rewrite two64_eq. lia. Qed.

Lemma wrapping_sub_le a b : 0 <= b <= a -> a < two64 -> wrapping_sub a b = a - b.
Proof. intros. apply wrap64_small. ulia. Qed.

Lemma wrapping_sub_gt a b : 0 <= a < b -> b <= two64 -> wrapping_sub a b = a - b + two64.
Proof.
  intros. unfold wrapping_sub, wrap64. rewrite two64_eq in *.
  rewrite <- (Z_mod_plus_full _ 1). rewrite Z.mod_small; lia.
Qed.

Lemma land_lnot_ones n k : 0 <= k -> Z.land n (Z.lnot (Z.ones k)) = n - n mod 2 ^ k.
Proof.
  intros Hk. rewrite <- Z.ldiff_land, Z.ldiff_ones_r by lia.
  rewrite Z.shiftl_mul_pow2, Z.shiftr_div_pow2 by lia.
  pose proof (Z_div_mod_eq_full n (2 ^ k)). lia.
Qed.

Lemma align_up_pow2 k n :
  0 <= k -> align_up (2 ^ k) n = n + (2 ^ k - 1) - (n + (2 ^ k - 1)) mod 2 ^ k.
Proof.
  intros Hk. unfold align_up. change (2 ^ k - 1) with (2 ^ k + -1).
  replace (2 ^ k + -1) with (Z.ones k) by (rewrite Z.ones_equiv; lia).
  apply land_lnot_ones; lia.
Qed.

(** What the callers use: the result is the least multiple of the alignment at or above [n]. *)
Lemma align_up_spec k n :
  0 <= k ->
  n <= align_up (2 ^ k) n < n + 2 ^ k /\ align_up (2 ^ k) n mod 2 ^ k = 0.
Proof.
  intros Hk. rewrite align_up_pow2 by lia.
  assert (0 < 2 ^ k) by (apply Z.pow_pos_nonneg; lia).
  pose proof (Z.mod_pos_bound (n + (2 ^ k - 1)) (2 ^ k)).
  split; [lia|].
  rewrite Zminus_mod_idemp_r, Z.sub_diag. apply Z.mod_0_l. lia.
Qed.

(** Bit 63 of a [u64]: set, tested and cleared by the ring's seqlock. *)
Lemma land_two63_small t : 0 <= t < two63 -> Z.land t two63 = 0.
Proof.
  intros Ht. apply Z.bits_inj'. intros n Hn.
  rewrite Z.land_spec, Z.bits_0. unfold two63. rewrite Z.pow2_bits_eqb by lia.
  destruct (Z.eqb_spec 63 n) as [<-|]; [|by rewrite andb_false_r].
  rewrite andb_true_r. apply (Z.bits_above_log2 t 63); [lia|].
  destruct (Z.eq_dec t 0) as [->|]; [reflexivity|].
  apply Z.log2_lt_pow2; [lia|]. unfold two63 in Ht. lia.
Qed.

Lemma lor_two63_small t : 0 <= t < two63 -> Z.lor t two63 = t + two63.
Proof.
  intros Ht. pose proof (Z.add_lor_land t two63) as H.
  rewrite land_two63_small in H by done. lia.
Qed.

Lemma land_two63_flag t : 0 <= t < two63 -> Z.land (Z.lor t two63) two63 = two63.
Proof.
  intros Ht. rewrite Z.land_lor_distr_l, land_two63_small, Z.lor_0_l by done.
  apply Z.land_diag.
Qed.

(** [x & !(1 << 63)] on a [u64]. *)
Definition clear_bit63 (x : Z) : Z := Z.land x (u64_MAX - two63).

Lemma clear_bit63_mod x : 0 <= x -> clear_bit63 x = x mod two63.
Proof.
  intros. unfold clear_bit63. change (u64_MAX - two63) with (Z.ones 63).
  rewrite Z.land_ones by lia. done.
Qed.

Lemma clear_bit63_small t : 0 <= t < two63 -> clear_bit63 t = t.
Proof. intros. rewrite clear_bit63_mod by lia. apply Z.mod_small. lia. Qed.

Lemma clear_bit63_flag t : 0 <= t < two63 -> clear_bit63 (Z.lor t two63) = t.
Proof.
  intros. rewrite lor_two63_small, clear_bit63_mod by (rewrite ?two63_eq in *; lia).
  replace (t + two63) with (t + 1 * two63) by lia.
  rewrite Z_mod_plus_full. apply Z.mod_small. lia.
Qed.

(** ** Lemmas on bytes *)

Lemma byte_to_Z_range b : 0 <= byte_to_Z b < 256.
Proof.
  unfold byte_to_Z. pose proof (Byte.to_N_bounded b). lia.
Qed.

Lemma byte_to_of_Z z : byte_to_Z (byte_of_Z z) = z mod 256.
Proof.
  unfold byte_of_Z, byte_to_Z.
  pose proof (Z.mod_pos_bound z 256).
  destruct (Byte.of_N (Z.to_N (z mod 256))) eqn:E.
  - apply Byte.to_of_N in E. rewrite E. lia.
  - apply Byte.of_N_None_iff in E. lia.
Qed.

Lemma byte_of_to_Z b : byte_of_Z (byte_to_Z b) = b.
Proof.
  unfold byte_of_Z. rewrite Z.mod_small by apply byte_to_Z_range.
  unfold byte_to_Z. rewrite N2Z.id, Byte.of_to_N. done.
Qed.

Lemma to_le_length n z : length (to_le n z) = n.
Proof. revert z. induction n as [|n IH]; intros z; simpl; [done|]. by rewrite IH. Qed.

Lemma from_to_le n z : from_le (to_le n z) = z mod 2 ^ (8 * Z.of_nat n).
Proof.
  revert z. induction n as [|n IH]; intros z.
  { simpl. by rewrite Z.mod_1_r. }
  cbn [to_le from_le]. rewrite byte_to_of_Z, IH.
  replace (8 * Z.of_nat (S n)) with (8 + 8 * Z.of_nat n) by lia.
  rewrite Z.pow_add_r by lia. change (2 ^ 8) with 256.
  rewrite Z.rem_mul_r by (try apply Z.pow_pos_nonneg; lia). done.
Qed.

Lemma from_to_le_small n z :
  0 <= z < 2 ^ (8 * Z.of_nat n) -> from_le (to_le n z) = z.
Proof. intros. rewrite from_to_le. by apply Z.mod_small. Qed.

Lemma from_le_range bs : 0 <= from_le bs < 2 ^ (8 * zlen bs).
Proof.
  unfold zlen. induction bs as [|b bs IH]; [simpl; lia|].
  cbn [from_le length]. pose proof (byte_to_Z_range b).
  replace (8 * Z.of_nat (S (length bs))) with (8 + 8 * Z.of_nat (length bs)) by lia.
  rewrite Z.pow_add_r by lia. change (2 ^ 8) with 256. lia.
Qed.

Lemma to_from_le bs : to_le (length bs) (from_le bs) = bs.
Proof.
  induction bs as [|b bs IH]; [done|].
  cbn [from_le length to_le]. pose proof (byte_to_Z_range b). f_equal.
  - rewrite <- (byte_of_to_Z b) at 2. unfold byte_of_Z. do 3 f_equal.
    rewrite (Z.mul_comm 256), Z_mod_plus_full. done.
  - rewrite (Z.mul_comm 256), Z.div_add by lia.
    rewrite (Z.div_small (byte_to_Z b)) by lia. done.
Qed.

(** ** Lemmas on slices *)

Section slices.
Context {A : Type}.
Implicit Types l k : list A.

Lemma zlen_nonneg l : 0 <= zlen l.
Proof. unfold zlen. lia. Qed.
Lemma zlen_nil : zlen (@nil A) = 0.
Proof. done. Qed.
Lemma zlen_cons x l : zlen (x :: l) = 1 + zlen l.
Proof. unfold zlen. cbn [length]. lia. Qed.
Lemma zlen_app l k : zlen (l ++ k) = zlen l + zlen k.
Proof. unfold zlen. rewrite length_app. lia. Qed.
Lemma zlen_zrep n (x : A) : 0 <= n -> zlen (zrep n x) = n.
Proof. intros. unfold zlen, zrep. rewrite length_replicate. lia. Qed.
Lemma zlen_0 l : zlen l = 0 -> l = [].
Proof. destruct l; [done|]. rewrite zlen_cons. pose proof (zlen_nonneg l). lia. Qed.

Lemma zlen_pos l : l <> [] -> 0 < zlen l.
Proof. destruct l; [done|]. rewrite zlen_cons. pose proof (zlen_nonneg l). lia. Qed.

Lemma zlen_ztake n l : 0 <= n <= zlen l -> zlen (ztake n l) = n.
Proof. unfold zlen, ztake. intros. rewrite length_take. lia. Qed.
Lemma zlen_zdrop n l : 0 <= n <= zlen l -> zlen (zdrop n l) = zlen l - n.
Proof. unfold zlen, zdrop. intros. rewrite length_drop. lia. Qed.
Lemma zlen_zslice lo hi l :
  0 <= lo -> lo <= hi -> hi <= zlen l -> zlen (zslice lo hi l) = hi - lo.
Proof.
  intros. unfold zslice. rewrite zlen_ztake; [done|]. rewrite zlen_zdrop; lia.
Qed.
Lemma zlen_zsplice off bs l :
  0 <= off -> off + zlen bs <= zlen l -> zlen (zsplice off bs l) = zlen l.
Proof.
  intros. pose proof (zlen_nonneg bs). unfold zsplice.
  rewrite !zlen_app, zlen_ztake, zlen_zdrop by lia. lia.
Qed.

Lemma ztake_app_exact n l k : n = zlen l -> ztake n (l ++ k) = l.
Proof.
  intros ->. unfold ztake, zlen. rewrite Nat2Z.id. apply take_app_length.
Qed.
Lemma zdrop_app_exact n l k : n = zlen l -> zdrop n (l ++ k) = k.
Proof.
  intros ->. unfold zdrop, zlen. rewrite Nat2Z.id. apply drop_app_length.
Qed.
Lemma ztake_all n l : zlen l <= n -> ztake n l = l.
Proof. intros. unfold ztake. apply take_ge. unfold zlen in *. lia. Qed.
Lemma ztake_0 l : ztake 0 l = [].
Proof. done. Qed.
Lemma zdrop_0 l : zdrop 0 l = l.
Proof. done. Qed.
Lemma zdrop_all n l : zlen l <= n -> zdrop n l = [].
Proof. intros. unfold zdrop. apply drop_ge. unfold zlen in *. lia. Qed.
Lemma ztake_zdrop n l : ztake n l ++ zdrop n l = l.
Proof. apply take_drop. Qed.
Lemma zdrop_zdrop n m l : 0 <= n -> 0 <= m -> zdrop n (zdrop m l) = zdrop (m + n) l.
Proof. intros. unfold zdrop. rewrite drop_drop. f_equal. lia. Qed.
Lemma zdrop_app_ge n l k : zlen l <= n -> zdrop n (l ++ k) = zdrop (n - zlen l) k.
Proof.
  intros. unfold zdrop, zlen in *. rewrite drop_app_ge by lia. f_equal. lia.
Qed.
Lemma ztake_app_le n l k : n <= zlen l -> ztake n (l ++ k) = ztake n l.
Proof. intros. unfold ztake, zlen in *. apply take_app_le. lia. Qed.
Lemma zdrop_app_le n l k : n <= zlen l -> zdrop n (l ++ k) = zdrop n l ++ k.
Proof. intros. unfold zdrop, zlen in *. apply drop_app_le. lia. Qed.
Lemma ztake_app_ge n l k :
  zlen l <= n -> ztake n (l ++ k) = l ++ ztake (n - zlen l) k.
Proof.
  intros. unfold ztake, zlen in *. rewrite take_app_ge by lia. do 2 f_equal. lia.
Qed.

(** Reading a field that starts after a prefix of known length. *)
Lemma zslice_app_r lo hi l k :
  zlen l <= lo -> zslice lo hi (l ++ k) = zslice (lo - zlen l) (hi - zlen l) k.
Proof.
  intros. unfold zslice. rewrite zdrop_app_ge by done. f_equal. lia.
Qed.
Lemma zslice_app_l lo hi l k :
  0 <= lo -> lo <= hi -> hi <= zlen l -> zslice lo hi (l ++ k) = zslice lo hi l.
Proof.
  intros. unfold zslice. rewrite zdrop_app_le by lia.
  rewrite ztake_app_le; [done|]. rewrite zlen_zdrop; lia.
Qed.
Lemma zslice_exact hi l k : hi = zlen l -> zslice 0 hi (l ++ k) = l.
Proof. intros ->. unfold zslice. rewrite zdrop_0, Z.sub_0_r. by apply ztake_app_exact. Qed.
Lemma zslice_full hi l : hi = zlen l -> zslice 0 hi l = l.
Proof. intros. unfold zslice. rewrite zdrop_0. apply ztake_all. lia. Qed.
Lemma zslice_split mid lo hi l :
  0 <= lo -> lo <= mid -> mid <= hi -> zslice lo hi l = zslice lo mid l ++ zslice mid hi l.
Proof.
  intros. unfold zslice, ztake, zdrop.
  replace (Z.to_nat (hi - lo)) with (Z.to_nat (mid - lo) + Z.to_nat (hi - mid))%nat by lia.
  rewrite <- take_take_drop, drop_drop. do 3 f_equal. lia.
Qed.
Lemma ztake_nil n : ztake n (@nil A) = [].
Proof. unfold ztake. by rewrite take_nil. Qed.

(** Writing into the front of a part of a list. *)
Lemma zsplice_within off n d l : 0 <= off -> zlen d <= n -> off + n <= zlen l ->
  zsplice off (zsplice 0 d (zslice off (off + n) l)) l = zsplice off d l.
Proof.
  intros Ho Hd Hl. pose proof (zlen_nonneg d). unfold zsplice at 1. rewrite zlen_zsplice by (rewrite ?zlen_zslice; lia).
  rewrite zlen_zslice by lia. unfold zsplice. rewrite ztake_0, Z.add_0_l. cbn [app]. f_equal. rewrite <- app_assoc. f_equal.
  unfold zslice. replace (off + n - off) with n by lia. rewrite <- zdrop_app_le by (rewrite zlen_ztake; rewrite ?zlen_zdrop; lia).
  rewrite <- (zdrop_zdrop n off) by lia. by rewrite ztake_zdrop, zdrop_zdrop by lia.
Qed.

Lemma zsplice_nil off l : 0 <= off -> zsplice off [] l = l.
Proof. intros. unfold zsplice. rewrite zlen_nil, Z.add_0_r. apply ztake_zdrop. Qed.

(** Writing back what was read. *)
Lemma zsplice_own off n l : 0 <= off -> 0 <= n -> off + n <= zlen l -> zsplice off (zslice off (off + n) l) l = l.
Proof.
  intros Ho Hn Hl. rewrite <- (zsplice_nil 0 (zslice off (off + n) l)) by done. rewrite zsplice_within by (rewrite ?zlen_nil; done).
  by apply zsplice_nil.
Qed.

(** One write after the other. *)
Lemma zsplice_app off d d' l : 0 <= off -> off + zlen d + zlen d' <= zlen l ->
  zsplice (off + zlen d) d' (zsplice off d l) = zsplice off (d ++ d') l.
Proof.
  intros Ho Hl. pose proof (zlen_nonneg d). pose proof (zlen_nonneg d').
  unfold zsplice. rewrite (app_assoc (ztake off l) d), ztake_app_exact, zdrop_app_ge by (rewrite zlen_app, zlen_ztake; lia).
  rewrite zlen_app, zlen_ztake, zdrop_zdrop, zlen_app by lia. rewrite <- !app_assoc. do 4 f_equal. lia.
Qed.

Lemma ztake_zsplice off d l : 0 <= off <= zlen l -> ztake off (zsplice off d l) = ztake off l.
Proof. intros. unfold zsplice. by rewrite ztake_app_exact by (rewrite zlen_ztake; lia). Qed.

(** Reading after a write, where it was and elsewhere. *)
Lemma zslice_zsplice_eq off d l : 0 <= off -> off + zlen d <= zlen l -> zslice off (off + zlen d) (zsplice off d l) = d.
Proof.
  intros Ho Hl. pose proof (zlen_nonneg d). unfold zslice, zsplice. rewrite zdrop_app_exact by (rewrite zlen_ztake; lia).
  apply ztake_app_exact. lia.
Qed.

Lemma zslice_zsplice_ne lo hi off d l : 0 <= lo -> lo <= hi -> hi <= zlen l -> 0 <= off -> off + zlen d <= zlen l ->
  hi <= off \/ off + zlen d <= lo -> zslice lo hi (zsplice off d l) = zslice lo hi l.
Proof.
  intros H0 H1 H2 H3 H4 [Hc|Hc]; pose proof (zlen_nonneg d); unfold zsplice.
  - rewrite zslice_app_l by (rewrite ?zlen_ztake; lia). rewrite <- (ztake_zdrop off l) at 2. rewrite zslice_app_l; [done|lia|lia|]. rewrite zlen_ztake; lia.
  - rewrite app_assoc, zslice_app_r by (rewrite zlen_app, zlen_ztake; lia). rewrite zlen_app, zlen_ztake by lia.
    unfold zslice. rewrite zdrop_zdrop by lia. f_equal; [lia|]. f_equal. lia.
Qed.

Lemma zslice_zlen lo l : 0 <= lo -> lo <= zlen l -> zslice lo (zlen l) l = zdrop lo l.
Proof. intros. unfold zslice. apply ztake_all. rewrite zlen_zdrop; lia. Qed.
Lemma zslice_zslice a b lo hi l :
  0 <= lo -> 0 <= a -> b <= hi - lo -> zslice a b (zslice lo hi l) = zslice (lo + a) (lo + b) l.
Proof.
  intros. unfold zslice, ztake, zdrop. rewrite skipn_firstn_comm, take_take, drop_drop. f_equal; [lia|].
  f_equal. lia.
Qed.
Lemma ztake_zslice n lo hi l : 0 <= lo -> n <= hi - lo -> ztake n (zslice lo hi l) = zslice lo (lo + n) l.
Proof.
  intros. unfold zslice, ztake, zdrop. rewrite take_take. f_equal. lia.
Qed.
End slices.

Lemma to_from_le_zlen n bs : zlen bs = Z.of_nat n -> to_le n (from_le bs) = bs.
Proof. unfold zlen. intros E. apply Nat2Z.inj in E. subst n. apply to_from_le. Qed.

Lemma zlen_to_le n z : zlen (to_le n z) = Z.of_nat n.
Proof. unfold zlen. by rewrite to_le_length. Qed.

#[export] Hint Rewrite @zlen_nil @zlen_cons @zlen_app zlen_to_le : zlen.
#[export] Hint Resolve zlen_nonneg from_le_range byte_to_Z_range : mm.

(** Decides lengths of concatenations of fields. *)
Ltac zlen_lia :=
  autorewrite with zlen in *;
  repeat match goal with
  | |- context [zlen ?l] =>
      lazymatch goal with H : 0 <= zlen l |- _ => fail | _ => pose proof (zlen_nonneg l) end
  | H : context [zlen ?l] |- _ =>
      lazymatch goal with H' : 0 <= zlen l |- _ => fail | _ => pose proof (zlen_nonneg l) end
  end; simpl Z.of_nat in *; lia.

Lemma zlen_map {A B} (f : A -> B) l : zlen (map f l) = zlen l.
Proof. unfold zlen. by rewrite length_map. Qed.

Lemma destruct_list_end {A} (l : list A) : l = [] \/ exists l' x, l = l' ++ [x].
Proof. destruct l as [|x l _] using rev_ind; eauto. Qed.

#[global] Instance Ok_inj {E A} : Inj (=) (=) (@Ok E A).
Proof. by intros x y [= ->]. Qed.
