(* ===== verification/OrdMap.v ===== *)
(** * Ordered maps keyed by a [u64]

    The source keeps its segment index in a [std::collections::BTreeMap<u64, _>].  The standard
    library's map is modelled here by a list of bindings in strictly increasing key order; the
    operations are those the source calls: [insert], [remove], [get], [keys().next()],
    [iter().next_back()], [range(..=k).next_back()], [range(k..)] and [len]. *)

From Stdlib Require Import ZArith Lia.
From stdpp Require Import base option sorting gmap list.
From S2P Require Import Prelude.

Section ordmap.
Context {V : Type}.

Definition omap : Type := list (Z * V).

Definition om_keys (m : omap) : list Z := map fst m.
Definition om_values (m : omap) : list V := map snd m.

Fixpoint om_lookup (k : Z) (m : omap) : option V :=
  match m with
  | [] => None
  | (k', v) :: m' => if k =? k' then Some v else om_lookup k m'
  end.

(** [BTreeMap::insert]: replaces the value of a key that is present. *)
Fixpoint om_insert (k : Z) (v : V) (m : omap) : omap :=
  match m with
  | [] => [(k, v)]
  | (k', v') :: m' =>
      if k <? k' then (k, v) :: (k', v') :: m'
      else if k =? k' then (k, v) :: m'
      else (k', v') :: om_insert k v m'
  end.

Fixpoint om_remove (k : Z) (m : omap) : omap :=
  match m with
  | [] => []
  | (k', v') :: m' => if k =? k' then m' else (k', v') :: om_remove k m'
  end.

(** [keys().next()] *)
Definition om_first (m : omap) : option Z :=
  match m with [] => None | (k, _) :: _ => Some k end.

(** [iter().next_back()] *)
Definition om_last (m : omap) : option (Z * V) := last m.

(** [range(..=c).next_back().map(|(&k, _)| k)] *)
Definition om_floor (c : Z) (m : omap) : option Z :=
  last (List.filter (fun k => k <=? c) (om_keys m)).

(** [range(c..)] *)
Definition om_from (c : Z) (m : omap) : omap := List.filter (fun kv => c <=? fst kv) m.

Definition om_sorted (m : omap) : Prop := StronglySorted Z.lt (om_keys m).

(** ** Order and membership *)

Lemma om_keys_insert k v m x :
  x ∈ om_keys (om_insert k v m) <-> x = k \/ x ∈ om_keys m.
Proof.
  induction m as [|[k' v'] m IH]; cbn [om_insert om_keys map fst].
  { rewrite list_elem_of_singleton. set_solver. }
  destruct (Z.ltb_spec k k'); [cbn; set_solver|].
  destruct (Z.eqb_spec k k'); [subst; cbn; set_solver|].
  cbn. unfold om_keys in IH. set_solver.
Qed.

Lemma om_keys_remove_subset k m x : x ∈ om_keys (om_remove k m) -> x ∈ om_keys m.
Proof.
  induction m as [|[k' v'] m IH]; cbn; [done|].
  destruct (Z.eqb_spec k k'); cbn; set_solver.
Qed.

Lemma om_sorted_cons k v m :
  om_sorted ((k, v) :: m) <-> om_sorted m /\ Forall (Z.lt k) (om_keys m).
Proof.
  unfold om_sorted. cbn. split.
  - intros H. apply StronglySorted_inv in H. done.
  - intros [? ?]. by constructor.
Qed.

Lemma om_sorted_nil : om_sorted [].
Proof. constructor. Qed.

Lemma om_insert_sorted k v m : om_sorted m -> om_sorted (om_insert k v m).
Proof.
  induction m as [|[k' v'] m IH]; cbn [om_insert].
  { intros. apply om_sorted_cons. split; [constructor|by constructor]. }
  intros [Hm Hk]%om_sorted_cons.
  destruct (Z.ltb_spec k k').
  { apply om_sorted_cons. split; [by apply om_sorted_cons|].
    cbn. constructor; [done|]. eapply Forall_impl; [done|]. simpl. lia. }
  destruct (Z.eqb_spec k k'); [subst; by apply om_sorted_cons|].
  apply om_sorted_cons. split; [by apply IH|].
  apply Forall_forall. intros x [->|Hx]%om_keys_insert; [lia|].
  rewrite Forall_forall in Hk. by apply Hk.
Qed.

Lemma om_remove_sorted k m : om_sorted m -> om_sorted (om_remove k m).
Proof.
  induction m as [|[k' v'] m IH]; cbn [om_remove]; [done|].
  intros [Hm Hk]%om_sorted_cons. destruct (Z.eqb_spec k k'); [done|].
  apply om_sorted_cons. split; [by apply IH|].
  apply Forall_forall. intros x Hx%om_keys_remove_subset.
  rewrite Forall_forall in Hk. by apply Hk.
Qed.

(** ** Lookup *)

Lemma om_lookup_insert k v m : om_lookup k (om_insert k v m) = Some v.
Proof.
  induction m as [|[k' v'] m IH]; cbn [om_insert om_lookup].
  { by rewrite Z.eqb_refl. }
  destruct (Z.ltb_spec k k'); cbn [om_lookup]; [by rewrite Z.eqb_refl|].
  destruct (Z.eqb_spec k k'); cbn [om_lookup]; [by rewrite Z.eqb_refl|].
  destruct (Z.eqb_spec k k'); done.
Qed.

Lemma om_lookup_insert_ne k k2 v m :
  k <> k2 -> om_lookup k2 (om_insert k v m) = om_lookup k2 m.
Proof.
  intros Hne. induction m as [|[k' v'] m IH]; cbn [om_insert om_lookup].
  { destruct (Z.eqb_spec k2 k); [lia|done]. }
  destruct (Z.ltb_spec k k'); cbn [om_lookup].
  { destruct (Z.eqb_spec k2 k); [lia|done]. }
  destruct (Z.eqb_spec k k'); cbn [om_lookup].
  { subst. destruct (Z.eqb_spec k2 k'); [lia|done]. }
  by rewrite IH.
Qed.

Lemma om_lookup_not_in k m : k ∉ om_keys m -> om_lookup k m = None.
Proof.
  induction m as [|[k' v'] m IH]; cbn; [done|]. intros Hn.
  destruct (Z.eqb_spec k k'); set_solver.
Qed.

Lemma om_lookup_in k m v : om_lookup k m = Some v -> (k, v) ∈ m.
Proof.
  induction m as [|[k' v'] m IH]; cbn; [done|].
  destruct (Z.eqb_spec k k'); intros ?; simplify_eq; set_solver.
Qed.

Lemma om_in_lookup k v m : om_sorted m -> (k, v) ∈ m -> om_lookup k m = Some v.
Proof.
  induction m as [|[k' v'] m IH]; intros Hs Hin; [by apply not_elem_of_nil in Hin|]. cbn.
  apply StronglySorted_inv in Hs as [Hs Hk]. apply elem_of_cons in Hin as [[= -> ->]|Hin]; [by rewrite Z.eqb_refl|].
  destruct (Z.eqb_spec k k') as [->|]; [|by apply IH].
  rewrite Forall_forall in Hk. assert (Hin' : k' ∈ om_keys m) by (apply list_elem_of_fmap; by exists (k', v)).
  specialize (Hk _ Hin'). cbn in Hk. lia.
Qed.

Lemma om_insert_insert k v v' m : om_insert k v (om_insert k v' m) = om_insert k v m.
Proof.
  induction m as [|[k2 v2] m IH]; cbn.
  - by rewrite Z.ltb_irrefl, Z.eqb_refl.
  - destruct (k <? k2) eqn:E1; cbn; [by rewrite Z.ltb_irrefl, Z.eqb_refl|].
    destruct (k =? k2) eqn:E2; cbn; [by rewrite Z.ltb_irrefl, Z.eqb_refl|]. by rewrite E1, E2, IH.
Qed.

Lemma om_lookup_remove k m : om_sorted m -> om_lookup k (om_remove k m) = None.
Proof.
  induction m as [|[k' v'] m IH]; cbn [om_remove om_lookup]; [done|].
  intros [Hm Hk]%om_sorted_cons. destruct (Z.eqb_spec k k').
  - subst. apply om_lookup_not_in. intros Hin. rewrite Forall_forall in Hk.
    specialize (Hk _ Hin). lia.
  - cbn [om_lookup]. destruct (Z.eqb_spec k k'); [lia|by apply IH].
Qed.

Lemma om_lookup_remove_ne k k2 m : k <> k2 -> om_lookup k2 (om_remove k m) = om_lookup k2 m.
Proof.
  intros Hne. induction m as [|[k' v'] m IH]; cbn [om_remove om_lookup]; [done|].
  destruct (Z.eqb_spec k k'); cbn [om_lookup].
  - subst. destruct (Z.eqb_spec k2 k'); [lia|done].
  - by rewrite IH.
Qed.

(** Removing a key that is present shortens the map: the measure of the retention loop. *)
Lemma om_remove_length k m :
  k ∈ om_keys m -> length (om_remove k m) = (length m - 1)%nat.
Proof.
  induction m as [|[k' v'] m IH]; cbn [om_remove om_keys map fst].
  { intros H; inversion H. }
  intros Hin. destruct (Z.eqb_spec k k'); cbn [length]; [lia|].
  rewrite IH by (unfold om_keys; set_solver).
  assert (length m <> 0)%nat; [|lia].
  intros ?%nil_length_inv. subst. set_solver.
Qed.

(** ** First, last, floor and suffix *)

Lemma om_first_min m k k2 : om_sorted m -> om_first m = Some k -> k2 ∈ om_keys m -> k <= k2.
Proof.
  destruct m as [|[k' v'] m]; cbn [om_first]; [done|]. intros [Hm Hk]%om_sorted_cons ? Hin.
  simplify_eq. cbn in Hin. apply elem_of_cons in Hin as [->|Hin]; [lia|].
  rewrite Forall_forall in Hk. specialize (Hk _ Hin). lia.
Qed.

Lemma om_insert_last k v m :
  Forall (fun k' => k' < k) (om_keys m) -> om_insert k v m = m ++ [(k, v)].
Proof.
  induction m as [|[k' v'] m IH]; cbn [om_insert om_keys map fst app]; [done|].
  intros Hall. apply Forall_cons in Hall as [Hk Hm]. cbn in Hk.
  destruct (Z.ltb_spec k k'); [lia|]. destruct (Z.eqb_spec k k'); [lia|].
  f_equal. by apply IH.
Qed.

Lemma om_from_app c m1 m2 : om_from c (m1 ++ m2) = om_from c m1 ++ om_from c m2.
Proof. apply List.filter_app. Qed.

Lemma om_from_all c m : Forall (fun k => c <= k) (om_keys m) -> om_from c m = m.
Proof.
  induction m as [|[k v] m IH]; cbn; [done|]. intros Hall. apply Forall_cons in Hall as [Hk Hm].
  cbn in Hk. destruct (Z.leb_spec c k); [|lia]. f_equal. by apply IH.
Qed.

Lemma om_from_none c m : Forall (fun k => k < c) (om_keys m) -> om_from c m = [].
Proof.
  induction m as [|[k v] m IH]; cbn; [done|]. intros Hall. apply Forall_cons in Hall as [Hk Hm].
  cbn in Hk. destruct (Z.leb_spec c k); [lia|]. by apply IH.
Qed.

(** [range(..=c).next_back()] of a map split at its greatest key that is at most [c]. *)
Lemma om_floor_split c k v m1 m2 :
  k <= c -> Forall (fun k' => c < k') (om_keys m2) ->
  om_floor c (m1 ++ (k, v) :: m2) = Some k.
Proof.
  intros Hk Hm2. unfold om_floor, om_keys. rewrite map_app. cbn.
  rewrite List.filter_app. cbn. destruct (Z.leb_spec k c); [|lia].
  replace (List.filter (fun k0 => k0 <=? c) (map fst m2)) with (@nil Z); [apply last_snoc|].
  unfold om_keys in Hm2. induction m2 as [|[k2 v2] m2 IH]; [done|].
  cbn in *. apply Forall_cons in Hm2 as [? ?]. destruct (Z.leb_spec k2 c); [lia|]. by apply IH.
Qed.

Lemma om_floor_le c m k : om_floor c m = Some k -> k <= c /\ k ∈ om_keys m.
Proof.
  unfold om_floor. intros H. apply last_Some_elem_of in H.
  apply list_elem_of_In, List.filter_In in H as [Hin Hle].
  apply Z.leb_le in Hle. split; [done|]. by apply list_elem_of_In.
Qed.
End ordmap.

Arguments omap V : clear implicits.

#[export] Hint Resolve om_insert_sorted om_remove_sorted om_sorted_nil : mm.
#[export] Hint Rewrite @om_lookup_insert : mm.
