(* ===== verification/Ring.v ===== *)
(** * The SPMC ring buffer ([crates/mmbus/src/ring.rs])

    The memory-mapped ring: its on-disk layout, its state as a record, and every operation of
    [RingBuffer], each as one function on that state (the atomic accesses of one call run without
    interruption here; [Seqlock.v] interleaves them).  The refinement target is a broadcast log:
    [ring_repr base log r] says the ring holds the last [capacity] messages of [log]. *)

From Stdlib Require Import ZArith Lia.
From stdpp Require Import base option gmap list.
From S2P Require Import Prelude.

(** ** Constants and layout *)

Definition MAGIC : Z := 0x6D6D627573000005.
Definition CURSOR_UNCLAIMED : Z := u64_MAX.
Definition WAKEFLAG_WAITING : Z := 1.
Definition SEQ_WRITING_BIT : Z := two63.

Definition OFF_MAGIC : Z := 0.
Definition OFF_VERSION : Z := 8.
Definition OFF_CAPACITY : Z := 12.
Definition OFF_SLOT_SIZE : Z := 16.
Definition OFF_MAX_SUBS : Z := 20.
Definition OFF_GENERATION : Z := 24.
Definition OFF_TAIL : Z := 32.
Definition OFF_CURSORS : Z := 64.

Definition wakeflags_offset (max_subscribers : Z) : Z := OFF_CURSORS + 8 * max_subscribers.

Definition slots_offset (max_subscribers : Z) : Z :=
  align_up 64 (wakeflags_offset max_subscribers + 8 * max_subscribers).

Definition SLOT_OVERHEAD : Z := 8 + 4.
Definition SLOT_ALIGN : Z := 8.

Definition slot_stride (slot_payload_size : Z) : Z :=
  align_up SLOT_ALIGN (SLOT_OVERHEAD + slot_payload_size).

Definition mmap_size (capacity slot_payload_size max_subscribers : Z) : Z :=
  slots_offset max_subscribers + slot_stride slot_payload_size * capacity.

(** ** State *)

(** One slot: [u64 seq], [u32 len], payload area of [slot_payload_size] bytes. *)
Record slot := Slot { seq : Z; slen : Z; sdata : list byte }.

Record ring := Ring {
  capacity : Z;
  slot_payload_size : Z;
  max_subscribers : Z;
  generation : Z;
  tail : Z;
  cursors : list Z;
  wakeflags : list Z;
  slots : list slot
}.

(** The file at [ring.mmap], as [open] distinguishes it. *)
Inductive ring_file :=
  | NoRingFile
  | BadMagic (magic : Z)
  | RingFile (r : ring).

Inductive ring_error :=
  | NotFound
  | InvalidData (magic : Z).

Definition with_generation (g : Z) (r : ring) : ring :=
  Ring (capacity r) (slot_payload_size r) (max_subscribers r) g (tail r)
       (cursors r) (wakeflags r) (slots r).
Definition with_tail (t : Z) (r : ring) : ring :=
  Ring (capacity r) (slot_payload_size r) (max_subscribers r) (generation r) t
       (cursors r) (wakeflags r) (slots r).
Definition with_cursors (cs : list Z) (r : ring) : ring :=
  Ring (capacity r) (slot_payload_size r) (max_subscribers r) (generation r) (tail r)
       cs (wakeflags r) (slots r).
Definition with_wakeflags (fs : list Z) (r : ring) : ring :=
  Ring (capacity r) (slot_payload_size r) (max_subscribers r) (generation r) (tail r)
       (cursors r) fs (slots r).
Definition with_slots (ss : list slot) (r : ring) : ring :=
  Ring (capacity r) (slot_payload_size r) (max_subscribers r) (generation r) (tail r)
       (cursors r) (wakeflags r) ss.

Definition no_slot : slot := Slot 0 0 [].

(** The slot at index [idx]; the callers reduce [idx] modulo [capacity]. *)
Definition slot_at (r : ring) (idx : Z) : slot := default no_slot (slots r !! Z.to_nat idx).

Definition upd_slot (idx : Z) (f : slot -> slot) (r : ring) : ring :=
  with_slots (alter f (Z.to_nat idx) (slots r)) r.

Definition set_seq (v : Z) (s : slot) : slot := Slot v (slen s) (sdata s).
Definition set_len (v : Z) (s : slot) : slot := Slot (seq s) v (sdata s).
(** [copy_nonoverlapping(bs, slot + 12 + off, bs.len())] *)
Definition set_bytes (off : Z) (bs : list byte) (s : slot) : slot :=
  Slot (seq s) (slen s) (zsplice off bs (sdata s)).

(** ** Creating and opening *)

Definition create (capacity slot_payload_size max_subscribers : Z) : ring :=
  Ring capacity slot_payload_size max_subscribers 1 0
       (zrep max_subscribers CURSOR_UNCLAIMED) (zrep max_subscribers 0)
       (zrep capacity (Slot 0 0 (zrep slot_payload_size Byte.x00))).

Definition open (f : ring_file) : result ring_error ring :=
  match f with
  | NoRingFile => Err NotFound
  | BadMagic m => Err (InvalidData m)
  | RingFile r => Ok r
  end.

Definition create_or_reuse (f : ring_file) (cap sps subs : Z) : ring :=
  match open f with
  | Ok existing =>
      if (capacity existing =? cap) && (slot_payload_size existing =? sps)
         && (max_subscribers existing =? subs)
      then with_tail 0 (with_generation (wrap64 (generation existing + 1)) existing)
      else create cap sps subs
  | Err _ => create cap sps subs
  end.

(** ** Wakeup flags *)

Definition wakeflag (r : ring) (idx : nat) : Z := default 0 (wakeflags r !! idx).

Definition set_wakeflag (idx : nat) (r : ring) : ring :=
  with_wakeflags (<[idx := WAKEFLAG_WAITING]> (wakeflags r)) r.

Definition clear_wakeflag (idx : nat) (r : ring) : ring :=
  with_wakeflags (<[idx := 0]> (wakeflags r)) r.

(** [swap(0) == WAKEFLAG_WAITING] *)
Definition take_wakeflag (idx : nat) (r : ring) : ring * bool :=
  (clear_wakeflag idx r, wakeflag r idx =? WAKEFLAG_WAITING).

(** ** Subscriber cursors *)

Definition cursor_at (r : ring) (idx : nat) : Z := default CURSOR_UNCLAIMED (cursors r !! idx).

Definition cursor_is_unclaimed (r : ring) (idx : nat) : bool :=
  cursor_at r idx =? CURSOR_UNCLAIMED.

Definition set_cursor (idx : nat) (value : Z) (r : ring) : ring :=
  with_cursors (<[idx := value]> (cursors r)) r.

Definition release_cursor (idx : nat) (r : ring) : ring := set_cursor idx CURSOR_UNCLAIMED r.

(** The index of the first free entry of a cursor table. *)
Fixpoint find_unclaimed (cs : list Z) : option nat :=
  match cs with
  | [] => None
  | c :: cs' => if c =? CURSOR_UNCLAIMED then Some O else S <$> find_unclaimed cs'
  end.

Definition claim_cursor (initial_cursor : Z) (r : ring) : ring * option nat :=
  match find_unclaimed (cursors r) with
  | Some i => (clear_wakeflag i (set_cursor i initial_cursor r), Some i)
  | None => (r, None)
  end.

(** ** Publisher side *)

Fixpoint min_active (cs : list Z) : option Z :=
  match cs with
  | [] => None
  | c :: cs' =>
      if c =? CURSOR_UNCLAIMED then min_active cs'
      else Some (match min_active cs' with Some m => Z.min c m | None => c end)
  end.

Definition min_active_cursor (r : ring) : option Z := min_active (cursors r).

Definition is_full (r : ring) : bool :=
  let t := tail r in
  let effective_min := default t (min_active_cursor r) in
  capacity r <=? wrapping_sub t effective_min.

Definition slot_index (r : ring) (position : Z) : Z := position mod capacity r.

Definition write_slot (t : Z) (data : list byte) (r : ring) : ring :=
  let idx := slot_index r t in
  let r := upd_slot idx (set_seq (Z.lor t SEQ_WRITING_BIT)) r in
  let r := upd_slot idx (set_len (zlen data)) r in
  let r := upd_slot idx (set_bytes 0 data) r in
  upd_slot idx (set_seq t) r.

(** [None] is the panic of the [assert!] on the payload length. *)
Definition try_publish (data : list byte) (r : ring) : option (ring * bool) :=
  if zlen data <=? slot_payload_size r then
    let t := tail r in
    let effective_min := default t (min_active_cursor r) in
    if capacity r <=? wrapping_sub t effective_min then Some (r, false)
    else Some (with_tail (wrap64 (t + 1)) (write_slot t data r), true)
  else None.

Definition publish_drop_oldest (data : list byte) (r : ring) : ring * bool :=
  let t := tail r in
  (with_tail (wrap64 (t + 1)) (write_slot t data r), true).

Definition current_tail (r : ring) : Z := tail r.
Definition set_tail (value : Z) (r : ring) : ring := with_tail value r.

(** ** Subscriber side *)

Definition MAX_RETRIES : nat := 16.

(** The retry loop of [try_receive]: [out] is the caller's buffer, kept on every exit. *)
Fixpoint receive_loop (retries : nat) (cursor_idx : nat) (effective : Z)
    (out : list byte) (r : ring) : ring * list byte * option Z :=
  match retries with
  | O => (r, out, None)
  | S retries =>
      let s := slot_at r (slot_index r effective) in
      let seq_before := seq s in
      if negb (Z.land seq_before SEQ_WRITING_BIT =? 0)
      then receive_loop retries cursor_idx effective out r
      else if effective <? seq_before
      then receive_loop retries cursor_idx seq_before out r
      else if seq_before <? effective then (r, out, None)
      else
        let len := slen s in
        if slot_payload_size r <? len
        then receive_loop retries cursor_idx effective out r
        else
          let out := ztake len (sdata s) in
          let seq_after := seq s in
          if negb (seq_after =? seq_before) then
            let clean := clear_bit63 seq_after in
            receive_loop retries cursor_idx (if effective <? clean then clean else effective) out r
          else
            let new_cursor := wrap64 (effective + 1) in
            (set_cursor cursor_idx new_cursor r, out, Some new_cursor)
  end.

Definition try_receive (cursor_idx : nat) (local_cursor : Z) (out : list byte) (r : ring) :
    ring * list byte * option Z :=
  if tail r <=? local_cursor then (r, out, None)
  else receive_loop MAX_RETRIES cursor_idx local_cursor out r.

(** The slice variant writes into a fixed buffer [out] and reports the bytes written;
    [SliceOversize] is the [usize::MAX] sentinel. *)
Inductive slice_len := SliceLen (n : Z) | SliceOversize.

Fixpoint receive_slice_loop (retries : nat) (cursor_idx : nat) (effective : Z)
    (out : list byte) (r : ring) : ring * list byte * option (Z * slice_len) :=
  match retries with
  | O => (r, out, None)
  | S retries =>
      let s := slot_at r (slot_index r effective) in
      let seq_before := seq s in
      if negb (Z.land seq_before SEQ_WRITING_BIT =? 0)
      then receive_slice_loop retries cursor_idx effective out r
      else if effective <? seq_before
      then receive_slice_loop retries cursor_idx seq_before out r
      else if seq_before <? effective then (r, out, None)
      else
        let len := slen s in
        if slot_payload_size r <? len
        then receive_slice_loop retries cursor_idx effective out r
        else if zlen out <? len then
          let new_cursor := wrap64 (effective + 1) in
          (set_cursor cursor_idx new_cursor r, out, Some (new_cursor, SliceOversize))
        else
          let out := zsplice 0 (ztake len (sdata s)) out in
          let seq_after := seq s in
          if negb (seq_after =? seq_before) then
            let clean := clear_bit63 seq_after in
            receive_slice_loop retries cursor_idx
              (if effective <? clean then clean else effective) out r
          else
            let new_cursor := wrap64 (effective + 1) in
            (set_cursor cursor_idx new_cursor r, out, Some (new_cursor, SliceLen len))
  end.

Definition try_receive_into_slice (cursor_idx : nat) (local_cursor : Z) (out : list byte)
    (r : ring) : ring * list byte * option (Z * slice_len) :=
  if tail r <=? local_cursor then (r, out, None)
  else receive_slice_loop MAX_RETRIES cursor_idx local_cursor out r.

(** ** Monitoring *)

Fixpoint lags_from (i : nat) (t : Z) (cs : list Z) : list (nat * Z) :=
  match cs with
  | [] => []
  | c :: cs' =>
      if c =? CURSOR_UNCLAIMED then lags_from (S i) t cs'
      else (i, saturating_sub t c) :: lags_from (S i) t cs'
  end.

Definition lags_with_idx (r : ring) : list (nat * Z) := lags_from 0 (tail r) (cursors r).

Record ring_stats := RingStats {
  st_tail : Z;
  active_subscribers : Z;
  lags : list Z
}.

Definition stats (r : ring) : ring_stats :=
  let t := tail r in
  let ls := omap (fun c => if c =? CURSOR_UNCLAIMED then None else Some (saturating_sub t c))
                 (cursors r) in
  RingStats t (zlen ls) ls.

(** ** Well-formedness, and the log a ring represents *)

Definition slot_wf (sps : Z) (s : slot) : Prop :=
  is_u64 (seq s) /\ 0 <= slen s <= sps /\ zlen (sdata s) = sps.

Record ring_wf (r : ring) : Prop := {
  wf_capacity : 0 < capacity r < two32;
  wf_slot_size : 0 <= slot_payload_size r < two32;
  wf_max_subs : 0 <= max_subscribers r < two32;
  wf_cursors_len : zlen (cursors r) = max_subscribers r;
  wf_wakeflags_len : zlen (wakeflags r) = max_subscribers r;
  wf_slots_len : zlen (slots r) = capacity r;
  wf_cursors : Forall is_u64 (cursors r);
  wf_slots : Forall (slot_wf (slot_payload_size r)) (slots r);
  wf_tail : is_u64 (tail r);
  wf_generation : is_u64 (generation r)
}.

Definition file_wf (f : ring_file) : Prop := match f with RingFile r => ring_wf r | _ => True end.

(** Slot [p mod capacity] carries the message published at position [p]. *)
Definition slot_holds (r : ring) (p : Z) (data : list byte) : Prop :=
  let s := slot_at r (slot_index r p) in
  seq s = p /\ slen s = zlen data /\ ztake (zlen data) (sdata s) = data
  /\ zlen data <= slot_payload_size r.

(** The message at position [p] of a log whose first position is [base]. *)
Definition log_at (base : Z) (log : list (list byte)) (p : Z) : option (list byte) :=
  if p <? base then None else log !! Z.to_nat (p - base).

Record ring_repr (base : Z) (log : list (list byte)) (r : ring) : Prop := {
  repr_wf : ring_wf r;
  repr_base : 0 <= base;
  repr_tail : tail r = base + zlen log;
  repr_bound : tail r < two63;
  repr_slots : forall p, base <= p -> tail r - capacity r <= p -> p < tail r ->
    exists data, log_at base log p = Some data /\ slot_holds r p data
}.

(** The newest position below the tail that shares a slot with [c]. *)
Definition newest_pos (r : ring) (c : Z) : Z :=
  tail r - 1 - (tail r - 1 - c) mod capacity r.

(** The single-publisher invariant of the module header: no claimed cursor lags by more than
    [capacity], so no unread message has been overwritten. *)
Definition lags_bounded (r : ring) : Prop :=
  Forall (fun c => c = CURSOR_UNCLAIMED \/ (c <= tail r /\ tail r - c <= capacity r)) (cursors r).

(** ** Layout *)

Lemma slots_offset_spec subs :
  0 <= subs ->
  wakeflags_offset subs + 8 * subs <= slots_offset subs < wakeflags_offset subs + 8 * subs + 64
  /\ slots_offset subs mod 64 = 0.
Proof.
  intros. unfold slots_offset. change 64 with (2 ^ 6).
  apply (align_up_spec 6 (wakeflags_offset subs + 8 * subs)). lia.
Qed.

Lemma slot_stride_spec sps :
  12 + sps <= slot_stride sps < 12 + sps + 8 /\ slot_stride sps mod 8 = 0.
Proof.
  unfold slot_stride, SLOT_ALIGN, SLOT_OVERHEAD. change 8 with (2 ^ 3) at 1 3 5 7.
  replace (2 ^ 3 + 4 + sps) with (12 + sps) by (change (2^3) with 8; lia).
  apply (align_up_spec 3 (12 + sps)). lia.
Qed.

(** Every field the unsafe code dereferences lies inside the mapping, the tables and the slots
    are disjoint and in order, and every [AtomicU64] is 8-byte aligned. *)
Theorem layout_in_bounds cap sps subs i :
  0 <= subs -> 0 <= sps -> 0 <= i ->
  (i < subs ->
     OFF_TAIL + 8 <= OFF_CURSORS + 8 * i
     /\ OFF_CURSORS + 8 * i + 8 <= wakeflags_offset subs
     /\ wakeflags_offset subs <= wakeflags_offset subs + 8 * i
     /\ wakeflags_offset subs + 8 * i + 8 <= slots_offset subs
     /\ (OFF_CURSORS + 8 * i) mod 8 = 0 /\ (wakeflags_offset subs + 8 * i) mod 8 = 0)
  /\ (i < cap ->
     slots_offset subs + i * slot_stride sps + SLOT_OVERHEAD + sps
       <= slots_offset subs + (i + 1) * slot_stride sps
     /\ slots_offset subs + (i + 1) * slot_stride sps <= mmap_size cap sps subs
     /\ (slots_offset subs + i * slot_stride sps) mod 8 = 0).
Proof.
  intros Hs Hp Hi.
  pose proof (slots_offset_spec subs Hs) as [Hoff Hal].
  pose proof (slot_stride_spec sps) as [Hst Hst8].
  unfold wakeflags_offset, OFF_CURSORS, OFF_TAIL, SLOT_OVERHEAD, mmap_size in *.
  split; intros Hlt.
  - repeat split; try lia.
    + replace (64 + 8 * i) with ((8 + i) * 8) by lia. apply Z_mod_mult.
    + replace (64 + 8 * subs + 8 * i) with ((8 + subs + i) * 8) by lia. apply Z_mod_mult.
  - repeat split; [lia | nia |].
    apply Z.mod_divide in Hal as [a Ha]; [|lia]. apply Z.mod_divide in Hst8 as [b Hb]; [|lia].
    rewrite Ha, Hb. replace (a * 64 + i * (b * 8)) with ((a * 8 + i * b) * 8) by lia.
    apply Z_mod_mult.
Qed.

(** [mmap_size] does not overflow a 64-bit [usize] for any [u32] shape whose payload size is at
    most [u32::MAX - 63]. *)
Theorem mmap_size_no_overflow cap sps subs :
  0 <= cap < two32 -> 0 <= subs < two32 -> 0 <= sps <= two32 - 64 ->
  0 <= mmap_size cap sps subs < two64.
Proof.
  intros Hc Hs Hp. pose proof (slots_offset_spec subs ltac:(lia)) as [Hoff _].
  pose proof (slot_stride_spec sps) as [Hst _].
  unfold mmap_size, wakeflags_offset, OFF_CURSORS in *. rewrite two32_eq, two64_eq in *. nia.
Qed.

(** ** Slot updates *)

Lemma slot_at_upd r idx f j :
  0 <= idx -> 0 <= j -> idx < zlen (slots r) ->
  slot_at (upd_slot idx f r) j = if decide (idx = j) then f (slot_at r j) else slot_at r j.
Proof.
  intros Hi Hj Hlt. unfold slot_at, upd_slot, with_slots. cbn [slots].
  case_decide as Heq.
  - subst. rewrite list_lookup_alter_eq.
    destruct (slots r !! Z.to_nat j) eqn:E; [done|].
    apply lookup_ge_None in E. unfold zlen in Hlt. lia.
  - rewrite list_lookup_alter_ne; [done|]. lia.
Qed.

Lemma upd_slot_fuse idx f g r : upd_slot idx f (upd_slot idx g r) = upd_slot idx (fun s => f (g s)) r.
Proof.
  unfold upd_slot, with_slots. cbn [capacity slot_payload_size max_subscribers generation tail
    cursors wakeflags slots]. f_equal. rewrite list_alter_alter_eq. done.
Qed.

Lemma write_slot_eq t data r :
  write_slot t data r =
  upd_slot (slot_index r t) (fun s => Slot t (zlen data) (zsplice 0 data (sdata s))) r.
Proof.
  unfold write_slot.
  change (slot_index _ t) with (slot_index r t).
  rewrite !upd_slot_fuse. done.
Qed.

Lemma slot_index_range r p : 0 < capacity r -> 0 <= slot_index r p < capacity r.
Proof. intros. apply Z.mod_pos_bound. done. Qed.

(** ** Invariant preservation *)

Lemma slot_wf_write sps t data s :
  slot_wf sps s -> is_u64 t -> zlen data <= sps ->
  slot_wf sps (Slot t (zlen data) (zsplice 0 data (sdata s))).
Proof.
  intros (Hq & Hl & Hd) Ht Hlen. pose proof (zlen_nonneg data).
  split; [done|]. split; [cbn; lia|]. cbn. rewrite zlen_zsplice; lia.
Qed.

Lemma write_slot_wf t data r :
  ring_wf r -> is_u64 t -> zlen data <= slot_payload_size r -> ring_wf (write_slot t data r).
Proof.
  intros [] Ht Hlen. rewrite write_slot_eq. unfold upd_slot, with_slots.
  constructor; cbn; try done.
  - unfold zlen in *. by rewrite length_alter.
  - apply Forall_alter; [done|]. intros s Hs Hwf. by apply slot_wf_write.
Qed.

Lemma with_tail_wf t r : ring_wf r -> is_u64 t -> ring_wf (with_tail t r).
Proof. intros [] ?. by constructor. Qed.

Lemma set_cursor_wf i v r : ring_wf r -> is_u64 v -> ring_wf (set_cursor i v r).
Proof.
  intros [] ?. constructor; try done; cbn.
  - unfold zlen in *. by rewrite length_insert.
  - by apply Forall_insert.
Qed.

Lemma with_wakeflag_wf i v r : ring_wf r -> ring_wf (with_wakeflags (<[i := v]> (wakeflags r)) r).
Proof. intros []. constructor; try done. cbn. unfold zlen in *. by rewrite length_insert. Qed.

Lemma unclaimed_u64 : is_u64 CURSOR_UNCLAIMED.
Proof. done. Qed.

Lemma create_wf cap sps subs :
  0 < cap < two32 -> 0 <= sps < two32 -> 0 <= subs < two32 -> ring_wf (create cap sps subs).
Proof.
  intros. unfold create. constructor; cbn; try done; try (rewrite zlen_zrep; lia); try ulia.
  - apply Forall_replicate, unclaimed_u64.
  - apply Forall_replicate. split; [cbn; ulia|]. cbn. rewrite zlen_zrep; lia.
Qed.

#[export] Hint Resolve unclaimed_u64 write_slot_wf with_tail_wf set_cursor_wf with_wakeflag_wf create_wf : mm.

Lemma wrap64_u64 z : is_u64 (wrap64 z).
Proof. apply wrap64_range. Qed.
#[export] Hint Resolve wrap64_u64 : mm.

Lemma receive_loop_wf n i e out r : ring_wf r -> ring_wf (receive_loop n i e out r).1.1.
Proof.
  revert e out. induction n as [|n IH]; intros e out Hwf; cbn [receive_loop]; [done|].
  repeat (dgoal; try (by apply IH)); cbn; eauto with mm.
Qed.

Lemma receive_slice_loop_wf n i e out r : ring_wf r -> ring_wf (receive_slice_loop n i e out r).1.1.
Proof.
  revert e out. induction n as [|n IH]; intros e out Hwf; cbn [receive_slice_loop]; [done|].
  repeat (dgoal; try (by apply IH)); cbn; eauto with mm.
Qed.

(** ** Backpressure *)

Lemma min_active_Some cs m :
  min_active cs = Some m ->
  m ∈ cs /\ m <> CURSOR_UNCLAIMED /\ forall c, c ∈ cs -> c <> CURSOR_UNCLAIMED -> m <= c.
Proof.
  revert m. induction cs as [|c cs IH]; intros m; cbn [min_active]; [done|].
  destruct (Z.eqb_spec c CURSOR_UNCLAIMED) as [->|Hc].
  { intros (? & ? & Hmin)%IH. split; [by right|]. split; [done|].
    intros c' [->|?]%elem_of_cons ?; [done|]. by apply Hmin. }
  destruct (min_active cs) as [m'|] eqn:E; intros ?; simplify_eq.
  - destruct (IH m' eq_refl) as (Hin & Hne & Hmin). split.
    { destruct (Z.min_spec c m') as [[_ ->]|[_ ->]]; [by left|by right]. }
    split; [lia|]. intros c' [->|?]%elem_of_cons ?; [lia|].
    specialize (Hmin c' ltac:(done) ltac:(done)). lia.
  - split; [by left|]. split; [done|]. intros c' [->|Hc']%elem_of_cons Hne; [lia|].
    exfalso. clear IH. induction cs as [|d cs IH]; [by apply not_elem_of_nil in Hc'|].
    cbn [min_active] in E. destruct (Z.eqb_spec d CURSOR_UNCLAIMED); [|done].
    apply elem_of_cons in Hc' as [->|?]; [done|]. by apply IH.
Qed.

Lemma min_active_None cs c : min_active cs = None -> c ∈ cs -> c = CURSOR_UNCLAIMED.
Proof.
  induction cs as [|d cs IH]; cbn [min_active]; [by intros _ ?%not_elem_of_nil|].
  destruct (Z.eqb_spec d CURSOR_UNCLAIMED) as [->|]; [|done].
  intros ? [->|?]%elem_of_cons; [done|by apply IH].
Qed.

(** [is_full] is the very test [try_publish] makes. *)
Lemma try_publish_is_full data r :
  zlen data <= slot_payload_size r ->
  try_publish data r =
    if is_full r then Some (r, false)
    else Some (with_tail (wrap64 (tail r + 1)) (write_slot (tail r) data r), true).
Proof.
  intros Hlen. unfold try_publish, is_full. rewrite (proj2 (Z.leb_le _ _) Hlen). done.
Qed.

Lemma not_full_lag r c :
  ring_wf r -> is_full r = false -> c ∈ cursors r -> c <> CURSOR_UNCLAIMED -> c <= tail r ->
  tail r - c < capacity r.
Proof.
  intros Hwf Hfull Hin Hne Hle. unfold is_full, min_active_cursor in Hfull.
  apply Z.leb_gt in Hfull.
  destruct (min_active (cursors r)) as [m|] eqn:E; cbn [default] in Hfull.
  - apply min_active_Some in E as (Hm & Hmne & Hmin). specialize (Hmin c Hin Hne).
    assert (is_u64 m) by (pose proof (wf_cursors r Hwf) as H; rewrite Forall_forall in H; by apply H).
    pose proof (wf_tail r Hwf). cbn in Hfull.
    rewrite wrapping_sub_le in Hfull by ulia. lia.
  - by rewrite (min_active_None _ c E Hin) in Hne.
Qed.

(** A ring nobody subscribes to is never full. *)
Lemma no_subscribers_not_full r : ring_wf r -> min_active_cursor r = None -> is_full r = false.
Proof.
  intros Hwf E. unfold is_full. rewrite E. cbn. pose proof (wf_tail r Hwf). pose proof (wf_capacity r Hwf).
  rewrite wrapping_sub_le by ulia. apply Z.leb_gt. lia.
Qed.

(** The SPMC invariant of the module header.  A publish that [try_publish] accepts keeps every
    claimed cursor within [capacity] of the new tail, so the slot it overwrote held no message that
    a subscriber still had to read. *)
Theorem try_publish_keeps_lags_bounded data r r' :
  ring_wf r -> lags_bounded r -> tail r + 1 < two64 ->
  try_publish data r = Some (r', true) ->
  lags_bounded r' /\ tail r' = tail r + 1 /\ cursors r' = cursors r.
Proof.
  intros Hwf Hl Ht Hpub. pose proof (wf_tail r Hwf).
  assert (Hlen : zlen data <= slot_payload_size r).
  { unfold try_publish in Hpub. destruct (Z.leb_spec (zlen data) (slot_payload_size r)); [lia|done]. }
  rewrite try_publish_is_full in Hpub by done.
  destruct (is_full r) eqn:Hfull; [done|]. simplify_eq.
  rewrite write_slot_eq. unfold lags_bounded. cbn.
  rewrite wrap64_small by ulia. split; [|done].
  unfold lags_bounded in Hl. rewrite Forall_forall in Hl |- *. intros c Hc.
  destruct (Hl c Hc) as [->|[Hle Hlag]]; [by left|].
  destruct (decide (c = CURSOR_UNCLAIMED)); [by left|]. right.
  pose proof (not_full_lag r c Hwf Hfull Hc ltac:(done) Hle). lia.
Qed.

(** ** The ring as a broadcast log *)

Lemma log_at_app_old base log data p d :
  log_at base log p = Some d -> log_at base (log ++ [data]) p = Some d.
Proof.
  unfold log_at. destruct (p <? base); [done|]. intros H. by apply lookup_app_l_Some.
Qed.

Lemma log_at_app_new base log data :
  log_at base (log ++ [data]) (base + zlen log) = Some data.
Proof.
  unfold log_at, zlen. destruct (Z.ltb_spec (base + Z.of_nat (length log)) base); [lia|].
  replace (Z.to_nat (base + Z.of_nat (length log) - base)) with (length log) by lia.
  apply list_lookup_middle. done.
Qed.

Lemma log_at_Some base log p :
  base <= p < base + zlen log -> exists d, log_at base log p = Some d.
Proof.
  intros Hp. unfold log_at, zlen in *. destruct (Z.ltb_spec p base); [lia|].
  apply lookup_lt_is_Some_2. lia.
Qed.

Lemma mod_eq_divide a b n : 0 < n -> a mod n = b mod n -> exists k, a - b = k * n.
Proof.
  intros Hn E. pose proof (Z_div_mod_eq_full a n). pose proof (Z_div_mod_eq_full b n).
  exists (a / n - b / n). nia.
Qed.

Lemma same_slot_close r p q :
  0 < capacity r -> slot_index r p = slot_index r q -> p <= q -> q < p + capacity r -> p = q.
Proof.
  intros Hc E Hle Hlt. symmetry in E. apply mod_eq_divide in E as [k Hk]; [|done].
  destruct (Z.lt_trichotomy k 0) as [|[->|]]; nia.
Qed.

Lemma write_slot_slot_at t data r p :
  ring_wf r ->
  slot_at (write_slot t data r) (slot_index r p) =
    if decide (slot_index r t = slot_index r p)
    then Slot t (zlen data) (zsplice 0 data (sdata (slot_at r (slot_index r p))))
    else slot_at r (slot_index r p).
Proof.
  intros Hwf. rewrite write_slot_eq.
  pose proof (wf_capacity r Hwf). pose proof (wf_slots_len r Hwf).
  pose proof (slot_index_range r p ltac:(lia)). pose proof (slot_index_range r t ltac:(lia)).
  rewrite slot_at_upd by lia. done.
Qed.

Lemma slot_at_wf r p : ring_wf r -> slot_wf (slot_payload_size r) (slot_at r (slot_index r p)).
Proof.
  intros Hwf. pose proof (wf_capacity r Hwf). pose proof (wf_slots_len r Hwf).
  pose proof (slot_index_range r p ltac:(lia)). unfold slot_at.
  destruct (slots r !! Z.to_nat (slot_index r p)) as [s|] eqn:E; cbn.
  - pose proof (wf_slots r Hwf) as Hs. rewrite Forall_lookup in Hs. by eapply Hs.
  - apply lookup_ge_None in E. unfold zlen in *. lia.
Qed.

(** Writing position [t] makes the slot hold it, and leaves every other recent position alone. *)
Lemma write_slot_holds_new t data r :
  ring_wf r -> zlen data <= slot_payload_size r -> slot_holds (write_slot t data r) t data.
Proof.
  intros Hwf Hlen. unfold slot_holds. change (slot_index (write_slot t data r) t) with (slot_index r t).
  rewrite write_slot_slot_at, decide_True by done. cbn [seq slen sdata].
  split; [done|]. split; [done|].
  change (slot_payload_size (write_slot t data r)) with (slot_payload_size r).
  split; [|done]. unfold zsplice. rewrite ztake_0. cbn [app]. by apply ztake_app_exact.
Qed.

Lemma write_slot_holds_old t data r p d :
  ring_wf r -> p < t -> t - capacity r < p ->
  slot_holds r p d -> slot_holds (write_slot t data r) p d.
Proof.
  intros Hwf Hlt Hgt Hh. unfold slot_holds.
  change (slot_index (write_slot t data r) p) with (slot_index r p).
  rewrite write_slot_slot_at by done. rewrite decide_False; [done|].
  intros E. pose proof (wf_capacity r Hwf). symmetry in E.
  apply same_slot_close in E; lia.
Qed.

(** Both publish paths: the message is appended to the log. *)
Lemma publish_step_repr base log data r :
  ring_repr base log r -> zlen data <= slot_payload_size r -> tail r + 1 < two63 ->
  ring_repr base (log ++ [data]) (with_tail (wrap64 (tail r + 1)) (write_slot (tail r) data r)).
Proof.
  intros [Hwf Hb Ht Hbd Hs] Hlen Hmax. pose proof (wf_tail r Hwf).
  rewrite wrap64_small by ulia.
  constructor.
  - apply with_tail_wf; [|ulia]. by apply write_slot_wf.
  - done.
  - cbn. rewrite zlen_app, zlen_cons, zlen_nil. lia.
  - cbn. ulia.
  - cbn [tail with_tail]. intros p Hp1 Hp2 Hp3.
    change (slot_holds (with_tail (tail r + 1) (write_slot (tail r) data r)) p)
      with (slot_holds (write_slot (tail r) data r) p).
    change (capacity (with_tail (tail r + 1) (write_slot (tail r) data r))) with (capacity r) in Hp2.
    destruct (decide (p = tail r)) as [->|Hne].
    + exists data. split; [rewrite Ht; apply log_at_app_new|]. by apply write_slot_holds_new.
    + destruct (Hs p Hp1 ltac:(lia) ltac:(lia)) as (d & Hd & Hh). exists d.
      split; [by apply log_at_app_old|]. apply write_slot_holds_old; [done|lia|lia|done].
Qed.

Lemma newest_pos_spec r c :
  0 < capacity r -> c < tail r ->
  c <= newest_pos r c < tail r /\ tail r - capacity r <= newest_pos r c
  /\ slot_index r (newest_pos r c) = slot_index r c.
Proof.
  intros Hc Hlt. unfold newest_pos, slot_index.
  set (d := tail r - 1 - c). pose proof (Z.mod_pos_bound d (capacity r) Hc).
  pose proof (Z.mod_le d (capacity r) ltac:(lia) Hc).
  split; [lia|]. split; [lia|].
  replace (tail r - 1 - d mod capacity r) with (c + (d - d mod capacity r)) by lia.
  replace (d - d mod capacity r) with (d / capacity r * capacity r)
    by (pose proof (Z_div_mod_eq_full d (capacity r)); lia).
  apply Z_mod_plus_full.
Qed.

Lemma newest_pos_in_window r c :
  0 < capacity r -> tail r - capacity r <= c -> c < tail r -> newest_pos r c = c.
Proof. intros. unfold newest_pos. rewrite Z.mod_small; lia. Qed.

(** One behind the window: the slot has just been reused by the newest message. *)
Lemma newest_pos_just_overrun r :
  0 < capacity r -> newest_pos r (tail r - capacity r - 1) = tail r - 1.
Proof.
  intros. unfold newest_pos.
  replace (tail r - 1 - (tail r - capacity r - 1)) with (0 + 1 * capacity r) by lia.
  rewrite Z_mod_plus_full, Z.mod_0_l; lia.
Qed.

(** One iteration on a slot nobody is writing. *)
Lemma receive_loop_S n i e out r s :
  slot_at r (slot_index r e) = s -> 0 <= seq s < two63 -> slen s <= slot_payload_size r ->
  receive_loop (S n) i e out r =
    if e <? seq s then receive_loop n i (seq s) out r
    else if seq s <? e then (r, out, None)
    else (set_cursor i (wrap64 (e + 1)) r, ztake (slen s) (sdata s), Some (wrap64 (e + 1))).
Proof.
  intros Hs Hq Hl. cbn [receive_loop]. rewrite Hs.
  unfold SEQ_WRITING_BIT. rewrite land_two63_small by done. cbn [negb Z.eqb].
  rewrite (proj2 (Z.ltb_ge _ _) Hl), Z.eqb_refl. done.
Qed.

Lemma receive_loop_hit n i p d out r :
  slot_holds r p d -> 0 <= p < two63 ->
  receive_loop (S n) i p out r = (set_cursor i (p + 1) r, d, Some (p + 1)).
Proof.
  intros (Hq & Hl & Hd & Hle) Hp. rewrite (receive_loop_S _ _ _ _ _ _ eq_refl) by lia.
  rewrite Hq, Hl, Hd, Z.ltb_irrefl.
  rewrite wrap64_small by (rewrite two63_eq, ?two64_eq in *; lia). done.
Qed.

Lemma receive_loop_skip n i c p d out r :
  slot_holds r p d -> 0 <= p < two63 -> slot_index r p = slot_index r c -> c < p ->
  receive_loop (S (S n)) i c out r = (set_cursor i (p + 1) r, d, Some (p + 1)).
Proof.
  intros Hh Hp E Hlt. pose proof Hh as (Hq & Hl & _ & Hle).
  rewrite (receive_loop_S _ _ _ _ _ _ eq_refl) by (rewrite <- E; lia).
  rewrite <- E, Hq, (proj2 (Z.ltb_lt _ _) Hlt). by apply receive_loop_hit.
Qed.

Lemma receive_newest base log r i c out :
  ring_repr base log r -> base <= c -> c < tail r ->
  exists d, log_at base log (newest_pos r c) = Some d
    /\ try_receive i c out r = (set_cursor i (newest_pos r c + 1) r, d, Some (newest_pos r c + 1)).
Proof.
  intros [Hwf Hb Ht Hbd Hs] Hc Hlt. pose proof (wf_capacity r Hwf).
  destruct (newest_pos_spec r c) as ([Hn1 Hn2] & Hn3 & Hn4); [lia|lia|].
  destruct (Hs (newest_pos r c)) as (d & Hd & Hh); [lia|lia|lia|].
  exists d. split; [done|]. unfold try_receive.
  destruct (Z.leb_spec (tail r) c); [lia|]. unfold MAX_RETRIES.
  destruct (decide (newest_pos r c = c)) as [E|Hne].
  - rewrite E in *. by apply receive_loop_hit; [|lia].
  - apply receive_loop_skip; [done|lia|done|lia].
Qed.

Lemma try_receive_log base log r i c out :
  ring_repr base log r -> base <= c ->
  (tail r <= c -> try_receive i c out r = (r, out, None))
  /\ (tail r - capacity r <= c < tail r ->
       exists d, log_at base log c = Some d
         /\ try_receive i c out r = (set_cursor i (c + 1) r, d, Some (c + 1)))
  /\ (c < tail r - capacity r ->
       exists d, log_at base log (newest_pos r c) = Some d
         /\ tail r - capacity r <= newest_pos r c
         /\ try_receive i c out r
            = (set_cursor i (newest_pos r c + 1) r, d, Some (newest_pos r c + 1))).
Proof.
  intros Hr Hc. pose proof (wf_capacity r (repr_wf _ _ _ Hr)). split; [|split].
  - intros Hle. unfold try_receive. by rewrite (proj2 (Z.leb_le _ _) Hle).
  - intros Hwin. destruct (receive_newest base log r i c out Hr Hc ltac:(lia)) as (d & Hd & E).
    rewrite newest_pos_in_window in Hd, E by lia. eauto.
  - intros Hov. destruct (receive_newest base log r i c out Hr Hc ltac:(lia)) as (d & Hd & E).
    exists d. split; [done|]. split; [|done].
    destruct (newest_pos_spec r c) as (_ & ? & _); lia.
Qed.

(** C28: reading refines the broadcast log.  At a position inside the window [try_receive] returns
    exactly the message published there and advances by one; at the tail it returns nothing and
    changes nothing; behind the window it returns the newest message that shares the slot. *)
Theorem try_receive_reads_log base log r i c out :
  ring_repr base log r -> base <= c ->
  (tail r <= c -> try_receive i c out r = (r, out, None))
  /\ (tail r - capacity r <= c < tail r ->
       exists d, log_at base log c = Some d
         /\ try_receive i c out r = (set_cursor i (c + 1) r, d, Some (c + 1)))
  /\ (c < tail r - capacity r ->
       exists d, log_at base log (newest_pos r c) = Some d
         /\ tail r - capacity r <= newest_pos r c
         /\ try_receive i c out r
            = (set_cursor i (newest_pos r c + 1) r, d, Some (newest_pos r c + 1))).
Proof. apply try_receive_log. Qed.

(** Publishing refines the broadcast log.  Under the [Error] policy a publish either leaves the
    ring as it was and reports that it is full, or appends the message; under [DropOldest] it always
    appends. *)
Theorem publish_appends_to_log base log data r :
  ring_repr base log r -> zlen data <= slot_payload_size r -> tail r + 1 < two63 ->
  (if is_full r then try_publish data r = Some (r, false)
   else exists r', try_publish data r = Some (r', true) /\ ring_repr base (log ++ [data]) r')
  /\ exists r', publish_drop_oldest data r = (r', true) /\ ring_repr base (log ++ [data]) r'.
Proof.
  intros Hr Hlen Hmax. split.
  - rewrite try_publish_is_full by done. destruct (is_full r); [done|].
    eexists. split; [done|]. by apply publish_step_repr.
  - eexists. split; [done|]. by apply publish_step_repr.
Qed.

(** A reader that falls one message behind the window loses every message of the window but the
    newest: its next read returns position [tail - 1], although [capacity - 1] older messages are
    still in the ring. *)
Theorem overrun_reader_skips_to_newest base log r i out :
  ring_repr base log r -> base <= tail r - capacity r - 1 ->
  exists d, log_at base log (tail r - 1) = Some d
    /\ try_receive i (tail r - capacity r - 1) out r = (set_cursor i (tail r) r, d, Some (tail r)).
Proof.
  intros Hr Hc. pose proof (wf_capacity r (repr_wf _ _ _ Hr)).
  destruct (receive_newest base log r i (tail r - capacity r - 1) out Hr Hc) as (d & Hd & E); [lia|].
  rewrite newest_pos_just_overrun in Hd, E by lia.
  replace (tail r - 1 + 1) with (tail r) in E by lia. eauto.
Qed.

Lemma create_repr cap sps subs :
  0 < cap < two32 -> 0 <= sps < two32 -> 0 <= subs < two32 -> ring_repr 0 [] (create cap sps subs).
Proof.
  intros. constructor; [by apply create_wf|done|done|done|]. cbn. intros. lia.
Qed.

(** A ring with any tail, of which nothing is said to be read. *)
Lemma repr_from_here r : ring_wf r -> tail r < two63 -> ring_repr (tail r) [] r.
Proof.
  intros Hwf Ht. pose proof (wf_tail _ Hwf). constructor; try done; [ulia|rewrite zlen_nil; lia|lia].
Qed.

Lemma set_cursor_repr base log i v r :
  ring_repr base log r -> is_u64 v -> ring_repr base log (set_cursor i v r).
Proof. intros [] ?. constructor; try done. by apply set_cursor_wf. Qed.

Lemma with_wakeflags_repr base log fl r :
  ring_repr base log r -> length fl = length (wakeflags r) -> ring_repr base log (with_wakeflags fl r).
Proof.
  intros [[] ? ? ? ?] Hl. constructor; try done. constructor; try done. cbn. unfold zlen in *. by rewrite Hl.
Qed.

#[export] Hint Resolve create_repr set_cursor_repr with_wakeflags_repr publish_step_repr : mm.

(** ** Delivery under the [Error] policy

    A topic run: the publisher publishes under [BackpressurePolicy::Error], the subscriber of
    cursor slot [i] polls, and other subscribers move, claim or release their own cursors. *)

Inductive topic_op :=
  | Publish (data : list byte)
  | Poll
  | OtherCursor (j : nat) (v : Z).

Record topic_run := TopicRun {
  run_ring : ring;
  run_published : list (list byte);   (* accepted messages, in publish order *)
  run_cursor : Z;                     (* the subscriber's local cursor *)
  run_received : list (list byte)     (* what the subscriber has read, in order *)
}.

Definition topic_step (i : nat) (o : topic_op) (s : topic_run) : topic_run :=
  match o with
  | Publish data =>
      match try_publish data (run_ring s) with
      | Some (r', true) =>
          TopicRun r' (run_published s ++ [data]) (run_cursor s) (run_received s)
      | _ => s
      end
  | Poll =>
      match try_receive i (run_cursor s) [] (run_ring s) with
      | (r', msg, Some c') => TopicRun r' (run_published s) c' (run_received s ++ [msg])
      | (r', _, None) => TopicRun r' (run_published s) (run_cursor s) (run_received s)
      end
  | OtherCursor j v =>
      if (j =? i)%nat then s
      else TopicRun (set_cursor j v (run_ring s)) (run_published s) (run_cursor s) (run_received s)
  end.

Definition topic_op_ok (o : topic_op) : Prop :=
  match o with OtherCursor _ v => is_u64 v | _ => True end.

(** What holds along the run: the subscriber's cursor is in its table entry and inside the window,
    and what it has received is what was published since it joined at [start]. *)
Record run_inv (i : nat) (base start : Z) (s : topic_run) : Prop := {
  ri_repr : ring_repr base (run_published s) (run_ring s);
  ri_entry : cursors (run_ring s) !! i = Some (run_cursor s);
  ri_lo : base <= start;
  ri_window : tail (run_ring s) - capacity (run_ring s) <= run_cursor s <= tail (run_ring s);
  ri_count : run_cursor s = start + zlen (run_received s);
  ri_received : run_received s
    = zslice (start - base) (run_cursor s - base) (run_published s)
}.

Lemma zslice_snoc {A} lo hi (l : list A) x :
  0 <= lo -> lo <= hi -> l !! Z.to_nat hi = Some x -> zslice lo hi l ++ [x] = zslice lo (hi + 1) l.
Proof.
  intros Hlo Hle E. unfold zslice, ztake, zdrop.
  replace (Z.to_nat (hi + 1 - lo)) with (S (Z.to_nat (hi - lo))) by lia.
  symmetry. apply take_S_r. rewrite lookup_drop.
  replace (Z.to_nat lo + Z.to_nat (hi - lo))%nat with (Z.to_nat hi) by lia. done.
Qed.

Lemma poll_step_inv i base start s :
  run_inv i base start s -> run_inv i base start (topic_step i Poll s).
Proof.
  intros Hinv. pose proof Hinv as [Hr He Hlo Hw Hc Hrec]. destruct s as [r pub c rec]. cbn in *.
  pose proof (zlen_nonneg rec).
  destruct (try_receive_log base pub r i c [] Hr ltac:(lia)) as (Hend & Hin & _).
  destruct (decide (tail r <= c)) as [Hge|Hlt].
  - rewrite Hend by lia. done.
  - destruct Hin as (d & Hd & ->); [lia|].
    pose proof (repr_bound _ _ _ Hr). pose proof (repr_base _ _ _ Hr).
    constructor; cbn.
    + apply set_cursor_repr; [done|]. unfold is_u64. rewrite two64_eq, two63_eq in *. lia.
    + apply list_lookup_insert_eq. by eapply lookup_lt_Some.
    + done.
    + lia.
    + rewrite zlen_app, zlen_cons, zlen_nil. lia.
    + unfold log_at in Hd. destruct (Z.ltb_spec c base); [lia|].
      rewrite Hrec. replace (c + 1 - base) with (c - base + 1) by lia.
      apply zslice_snoc; [lia|lia|done].
Qed.

Lemma publish_step_inv i base start data s :
  tail (run_ring s) + 1 < two63 -> run_inv i base start s ->
  run_inv i base start (topic_step i (Publish data) s).
Proof.
  intros Hmax Hinv. pose proof Hinv as [Hr He Hlo Hw Hc Hrec]. destruct s as [r pub c rec]. cbn in *.
  destruct (try_publish data r) as [[r' ok]|] eqn:Hp; [|done].
  assert (Hlen : zlen data <= slot_payload_size r).
  { unfold try_publish in Hp. destruct (Z.leb_spec (zlen data) (slot_payload_size r)); [lia|done]. }
  rewrite try_publish_is_full in Hp by done.
  destruct (is_full r) eqn:Hf; simplify_eq; [done|].
  pose proof (repr_wf _ _ _ Hr) as Hwf. pose proof (wf_tail r Hwf).
  assert (Hlag : tail r - c < capacity r).
  { apply not_full_lag; [done|done|by eapply list_elem_of_lookup_2| |lia].
    unfold CURSOR_UNCLAIMED. unfold u64_MAX. rewrite two64_eq, two63_eq in *. lia. }
  constructor; cbn; try done.
  - by apply publish_step_repr.
  - rewrite wrap64_small by ulia. lia.
  - unfold zslice, ztake, zdrop.
    rewrite drop_app_le, take_app_le; [done| |].
    + rewrite length_drop. pose proof (repr_tail _ _ _ Hr) as Htl. unfold zlen in Htl. lia.
    + pose proof (repr_tail _ _ _ Hr) as Htl. unfold zlen in *. lia.
Qed.

Lemma other_step_inv i base start j v s :
  is_u64 v -> run_inv i base start s -> run_inv i base start (topic_step i (OtherCursor j v) s).
Proof.
  intros Hv Hinv. cbn [topic_step]. destruct (Nat.eqb_spec j i); [done|].
  destruct Hinv. constructor; cbn; try done.
  - by apply set_cursor_repr.
  - by rewrite list_lookup_insert_ne.
Qed.

Lemma topic_step_tail i o s : tail (run_ring (topic_step i o s)) <= tail (run_ring s) + 1 \/
  wrap64 (tail (run_ring s) + 1) <> tail (run_ring s) + 1.
Proof.
  destruct o as [data| |j v]; cbn [topic_step].
  - unfold try_publish. repeat dgoal; simplify_eq; cbn; try lia;
    destruct (decide (wrap64 (tail (run_ring s) + 1) = tail (run_ring s) + 1)); lia.
  - destruct (try_receive i (run_cursor s) [] (run_ring s)) as [[r' m] o] eqn:E. left.
    assert (tail r' = tail (run_ring s)) as Ht; [|destruct o; cbn; lia].
    unfold try_receive in E. destruct (tail (run_ring s) <=? run_cursor s); [by simplify_eq|].
    revert E. generalize (@nil byte). generalize (run_cursor s) as e. generalize MAX_RETRIES as n.
    induction n as [|n IH]; intros e out; cbn [receive_loop]; [by intros; simplify_eq|].
    repeat (dgoal; try (by apply IH)); intros; by simplify_eq.
  - left. destruct (j =? i)%nat; cbn; lia.
Qed.

(** No loss, no duplication, no reordering under [BackpressurePolicy::Error].  Whatever the
    interleaving of publishes, polls and other subscribers, a subscriber that joined at [start]
    has received exactly the published messages [start, cursor), in order. *)
Theorem error_policy_delivers_in_order i base start s ops :
  run_inv i base start s -> Forall topic_op_ok ops ->
  tail (run_ring s) + zlen ops < two63 ->
  let s' := foldl (fun s o => topic_step i o s) s ops in
  run_received s' = zslice (start - base) (run_cursor s' - base) (run_published s')
  /\ run_cursor s' = start + zlen (run_received s')
  /\ tail (run_ring s') - capacity (run_ring s') <= run_cursor s' <= tail (run_ring s').
Proof.
  intros Hinv Hok Hb. cbn zeta.
  enough (run_inv i base start (foldl (fun s o => topic_step i o s) s ops)) as [] by done.
  revert s Hinv Hb. induction Hok as [|o ops Ho _ IH]; intros s Hinv Hb; cbn [foldl]; [done|].
  rewrite zlen_cons in Hb. pose proof (zlen_nonneg ops).
  pose proof (wf_tail _ (repr_wf _ _ _ (ri_repr _ _ _ _ Hinv))).
  apply IH.
  - destruct o; [apply publish_step_inv; [lia|done]|by apply poll_step_inv|by apply other_step_inv].
  - destruct (topic_step_tail i o s) as [|Hne]; [lia|]. exfalso. apply Hne.
    apply wrap64_small. rewrite two63_eq, two64_eq in *. unfold is_u64 in *. lia.
Qed.

(** ** The slice variant *)

Lemma receive_slice_loop_any n i e out0 out r :
  ring_wf r ->
  receive_slice_loop n i e out r =
    match receive_loop n i e out0 r with
    | (r', d, Some c) => if zlen out <? zlen d then (r', out, Some (c, SliceOversize)) else (r', zsplice 0 d out, Some (c, SliceLen (zlen d)))
    | (r', _, None) => (r', out, None)
    end.
Proof.
  intros Hwf. revert e out0. induction n as [|n IH]; intros e out0; [done|].
  cbn [receive_slice_loop receive_loop].
  destruct (negb (Z.land (seq (slot_at r (slot_index r e))) SEQ_WRITING_BIT =? 0)); [by apply IH|].
  destruct (e <? seq (slot_at r (slot_index r e))); [by apply IH|].
  destruct (seq (slot_at r (slot_index r e)) <? e); [done|].
  destruct (Z.ltb_spec (slot_payload_size r) (slen (slot_at r (slot_index r e)))); [by apply IH|].
  destruct (slot_at_wf r e Hwf) as (_ & Hl & Hd).
  rewrite Z.eqb_refl. cbn [negb]. rewrite zlen_ztake by lia. by destruct (zlen out <? _).
Qed.

(** The slice variant is [try_receive] followed by a copy into the front of the buffer; a payload that does
    not fit is skipped. *)
Lemma slice_variant i c out r :
  ring_wf r ->
  try_receive_into_slice i c out r =
    match try_receive i c [] r with
    | (r', d, Some c') => if zlen out <? zlen d then (r', out, Some (c', SliceOversize)) else (r', zsplice 0 d out, Some (c', SliceLen (zlen d)))
    | (r', _, None) => (r', out, None)
    end.
Proof.
  intros Hwf. unfold try_receive_into_slice, try_receive.
  destruct (tail r <=? c); [done|]. by apply receive_slice_loop_any.
Qed.

Lemma receive_loop_fits n i e out r r' d c : ring_wf r -> receive_loop n i e out r = (r', d, Some c) -> zlen d <= slot_payload_size r.
Proof.
  intros Hwf. revert e out. induction n as [|n IH]; intros e out; [done|]. cbn [receive_loop].
  destruct (negb _); [apply IH|]. destruct (e <? _); [apply IH|]. destruct (_ <? e); [done|].
  destruct (Z.ltb_spec (slot_payload_size r) (slen (slot_at r (slot_index r e)))); [apply IH|].
  rewrite Z.eqb_refl. cbn [negb]. intros [= _ <- _]. destruct (slot_at_wf r e Hwf) as (_ & Hl & Hd). by rewrite zlen_ztake by lia.
Qed.

(** Given a buffer of at least [slot_payload_size] bytes, [try_receive_into_slice] is
    [try_receive] followed by a copy into the front of the buffer: same cursor, same ring, same
    payload, and never the oversize sentinel. *)
Theorem slice_variant_equiv i c out r :
  ring_wf r -> slot_payload_size r <= zlen out ->
  try_receive_into_slice i c out r =
    match try_receive i c [] r with
    | (r', d, Some c') => (r', zsplice 0 d out, Some (c', SliceLen (zlen d)))
    | (r', _, None) => (r', out, None)
    end.
Proof.
  intros Hwf Hout. rewrite slice_variant by done. unfold try_receive. destruct (tail r <=? c); [done|].
  destruct (receive_loop _ i c [] r) as [[r' d] [c'|]] eqn:E; [|done]. apply receive_loop_fits in E; [|done].
  by destruct (Z.ltb_spec (zlen out) (zlen d)); [lia|].
Qed.

(** ** Claiming and releasing cursors *)

Lemma find_unclaimed_Some cs i :
  find_unclaimed cs = Some i <->
  cs !! i = Some CURSOR_UNCLAIMED /\ forall j c, (j < i)%nat -> cs !! j = Some c -> c <> CURSOR_UNCLAIMED.
Proof.
  revert i. induction cs as [|c cs IH]; intros i; cbn [find_unclaimed].
  { split; [done|]. by intros [? _]. }
  destruct (Z.eqb_spec c CURSOR_UNCLAIMED) as [->|Hc].
  - split.
    + intros ?; simplify_eq. split; [done|]. lia.
    + intros [Hi Hj]. destruct i as [|i]; [done|].
      exfalso. by apply (Hj 0%nat CURSOR_UNCLAIMED); [lia| |].
  - split.
    + intros (i' & E & ->)%fmap_Some. apply IH in E as [E Hj]. split; [done|].
      intros [|j] d ? Hd; [by simplify_eq/=|]. apply (Hj j); [lia|done].
    + intros [Hi Hj]. destruct i as [|i]; [by simplify_eq/=|].
      apply fmap_Some. exists i. split; [|done]. apply IH. split; [done|].
      intros j d ? Hd. apply (Hj (S j)); [lia|done].
Qed.

Lemma find_unclaimed_None cs :
  find_unclaimed cs = None <-> Forall (fun c => c <> CURSOR_UNCLAIMED) cs.
Proof.
  induction cs as [|c cs IH]; cbn [find_unclaimed]; [done|].
  rewrite Forall_cons. destruct (Z.eqb_spec c CURSOR_UNCLAIMED) as [->|Hc].
  - split; [done|]. by intros [? _].
  - rewrite fmap_None, IH. naive_solver.
Qed.

(** [claim_cursor] hands out the first free slot, touches no other subscriber's cursor, clears
    the slot's stale wakeup flag, and fails exactly when every slot is taken; releasing the slot
    afterwards makes it claimable again. *)
Theorem claim_cursor_spec c r :
  ring_wf r ->
  match claim_cursor c r with
  | (r', Some i) =>
      cursors r !! i = Some CURSOR_UNCLAIMED
      /\ cursors r' = <[i := c]> (cursors r) /\ cursor_at r' i = c
      /\ wakeflag r' i = 0 /\ tail r' = tail r /\ slots r' = slots r
      /\ cursors (release_cursor i r') = cursors r
  | (r', None) => r' = r /\ Forall (fun c' => c' <> CURSOR_UNCLAIMED) (cursors r)
  end.
Proof.
  intros Hwf. unfold claim_cursor. destruct (find_unclaimed (cursors r)) as [i|] eqn:E.
  - apply find_unclaimed_Some in E as [Hi _]. pose proof (lookup_lt_Some _ _ _ Hi) as Hlt.
    pose proof (wf_cursors_len r Hwf). pose proof (wf_wakeflags_len r Hwf). unfold zlen in *.
    unfold cursor_at, wakeflag, release_cursor. cbn.
    rewrite !list_lookup_insert_eq by (rewrite ?length_insert; lia).
    rewrite list_insert_insert_eq. repeat split; try done. by apply list_insert_id.
  - split; [done|]. by apply find_unclaimed_None.
Qed.

(** ** Publisher restart *)

(** Reusing a ring file keeps the cursor table, so the cursor of a subscriber that died without
    releasing it still counts after the restart.  With the tail back at 0 and every claimed cursor
    above it, the ring is full from the first publish on, under [BackpressurePolicy::Error]. *)
Theorem orphan_cursor_blocks_restarted_publisher r data :
  ring_wf r ->
  (exists c, c ∈ cursors r /\ c <> CURSOR_UNCLAIMED) ->
  (forall c, c ∈ cursors r -> c <> CURSOR_UNCLAIMED -> 0 < c < two63) ->
  zlen data <= slot_payload_size r ->
  let r' := create_or_reuse (RingFile r) (capacity r) (slot_payload_size r) (max_subscribers r) in
  generation r' = wrap64 (generation r + 1) /\ tail r' = 0 /\ cursors r' = cursors r
  /\ try_publish data r' = Some (r', false).
Proof.
  intros Hwf (c & Hc & Hcne) Hall Hlen. cbn zeta.
  unfold create_or_reuse, open. rewrite !Z.eqb_refl. cbn [andb].
  do 3 (split; [done|]). rewrite try_publish_is_full by done.
  replace (is_full _) with true; [done|]. symmetry. unfold is_full, min_active_cursor.
  change (cursors (with_tail _ _)) with (cursors r). cbn [tail with_tail capacity with_generation].
  destruct (min_active (cursors r)) as [m|] eqn:E; cbn [default].
  - apply min_active_Some in E as (Hm & Hmne & _). specialize (Hall m Hm Hmne).
    pose proof (wf_capacity r Hwf). cbn.
    rewrite wrapping_sub_gt by (rewrite two63_eq, ?two64_eq in *; lia).
    apply Z.leb_le. rewrite two63_eq, two64_eq, two32_eq in *. lia.
  - by rewrite (min_active_None _ c E Hc) in Hcne.
Qed.

(** A position below a tail that was moved forward by [set_tail] on a fresh ring: position 0 reads
    as an empty message that nobody published, any other unwritten position reads as nothing. *)
Lemma fresh_ring_unwritten cap sps subs t i c out :
  0 < cap < two32 -> 0 <= sps < two32 -> 0 <= subs < two32 -> 0 <= c < t ->
  let r := set_tail t (create cap sps subs) in
  try_receive i c out r =
    if c =? 0 then (set_cursor i 1 r, [], Some 1) else (r, out, None).
Proof.
  intros Hcap Hsps Hsubs Hc r.
  assert (Hs : slot_at r (slot_index r c) = Slot 0 0 (zrep sps Byte.x00)).
  { unfold slot_at, slot_index, r. cbn [slots capacity set_tail with_tail create].
    pose proof (Z.mod_pos_bound c cap ltac:(lia)).
    unfold zrep at 1. rewrite lookup_replicate_2; [done|]. lia. }
  unfold try_receive, MAX_RETRIES.
  rewrite (receive_loop_S _ _ _ _ _ _ Hs) by (cbn; rewrite ?two63_eq; lia).
  change (tail r) with t. cbn [seq slen sdata].
  destruct (Z.leb_spec t c); [lia|]. destruct (Z.ltb_spec c 0); [lia|].
  destruct (Z.eqb_spec c 0) as [->|]; [done|]. by destruct (Z.ltb_spec 0 c); [|lia].
Qed.

(** ** Concrete instances *)

Definition demo_msgs : list (list byte) := [[Byte.x01]; [Byte.x02; Byte.x02]; [Byte.x03]].

(** Two slots of four bytes, three messages published: position 0 is already overwritten. *)
Definition demo_ring : ring :=
  foldl (fun r d => (publish_drop_oldest d r).1) (create 2 4 2) demo_msgs.

Lemma demo_repr : ring_repr 0 demo_msgs demo_ring.
Proof.
  unfold demo_ring, demo_msgs. cbn [foldl publish_drop_oldest fst].
  apply (publish_step_repr 0 [[Byte.x01]; [Byte.x02; Byte.x02]]); [|done|done].
  apply (publish_step_repr 0 [[Byte.x01]]); [|done|done].
  apply (publish_step_repr 0 []); [|done|done].
  by apply create_repr.
Qed.

Definition demo_joined : topic_run :=
  TopicRun (claim_cursor 0 (create 2 4 2)).1 [] 0 [].

Lemma demo_run_inv : run_inv 0 0 0 demo_joined.
Proof.
  constructor; try done.
  pose proof (create_repr 2 4 2 ltac:(done) ltac:(done) ltac:(done)) as [Hwf ? ? ? ?].
  constructor; try done.
  apply (with_wakeflag_wf 0 0). by apply set_cursor_wf.
Qed.

Lemma layout_in_bounds_witness :
  slots_offset 2 + 1 * slot_stride 5 + SLOT_OVERHEAD + 5 <= mmap_size 4 5 2.
Proof.
  destruct (layout_in_bounds 4 5 2 1) as [_ H]; [lia|lia|lia|].
  destruct H as (? & ? & _); lia.
Defined.

Lemma mmap_size_no_overflow_witness : 0 <= mmap_size 256 65536 16 < two64.
Proof. apply mmap_size_no_overflow; split; vm_compute; congruence. Defined.

Lemma try_publish_keeps_lags_bounded_witness :
  exists r', try_publish [Byte.x09] (create 2 4 2) = Some (r', true) /\ lags_bounded r'.
Proof.
  eexists. split; [vm_compute; reflexivity|].
  eapply (try_publish_keeps_lags_bounded [Byte.x09] (create 2 4 2)).
  - apply create_wf; split; vm_compute; congruence.
  - apply Forall_replicate. by left.
  - reflexivity.
  - vm_compute; reflexivity.
Defined.

Lemma try_receive_reads_log_witness :
  try_receive 0 1 [] demo_ring = (set_cursor 0 2 demo_ring, [Byte.x02; Byte.x02], Some 2).
Proof.
  destruct (try_receive_reads_log 0 demo_msgs demo_ring 0 1 [] demo_repr) as (_ & H & _); [lia|].
  destruct H as (d & Hd & E); [split; vm_compute; congruence|].
  rewrite E. vm_compute in Hd. injection Hd as <-. reflexivity.
Defined.

Lemma publish_appends_to_log_witness :
  exists r', publish_drop_oldest [Byte.x04] demo_ring = (r', true)
    /\ ring_repr 0 (demo_msgs ++ [[Byte.x04]]) r'.
Proof.
  apply (publish_appends_to_log 0 demo_msgs [Byte.x04] demo_ring demo_repr);
    vm_compute; congruence.
Defined.

Lemma overrun_reader_skips_to_newest_witness :
  try_receive 0 0 [] demo_ring = (set_cursor 0 3 demo_ring, [Byte.x03], Some 3).
Proof.
  destruct (overrun_reader_skips_to_newest 0 demo_msgs demo_ring 0 [] demo_repr) as (d & Hd & E).
  { vm_compute; congruence. }
  vm_compute in Hd. injection Hd as <-. exact E.
Defined.

Lemma error_policy_delivers_in_order_witness :
  let s' := foldl (fun s o => topic_step 0 o s) demo_joined
              [Publish [Byte.x01]; Publish [Byte.x02]; Publish [Byte.x03]; Poll; OtherCursor 1 7; Poll] in
  run_received s' = zslice 0 (run_cursor s') (run_published s').
Proof.
  destruct (error_policy_delivers_in_order 0 0 0 demo_joined
    [Publish [Byte.x01]; Publish [Byte.x02]; Publish [Byte.x03]; Poll; OtherCursor 1 7; Poll]
    demo_run_inv) as (H & _ & _).
  - repeat constructor; vm_compute; congruence.
  - reflexivity.
  - etransitivity; [exact H|]. by rewrite Z.sub_0_r.
Defined.

(** The run above delivers the two messages that fit; the third publish was refused. *)
Example error_policy_run :
  run_received (foldl (fun s o => topic_step 0 o s) demo_joined
    [Publish [Byte.x01]; Publish [Byte.x02]; Publish [Byte.x03]; Poll; OtherCursor 1 7; Poll])
  = [[Byte.x01]; [Byte.x02]].
Proof. vm_compute. reflexivity. Qed.

Lemma slice_variant_equiv_witness :
  (try_receive_into_slice 0 1 (zrep 4 Byte.xff) demo_ring).1.2 = [Byte.x02; Byte.x02; Byte.xff; Byte.xff].
Proof.
  rewrite (slice_variant_equiv 0 1 (zrep 4 Byte.xff) demo_ring (repr_wf _ _ _ demo_repr)).
  - vm_compute. reflexivity.
  - vm_compute. congruence.
Defined.

Lemma claim_cursor_spec_witness :
  Forall (fun c' => c' <> CURSOR_UNCLAIMED) (cursors (set_cursor 1 5 (set_cursor 0 3 demo_ring))).
Proof.
  refine (proj2 (claim_cursor_spec 9 (set_cursor 1 5 (set_cursor 0 3 demo_ring)) _)).
  apply set_cursor_wf; [|done]. apply set_cursor_wf; [|done]. exact (repr_wf _ _ _ demo_repr).
Defined.

Lemma orphan_cursor_blocks_restarted_publisher_witness :
  let r := set_cursor 0 2 demo_ring in
  let r' := create_or_reuse (RingFile r) 2 4 2 in
  try_publish [Byte.x05] r' = Some (r', false).
Proof.
  apply (orphan_cursor_blocks_restarted_publisher (set_cursor 0 2 demo_ring) [Byte.x05]).
  - apply set_cursor_wf; [exact (repr_wf _ _ _ demo_repr)|done].
  - exists 2. split; [by left|done].
  - intros c Hc Hne. vm_compute in Hc.
    apply elem_of_cons in Hc as [->|Hc]; [done|].
    apply list_elem_of_singleton in Hc. by rewrite Hc in Hne.
  - vm_compute. congruence.
Defined.

(** [mmap_size] does overflow at the extreme shape [u32::MAX] slots of [u32::MAX] bytes. *)
Example mmap_size_overflow : two64 <= mmap_size (two32 - 1) (two32 - 1) 1.
Proof. vm_compute. congruence. Qed.
