(* ===== verification/RingMem.v ===== *)
(** * The ring in memory ([crates/mmbus/src/ring.rs])

    The operations of [Ring.v] once more, as what the unsafe code does to the bytes of the mapping: loads, stores and
    copies at computed offsets.  [mem_repr] ties the bytes to the record of [Ring.v], which the operations
    refine; and whatever is in the mapping, no operation leaves it. *)

From Stdlib Require Import ZArith Lia.
From stdpp Require Import base option gmap list.
From S2P Require Import Prelude Ring.

(** ** Memory accesses *)

Notation mem := (list byte) (only parsing).

(** An access may lie outside of the mapping, or be atomic and not aligned (the mapping starts at a page); a
    division by zero or a failed [assert!] panics. *)
Inductive outcome (A : Type) :=
  | Done (x : A) (m : mem)
  | Panics
  | Faults.
Arguments Done {A}.
Arguments Panics {A}.
Arguments Faults {A}.

Definition M (A : Type) : Type := mem -> outcome A.

Definition ret {A} (x : A) : M A := fun m => Done x m.
Definition bind {A B} (c : M A) (k : A -> M B) : M B := fun m =>
  match c m with Done x m => k x m | Panics => Panics | Faults => Faults end.
Notation "'let*' x ':=' c 'in' k" := (bind c (fun x => k)) (at level 200, x binder, c at level 100, k at level 200).
Notation "'do*' c 'in' k" := (bind c (fun _ => k)) (at level 200, c at level 100, k at level 200).
Definition panic {A} : M A := fun _ => Panics.

Definition in_map (off n : Z) (m : mem) : bool := (0 <=? off) && (off + n <=? zlen m).

Definition read_bytes (off n : Z) : M (list byte) := fun m => if in_map off n m then Done (zslice off (off + n) m) m else Faults.
Definition write_bytes (off : Z) (bs : list byte) : M unit := fun m => if in_map off (zlen bs) m then Done tt (zsplice off bs m) else Faults.

(** [read_unaligned], [write_unaligned] *)
Definition read_u64 (off : Z) : M Z := let* bs := read_bytes off 8 in ret (from_le bs).
Definition read_u32 (off : Z) : M Z := let* bs := read_bytes off 4 in ret (from_le bs).
Definition write_u32 (off v : Z) : M unit := write_bytes off (to_le 4 v).

(** An [AtomicU64] *)
Definition aligned (off : Z) : bool := off mod 8 =? 0.
Definition load (off : Z) : M Z := fun m => if aligned off then read_u64 off m else Faults.
Definition store (off v : Z) : M unit := fun m => if aligned off then write_bytes off (to_le 8 v) m else Faults.

(** [%], by zero *)
Definition remainder (a b : Z) : M Z := if b =? 0 then panic else ret (a mod b).

(** ** The operations *)

(** The fields of [RingBuffer] other than the mapping. *)
Record handle := Handle {
  h_capacity : Z;
  h_slot_payload_size : Z;
  h_max_subscribers : Z;
  slots_off : Z
}.

(** *** [create], [open] *)

(** The stores of [create], in their order. *)
Definition create_stores (cap sps subs : Z) : list (Z * list byte) :=
  [(OFF_MAGIC, to_le 8 MAGIC); (OFF_VERSION, to_le 4 5); (OFF_CAPACITY, to_le 4 cap); (OFF_SLOT_SIZE, to_le 4 sps);
   (OFF_MAX_SUBS, to_le 4 subs); (OFF_GENERATION, to_le 8 1)]
  ++ map (fun i => (OFF_CURSORS + Z.of_nat i * 8, to_le 8 CURSOR_UNCLAIMED)) (List.seq 0 (Z.to_nat subs)).

Fixpoint write_all (ws : list (Z * list byte)) : M unit :=
  match ws with [] => ret tt | (off, bs) :: ws => do* write_bytes off bs in write_all ws end.

(** On the file that [set_len] has filled with zeros. *)
Definition create (cap sps subs : Z) : outcome handle :=
  (do* write_all (create_stores cap sps subs) in ret (Handle cap sps subs (slots_offset subs)))
  (zrep (mmap_size cap sps subs) Byte.x00).

Definition open : M (result ring_error handle) :=
  let* magic := read_u64 OFF_MAGIC in
  if negb (magic =? MAGIC) then ret (Err (InvalidData magic))
  else
    let* cap := read_u32 OFF_CAPACITY in
    let* sps := read_u32 OFF_SLOT_SIZE in
    let* subs := read_u32 OFF_MAX_SUBS in
    ret (Ok (Handle cap sps subs (slots_offset subs))).

(** On the bytes of the file at the path, if there is one. *)
Definition create_or_reuse (file : option mem) (cap sps subs : Z) : outcome handle :=
  match file with
  | None => create cap sps subs
  | Some m =>
      match open m with
      | Done (Ok h) m =>
          if (h_capacity h =? cap) && (h_slot_payload_size h =? sps) && (h_max_subscribers h =? subs)
          then (let* g := load OFF_GENERATION in do* store OFF_GENERATION (wrap64 (g + 1)) in do* store OFF_TAIL 0 in ret h) m
          else create cap sps subs
      | Done (Err _) _ => create cap sps subs
      | Panics => Panics
      | Faults => Faults
      end
  end.

Section ops.
Variable h : handle.

(** *** The header and the tables *)

Definition generation : M Z := load OFF_GENERATION.
Definition current_tail : M Z := load OFF_TAIL.
Definition set_tail (v : Z) : M unit := store OFF_TAIL v.
Definition cursor_off (idx : nat) : Z := OFF_CURSORS + Z.of_nat idx * 8.
Definition wakeflag_off (idx : nat) : Z := wakeflags_offset (h_max_subscribers h) + Z.of_nat idx * 8.

Definition set_wakeflag (idx : nat) : M unit := store (wakeflag_off idx) WAKEFLAG_WAITING.
Definition clear_wakeflag (idx : nat) : M unit := store (wakeflag_off idx) 0.
Definition take_wakeflag (idx : nat) : M bool :=
  let* v := load (wakeflag_off idx) in do* store (wakeflag_off idx) 0 in ret (v =? WAKEFLAG_WAITING).

Definition cursor_is_unclaimed (idx : nat) : M bool := let* c := load (cursor_off idx) in ret (c =? CURSOR_UNCLAIMED).
Definition set_cursor (idx : nat) (v : Z) : M unit := store (cursor_off idx) v.
Definition release_cursor (idx : nat) : M unit := store (cursor_off idx) CURSOR_UNCLAIMED.

(** The first of the [n] entries from [i] on whose [compare_exchange] succeeds. *)
Fixpoint find_cursor (initial_cursor : Z) (n i : nat) : M (option nat) :=
  match n with
  | O => ret None
  | S n =>
      let* c := load (cursor_off i) in
      if c =? CURSOR_UNCLAIMED then do* store (cursor_off i) initial_cursor in ret (Some i)
      else find_cursor initial_cursor n (S i)
  end.

Definition subs_count : nat := Z.to_nat (h_max_subscribers h).

Definition claim_cursor (initial_cursor : Z) : M (option nat) :=
  let* slot := find_cursor initial_cursor subs_count 0 in
  match slot with Some i => do* clear_wakeflag i in ret (Some i) | None => ret None end.

Fixpoint min_from (n i : nat) (acc : option Z) : M (option Z) :=
  match n with
  | O => ret acc
  | S n =>
      let* c := load (cursor_off i) in
      min_from n (S i) (if c =? CURSOR_UNCLAIMED then acc else Some (match acc with Some m => Z.min m c | None => c end))
  end.

Definition min_active_cursor : M (option Z) := min_from subs_count 0 None.

(** *** Publishing *)

Definition slot_off (idx : Z) : Z := slots_off h + idx * slot_stride (h_slot_payload_size h).

Definition write_slot (tail : Z) (data : list byte) : M unit :=
  let* idx := remainder tail (h_capacity h) in
  let slot := slot_off idx in
  do* store slot (Z.lor tail SEQ_WRITING_BIT) in
  do* write_u32 (slot + 8) (zlen data) in
  do* write_bytes (slot + 12) data in
  store slot tail.

Definition is_full : M bool :=
  let* tail := current_tail in
  let* m := min_active_cursor in
  ret (h_capacity h <=? wrapping_sub tail (default tail m)).

Definition try_publish (data : list byte) : M bool :=
  if zlen data <=? h_slot_payload_size h then
    let* tail := current_tail in
    let* m := min_active_cursor in
    if h_capacity h <=? wrapping_sub tail (default tail m) then ret false
    else do* write_slot tail data in do* store OFF_TAIL (wrap64 (tail + 1)) in ret true
  else panic.

Definition publish_drop_oldest (data : list byte) : M bool :=
  let* tail := current_tail in
  do* write_slot tail data in
  do* store OFF_TAIL (wrap64 (tail + 1)) in
  ret true.

(** *** Receiving *)

Fixpoint receive_loop (retries cursor_idx : nat) (effective : Z) (out : list byte) : M (list byte * option Z) :=
  match retries with
  | O => ret (out, None)
  | S retries =>
      let* idx := remainder effective (h_capacity h) in
      let slot := slot_off idx in
      let* seq_before := load slot in
      if negb (Z.land seq_before SEQ_WRITING_BIT =? 0) then receive_loop retries cursor_idx effective out
      else if effective <? seq_before then receive_loop retries cursor_idx seq_before out
      else if seq_before <? effective then ret (out, None)
      else
        let* len := read_u32 (slot + 8) in
        if h_slot_payload_size h <? len then receive_loop retries cursor_idx effective out
        else
          let* out := read_bytes (slot + 12) len in
          let* seq_after := load slot in
          if negb (seq_after =? seq_before) then
            let clean := clear_bit63 seq_after in
            receive_loop retries cursor_idx (if effective <? clean then clean else effective) out
          else
            let new_cursor := wrap64 (effective + 1) in
            do* store (cursor_off cursor_idx) new_cursor in
            ret (out, Some new_cursor)
  end.

Definition try_receive (cursor_idx : nat) (local_cursor : Z) (out : list byte) : M (list byte * option Z) :=
  let* tail := current_tail in
  if tail <=? local_cursor then ret (out, None) else receive_loop MAX_RETRIES cursor_idx local_cursor out.

Fixpoint receive_slice_loop (retries cursor_idx : nat) (effective : Z) (out : list byte) : M (list byte * option (Z * slice_len)) :=
  match retries with
  | O => ret (out, None)
  | S retries =>
      let* idx := remainder effective (h_capacity h) in
      let slot := slot_off idx in
      let* seq_before := load slot in
      if negb (Z.land seq_before SEQ_WRITING_BIT =? 0) then receive_slice_loop retries cursor_idx effective out
      else if effective <? seq_before then receive_slice_loop retries cursor_idx seq_before out
      else if seq_before <? effective then ret (out, None)
      else
        let* len := read_u32 (slot + 8) in
        if h_slot_payload_size h <? len then receive_slice_loop retries cursor_idx effective out
        else if zlen out <? len then
          let new_cursor := wrap64 (effective + 1) in
          do* store (cursor_off cursor_idx) new_cursor in
          ret (out, Some (new_cursor, SliceOversize))
        else
          let* bs := read_bytes (slot + 12) len in
          let out := zsplice 0 bs out in
          let* seq_after := load slot in
          if negb (seq_after =? seq_before) then
            let clean := clear_bit63 seq_after in
            receive_slice_loop retries cursor_idx (if effective <? clean then clean else effective) out
          else
            let new_cursor := wrap64 (effective + 1) in
            do* store (cursor_off cursor_idx) new_cursor in
            ret (out, Some (new_cursor, SliceLen len))
  end.

Definition try_receive_into_slice (cursor_idx : nat) (local_cursor : Z) (out : list byte) : M (list byte * option (Z * slice_len)) :=
  let* tail := current_tail in
  if tail <=? local_cursor then ret (out, None) else receive_slice_loop MAX_RETRIES cursor_idx local_cursor out.

(** *** Monitoring *)

Fixpoint lags_from (tail : Z) (n i : nat) : M (list (nat * Z)) :=
  match n with
  | O => ret []
  | S n =>
      let* c := load (cursor_off i) in
      let* l := lags_from tail n (S i) in
      ret (if c =? CURSOR_UNCLAIMED then l else (i, saturating_sub tail c) :: l)
  end.

Definition lags_with_idx : M (list (nat * Z)) := let* tail := current_tail in lags_from tail subs_count 0.

Definition stats : M ring_stats :=
  let* tail := current_tail in
  let* l := lags_from tail subs_count 0 in
  ret (RingStats tail (zlen l) (map snd l)).
End ops.

(** ** The bytes of a ring *)

(** What the mapping consists of, padding apart. *)
Inductive loc :=
  | LMagic | LVersion | LCapacity | LSlotSize | LMaxSubs | LGeneration | LTail
  | LCursor (i : nat) | LFlag (i : nat)
  | LSeq (i : nat) | LLen (i : nat) | LData (i : nat).

#[export] Instance loc_eq_dec : EqDecision loc.
Proof. solve_decision. Defined.

Definition handle_of (r : ring) : handle :=
  Handle (capacity r) (slot_payload_size r) (max_subscribers r) (slots_offset (max_subscribers r)).

Section locations.
Variable h : handle.

Definition loc_off (l : loc) : Z :=
  match l with
  | LMagic => OFF_MAGIC | LVersion => OFF_VERSION | LCapacity => OFF_CAPACITY | LSlotSize => OFF_SLOT_SIZE
  | LMaxSubs => OFF_MAX_SUBS | LGeneration => OFF_GENERATION | LTail => OFF_TAIL
  | LCursor i => cursor_off i
  | LFlag i => wakeflag_off h i
  | LSeq i => slot_off h (Z.of_nat i)
  | LLen i => slot_off h (Z.of_nat i) + 8
  | LData i => slot_off h (Z.of_nat i) + 12
  end.

Definition loc_size (l : loc) : Z :=
  match l with
  | LVersion | LCapacity | LSlotSize | LMaxSubs | LLen _ => 4
  | LData _ => h_slot_payload_size h
  | _ => 8
  end.

Definition loc_ok (l : loc) : Prop :=
  match l with
  | LCursor i | LFlag i => Z.of_nat i < h_max_subscribers h
  | LSeq i | LLen i | LData i => Z.of_nat i < h_capacity h
  | _ => True
  end.

(** The shapes a handle can have. *)
Record shape_ok : Prop := {
  sh_capacity : 0 < h_capacity h < two32;
  sh_slot_size : 0 <= h_slot_payload_size h < two32;
  sh_subs : 0 <= h_max_subscribers h < two32;
  sh_off : slots_off h = slots_offset (h_max_subscribers h)
}.

Definition map_size : Z := mmap_size (h_capacity h) (h_slot_payload_size h) (h_max_subscribers h).

(** Locations lie in the mapping, in the part that is theirs. *)
Lemma loc_bounds l : shape_ok -> loc_ok l -> 0 <= loc_off l /\ 0 <= loc_size l /\ loc_off l + loc_size l <= map_size.
Proof.
  intros [Hc Hp Hs Ho] Hl. pose proof (slots_offset_spec (h_max_subscribers h) ltac:(lia)) as [Hoff _].
  pose proof (slot_stride_spec (h_slot_payload_size h)) as [Hst _]. unfold map_size, mmap_size, wakeflags_offset, OFF_CURSORS in *.
  destruct l; cbn [loc_off loc_size loc_ok] in *; unfold cursor_off, wakeflag_off, wakeflags_offset, slot_off, OFF_CURSORS, OFF_MAGIC, OFF_VERSION,
    OFF_CAPACITY, OFF_SLOT_SIZE, OFF_MAX_SUBS, OFF_GENERATION, OFF_TAIL; rewrite ?Ho; try nia.
Qed.

Lemma loc_apart l l' : shape_ok -> loc_ok l -> loc_ok l' -> l <> l' ->
  loc_off l + loc_size l <= loc_off l' \/ loc_off l' + loc_size l' <= loc_off l.
Proof.
  intros [Hc Hp Hs Ho] Hl Hl' Hne. pose proof (slots_offset_spec (h_max_subscribers h) ltac:(lia)) as [Hoff _].
  pose proof (slot_stride_spec (h_slot_payload_size h)) as [Hst _]. unfold wakeflags_offset, OFF_CURSORS in *.
  assert (Hstep : forall i j : nat, (i < j)%nat -> Z.of_nat i * slot_stride (h_slot_payload_size h) + slot_stride (h_slot_payload_size h)
    <= Z.of_nat j * slot_stride (h_slot_payload_size h)) by (intros; nia).
  assert (Hpos : forall i : nat, 0 <= Z.of_nat i * slot_stride (h_slot_payload_size h)) by (intros; nia).
  destruct l as [| | | | | | |i|i|i|i|i], l' as [| | | | | | |j|j|j|j|j]; try done; cbn [loc_off loc_size loc_ok] in *;
    unfold cursor_off, wakeflag_off, wakeflags_offset, slot_off, OFF_CURSORS, OFF_MAGIC, OFF_VERSION,
    OFF_CAPACITY, OFF_SLOT_SIZE, OFF_MAX_SUBS, OFF_GENERATION, OFF_TAIL in *; rewrite ?Ho;
    try (pose proof (Hpos i)); try (pose proof (Hpos j)); try lia;
    destruct (Nat.lt_trichotomy i j) as [Hij|[->|Hij]]; try (pose proof (Hstep _ _ Hij)); try congruence; lia.
Qed.

(** The locations that are accessed atomically. *)
Definition atomic (l : loc) : Prop := match l with LGeneration | LTail | LCursor _ | LFlag _ | LSeq _ => True | _ => False end.

Lemma atomic_aligned l : shape_ok -> atomic l -> aligned (loc_off l) = true /\ loc_size l = 8.
Proof.
  intros [Hc Hp Hs Ho] Hl. pose proof (slots_offset_spec (h_max_subscribers h) ltac:(lia)) as [_ Hal].
  pose proof (slot_stride_spec (h_slot_payload_size h)) as [_ Hst]. unfold aligned.
  destruct l; try done; (split; [|done]); cbn [loc_off] in *; apply Z.eqb_eq; try reflexivity;
    unfold cursor_off, wakeflag_off, wakeflags_offset, slot_off, OFF_CURSORS.
  - replace (64 + Z.of_nat i * 8) with ((8 + Z.of_nat i) * 8) by lia. apply Z_mod_mult.
  - replace (64 + 8 * h_max_subscribers h + Z.of_nat i * 8) with ((8 + h_max_subscribers h + Z.of_nat i) * 8) by lia. apply Z_mod_mult.
  - rewrite Ho. apply Z.mod_divide in Hal as [a Ha]; [|lia]. apply Z.mod_divide in Hst as [b Hb]; [|lia].
    rewrite Ha, Hb. replace (a * 64 + Z.of_nat i * (b * 8)) with ((a * 8 + Z.of_nat i * b) * 8) by lia. apply Z_mod_mult.
Qed.
End locations.

(** ** The calls of publisher and subscribers *)

Inductive call :=
  | CTryPublish (data : list byte) | CPublishDropOldest (data : list byte)
  | CReceive (cursor_idx : nat) (local_cursor : Z) (out : list byte)
  | CReceiveSlice (cursor_idx : nat) (local_cursor : Z) (out : list byte)
  | CClaim (initial_cursor : Z) | CSetCursor (idx : nat) (v : Z) | CRelease (idx : nat) | CUnclaimed (idx : nat)
  | CSetWakeflag (idx : nat) | CClearWakeflag (idx : nat) | CTakeWakeflag (idx : nat)
  | CSetTail (v : Z) | CTail | CGeneration | CFull | CLags | CStats.

Inductive answer :=
  | AUnit | ABool (b : bool) | ANum (n : Z) | AIdx (i : option nat)
  | ARead (out : list byte) (c : option Z) | ASlice (out : list byte) (c : option (Z * slice_len))
  | ALags (l : list (nat * Z)) | AStats (s : ring_stats).

Definition exec (h : handle) (c : call) : M answer :=
  match c with
  | CTryPublish data => let* b := try_publish h data in ret (ABool b)
  | CPublishDropOldest data => let* b := publish_drop_oldest h data in ret (ABool b)
  | CReceive i c out => let* x := try_receive h i c out in ret (ARead x.1 x.2)
  | CReceiveSlice i c out => let* x := try_receive_into_slice h i c out in ret (ASlice x.1 x.2)
  | CClaim c => let* x := claim_cursor h c in ret (AIdx x)
  | CSetCursor i v => do* set_cursor i v in ret AUnit
  | CRelease i => do* release_cursor i in ret AUnit
  | CUnclaimed i => let* b := cursor_is_unclaimed i in ret (ABool b)
  | CSetWakeflag i => do* set_wakeflag h i in ret AUnit
  | CClearWakeflag i => do* clear_wakeflag h i in ret AUnit
  | CTakeWakeflag i => let* b := take_wakeflag h i in ret (ABool b)
  | CSetTail v => do* set_tail v in ret AUnit
  | CTail => let* v := current_tail in ret (ANum v)
  | CGeneration => let* v := generation in ret (ANum v)
  | CFull => let* b := is_full h in ret (ABool b)
  | CLags => let* l := lags_with_idx h in ret (ALags l)
  | CStats => let* s := stats h in ret (AStats s)
  end.

Fixpoint exec_all (h : handle) (cs : list call) : M (list answer) :=
  match cs with
  | [] => ret []
  | c :: cs => let* x := exec h c in let* xs := exec_all h cs in ret (x :: xs)
  end.

(** What the callers see to: payloads fit the slots, and an index is one that [claim_cursor] gave. *)
Definition call_ok (h : handle) (c : call) : Prop :=
  match c with
  | CTryPublish data | CPublishDropOldest data => zlen data <= h_slot_payload_size h
  | CReceive i _ _ | CReceiveSlice i _ _ | CSetCursor i _ | CRelease i | CUnclaimed i | CSetWakeflag i | CClearWakeflag i | CTakeWakeflag i =>
      Z.of_nat i < h_max_subscribers h
  | _ => True
  end.

(** ** No operation leaves the mapping *)

Section in_bounds.
Context {h : handle} (Hsh : shape_ok h).

(** Whatever the mapping holds, [c] neither panics nor leaves it; and its result has the property. *)
Definition stays {A} (c : M A) (Q : A -> Prop) : Prop :=
  forall m, zlen m = map_size h -> exists x m', c m = Done x m' /\ zlen m' = map_size h /\ Q x.

Lemma stays_ret {A} (x : A) (Q : A -> Prop) : Q x -> stays (ret x) Q.
Proof. intros Hq m Hm. by exists x, m. Qed.

Lemma stays_bind {A B} (c : M A) (k : A -> M B) P Q : stays c P -> (forall x, P x -> stays (k x) Q) -> stays (bind c k) Q.
Proof. intros Hc Hk m Hm. destruct (Hc m Hm) as (x & m1 & E & Hm1 & Hp). unfold bind. rewrite E. by apply Hk. Qed.

Lemma in_map_true off n (m : mem) : 0 <= off -> off + n <= zlen m -> in_map off n m = true.
Proof. intros. unfold in_map. apply andb_true_iff. split; apply Z.leb_le; lia. Qed.

Lemma stays_read l n : loc_ok h l -> 0 <= n <= loc_size h l -> stays (read_bytes (loc_off h l) n) (fun bs => zlen bs = n).
Proof.
  intros Hl Hn m Hm. pose proof (loc_bounds h l Hsh Hl) as (H0 & _ & Hb). unfold read_bytes. rewrite in_map_true by lia.
  eexists _, m. split; [done|]. split; [done|]. rewrite zlen_zslice; lia.
Qed.

Lemma stays_write l bs : loc_ok h l -> zlen bs <= loc_size h l -> stays (write_bytes (loc_off h l) bs) (fun _ => True).
Proof.
  intros Hl Hn m Hm. pose proof (loc_bounds h l Hsh Hl) as (H0 & _ & Hb). pose proof (zlen_nonneg bs). unfold write_bytes. rewrite in_map_true by lia.
  eexists _, _. split; [done|]. split; [|done]. rewrite zlen_zsplice; lia.
Qed.

Lemma stays_load l : loc_ok h l -> atomic l -> stays (load (loc_off h l)) is_u64.
Proof.
  intros Hl Ha m Hm. destruct (atomic_aligned h l Hsh Ha) as [Hal Hsz]. unfold load. rewrite Hal. apply (stays_bind _ _ (fun bs => zlen bs = 8)); [apply stays_read; [done|lia]| |done].
  intros bs Hbs. apply stays_ret. pose proof (from_le_range bs) as Hr. rewrite Hbs in Hr. exact Hr.
Qed.

Lemma stays_store l v : loc_ok h l -> atomic l -> stays (store (loc_off h l) v) (fun _ => True).
Proof.
  intros Hl Ha m Hm. destruct (atomic_aligned h l Hsh Ha) as [Hal Hsz]. unfold store. rewrite Hal. apply stays_write; [done| |done]. rewrite zlen_to_le. lia.
Qed.

Lemma stays_remainder p : stays (remainder p (h_capacity h)) (fun i => 0 <= i < h_capacity h).
Proof.
  destruct Hsh as [Hc _ _ _]. unfold remainder. destruct (Z.eqb_spec (h_capacity h) 0); [lia|]. apply stays_ret, Z.mod_pos_bound. lia.
Qed.

Lemma stays_weaken {A} (c : M A) (P Q : A -> Prop) : (forall x, P x -> Q x) -> stays c P -> stays c Q.
Proof. intros Hpq Hc m Hm. destruct (Hc m Hm) as (x & m' & ? & ? & ?). exists x, m'. eauto. Qed.

(** The slot at an index. *)
Lemma slot_loc idx : 0 <= idx < h_capacity h -> exists i, slot_off h idx = loc_off h (LSeq i) /\ slot_off h idx + 8 = loc_off h (LLen i)
  /\ slot_off h idx + 12 = loc_off h (LData i) /\ loc_ok h (LSeq i) /\ i = Z.to_nat idx.
Proof. intros Hi. exists (Z.to_nat idx). cbn [loc_off loc_ok]. rewrite Z2Nat.id by lia. repeat split; lia. Qed.

Lemma tail_loc : OFF_TAIL = loc_off h LTail.
Proof. done. Qed.

Lemma stays_cursor_load i : Z.of_nat i < h_max_subscribers h -> stays (load (cursor_off i)) is_u64.
Proof. intros. by apply (stays_load (LCursor i)). Qed.

Lemma stays_cursor_store i v : Z.of_nat i < h_max_subscribers h -> stays (store (cursor_off i) v) (fun _ => True).
Proof. intros. by apply (stays_store (LCursor i)). Qed.

Lemma stays_flag_load i : Z.of_nat i < h_max_subscribers h -> stays (load (wakeflag_off h i)) is_u64.
Proof. intros. by apply (stays_load (LFlag i)). Qed.

Lemma stays_flag_store i v : Z.of_nat i < h_max_subscribers h -> stays (store (wakeflag_off h i) v) (fun _ => True).
Proof. intros. by apply (stays_store (LFlag i)). Qed.

Lemma stays_tail_load : stays (load OFF_TAIL) is_u64.
Proof. by apply (stays_load LTail). Qed.

Lemma stays_tail_store v : stays (store OFF_TAIL v) (fun _ => True).
Proof. by apply (stays_store LTail). Qed.

Lemma stays_generation : stays (load OFF_GENERATION) is_u64.
Proof. by apply (stays_load LGeneration). Qed.

Hint Resolve stays_cursor_load stays_cursor_store stays_flag_load stays_flag_store stays_tail_load stays_tail_store stays_generation : stays.

(** The loops over the table. *)
Lemma stays_find init n : forall i, Z.of_nat i + Z.of_nat n <= h_max_subscribers h ->
  stays (find_cursor init n i) (fun x => match x with Some j => Z.of_nat j < h_max_subscribers h | None => True end).
Proof.
  induction n as [|n IH]; intros i Hi; cbn [find_cursor]; [by apply stays_ret|].
  eapply stays_bind; [apply stays_cursor_load; lia|]. intros c _. destruct (c =? CURSOR_UNCLAIMED); [|apply IH; lia].
  eapply stays_bind; [apply stays_cursor_store; lia|]. intros _ _. apply stays_ret. lia.
Qed.

Lemma stays_min n : forall i acc, Z.of_nat i + Z.of_nat n <= h_max_subscribers h -> stays (min_from n i acc) (fun _ => True).
Proof.
  induction n as [|n IH]; intros i acc Hi; cbn [min_from]; [by apply stays_ret|].
  eapply stays_bind; [apply stays_cursor_load; lia|]. intros c _. apply IH. lia.
Qed.

Lemma stays_lags t n : forall i, Z.of_nat i + Z.of_nat n <= h_max_subscribers h -> stays (lags_from t n i) (fun _ => True).
Proof.
  induction n as [|n IH]; intros i Hi; cbn [lags_from]; [by apply stays_ret|].
  eapply stays_bind; [apply stays_cursor_load; lia|]. intros c _. eapply stays_bind; [apply IH; lia|]. intros l _. by apply stays_ret.
Qed.

Lemma subs_count_le : Z.of_nat 0 + Z.of_nat (subs_count h) <= h_max_subscribers h.
Proof. destruct Hsh. unfold subs_count. lia. Qed.

Lemma stays_write_slot t data : zlen data <= h_slot_payload_size h -> stays (write_slot h t data) (fun _ => True).
Proof.
  intros Hd. unfold write_slot. eapply stays_bind; [apply stays_remainder|]. intros idx Hi. destruct (slot_loc idx Hi) as (i & E1 & E2 & E3 & Hl & _).
  cbv zeta. rewrite E2, E3, E1. eapply stays_bind; [by apply stays_store|]. intros _ _.
  eapply stays_bind; [apply stays_write; [done|by rewrite zlen_to_le]|]. intros _ _.
  eapply stays_bind; [by apply stays_write|]. intros _ _. by apply stays_store.
Qed.

Lemma stays_receive n ci : Z.of_nat ci < h_max_subscribers h -> forall e out, stays (receive_loop h n ci e out) (fun _ => True).
Proof.
  intros Hci. induction n as [|n IH]; intros e out; cbn [receive_loop]; [by apply stays_ret|].
  eapply stays_bind; [apply stays_remainder|]. intros idx Hi. destruct (slot_loc idx Hi) as (i & E1 & E2 & E3 & Hl & _). cbv zeta. rewrite E2, E3, E1.
  eapply stays_bind; [by apply stays_load|]. intros sb _. destruct (negb _); [apply IH|]. destruct (e <? sb); [apply IH|].
  destruct (sb <? e); [by apply stays_ret|]. unfold read_u32. eapply stays_bind.
  { eapply stays_bind; [apply (stays_read (LLen i) 4); [done|cbn; lia]|]. intros bs Hbs. apply (stays_ret _ (fun n => 0 <= n)). apply from_le_range. }
  intros len Hlen. cbv beta in Hlen. destruct (Z.ltb_spec (h_slot_payload_size h) len); [apply IH|].
  eapply stays_bind; [apply (stays_read (LData i) len); [done|cbn; lia]|]. intros bs _.
  eapply stays_bind; [by apply stays_load|]. intros sa _. destruct (negb _); [apply IH|].
  eapply stays_bind; [by apply stays_cursor_store|]. intros _ _. by apply stays_ret.
Qed.

Lemma stays_receive_slice n ci : Z.of_nat ci < h_max_subscribers h -> forall e out, stays (receive_slice_loop h n ci e out) (fun _ => True).
Proof.
  intros Hci. induction n as [|n IH]; intros e out; cbn [receive_slice_loop]; [by apply stays_ret|].
  eapply stays_bind; [apply stays_remainder|]. intros idx Hi. destruct (slot_loc idx Hi) as (i & E1 & E2 & E3 & Hl & _). cbv zeta. rewrite E2, E3, E1.
  eapply stays_bind; [by apply stays_load|]. intros sb _. destruct (negb _); [apply IH|]. destruct (e <? sb); [apply IH|].
  destruct (sb <? e); [by apply stays_ret|]. unfold read_u32. eapply stays_bind.
  { eapply stays_bind; [apply (stays_read (LLen i) 4); [done|cbn; lia]|]. intros bs Hbs. apply (stays_ret _ (fun n => 0 <= n)). apply from_le_range. }
  intros len Hlen. cbv beta in Hlen. destruct (Z.ltb_spec (h_slot_payload_size h) len); [apply IH|]. destruct (zlen out <? len).
  { eapply stays_bind; [by apply stays_cursor_store|]. intros _ _. by apply stays_ret. }
  eapply stays_bind; [apply (stays_read (LData i) len); [done|cbn; lia]|]. intros bs _.
  eapply stays_bind; [by apply stays_load|]. intros sa _. destruct (negb _); [apply IH|].
  eapply stays_bind; [by apply stays_cursor_store|]. intros _ _. by apply stays_ret.
Qed.

Lemma stays_exec c : call_ok h c -> stays (exec h c) (fun _ => True).
Proof.
  pose proof subs_count_le as Hsubs. destruct Hsh as [Hc Hp Hs Ho].
  assert (Htail : forall A (k : Z -> M A), (forall t, stays (k t) (fun _ => True)) -> stays (let* t := current_tail in k t) (fun _ => True)).
  { intros A k Hk. eapply stays_bind; [apply stays_tail_load|]. intros t _. apply Hk. }
  assert (Hans : forall A (x : M A) (f : A -> answer), stays x (fun _ => True) -> stays (let* y := x in ret (f y)) (fun _ => True)).
  { intros A x f Hx. eapply stays_bind; [exact Hx|]. intros y _. by apply stays_ret. }
  destruct c; cbn [exec call_ok]; intros Hok; apply Hans;
    try (unfold set_cursor, release_cursor, set_wakeflag, clear_wakeflag, set_tail, current_tail, generation; solve [eauto using stays_weaken with stays]).
  - unfold try_publish. destruct (Z.leb_spec (zlen data) (h_slot_payload_size h)); [|lia]. apply Htail. intros t.
    eapply stays_bind; [by apply stays_min|]. intros x _. destruct (_ <=? _); [by apply stays_ret|].
    eapply stays_bind; [by apply stays_write_slot|]. intros _ _. eapply stays_bind; [apply stays_tail_store|]. intros _ _. by apply stays_ret.
  - unfold publish_drop_oldest. apply Htail. intros t.
    eapply stays_bind; [by apply stays_write_slot|]. intros _ _. eapply stays_bind; [apply stays_tail_store|]. intros _ _. by apply stays_ret.
  - unfold try_receive. apply Htail. intros t. destruct (_ <=? _); [by apply stays_ret|by apply stays_receive].
  - unfold try_receive_into_slice. apply Htail. intros t. destruct (_ <=? _); [by apply stays_ret|by apply stays_receive_slice].
  - unfold claim_cursor. eapply stays_bind; [by apply stays_find|]. intros [i|] Hi; [|by apply stays_ret].
    eapply stays_bind; [by apply stays_flag_store|]. intros _ _. by apply stays_ret.
  - unfold cursor_is_unclaimed. eapply stays_bind; [by apply stays_cursor_load|]. intros v _. by apply stays_ret.
  - unfold take_wakeflag. eapply stays_bind; [by apply stays_flag_load|]. intros v _. eapply stays_bind; [by apply stays_flag_store|]. intros _ _. by apply stays_ret.
  - unfold is_full. apply Htail. intros t. eapply stays_bind; [by apply stays_min|]. intros x _. by apply stays_ret.
  - unfold lags_with_idx. apply Htail. intros t. by apply stays_lags.
  - unfold stats. apply Htail. intros t. eapply stays_bind; [by apply stays_lags|]. intros l _. by apply stays_ret.
Qed.

Lemma stays_exec_all cs : Forall (call_ok h) cs -> stays (exec_all h cs) (fun _ => True).
Proof.
  induction 1 as [|c cs Hc _ IH]; cbn [exec_all]; [by apply stays_ret|].
  eapply stays_bind; [by apply stays_exec|]. intros x _. eapply stays_bind; [exact IH|]. intros xs _. by apply stays_ret.
Qed.
End in_bounds.

(** C12: no call leaves the mapping or panics, whatever the bytes in it are: other processes write them.  All that
    is asked is that the file has the size its header's shape needs, that payloads fit a slot and that
    indices come from the table. *)
Theorem ring_stays_in_the_mapping h cs m : shape_ok h -> zlen m = map_size h -> Forall (call_ok h) cs ->
  exists xs m', exec_all h cs m = Done xs m' /\ zlen m' = map_size h.
Proof. intros Hsh Hm Hcs. destruct (stays_exec_all Hsh cs Hcs m Hm) as (xs & m' & E & Hm' & _). by exists xs, m'. Qed.

(** ** The bytes are the ring's *)

Definition at_loc (h : handle) (l : loc) (m : mem) : list byte := zslice (loc_off h l) (loc_off h l + loc_size h l) m.

(** The mapping has [f] at every location. *)
Definition holds (h : handle) (m : mem) (f : loc -> list byte) : Prop :=
  zlen m = map_size h /\ forall l, loc_ok h l -> at_loc h l m = f l.

Lemma mem_holds_length h m f l : shape_ok h -> holds h m f -> loc_ok h l -> zlen (f l) = loc_size h l.
Proof.
  intros Hsh [Hm Hf] Hl. pose proof (loc_bounds h l Hsh Hl). rewrite <- (Hf l Hl). unfold at_loc. rewrite zlen_zslice; lia.
Qed.

Lemma holds_write h m f f' l : shape_ok h -> holds h m f -> loc_ok h l -> zlen (f' l) = loc_size h l ->
  (forall l', loc_ok h l' -> l' <> l -> f' l' = f l') -> exists m', write_bytes (loc_off h l) (f' l) m = Done tt m' /\ holds h m' f'.
Proof.
  intros Hsh [Hm Hf] Hl Hlen Hother. pose proof (loc_bounds h l Hsh Hl) as (H0 & H1 & H2).
  unfold write_bytes. rewrite in_map_true by lia. eexists. split; [done|]. split; [rewrite zlen_zsplice; lia|].
  intros l' Hl'. unfold at_loc. destruct (decide (l' = l)) as [->|Hne].
  - rewrite <- Hlen. apply zslice_zsplice_eq; lia.
  - rewrite (Hother l') by done. rewrite <- (Hf l' Hl'). pose proof (loc_bounds h l' Hsh Hl') as (G0 & G1 & G2).
    apply zslice_zsplice_ne; try lia. rewrite Hlen. destruct (loc_apart h l' l Hsh Hl' Hl Hne); [by left|by right].
Qed.

Lemma holds_read h m f l : shape_ok h -> holds h m f -> loc_ok h l -> read_bytes (loc_off h l) (loc_size h l) m = Done (f l) m.
Proof.
  intros Hsh [Hm Hf] Hl. pose proof (loc_bounds h l Hsh Hl) as (H0 & H1 & H2). unfold read_bytes. rewrite in_map_true by lia.
  f_equal. by apply Hf.
Qed.

(** What is where. *)
Definition content (r : ring) (l : loc) : list byte :=
  match l with
  | LMagic => to_le 8 MAGIC | LVersion => to_le 4 5
  | LCapacity => to_le 4 (capacity r) | LSlotSize => to_le 4 (slot_payload_size r) | LMaxSubs => to_le 4 (max_subscribers r)
  | LGeneration => to_le 8 (Ring.generation r) | LTail => to_le 8 (tail r)
  | LCursor i => to_le 8 (cursor_at r i) | LFlag i => to_le 8 (wakeflag r i)
  | LSeq i => to_le 8 (seq (slot_at r (Z.of_nat i))) | LLen i => to_le 4 (slen (slot_at r (Z.of_nat i)))
  | LData i => sdata (slot_at r (Z.of_nat i))
  end.

Definition flags_ok (r : ring) : Prop := Forall is_u64 (wakeflags r).
Definition mem_repr (m : mem) (r : ring) : Prop := holds (handle_of r) m (content r) /\ flags_ok r.

(** The tables of a ring, which an operation does not resize. *)
Record tables_ok (r : ring) : Prop := {
  tb_shape : shape_ok (handle_of r);
  tb_cursors : zlen (cursors r) = max_subscribers r;
  tb_flags : zlen (wakeflags r) = max_subscribers r;
  tb_slots : zlen (slots r) = capacity r
}.

Lemma ring_wf_tables r : ring_wf r -> tables_ok r.
Proof. intros []. constructor; [constructor|..]; done. Qed.

(** On a mapping that holds [r], [c] returns [x], and then it holds [r']. *)
Definition does {A} (c : M A) (r : ring) (x : A) (r' : ring) : Prop :=
  forall m, mem_repr m r -> exists m', c m = Done x m' /\ mem_repr m' r'.

Lemma does_ret {A} (x : A) r : does (ret x) r x r.
Proof. intros m Hm. by exists m. Qed.

Lemma does_bind {A B} (c : M A) (k : A -> M B) r x r1 y r2 : does c r x r1 -> does (k x) r1 y r2 -> does (bind c k) r y r2.
Proof. intros Hc Hk m Hm. destruct (Hc m Hm) as (m1 & E & Hm1). unfold bind. rewrite E. by apply Hk. Qed.

(** A store that makes [r] into [r']. *)
Record stored (r : ring) (l : loc) (r' : ring) : Prop := {
  st_handle : handle_of r' = handle_of r;
  st_other : forall l', loc_ok (handle_of r) l' -> l' <> l -> content r' l' = content r l';
  st_flags : flags_ok r -> flags_ok r'
}.

Lemma does_write r l bs r' : tables_ok r -> loc_ok (handle_of r) l -> stored r l r' -> content r' l = bs -> zlen bs = loc_size (handle_of r) l ->
  does (write_bytes (loc_off (handle_of r) l) bs) r tt r'.
Proof.
  intros Ht Hl [Hh Hoth Hfl] <- Hlen m [Hm Hf]. destruct (holds_write (handle_of r) m (content r) (content r') l) as (m' & E & Hm'); try done; [apply Ht|].
  exists m'. split; [done|]. split; [by rewrite Hh|by apply Hfl].
Qed.

Lemma does_store r l v r' : tables_ok r -> loc_ok (handle_of r) l -> atomic l -> stored r l r' -> content r' l = to_le 8 v ->
  does (store (loc_off (handle_of r) l) v) r tt r'.
Proof.
  intros Ht Hl Ha Hs Hc m Hm. destruct (atomic_aligned (handle_of r) l (tb_shape _ Ht) Ha) as [Hal Hsz]. unfold store. rewrite Hal.
  apply (does_write r l (to_le 8 v) r'); [done|done|done|done| |done]. rewrite zlen_to_le. lia.
Qed.

Lemma does_load r l v : tables_ok r -> loc_ok (handle_of r) l -> atomic l -> content r l = to_le 8 v -> is_u64 v ->
  does (load (loc_off (handle_of r) l)) r v r.
Proof.
  intros Ht Hl Ha Hc Hv m Hm. destruct (atomic_aligned (handle_of r) l (tb_shape _ Ht) Ha) as [Hal Hsz]. exists m. split; [|done].
  pose proof (holds_read _ m _ l (tb_shape _ Ht) (proj1 Hm) Hl) as E. rewrite Hsz, Hc in E.
  unfold load. rewrite Hal. unfold read_u64, bind. rewrite E. unfold ret. by rewrite from_to_le_small.
Qed.

Lemma does_read_u32 r l v : tables_ok r -> loc_ok (handle_of r) l -> loc_size (handle_of r) l = 4 -> content r l = to_le 4 v -> 0 <= v < two32 ->
  does (read_u32 (loc_off (handle_of r) l)) r v r.
Proof.
  intros Ht Hl Hsz Hc Hv m Hm. exists m. split; [|done]. pose proof (holds_read _ m _ l (tb_shape _ Ht) (proj1 Hm) Hl) as E. rewrite Hsz, Hc in E.
  unfold read_u32, bind. rewrite E. unfold ret. by rewrite from_to_le_small.
Qed.

(** *** The fields *)

Lemma stored_tail v r : stored r LTail (with_tail v r).
Proof. constructor; [done| |done]. by intros [] _ Hne. Qed.

Lemma stored_generation v r : stored r LGeneration (with_generation v r).
Proof. constructor; [done| |done]. by intros [] _ Hne. Qed.

Lemma stored_cursor i v r : stored r (LCursor i) (Ring.set_cursor i v r).
Proof.
  constructor; [done| |done]. intros [| | | | | | |j|j|j|j|j] _ Hne; try done. cbn. unfold cursor_at. cbn.
  rewrite list_lookup_insert_ne by congruence. done.
Qed.

Lemma stored_flag i v r : is_u64 v -> stored r (LFlag i) (with_wakeflags (<[i := v]> (wakeflags r)) r).
Proof.
  intros Hv. constructor; [done| |intros Hf; by apply Forall_insert]. intros [| | | | | | |j|j|j|j|j] _ Hne; try done. cbn. unfold wakeflag. cbn.
  rewrite list_lookup_insert_ne by congruence. done.
Qed.

(** One field of one slot. *)
Lemma stored_slot r l i f : tables_ok r -> Z.of_nat i < capacity r ->
  (forall l', l' <> l -> match l' with
     | LSeq j => i = j -> forall s, seq (f s) = seq s
     | LLen j => i = j -> forall s, slen (f s) = slen s
     | LData j => i = j -> forall s, sdata (f s) = sdata s
     | _ => True end) ->
  stored r l (upd_slot (Z.of_nat i) f r).
Proof.
  intros Ht Hi Hf. constructor; [done| |done]. intros l' Hl' Hne. specialize (Hf l' Hne).
  destruct l' as [| | | | | | |j|j|j|j|j]; try done; cbn [loc_ok handle_of h_capacity content] in *;
    rewrite slot_at_upd by (rewrite ?(tb_slots _ Ht); lia);
    (destruct (decide (Z.of_nat i = Z.of_nat j)) as [E|]; [rewrite Hf by lia|]; done).
Qed.

Lemma slot_at_same r i f : tables_ok r -> Z.of_nat i < capacity r -> slot_at (upd_slot (Z.of_nat i) f r) (Z.of_nat i) = f (slot_at r (Z.of_nat i)).
Proof. intros Ht Hi. rewrite slot_at_upd, decide_True by (rewrite ?(tb_slots _ Ht); lia). done. Qed.

Lemma upd_slot_tables r i f : tables_ok r -> tables_ok (upd_slot i f r).
Proof. intros [H1 H2 H3 H4]. constructor; try done. cbn. unfold zlen in *. by rewrite length_alter. Qed.

(** *** The operations *)

Section refine.
Context {r : ring} (Hwf : ring_wf r).

Lemma cursor_u64 i : is_u64 (cursor_at r i).
Proof.
  unfold cursor_at. destruct (cursors r !! i) eqn:E; [|exact unclaimed_u64]. eapply Forall_lookup_1; [apply Hwf|exact E].
Qed.

Lemma flag_u64 i : flags_ok r -> is_u64 (wakeflag r i).
Proof. intros Hf. unfold wakeflag. destruct (wakeflags r !! i) eqn:E; [eapply Forall_lookup_1; [exact Hf|exact E]|done]. Qed.

Lemma does_tail : does current_tail r (tail r) r.
Proof. apply (does_load r LTail); [by apply ring_wf_tables|done|done|done|apply Hwf]. Qed.

Lemma does_generation : does generation r (Ring.generation r) r.
Proof. apply (does_load r LGeneration); [by apply ring_wf_tables|done|done|done|apply Hwf]. Qed.

Lemma does_set_tail v : does (store OFF_TAIL v) r tt (with_tail v r).
Proof. apply (does_store r LTail); [by apply ring_wf_tables|done|done|apply stored_tail|done]. Qed.

Lemma does_cursor i : Z.of_nat i < max_subscribers r -> does (load (cursor_off i)) r (cursor_at r i) r.
Proof. intros Hi. apply (does_load r (LCursor i)); [by apply ring_wf_tables|done|done|done|apply cursor_u64]. Qed.

Lemma does_set_cursor i v : Z.of_nat i < max_subscribers r -> does (store (cursor_off i) v) r tt (Ring.set_cursor i v r).
Proof.
  intros Hi. apply (does_store r (LCursor i)); [by apply ring_wf_tables|done|done|apply stored_cursor|]. cbn. unfold cursor_at. cbn.
  rewrite list_lookup_insert_eq; [done|]. pose proof (wf_cursors_len _ Hwf). unfold zlen in *. lia.
Qed.

Lemma does_flag i : Z.of_nat i < max_subscribers r -> does (load (wakeflag_off (handle_of r) i)) r (wakeflag r i) r.
Proof.
  intros Hi m Hm. apply (does_load r (LFlag i)); [by apply ring_wf_tables|done|done|done|apply flag_u64, Hm|done].
Qed.

Lemma does_set_flag i v : Z.of_nat i < max_subscribers r -> is_u64 v ->
  does (store (wakeflag_off (handle_of r) i) v) r tt (with_wakeflags (<[i := v]> (wakeflags r)) r).
Proof.
  intros Hi Hv. apply (does_store r (LFlag i)); [by apply ring_wf_tables|done|done|by apply stored_flag|]. cbn. unfold wakeflag. cbn.
  rewrite list_lookup_insert_eq; [done|]. pose proof (wf_wakeflags_len _ Hwf). unfold zlen in *. lia.
Qed.

(** The loops over the table, from the entry [i] on. *)
Lemma cursors_step i n : Z.of_nat i + Z.of_nat (S n) = max_subscribers r -> drop i (cursors r) = cursor_at r i :: drop (S i) (cursors r).
Proof.
  intros Hi. pose proof (wf_cursors_len _ Hwf) as Hl. unfold zlen in Hl. unfold cursor_at.
  destruct (lookup_lt_is_Some_2 (cursors r) i ltac:(lia)) as [c Hc]. rewrite Hc. by apply drop_S.
Qed.

Lemma cursors_end i : Z.of_nat i + 0 = max_subscribers r -> drop i (cursors r) = [].
Proof. intros Hi. pose proof (wf_cursors_len _ Hwf) as Hl. unfold zlen in Hl. apply drop_ge. lia. Qed.

Lemma does_find init n : forall i, Z.of_nat i + Z.of_nat n = max_subscribers r ->
  let x := (fun j => i + j)%nat <$> find_unclaimed (drop i (cursors r)) in
  does (find_cursor init n i) r x (match x with Some j => Ring.set_cursor j init r | None => r end).
Proof.
  induction n as [|n IH]; intros i Hi; cbn [find_cursor].
  { rewrite cursors_end by lia. apply does_ret. }
  rewrite (cursors_step i n Hi). cbn [find_unclaimed]. eapply does_bind; [apply does_cursor; lia|].
  destruct (cursor_at r i =? CURSOR_UNCLAIMED).
  - cbn. rewrite Nat.add_0_r. eapply does_bind; [apply does_set_cursor; lia|]. apply does_ret.
  - specialize (IH (S i) ltac:(lia)). destruct (find_unclaimed (drop (S i) (cursors r))) as [j|]; cbn in IH |- *; [|exact IH].
    by rewrite Nat.add_succ_r.
Qed.

(** The minimum that is carried along, and that of the rest. *)
Definition min_with (acc m : option Z) : option Z :=
  match acc, m with Some a, Some b => Some (Z.min a b) | Some a, None => Some a | None, m => m end.

Lemma does_min n : forall i acc, Z.of_nat i + Z.of_nat n = max_subscribers r ->
  does (min_from n i acc) r (min_with acc (min_active (drop i (cursors r)))) r.
Proof.
  induction n as [|n IH]; intros i acc Hi; cbn [min_from].
  { rewrite cursors_end by lia. destruct acc; apply does_ret. }
  rewrite (cursors_step i n Hi). cbn [min_active]. eapply does_bind; [apply does_cursor; lia|]. specialize (IH (S i)).
  destruct (cursor_at r i =? CURSOR_UNCLAIMED); [apply IH; lia|].
  specialize (IH (Some (match acc with Some m => Z.min m (cursor_at r i) | None => cursor_at r i end)) ltac:(lia)).
  destruct (min_active (drop (S i) (cursors r))) as [b|], acc as [a|]; cbn [min_with] in *; rewrite ?Z.min_assoc; exact IH.
Qed.

Lemma subs_count_eq : Z.of_nat 0 + Z.of_nat (subs_count (handle_of r)) = max_subscribers r.
Proof. destruct Hwf. unfold subs_count. cbn. lia. Qed.

Lemma does_min_active : does (min_active_cursor (handle_of r)) r (Ring.min_active_cursor r) r.
Proof. exact (does_min _ 0%nat None subs_count_eq). Qed.

Lemma does_lags t n : forall i, Z.of_nat i + Z.of_nat n = max_subscribers r -> does (lags_from t n i) r (Ring.lags_from i t (drop i (cursors r))) r.
Proof.
  induction n as [|n IH]; intros i Hi; cbn [lags_from].
  { rewrite cursors_end by lia. apply does_ret. }
  rewrite (cursors_step i n Hi). cbn [Ring.lags_from]. eapply does_bind; [apply does_cursor; lia|].
  eapply does_bind; [apply IH; lia|]. destruct (cursor_at r i =? CURSOR_UNCLAIMED); apply does_ret.
Qed.

Lemma does_claim init : is_u64 init ->
  let '(r', x) := Ring.claim_cursor init r in does (claim_cursor (handle_of r) init) r x r'.
Proof.
  intros Hi. unfold Ring.claim_cursor, claim_cursor. pose proof (does_find init _ 0%nat subs_count_eq) as Hf. rewrite drop_0 in Hf. cbv zeta in Hf.
  destruct (find_unclaimed (cursors r)) as [i|] eqn:E; cbn in Hf.
  - eapply does_bind; [exact Hf|]. cbn beta iota. apply find_unclaimed_Some in E as [Ei _]. apply lookup_lt_Some in Ei.
    pose proof (wf_cursors_len _ Hwf) as Hl. pose proof (wf_wakeflags_len _ Hwf) as Hl'. unfold zlen in Hl, Hl'.
    eapply does_bind; [|apply does_ret]. unfold clear_wakeflag.
    assert (Hwf' : ring_wf (Ring.set_cursor i init r)) by (by apply set_cursor_wf).
    apply (does_store (Ring.set_cursor i init r) (LFlag i)); [by apply ring_wf_tables|cbn; lia|done|by apply stored_flag|].
    cbn. unfold wakeflag. cbn. rewrite list_lookup_insert_eq by lia. done.
  - eapply does_bind; [exact Hf|]. apply does_ret.
Qed.

(** A position's slot. *)
Lemma does_index p : does (remainder p (h_capacity (handle_of r))) r (slot_index r p) r.
Proof.
  unfold remainder. pose proof (wf_capacity _ Hwf). cbn [handle_of h_capacity]. destruct (Z.eqb_spec (capacity r) 0); [lia|]. apply does_ret.
Qed.

Lemma index_loc p : exists i, slot_index r p = Z.of_nat i /\ loc_ok (handle_of r) (LSeq i).
Proof.
  pose proof (slot_index_range r p ltac:(apply Hwf)). exists (Z.to_nat (slot_index r p)). cbn. lia.
Qed.

Lemma does_seq i : loc_ok (handle_of r) (LSeq i) -> does (load (slot_off (handle_of r) (Z.of_nat i))) r (seq (slot_at r (Z.of_nat i))) r.
Proof.
  intros Hi. apply (does_load r (LSeq i)); [by apply ring_wf_tables|done|done|done|].
  unfold slot_at. destruct (slots r !! Z.to_nat (Z.of_nat i)) as [s|] eqn:E; [|done].
  pose proof (wf_slots _ Hwf) as Hs. rewrite Forall_lookup in Hs. apply (Hs _ _ E).
Qed.

Lemma slot_at_in i : loc_ok (handle_of r) (LSeq i) -> slot_wf (slot_payload_size r) (slot_at r (Z.of_nat i)).
Proof.
  intros Hi. cbn in Hi. unfold slot_at. rewrite Nat2Z.id. pose proof (wf_slots_len _ Hwf) as Hl. unfold zlen in Hl.
  destruct (lookup_lt_is_Some_2 (slots r) i ltac:(lia)) as [s E]. rewrite E. pose proof (wf_slots _ Hwf) as Hs. rewrite Forall_lookup in Hs. exact (Hs _ _ E).
Qed.

Lemma does_len i : loc_ok (handle_of r) (LSeq i) -> does (read_u32 (slot_off (handle_of r) (Z.of_nat i) + 8)) r (slen (slot_at r (Z.of_nat i))) r.
Proof.
  intros Hi. apply (does_read_u32 r (LLen i)); [by apply ring_wf_tables|done|done|done|].
  destruct (slot_at_in i Hi) as (_ & Hl & _). pose proof (wf_slot_size _ Hwf). lia.
Qed.

Lemma does_payload i n : loc_ok (handle_of r) (LSeq i) -> 0 <= n <= slot_payload_size r ->
  does (read_bytes (slot_off (handle_of r) (Z.of_nat i) + 12) n) r (ztake n (sdata (slot_at r (Z.of_nat i)))) r.
Proof.
  intros Hi Hn m Hm. exists m. split; [|done]. pose proof (ring_wf_tables _ Hwf) as Ht.
  pose proof (loc_bounds (handle_of r) (LData i) (tb_shape _ Ht) Hi) as (H0 & _ & Hb). cbn [loc_off loc_size handle_of h_slot_payload_size] in *.
  destruct Hm as [[Hm Hf] _]. specialize (Hf (LData i) Hi). cbn [content] in Hf. rewrite <- Hf. unfold at_loc. rewrite ztake_zslice by (cbn; lia).
  unfold read_bytes. rewrite in_map_true by lia. done.
Qed.

(** Writing a slot, one store after the other: each needs only the tables. *)
Lemma does_write_slot t data : is_u64 t -> zlen data <= slot_payload_size r -> does (write_slot (handle_of r) t data) r tt (Ring.write_slot t data r).
Proof.
  intros Ht Hd. unfold write_slot. eapply does_bind; [apply does_index|]. destruct (index_loc t) as (i & Ei & Hi). rewrite Ei. cbv zeta.
  pose proof (ring_wf_tables _ Hwf) as T0. destruct (slot_at_in i Hi) as (_ & _ & Hsd). pose proof (zlen_nonneg data).
  unfold Ring.write_slot. change (slot_index _ t) with (slot_index r t). rewrite Ei.
  set (r1 := upd_slot _ (set_seq _) r). assert (T1 : tables_ok r1) by by apply upd_slot_tables.
  set (r2 := upd_slot _ (set_len _) r1). assert (T2 : tables_ok r2) by by apply upd_slot_tables.
  set (r3 := upd_slot _ (set_bytes 0 data) r2). assert (T3 : tables_ok r3) by by apply upd_slot_tables.
  assert (S1 : slot_at r1 (Z.of_nat i) = set_seq (Z.lor t SEQ_WRITING_BIT) (slot_at r (Z.of_nat i))) by by apply slot_at_same.
  assert (S2 : slot_at r2 (Z.of_nat i) = set_len (zlen data) (slot_at r1 (Z.of_nat i))) by by apply slot_at_same.
  assert (S3 : slot_at r3 (Z.of_nat i) = set_bytes 0 data (slot_at r2 (Z.of_nat i))) by by apply slot_at_same.
  eapply (does_bind _ _ _ _ r1).
  { apply (does_store r (LSeq i)); [done|done|done| |cbn [content]; by rewrite S1].
    apply stored_slot; [done|done|]. intros [] Hne; try done; intros ->; congruence. }
  eapply (does_bind _ _ _ _ r2).
  { apply (does_write r1 (LLen i)); [done|done| |cbn [content]; by rewrite S2|by rewrite zlen_to_le].
    apply stored_slot; [done|done|]. intros [] Hne; try done; intros ->; congruence. }
  eapply (does_bind _ _ _ _ r3).
  { intros m Hm. assert (Hr2 : sdata (slot_at r2 (Z.of_nat i)) = sdata (slot_at r (Z.of_nat i))) by by rewrite S2, S1.
    pose proof (loc_bounds (handle_of r) (LData i) (tb_shape _ T0) Hi) as (H0 & _ & Hb). cbn [loc_off loc_size handle_of h_slot_payload_size] in *.
    pose proof Hm as [[Hsz Hf] _]. specialize (Hf (LData i) Hi). unfold at_loc in Hf. cbn [content loc_off loc_size] in Hf.
    change (handle_of r2) with (handle_of r) in *. cbn [handle_of h_slot_payload_size] in Hf.
    destruct (does_write r2 (LData i) (zsplice 0 data (sdata (slot_at r2 (Z.of_nat i)))) r3 T2) with (m := m) as (m' & E & Hm'); try done.
    - apply stored_slot; [done|done|]. intros [] Hne; try done; intros ->; congruence.
    - cbn [content]. by rewrite S3.
    - rewrite Hr2, zlen_zsplice by lia. exact Hsd.
    - exists m'. split; [|done]. change (loc_off (handle_of r2) (LData i)) with (slot_off (handle_of r) (Z.of_nat i) + 12) in E. rewrite <- E. unfold write_bytes. rewrite zlen_zsplice, Hr2, Hsd by (rewrite ?Hr2; lia).
      rewrite !in_map_true by lia. by rewrite <- Hr2, <- Hf, zsplice_within by lia. }
  apply (does_store r3 (LSeq i)); [done|done|done| |cbn [content]; by rewrite slot_at_same].
  apply stored_slot; [done|done|]. intros [] Hne; try done; intros ->; congruence.
Qed.

Lemma does_publish_slot data : zlen data <= slot_payload_size r ->
  does (do* write_slot (handle_of r) (tail r) data in do* store OFF_TAIL (wrap64 (tail r + 1)) in ret true) r true
    (with_tail (wrap64 (tail r + 1)) (Ring.write_slot (tail r) data r)).
Proof.
  intros Hd. pose proof (wf_tail _ Hwf) as Ht. eapply does_bind; [by apply does_write_slot|].
  assert (Hwf' : ring_wf (Ring.write_slot (tail r) data r)) by (by apply write_slot_wf).
  eapply does_bind; [|apply does_ret].
  apply (does_store _ LTail); [by apply ring_wf_tables|done|done|apply stored_tail|done].
Qed.

Lemma does_try_publish data : zlen data <= slot_payload_size r ->
  exists r' b, Ring.try_publish data r = Some (r', b) /\ does (try_publish (handle_of r) data) r b r'.
Proof.
  intros Hd. unfold Ring.try_publish, try_publish. cbn [handle_of h_slot_payload_size]. rewrite (proj2 (Z.leb_le _ _) Hd).
  set (full := capacity r <=? _). exists (if full then r else with_tail (wrap64 (tail r + 1)) (Ring.write_slot (tail r) data r)), (negb full).
  split; [by destruct full|]. eapply does_bind; [by apply does_tail|]. eapply does_bind; [by apply does_min_active|].
  cbn [handle_of h_capacity]. change (capacity r <=? wrapping_sub (tail r) (default (tail r) (Ring.min_active_cursor r))) with full.
  destruct full; [apply does_ret|by apply does_publish_slot].
Qed.

(** The retry loops take the same turns. *)
Ltac read_seq Ei s := eapply does_bind; [apply does_index|]; rewrite Ei; eapply does_bind; [by apply does_seq|]; fold s.

Lemma does_receive_loop n ci : Z.of_nat ci < max_subscribers r -> forall e out,
  let '(r', out', c) := Ring.receive_loop n ci e out r in does (receive_loop (handle_of r) n ci e out) r (out', c) r'.
Proof.
  intros Hci. induction n as [|n IH]; intros e out; cbn [receive_loop Ring.receive_loop]; [apply does_ret|].
  destruct (index_loc e) as (i & Ei & Hi). rewrite Ei. set (s := slot_at r (Z.of_nat i)). destruct (slot_at_in i Hi) as (_ & Hl & _). fold s in Hl.
  assert (Hlen : slot_payload_size r <? slen s = false) by (apply Z.ltb_ge; lia). rewrite Hlen. cbv zeta.
  assert (Hend : seq s =? seq s = true) by apply Z.eqb_refl. rewrite Hend. cbn [negb].
  destruct (negb (Z.land (seq s) SEQ_WRITING_BIT =? 0)) eqn:E1; [|destruct (e <? seq s) eqn:E2; [|destruct (seq s <? e) eqn:E3]].
  - specialize (IH e out). destruct (Ring.receive_loop n ci e out r) as [[r' out'] c]. read_seq Ei s. by rewrite E1.
  - specialize (IH (seq s) out). destruct (Ring.receive_loop n ci (seq s) out r) as [[r' out'] c]. read_seq Ei s. by rewrite E1, E2.
  - read_seq Ei s. rewrite E1, E2, E3. apply does_ret.
  - read_seq Ei s. rewrite E1, E2, E3. eapply does_bind; [by apply does_len|]. fold s.
    cbn [handle_of h_slot_payload_size]. rewrite Hlen. eapply does_bind; [by apply (does_payload i (slen s))|].
    eapply does_bind; [by apply does_seq|]. fold s. rewrite Hend. cbn [negb]. eapply does_bind; [by apply does_set_cursor|]. apply does_ret.
Qed.

Lemma does_receive_slice_loop n ci : Z.of_nat ci < max_subscribers r -> forall e out,
  let '(r', out', c) := Ring.receive_slice_loop n ci e out r in does (receive_slice_loop (handle_of r) n ci e out) r (out', c) r'.
Proof.
  intros Hci. induction n as [|n IH]; intros e out; cbn [receive_slice_loop Ring.receive_slice_loop]; [apply does_ret|].
  destruct (index_loc e) as (i & Ei & Hi). rewrite Ei. set (s := slot_at r (Z.of_nat i)). destruct (slot_at_in i Hi) as (_ & Hl & _). fold s in Hl.
  assert (Hlen : slot_payload_size r <? slen s = false) by (apply Z.ltb_ge; lia). rewrite Hlen. cbv zeta.
  assert (Hend : seq s =? seq s = true) by apply Z.eqb_refl. rewrite Hend. cbn [negb].
  destruct (negb (Z.land (seq s) SEQ_WRITING_BIT =? 0)) eqn:E1; [|destruct (e <? seq s) eqn:E2; [|destruct (seq s <? e) eqn:E3; [|destruct (zlen out <? slen s) eqn:E4]]].
  - specialize (IH e out). destruct (Ring.receive_slice_loop n ci e out r) as [[r' out'] c]. read_seq Ei s. by rewrite E1.
  - specialize (IH (seq s) out). destruct (Ring.receive_slice_loop n ci (seq s) out r) as [[r' out'] c]. read_seq Ei s. by rewrite E1, E2.
  - read_seq Ei s. rewrite E1, E2, E3. apply does_ret.
  - read_seq Ei s. rewrite E1, E2, E3. eapply does_bind; [by apply does_len|]. fold s.
    cbn [handle_of h_slot_payload_size]. rewrite Hlen, E4. eapply does_bind; [by apply does_set_cursor|]. apply does_ret.
  - read_seq Ei s. rewrite E1, E2, E3. eapply does_bind; [by apply does_len|]. fold s.
    cbn [handle_of h_slot_payload_size]. rewrite Hlen, E4. eapply does_bind; [by apply (does_payload i (slen s))|].
    eapply does_bind; [by apply does_seq|]. fold s. rewrite Hend. cbn [negb]. eapply does_bind; [by apply does_set_cursor|]. apply does_ret.
Qed.
End refine.

(** ** The calls, on the bytes and on the ring *)

(** [Ring.v]'s operations, with the same answers. *)
Definition ring_exec (c : call) (r : ring) : ring * answer :=
  match c with
  | CTryPublish data => match Ring.try_publish data r with Some (r', b) => (r', ABool b) | None => (r, AUnit) end
  | CPublishDropOldest data => let '(r', b) := Ring.publish_drop_oldest data r in (r', ABool b)
  | CReceive i c out => let '(r', out', x) := Ring.try_receive i c out r in (r', ARead out' x)
  | CReceiveSlice i c out => let '(r', out', x) := Ring.try_receive_into_slice i c out r in (r', ASlice out' x)
  | CClaim c => let '(r', x) := Ring.claim_cursor c r in (r', AIdx x)
  | CSetCursor i v => (Ring.set_cursor i v r, AUnit)
  | CRelease i => (Ring.release_cursor i r, AUnit)
  | CUnclaimed i => (r, ABool (Ring.cursor_is_unclaimed r i))
  | CSetWakeflag i => (Ring.set_wakeflag i r, AUnit)
  | CClearWakeflag i => (Ring.clear_wakeflag i r, AUnit)
  | CTakeWakeflag i => let '(r', b) := Ring.take_wakeflag i r in (r', ABool b)
  | CSetTail v => (Ring.set_tail v r, AUnit)
  | CTail => (r, ANum (Ring.current_tail r))
  | CGeneration => (r, ANum (Ring.generation r))
  | CFull => (r, ABool (Ring.is_full r))
  | CLags => (r, ALags (Ring.lags_with_idx r))
  | CStats => (r, AStats (Ring.stats r))
  end.

Fixpoint ring_exec_all (cs : list call) (r : ring) : ring * list answer :=
  match cs with
  | [] => (r, [])
  | c :: cs => let '(r, x) := ring_exec c r in let '(r, xs) := ring_exec_all cs r in (r, x :: xs)
  end.

(** The positions in a call are 64-bit numbers. *)
Definition call_u64 (c : call) : Prop := match c with CClaim v | CSetCursor _ v | CSetTail v => is_u64 v | _ => True end.

Lemma ring_exec_handle c r : handle_of (ring_exec c r).1 = handle_of r.
Proof.
  assert (Hrl : forall n i e out, handle_of (Ring.receive_loop n i e out r).1.1 = handle_of r).
  { induction n as [|n IH]; intros i e out; cbn [Ring.receive_loop]; [done|]. repeat (dgoal; try (by apply IH)); done. }
  assert (Hrs : forall n i e out, handle_of (Ring.receive_slice_loop n i e out r).1.1 = handle_of r).
  { induction n as [|n IH]; intros i e out; cbn [Ring.receive_slice_loop]; [done|]. repeat (dgoal; try (by apply IH)); done. }
  destruct c; try done; cbn [ring_exec].
  - unfold Ring.try_publish. repeat dgoal; try done; congruence.
  - unfold Ring.try_receive. specialize (Hrl MAX_RETRIES cursor_idx local_cursor out). destruct (_ <=? _); [done|]. by destruct (Ring.receive_loop _ _ _ _ _) as [[? ?] ?].
  - unfold Ring.try_receive_into_slice. specialize (Hrs MAX_RETRIES cursor_idx local_cursor out). destruct (_ <=? _); [done|].
    by destruct (Ring.receive_slice_loop _ _ _ _ _) as [[? ?] ?].
  - unfold Ring.claim_cursor. by destruct (find_unclaimed _).
Qed.

Lemma lags_stats t : forall cs i, omap (fun c => if c =? CURSOR_UNCLAIMED then None else Some (saturating_sub t c)) cs = map snd (Ring.lags_from i t cs).
Proof.
  induction cs as [|c cs IH]; intros i; [done|]. cbn. destruct (c =? CURSOR_UNCLAIMED); cbn; [apply IH|f_equal; apply IH].
Qed.

Lemma ring_exec_wf c r : ring_wf r -> call_ok (handle_of r) c -> call_u64 c -> ring_wf (ring_exec c r).1.
Proof.
  intros Hwf Hok Hu. pose proof (wf_tail _ Hwf) as Ht. destruct c; cbn [ring_exec call_ok call_u64 handle_of h_slot_payload_size] in *; try done.
  - unfold Ring.try_publish. rewrite (proj2 (Z.leb_le _ _) Hok). destruct (_ <=? _); [done|].
    apply with_tail_wf; [by apply write_slot_wf|apply wrap64_u64].
  - cbn [Ring.publish_drop_oldest fst]. apply with_tail_wf; [by apply write_slot_wf|apply wrap64_u64].
  - unfold Ring.try_receive. pose proof (receive_loop_wf MAX_RETRIES cursor_idx local_cursor out r Hwf). destruct (_ <=? _); [done|].
    by destruct (Ring.receive_loop _ _ _ _ _) as [[? ?] ?].
  - unfold Ring.try_receive_into_slice. pose proof (receive_slice_loop_wf MAX_RETRIES cursor_idx local_cursor out r Hwf). destruct (_ <=? _); [done|].
    by destruct (Ring.receive_slice_loop _ _ _ _ _) as [[? ?] ?].
  - unfold Ring.claim_cursor. destruct (find_unclaimed _); [|done]. by apply with_wakeflag_wf, set_cursor_wf.
  - by apply set_cursor_wf.
  - by apply set_cursor_wf.
  - by apply with_wakeflag_wf.
  - by apply with_wakeflag_wf.
  - by apply with_wakeflag_wf.
  - by apply with_tail_wf.
Qed.

Lemma does_exec c r : ring_wf r -> call_ok (handle_of r) c -> call_u64 c -> does (exec (handle_of r) c) r (ring_exec c r).2 (ring_exec c r).1.
Proof.
  intros Hwf Hok Hu. destruct c; cbn [exec ring_exec call_ok call_u64 handle_of h_slot_payload_size h_max_subscribers] in *; fold (handle_of r) in *.
  - destruct (does_try_publish Hwf data Hok) as (r' & b & E & Hd). rewrite E. eapply does_bind; [exact Hd|]. apply does_ret.
  - cbn [Ring.publish_drop_oldest fst snd]. eapply does_bind; [|apply does_ret]. unfold publish_drop_oldest.
    eapply does_bind; [by apply does_tail|]. by apply does_publish_slot.
  - unfold try_receive, Ring.try_receive. pose proof (does_receive_loop Hwf MAX_RETRIES cursor_idx Hok local_cursor out) as Hd.
    destruct (tail r <=? local_cursor) eqn:E.
    + eapply does_bind; [eapply does_bind; [by apply does_tail|]; rewrite E; apply does_ret|]. apply does_ret.
    + destruct (Ring.receive_loop _ _ _ _ _) as [[r' out'] x]. eapply does_bind; [eapply does_bind; [by apply does_tail|]; rewrite E; exact Hd|]. apply does_ret.
  - unfold try_receive_into_slice, Ring.try_receive_into_slice. pose proof (does_receive_slice_loop Hwf MAX_RETRIES cursor_idx Hok local_cursor out) as Hd.
    destruct (tail r <=? local_cursor) eqn:E.
    + eapply does_bind; [eapply does_bind; [by apply does_tail|]; rewrite E; apply does_ret|]. apply does_ret.
    + destruct (Ring.receive_slice_loop _ _ _ _ _) as [[r' out'] x]. eapply does_bind; [eapply does_bind; [by apply does_tail|]; rewrite E; exact Hd|]. apply does_ret.
  - pose proof (does_claim Hwf initial_cursor Hu) as Hd. destruct (Ring.claim_cursor initial_cursor r) as [r' x]. eapply does_bind; [exact Hd|]. apply does_ret.
  - eapply does_bind; [by apply does_set_cursor|]. apply does_ret.
  - eapply does_bind; [by apply does_set_cursor|]. apply does_ret.
  - eapply does_bind; [eapply does_bind; [by apply does_cursor|]; apply does_ret|]. apply does_ret.
  - eapply does_bind; [by apply does_set_flag|]. apply does_ret.
  - eapply does_bind; [by apply does_set_flag|]. apply does_ret.
  - eapply does_bind; [eapply does_bind; [by apply does_flag|]; eapply does_bind; [by apply does_set_flag|]; apply does_ret|]. apply does_ret.
  - eapply does_bind; [by apply does_set_tail|]. apply does_ret.
  - eapply does_bind; [by apply does_tail|]. apply does_ret.
  - eapply does_bind; [by apply does_generation|]. apply does_ret.
  - eapply does_bind; [eapply does_bind; [by apply does_tail|]; eapply does_bind; [by apply does_min_active|]; apply does_ret|]. apply does_ret.
  - pose proof (does_lags Hwf (tail r) _ 0%nat (subs_count_eq Hwf)) as Hd. rewrite drop_0 in Hd.
    eapply does_bind; [eapply does_bind; [by apply does_tail|]; exact Hd|]. apply does_ret.
  - pose proof (does_lags Hwf (tail r) _ 0%nat (subs_count_eq Hwf)) as Hd. rewrite drop_0 in Hd. cbn [fst snd]. unfold Ring.stats. rewrite (lags_stats _ _ 0%nat).
    eapply does_bind; [eapply does_bind; [by apply does_tail|]; eapply does_bind; [exact Hd|]; apply does_ret|]. rewrite zlen_map. apply does_ret.
Qed.

Lemma does_exec_all cs : forall r, ring_wf r -> Forall (call_ok (handle_of r)) cs -> Forall call_u64 cs ->
  does (exec_all (handle_of r) cs) r (ring_exec_all cs r).2 (ring_exec_all cs r).1.
Proof.
  induction cs as [|c cs IH]; intros r Hwf Hok Hu; cbn [exec_all ring_exec_all]; [apply does_ret|].
  apply Forall_cons in Hok as [Hok Hoks]. apply Forall_cons in Hu as [Hu Hus]. pose proof (ring_exec_wf c r Hwf Hok Hu) as Hwf'.
  pose proof (ring_exec_handle c r) as Hh. pose proof (does_exec c r Hwf Hok Hu) as Hd. destruct (ring_exec c r) as [r1 x]. cbn [fst snd] in *.
  rewrite <- Hh in Hoks. specialize (IH r1 Hwf' Hoks Hus). rewrite Hh in IH. destruct (ring_exec_all cs r1) as [r2 xs]. cbn [fst snd] in *.
  eapply does_bind; [exact Hd|]. eapply does_bind; [exact IH|]. apply does_ret.
Qed.

(** *** Creating and opening *)

Definition upd (f : loc -> list byte) (w : loc * list byte) : loc -> list byte := fun l => if decide (l = w.1) then w.2 else f l.

Lemma write_all_holds h ws : shape_ok h -> Forall (fun w => loc_ok h w.1 /\ zlen w.2 = loc_size h w.1) ws -> forall m f, holds h m f ->
  exists m', write_all (map (fun w => (loc_off h w.1, w.2)) ws) m = Done tt m' /\ holds h m' (foldl upd f ws).
Proof.
  intros Hsh. induction 1 as [|[l bs] ws [Hl Hn] _ IH]; intros m f Hm; cbn [map write_all foldl fst snd] in *; [by exists m|].
  destruct (holds_write h m f (upd f (l, bs)) l Hsh Hm Hl) as (m1 & E & Hm1).
  - unfold upd. cbn. by rewrite decide_True.
  - intros l' _ Hne. unfold upd. cbn. by rewrite decide_False.
  - assert (Eu : upd f (l, bs) l = bs) by (unfold upd; cbn; by rewrite decide_True). rewrite Eu in E.
    destruct (IH m1 _ Hm1) as (m' & E' & Hm'). exists m'. unfold bind. by rewrite E.
Qed.

Lemma foldl_upd_other ws f l : Forall (fun w => w.1 <> l) ws -> foldl upd f ws l = f l.
Proof.
  intros Hws. revert f. induction Hws as [|w ws Hw _ IH]; intros f; [done|]. cbn [foldl]. rewrite IH. unfold upd. by rewrite decide_False by congruence.
Qed.

Lemma foldl_upd_cursors bs n : forall a f i, (a <= i < a + n)%nat -> foldl upd f (map (fun j => (LCursor j, bs)) (List.seq a n)) (LCursor i) = bs.
Proof.
  induction n as [|n IH]; intros a f i Hi; [lia|]. cbn [List.seq map foldl]. destruct (decide (i = a)) as [->|Hne]; [|apply IH; lia].
  rewrite foldl_upd_other; [unfold upd; by rewrite decide_True|]. apply Forall_map, Forall_forall. intros j Hj%list_elem_of_In%in_seq. cbn. intros [= ->]. lia.
Qed.

(** The file as [set_len] leaves it. *)
Lemma zeros_hold h : shape_ok h -> holds h (zrep (map_size h) Byte.x00) (fun l => zrep (loc_size h l) Byte.x00).
Proof.
  intros Hsh. split.
  - apply zlen_zrep. destruct (loc_bounds h LMagic Hsh I) as (? & ? & ?). lia.
  - intros l Hl. pose proof (loc_bounds h l Hsh Hl). unfold at_loc, zslice, ztake, zdrop, zrep. rewrite drop_replicate, take_replicate. f_equal. lia.
Qed.

Lemma create_mem cap sps subs : let h := Handle cap sps subs (slots_offset subs) in shape_ok h ->
  exists m, create cap sps subs = Done h m /\ mem_repr m (Ring.create cap sps subs).
Proof.
  intros h Hsh. pose proof Hsh as [Hc Hp Hs _]. cbn in Hc, Hp, Hs.
  set (ws := [(LMagic, to_le 8 MAGIC); (LVersion, to_le 4 5); (LCapacity, to_le 4 cap); (LSlotSize, to_le 4 sps); (LMaxSubs, to_le 4 subs);
    (LGeneration, to_le 8 1)]). set (cws := map (fun i => (LCursor i, to_le 8 CURSOR_UNCLAIMED)) (List.seq 0 (Z.to_nat subs))).
  assert (Ews : create_stores cap sps subs = map (fun w => (loc_off h w.1, w.2)) (ws ++ cws)).
  { unfold create_stores. rewrite map_app. f_equal. unfold cws. rewrite map_map. done. }
  destruct (write_all_holds h (ws ++ cws) Hsh) with (m := zrep (map_size h) Byte.x00) (f := fun l => zrep (loc_size h l) Byte.x00) as (m & E & Hm).
  - apply Forall_app. split; [unfold ws; repeat (apply Forall_cons; split; [by split|]); by apply Forall_nil|].
    apply Forall_map, Forall_forall. intros i Hi%list_elem_of_In%in_seq. cbn [fst snd]. rewrite zlen_to_le. cbn. lia.
  - by apply zeros_hold.
  - exists m. split.
    + unfold create, bind, ret. rewrite Ews. change (mmap_size cap sps subs) with (map_size h). by rewrite E.
    + assert (Hfl : flags_ok (Ring.create cap sps subs)) by (unfold flags_ok; cbn [Ring.create wakeflags]; apply Forall_replicate; ulia).
      split; [|exact Hfl]. destruct Hm as [Hsz Hm]. split; [exact Hsz|]. intros l Hl. rewrite Hm by exact Hl. rewrite foldl_app.
      assert (Hslot : forall i, Z.of_nat i < cap -> slot_at (Ring.create cap sps subs) (Z.of_nat i) = Slot 0 0 (zrep sps Byte.x00)).
      { intros i Hi. unfold slot_at. cbn. unfold zrep at 1. rewrite lookup_replicate_2 by lia. done. }
      destruct l as [| | | | | | |i|i|i|i|i]; cbn [loc_ok handle_of h_max_subscribers h_capacity Ring.create capacity max_subscribers] in Hl.
      8: { unfold cws. rewrite foldl_upd_cursors by lia. cbn [content]. unfold cursor_at. cbn. destruct (zrep subs CURSOR_UNCLAIMED !! i) as [c|] eqn:Ec; [|done].
           apply lookup_replicate in Ec as [-> _]. done. }
      all: unfold cws; rewrite foldl_upd_other by (apply Forall_map, Forall_true; done); cbn [content]; try reflexivity.
      * unfold wakeflag. cbn. destruct (zrep subs 0 !! i) as [c|] eqn:Ec; [|done]. apply lookup_replicate in Ec as [-> _]. done.
      * by rewrite Hslot.
      * by rewrite Hslot.
      * by rewrite Hslot.
Qed.

(** A file, and what [Ring.v] takes it for. *)
Definition file_repr (file : option mem) (f : ring_file) : Prop :=
  match file, f with
  | None, NoRingFile => True
  | Some m, BadMagic g => 8 <= zlen m /\ from_le (zslice 0 8 m) = g /\ g <> MAGIC
  | Some m, RingFile r => mem_repr m r /\ ring_wf r
  | _, _ => False
  end.

Lemma does_open r : ring_wf r -> does open r (Ok (handle_of r)) r.
Proof.
  intros Hwf. pose proof (ring_wf_tables _ Hwf) as Ht. pose proof Hwf as []. unfold open. eapply does_bind.
  - intros m Hm. exists m. split; [|done]. pose proof (holds_read _ m _ LMagic (tb_shape _ Ht) (proj1 Hm) I) as E.
    unfold read_u64, bind. change (read_bytes OFF_MAGIC 8 m) with (read_bytes (loc_off (handle_of r) LMagic) (loc_size (handle_of r) LMagic) m).
    rewrite E. reflexivity.
  - change (negb (from_le (to_le 8 MAGIC) =? MAGIC)) with false. cbn iota.
    eapply does_bind; [by apply (does_read_u32 r LCapacity (capacity r)); [| | | |lia]|].
    eapply does_bind; [by apply (does_read_u32 r LSlotSize (slot_payload_size r))|].
    eapply does_bind; [by apply (does_read_u32 r LMaxSubs (max_subscribers r))|]. apply does_ret.
Qed.

(** Reads leave the bytes as they are. *)
Definition reads_only {A} (c : M A) : Prop := forall m x m', c m = Done x m' -> m' = m.

Lemma reads_only_ret {A} (x : A) : reads_only (ret x).
Proof. by intros m y m' [= _ ->]. Qed.

Lemma reads_only_bind {A B} (c : M A) (k : A -> M B) : reads_only c -> (forall x, reads_only (k x)) -> reads_only (bind c k).
Proof. intros Hc Hk m y m'. unfold bind. destruct (c m) as [x m1| |] eqn:E; [|done|done]. intros E'. apply Hk in E' as ->. by eapply Hc. Qed.

Lemma reads_only_bytes off n : reads_only (read_bytes off n).
Proof. intros m x m'. unfold read_bytes. destruct (in_map off n m); [|done]. by intros [= _ ->]. Qed.

Lemma open_reads_only : reads_only open.
Proof.
  assert (H64 : forall off, reads_only (read_u64 off)) by (intros; apply reads_only_bind; [apply reads_only_bytes|intros; apply reads_only_ret]).
  assert (H32 : forall off, reads_only (read_u32 off)) by (intros; apply reads_only_bind; [apply reads_only_bytes|intros; apply reads_only_ret]).
  apply reads_only_bind; [done|]. intros magic. destruct (negb _); [apply reads_only_ret|].
  do 3 (apply reads_only_bind; [done|intros ?]). apply reads_only_ret.
Qed.

Lemma create_or_reuse_mem file f cap sps subs : shape_ok (Handle cap sps subs (slots_offset subs)) -> file_repr file f ->
  let r := Ring.create_or_reuse f cap sps subs in
  handle_of r = Handle cap sps subs (slots_offset subs) /\ ring_wf r /\ exists m, create_or_reuse file cap sps subs = Done (handle_of r) m /\ mem_repr m r.
Proof.
  intros Hsh Hf. pose proof (create_mem cap sps subs Hsh) as Hnew. cbv zeta in Hnew. pose proof Hsh as [Hc Hp Hs _]. cbn in Hc, Hp, Hs.
  pose proof (create_wf cap sps subs Hc Hp Hs) as Hwfn.
  destruct file as [m|], f as [|g|r]; try done; cbn [create_or_reuse Ring.create_or_reuse Ring.open].
  - destruct Hf as (Hlen & Hg & Hne).
    assert (E : open m = Done (Err (InvalidData g)) m).
    { unfold open, read_u64, bind, read_bytes. rewrite in_map_true by (unfold OFF_MAGIC; lia). cbn iota. change (zslice OFF_MAGIC (OFF_MAGIC + 8) m) with (zslice 0 8 m).
      unfold ret at 1. rewrite Hg. destruct (Z.eqb_spec g MAGIC); [done|]. done. }
    rewrite E. done.
  - destruct Hf as [Hm Hwf]. destruct (does_open r Hwf m Hm) as (m1 & E & Hm1). rewrite E. cbn [handle_of h_capacity h_slot_payload_size h_max_subscribers].
    destruct ((capacity r =? cap) && (slot_payload_size r =? sps) && (max_subscribers r =? subs)) eqn:Eb; [|done].
    apply andb_true_iff in Eb as [[E1%Z.eqb_eq E2%Z.eqb_eq]%andb_true_iff E3%Z.eqb_eq]. subst cap sps subs.
    set (r1 := with_generation (wrap64 (Ring.generation r + 1)) r).
    assert (Hwf1 : ring_wf r1) by (destruct Hwf; constructor; try done; apply wrap64_u64).
    split; [done|]. split; [by apply with_tail_wf|].
    apply (does_bind (load OFF_GENERATION) _ r (Ring.generation r) r (handle_of r) (with_tail 0 r1)); [by apply (does_generation Hwf)| |done].
    eapply (does_bind _ _ _ _ r1).
    + apply (does_store r LGeneration); [by apply ring_wf_tables|done|done|apply stored_generation|done].
    + eapply does_bind; [by apply (does_set_tail Hwf1)|]. apply does_ret.
Qed.

(** C11: the bytes of the mapping implement the ring.  Whether the publisher finds no file, one of at least eight bytes that begins
    with another magic, or a complete ring (not one cut off: [cut_off_ring_file_opens]), the mapping it makes of it represents the ring of [Ring.create_or_reuse]; a subscriber
    that opens it reads the shape out of the header; and any calls, with their loads, stores and copies at
    computed offsets, answer what [Ring.v]'s operations answer and leave a mapping that represents
    the ring these leave. *)
Theorem memory_implements_the_ring file f cap sps subs cs : let h := Handle cap sps subs (slots_offset subs) in
  shape_ok h -> file_repr file f -> Forall (call_ok h) cs -> Forall call_u64 cs ->
  let r := Ring.create_or_reuse f cap sps subs in
  exists m m', create_or_reuse file cap sps subs = Done h m /\ mem_repr m r /\ open m = Done (Ok h) m
    /\ exec_all h cs m = Done (ring_exec_all cs r).2 m' /\ mem_repr m' (ring_exec_all cs r).1.
Proof.
  intros h Hsh Hf Hok Hu r. destruct (create_or_reuse_mem file f cap sps subs Hsh Hf) as (Hh & Hwf & m & E & Hm). fold r in Hh, Hwf, E, Hm. fold h in Hh.
  rewrite Hh in E. rewrite <- Hh in Hok. destruct (does_exec_all cs r Hwf Hok Hu m Hm) as (m' & E' & Hm'). rewrite Hh in E'.
  exists m, m'. split; [done|]. split; [done|]. split; [|done]. destruct (does_open r Hwf m Hm) as (m1 & E1 & _).
  assert (m1 = m) as -> by (exact (open_reads_only _ _ _ E1)). by rewrite E1, Hh.
Qed.

(** ** Concrete rings *)

Definition demo_calls : list call :=
  [CClaim 0; CTryPublish [Byte.x61; Byte.x62]; CTryPublish [Byte.x63]; CTryPublish [Byte.x64]; CSetWakeflag 0; CReceive 0 0 []; CTakeWakeflag 0;
   CReceiveSlice 0 1 (zrep 3 Byte.x00); CPublishDropOldest [Byte.x65]; CStats].

Definition demo_shape : handle := Handle 2 5 3 (slots_offset 3).

Lemma demo_shape_ok : shape_ok demo_shape.
Proof. constructor; [by split|by split|by split|reflexivity]. Qed.

Lemma demo_calls_ok : Forall (call_ok demo_shape) demo_calls /\ Forall call_u64 demo_calls.
Proof. split; repeat (apply Forall_cons; split; [vm_compute; try done; try (split; congruence); congruence|]); by apply Forall_nil. Qed.

(** On a file that was there before, of the same format and shape: its publisher had written one message. *)
Definition old_file : option mem :=
  match create 2 5 3 with Done h m => match exec_all h [CTryPublish [Byte.x7a]] m with Done _ m => Some m | _ => None end | _ => None end.

Definition old_ring : ring := (ring_exec_all [CTryPublish [Byte.x7a]] (Ring.create 2 5 3)).1.

Lemma old_file_repr : file_repr old_file (RingFile old_ring).
Proof.
  assert (Hwf : ring_wf (Ring.create 2 5 3)) by (by apply create_wf).
  destruct (create_mem 2 5 3 demo_shape_ok) as (m & E & Hm).
  destruct (does_exec_all [CTryPublish [Byte.x7a]] (Ring.create 2 5 3) Hwf) with (m := m) as (m' & E' & Hm').
  - apply Forall_singleton. vm_compute. congruence.
  - by apply Forall_singleton.
  - exact Hm.
  - unfold old_file. rewrite E. change (handle_of (Ring.create 2 5 3)) with (Handle 2 5 3 (slots_offset 3)) in E'. rewrite E'.
    split; [exact Hm'|]. apply (ring_exec_wf (CTryPublish [Byte.x7a]) (Ring.create 2 5 3)); [done|vm_compute; congruence|done].
Qed.

(** The ring is used again, and three messages of four fit: the slot of the old message is written over. *)
Lemma memory_implements_the_ring_witness :
  exists m m', create_or_reuse old_file 2 5 3 = Done demo_shape m /\ open m = Done (Ok demo_shape) m
    /\ exec_all demo_shape demo_calls m
       = Done [AIdx (Some 0%nat); ABool true; ABool true; ABool false; AUnit; ARead [Byte.x61; Byte.x62] (Some 1); ABool true;
               ASlice [Byte.x63; Byte.x00; Byte.x00] (Some (2, SliceLen 1)); ABool true; AStats (RingStats 3 1 [1])] m'.
Proof.
  destruct (memory_implements_the_ring old_file (RingFile old_ring) 2 5 3 demo_calls demo_shape_ok old_file_repr (proj1 demo_calls_ok) (proj2 demo_calls_ok))
    as (m & m' & E & _ & E1 & E2 & _).
  exists m, m'. split; [exact E|]. split; [exact E1|]. exact E2.
Defined.

(** Bytes that no publisher has written: every call still stays inside. *)
Lemma ring_stays_in_the_mapping_witness : exists xs m',
  exec_all demo_shape demo_calls (zrep (map_size demo_shape) Byte.xff) = Done xs m' /\ zlen m' = map_size demo_shape.
Proof.
  apply (ring_stays_in_the_mapping demo_shape demo_calls (zrep (map_size demo_shape) Byte.xff)); [exact demo_shape_ok|vm_compute; reflexivity|exact (proj1 demo_calls_ok)].
Defined.

(** A payload that does not fit is what the publisher's check is for: [publish_drop_oldest] has none, and writes
    over the next slot or leaves the mapping. *)
Example oversize_payload_leaves_the_mapping :
  match create 2 5 0 with
  | Done h m => match publish_drop_oldest h (zrep 17 Byte.x61) m with
                | Done _ m => match load (slot_off h 1) m, publish_drop_oldest h (zrep 17 Byte.x61) m with Done v _, Faults => 0 < v | _, _ => False end
                | _ => False
                end
  | _ => False
  end.
Proof. vm_compute. reflexivity. Qed.

(** The file of a ring that is being created, after the first [n] stores. *)
Definition half_created (n : nat) (cap sps subs : Z) : outcome unit := write_all (take n (create_stores cap sps subs)) (zrep (mmap_size cap sps subs) Byte.x00).

(** Once the magic is there the file opens, whatever is missing: with a shape of zeros, or with a table in
    which no entry is free, so a subscriber that comes then finds no room and is not told to try again. *)
Example half_created_ring_has_no_room : forall n, (1 <= n <= 6)%nat ->
  match half_created n 2 5 3 with
  | Done _ m => match open m with
                | Done (Ok h) m => claim_cursor h 0 m = Done None m
                | _ => False
                end
  | _ => False
  end.
Proof. intros n Hn. assert (n = 1 \/ n = 2 \/ n = 3 \/ n = 4 \/ n = 5 \/ n = 6)%nat as Hc by lia. by repeat destruct Hc as [->|Hc]; subst; vm_compute. Qed.

(** [open] does not ask how long the file is: a ring file that was cut off opens, and its first use leaves the mapping. *)
Example cut_off_ring_file_opens :
  match create 2 5 3 with
  | Done _ m => match open (ztake 64 m) with Done (Ok h) m => set_wakeflag h 0 m = Faults | _ => False end
  | _ => False
  end.
Proof. vm_compute. reflexivity. Qed.
