(* ===== verification/RingLog.v ===== *)
(** * The ring as a broadcast log

    What [ring.rs] promises to publisher and subscribers, without slots, sequence numbers or tables: a list of
    messages with a position for the first, of which the newest [capacity] can be read, and for each subscriber a
    cursor and a flag.  [log_exec] says what every call answers and does; the ring of [Ring.v] refines it. *)

From Stdlib Require Import ZArith Lia Strings.Byte.
From stdpp Require Import base option list.
From S2P Require Import Prelude RingMem Ring.

Record blog := BLog {
  b_cap : Z;
  b_slot_size : Z;
  b_gen : Z;
  b_base : Z;                     (* the position of the first message *)
  b_msgs : list (list byte);
  b_cursors : list (option Z);    (* per slot: where its subscriber is, if it has one *)
  b_flags : list bool             (* per slot: whether its subscriber announced that it sleeps *)
}.

Definition b_tail (b : blog) : Z := b_base b + zlen (b_msgs b).

Definition b_with_cursor (i : nat) (c : option Z) (b : blog) : blog :=
  BLog (b_cap b) (b_slot_size b) (b_gen b) (b_base b) (b_msgs b) (<[i := c]> (b_cursors b)) (b_flags b).
Definition b_with_flag (i : nat) (f : bool) (b : blog) : blog :=
  BLog (b_cap b) (b_slot_size b) (b_gen b) (b_base b) (b_msgs b) (b_cursors b) (<[i := f]> (b_flags b)).
Definition b_append (data : list byte) (b : blog) : blog :=
  BLog (b_cap b) (b_slot_size b) (b_gen b) (b_base b) (b_msgs b ++ [data]) (b_cursors b) (b_flags b).
Definition b_start_at (v : Z) (b : blog) : blog :=
  BLog (b_cap b) (b_slot_size b) (b_gen b) v [] (b_cursors b) (b_flags b).

(** The cursor value that stands for an unclaimed slot is not a position. *)
Definition position (c : Z) : option Z := if c =? CURSOR_UNCLAIMED then None else Some c.

Definition slowest (l : list (option Z)) : option Z :=
  match omap id l with [] => None | c :: cs => Some (foldr Z.min c cs) end.

(** No room: the slowest subscriber is [capacity] behind the tail, modulo [2^64], so that one past the tail counts as
    far behind. *)
Definition b_full (b : blog) : bool :=
  match slowest (b_cursors b) with Some c => b_cap b <=? (b_tail b - c) mod two64 | None => false end.

(** What a read from [c] gets: the message at [c] if it is among the newest [capacity], and behind these the newest
    whose position is congruent to [c]. *)
Definition b_read (c : Z) (b : blog) : option (Z * list byte) :=
  if b_tail b <=? c then None
  else
    let p := if b_tail b - b_cap b <=? c then c else b_tail b - 1 - (b_tail b - 1 - c) mod b_cap b in
    Some (p, default [] (b_msgs b !! Z.to_nat (p - b_base b))).

Fixpoint first_free (l : list (option Z)) : option nat :=
  match l with
  | [] => None
  | None :: _ => Some O
  | Some _ :: l => S <$> first_free l
  end.

Fixpoint b_lags (i : nat) (t : Z) (l : list (option Z)) : list (nat * Z) :=
  match l with
  | [] => []
  | None :: l => b_lags (S i) t l
  | Some c :: l => (i, Z.max 0 (t - c)) :: b_lags (S i) t l
  end.

Definition log_exec (c : call) (b : blog) : blog * answer :=
  match c with
  | CTryPublish data => if b_full b then (b, ABool false) else (b_append data b, ABool true)
  | CPublishDropOldest data => (b_append data b, ABool true)
  | CReceive i c out =>
      match b_read c b with
      | Some (p, data) => (b_with_cursor i (Some (p + 1)) b, ARead data (Some (p + 1)))
      | None => (b, ARead out None)
      end
  | CReceiveSlice i c out =>
      match b_read c b with
      | Some (p, data) =>
          (b_with_cursor i (Some (p + 1)) b,
           if zlen out <? zlen data then ASlice out (Some (p + 1, SliceOversize))
           else ASlice (data ++ zdrop (zlen data) out) (Some (p + 1, SliceLen (zlen data))))
      | None => (b, ASlice out None)
      end
  | CClaim c =>
      match first_free (b_cursors b) with
      | Some i => (b_with_flag i false (b_with_cursor i (position c) b), AIdx (Some i))
      | None => (b, AIdx None)
      end
  | CSetCursor i v => (b_with_cursor i (position v) b, AUnit)
  | CRelease i => (b_with_cursor i None b, AUnit)
  | CUnclaimed i => (b, ABool (match b_cursors b !! i with Some (Some _) => false | _ => true end))
  | CSetWakeflag i => (b_with_flag i true b, AUnit)
  | CClearWakeflag i => (b_with_flag i false b, AUnit)
  | CTakeWakeflag i => (b_with_flag i false b, ABool (default false (b_flags b !! i)))
  | CSetTail v => (b_start_at v b, AUnit)
  | CTail => (b, ANum (b_tail b))
  | CGeneration => (b, ANum (b_gen b))
  | CFull => (b, ABool (b_full b))
  | CLags => (b, ALags (b_lags 0 (b_tail b) (b_cursors b)))
  | CStats => (b, let ls := map snd (b_lags 0 (b_tail b) (b_cursors b)) in AStats (RingStats (b_tail b) (zlen ls) ls))
  end.

Fixpoint log_exec_all (cs : list call) (b : blog) : blog * list answer :=
  match cs with
  | [] => (b, [])
  | c :: cs => let '(b, x) := log_exec c b in let '(b, xs) := log_exec_all cs b in (b, x :: xs)
  end.

(** The slot of a call on behalf of one subscriber. *)
Definition call_slot (c : call) : option nat :=
  match c with
  | CReceive i _ _ | CReceiveSlice i _ _ | CSetCursor i _ | CRelease i | CUnclaimed i | CSetWakeflag i | CClearWakeflag i | CTakeWakeflag i => Some i
  | _ => None
  end.

(** What the callers see to: payloads that fit a slot, positions below [2^63], slots of the table, and no read of what was there
    before the tail was set. *)
Definition call_fits (c : call) (b : blog) : Prop :=
  (forall i, call_slot c = Some i -> (i < length (b_cursors b))%nat) /\
  match c with
  | CTryPublish data | CPublishDropOldest data => zlen data <= b_slot_size b /\ b_tail b + 1 < two63
  | CReceive _ c _ | CReceiveSlice _ c _ => b_base b <= c
  | CClaim v | CSetCursor _ v => is_u64 v
  | CSetTail v => 0 <= v < two63
  | _ => True
  end.

Fixpoint calls_fit (cs : list call) (b : blog) : Prop :=
  match cs with
  | [] => True
  | c :: cs => call_fits c b /\ calls_fit cs (log_exec c b).1
  end.

(** The log of the file [create_or_reuse] makes: a ring of the same shape keeps its cursors and flags and gets the next
    generation; anything else is made anew. *)
Definition log_of_file (f : ring_file) (cap sps subs : Z) : blog :=
  let fresh := BLog cap sps 1 0 [] (zrep subs None) (zrep subs false) in
  match f with
  | RingFile r =>
      if (capacity r =? cap) && (slot_payload_size r =? sps) && (max_subscribers r =? subs)
      then BLog cap sps ((generation r + 1) mod two64) 0 [] (map position (cursors r)) (map (fun f => f =? WAKEFLAG_WAITING) (wakeflags r))
      else fresh
  | _ => fresh
  end.

Record log_repr (b : blog) (r : ring) : Prop := {
  lr_ring : ring_repr (b_base b) (b_msgs b) r;
  lr_cap : capacity r = b_cap b;
  lr_slot : slot_payload_size r = b_slot_size b;
  lr_gen : generation r = b_gen b;
  lr_cursors : map position (cursors r) = b_cursors b;
  lr_flags : map (fun f => f =? WAKEFLAG_WAITING) (wakeflags r) = b_flags b
}.

(** ** The tables *)

Lemma find_unclaimed_free cs : find_unclaimed cs = first_free (map position cs).
Proof.
  induction cs as [|c cs IH]; [done|]. cbn [find_unclaimed map first_free]. unfold position at 1. rewrite IH. by destruct (c =? _).
Qed.

Lemma foldr_min a c l : foldr Z.min (Z.min a c) l = Z.min a (foldr Z.min c l).
Proof. induction l as [|x l IH]; cbn; [done|]. rewrite IH. lia. Qed.

Lemma min_active_slowest cs : min_active cs = slowest (map position cs).
Proof.
  unfold slowest. induction cs as [|c cs IH]; [done|]. cbn [min_active map omap list_omap id]. unfold position at 1. rewrite IH.
  destruct (c =? CURSOR_UNCLAIMED); [done|]. cbn [id]. destruct (omap id (map position cs)) as [|x l]; [done|].
  change (foldr Z.min c (x :: l)) with (Z.min x (foldr Z.min c l)). by rewrite <- !foldr_min, (Z.min_comm c x).
Qed.

Lemma lags_from_spec i t cs : lags_from i t cs = b_lags i t (map position cs).
Proof.
  revert i. induction cs as [|c cs IH]; intros i; [done|]. cbn [lags_from map b_lags]. unfold position at 1. rewrite IH.
  by destruct (c =? CURSOR_UNCLAIMED).
Qed.

Lemma map_insert {A B} (f : A -> B) i x l : map f (<[i := x]> l) = <[i := f x]> (map f l).
Proof. apply list_fmap_insert. Qed.

Lemma lookup_map {A B} (f : A -> B) i l : map f l !! i = f <$> l !! i.
Proof. apply list_lookup_fmap. Qed.

(** ** One call *)

Lemma lr_cursor b r i v : log_repr b r -> is_u64 v -> log_repr (b_with_cursor i (position v) b) (set_cursor i v r).
Proof.
  intros [] Hv. constructor; try done; [by apply set_cursor_repr|]. cbn. by rewrite map_insert, lr_cursors0.
Qed.

Lemma lr_flag b r i v : log_repr b r -> log_repr (b_with_flag i (v =? WAKEFLAG_WAITING) b) (with_wakeflags (<[i := v]> (wakeflags r)) r).
Proof.
  intros []. constructor; try done; [by apply with_wakeflags_repr; [|apply length_insert]|]. cbn. by rewrite map_insert, lr_flags0.
Qed.

Section calls.
Context {b : blog} {r : ring} (Hb : log_repr b r).

Lemma lr_tail : tail r = b_tail b.
Proof. apply (repr_tail _ _ _ (lr_ring _ _ Hb)). Qed.

Lemma lr_full : is_full r = b_full b.
Proof.
  pose proof (repr_wf _ _ _ (lr_ring _ _ Hb)) as Hwf. unfold is_full, b_full, min_active_cursor.
  rewrite min_active_slowest, (lr_cursors _ _ Hb), lr_tail, (lr_cap _ _ Hb). destruct (slowest _) as [c|]; [done|]. cbn [default].
  unfold wrapping_sub. rewrite Z.sub_diag. apply Z.leb_gt. change (wrap64 0) with 0. rewrite <- (lr_cap _ _ Hb). apply Hwf.
Qed.

Lemma lr_append data : zlen data <= b_slot_size b -> b_tail b + 1 < two63 ->
  log_repr (b_append data b) (with_tail (wrap64 (tail r + 1)) (write_slot (tail r) data r)).
Proof.
  intros Hl Hm. destruct Hb. assert (Hr : ring_repr (b_base b) (b_msgs b ++ [data]) (with_tail (wrap64 (tail r + 1)) (write_slot (tail r) data r))).
  { apply publish_step_repr; [done|lia|]. by rewrite lr_tail. }
  rewrite write_slot_eq in *. constructor; done.
Qed.

(** The log's read is the ring's. *)
Lemma lr_read i c out : b_base b <= c ->
  match b_read c b with
  | None => try_receive i c out r = (r, out, None)
  | Some (p, data) => try_receive i c out r = (set_cursor i (p + 1) r, data, Some (p + 1)) /\ 0 <= p + 1 < CURSOR_UNCLAIMED
  end.
Proof.
  intros Hc. pose proof (lr_ring _ _ Hb) as Hr. pose proof (wf_capacity r (repr_wf _ _ _ Hr)) as Hcap. pose proof (repr_base _ _ _ Hr).
  pose proof (repr_bound _ _ _ Hr). unfold b_read. rewrite <- lr_tail, <- (lr_cap _ _ Hb).
  destruct (Z.leb_spec (tail r) c) as [Hle|Hlt]; [by apply (try_receive_log _ _ r i c out Hr Hc)|]. cbv zeta.
  destruct (receive_newest _ _ r i c out Hr Hc Hlt) as (d & Hd & E). destruct (newest_pos_spec r c) as ((Hn1 & Hn2) & _ & _); [lia|lia|].
  assert (Hp : (if tail r - capacity r <=? c then c else tail r - 1 - (tail r - 1 - c) mod capacity r) = newest_pos r c).
  { destruct (Z.leb_spec (tail r - capacity r) c); [by rewrite newest_pos_in_window by lia|done]. }
  rewrite Hp. unfold log_at in Hd. destruct (_ <? _); [done|]. rewrite Hd. split; [done|].
  unfold CURSOR_UNCLAIMED, u64_MAX. rewrite two63_eq, two64_eq in *. lia.
Qed.

Lemma lr_moved i p : 0 <= p + 1 < CURSOR_UNCLAIMED -> log_repr (b_with_cursor i (Some (p + 1)) b) (set_cursor i (p + 1) r).
Proof.
  intros Hp. assert (Hu : is_u64 (p + 1)) by (unfold CURSOR_UNCLAIMED, u64_MAX, is_u64 in *; lia).
  pose proof (lr_cursor _ _ i (p + 1) Hb Hu) as H. unfold position in H. destruct (Z.eqb_spec (p + 1) CURSOR_UNCLAIMED); [lia|done].
Qed.

Lemma lr_exec c : call_fits c b -> (ring_exec c r).2 = (log_exec c b).2 /\ log_repr (log_exec c b).1 (ring_exec c r).1.
Proof.
  pose proof (repr_wf _ _ _ (lr_ring _ _ Hb)) as Hwf. pose proof lr_tail as Ht. intros [_ Hf].
  destruct c as [data|data|i c out|i c out|v|i v|i|i|i|i|i|v| | | | |]; cbn [ring_exec log_exec call_fits] in *.
  - destruct Hf as [Hl Hm]. rewrite try_publish_is_full by (by rewrite (lr_slot _ _ Hb)). rewrite lr_full.
    destruct (b_full b); [done|]. split; [done|]. by apply lr_append.
  - destruct Hf as [Hl Hm]. split; [done|]. by apply lr_append.
  - pose proof (lr_read i c out Hf) as H. destruct (b_read c b) as [[p d]|].
    + destruct H as [-> Hp]. split; [done|]. by apply lr_moved.
    + by rewrite H.
  - rewrite slice_variant by done. pose proof (lr_read i c [] Hf) as H. destruct (b_read c b) as [[p d]|].
    + destruct H as [-> Hp]. assert (Hs : zsplice 0 d out = d ++ zdrop (zlen d) out) by (unfold zsplice; by rewrite ztake_0, Z.add_0_l).
      destruct (zlen out <? zlen d); cbn [fst snd]; rewrite ?Hs; (split; [done|]; by apply lr_moved).
    + by rewrite H.
  - unfold claim_cursor. rewrite find_unclaimed_free, (lr_cursors _ _ Hb). destruct (first_free _) as [i|]; [|done].
    split; [done|]. exact (lr_flag _ _ i 0 (lr_cursor _ _ i v Hb Hf)).
  - split; [done|]. by apply lr_cursor.
  - split; [done|]. exact (lr_cursor _ _ i CURSOR_UNCLAIMED Hb unclaimed_u64).
  - split; [|done]. f_equal. unfold cursor_is_unclaimed, cursor_at. rewrite <- (lr_cursors _ _ Hb). rewrite lookup_map.
    destruct (cursors r !! i) as [c|]; [|done]. cbn. unfold position. by destruct (c =? _).
  - split; [done|]. exact (lr_flag _ _ i WAKEFLAG_WAITING Hb).
  - split; [done|]. exact (lr_flag _ _ i 0 Hb).
  - split; [|exact (lr_flag _ _ i 0 Hb)]. cbn [take_wakeflag fst snd]. f_equal. unfold wakeflag. rewrite <- (lr_flags _ _ Hb), lookup_map. destruct (wakeflags r !! i); reflexivity.
  - split; [done|]. destruct Hb. constructor; try done. cbn. apply (repr_from_here (set_tail v r)); [|cbn; lia].
    apply with_tail_wf; [done|]. rewrite two63_eq in Hf. unfold is_u64. rewrite two64_eq. lia.
  - split; [|done]. by rewrite <- Ht.
  - split; [|done]. by rewrite <- (lr_gen _ _ Hb).
  - split; [|done]. by rewrite lr_full.
  - split; [|done]. unfold lags_with_idx. by rewrite lags_from_spec, (lr_cursors _ _ Hb), Ht.
  - split; [|done]. unfold stats. rewrite (lags_stats (tail r) (cursors r) 0), lags_from_spec, (lr_cursors _ _ Hb), Ht. done.
Qed.
End calls.

Lemma lr_exec_all cs : forall b r, log_repr b r -> calls_fit cs b ->
  (ring_exec_all cs r).2 = (log_exec_all cs b).2 /\ log_repr (log_exec_all cs b).1 (ring_exec_all cs r).1.
Proof.
  induction cs as [|c cs IH]; intros b r Hb; [done|]. intros [Hc Hcs]. destruct (lr_exec Hb c Hc) as [E Hb'].
  cbn [ring_exec_all log_exec_all]. destruct (ring_exec c r) as [r1 x1], (log_exec c b) as [b1 y1]. cbn [fst snd] in *. subst y1.
  destruct (IH b1 r1 Hb' Hcs) as [E2 Hb2]. destruct (ring_exec_all cs r1), (log_exec_all cs b1). cbn [fst snd] in *. by subst.
Qed.

Lemma log_of_file_repr f cap sps subs :
  file_wf f -> 0 < cap < two32 -> 0 <= sps < two32 -> 0 <= subs < two32 ->
  log_repr (log_of_file f cap sps subs) (create_or_reuse f cap sps subs).
Proof.
  intros Hwf Hc Hp Hs.
  assert (Hnew : log_repr (BLog cap sps 1 0 [] (zrep subs None) (zrep subs false)) (create cap sps subs)).
  { constructor; try done; [by apply create_repr|exact (fmap_replicate position _ _)|exact (fmap_replicate (fun f => f =? WAKEFLAG_WAITING) _ _)]. }
  unfold create_or_reuse, log_of_file. destruct f as [|m|r]; [done|done|]. cbn [open].
  destruct (Z.eqb_spec (capacity r) cap) as [Ec|]; [|done]. destruct (Z.eqb_spec (slot_payload_size r) sps) as [Ep|]; [|done].
  destruct (Z.eqb_spec (max_subscribers r) subs) as [Es|]; [|done]. cbn [andb].
  set (r1 := with_generation (wrap64 (generation r + 1)) r).
  assert (Hwf1 : ring_wf r1) by (destruct Hwf; constructor; try done; apply wrap64_u64).
  constructor; try done. cbn. apply (repr_from_here (with_tail 0 r1)); [|done]. apply with_tail_wf; [done|]. by split.
Qed.

(** C29: the ring is a broadcast log.  Whatever ring file the publisher finds, the ring it makes of it is the log that
    starts at 0 without a message, with the cursors and flags of a ring of its shape that was there before and the next generation;
    and any sequence of calls answers what the log answers and leaves the ring of the log it leaves: a publish
    is refused exactly if the slowest subscriber is [capacity] behind, and else appends; a read gets the message at its
    position, or, behind the newest [capacity], the newest that shares its slot, and moves its own cursor behind it; a
    claim takes the first free slot and clears its flag; and no call changes anything else. *)
Theorem ring_is_a_broadcast_log f cap sps subs cs :
  file_wf f -> 0 < cap < two32 -> 0 <= sps < two32 -> 0 <= subs < two32 ->
  let b := log_of_file f cap sps subs in
  let r := create_or_reuse f cap sps subs in
  calls_fit cs b ->
  log_repr b r
  /\ (ring_exec_all cs r).2 = (log_exec_all cs b).2
  /\ log_repr (log_exec_all cs b).1 (ring_exec_all cs r).1.
Proof.
  intros Hwf Hc Hp Hs b r Hf. pose proof (log_of_file_repr f cap sps subs Hwf Hc Hp Hs) as Hb.
  split; [done|]. by apply lr_exec_all.
Qed.

(** ** A concrete log *)

Definition demo_calls : list call :=
  [CClaim 0; CTryPublish [Byte.x61; Byte.x62]; CTryPublish [Byte.x63]; CTryPublish [Byte.x64]; CSetWakeflag 0; CReceive 0 0 []; CTakeWakeflag 0;
   CReceiveSlice 0 1 (zrep 3 Byte.x00); CPublishDropOldest [Byte.x65]; CPublishDropOldest [Byte.x66]; CPublishDropOldest [Byte.x67];
   CReceive 0 2 []; CFull; CLags; CGeneration].

(** Evaluates the conditions on concrete calls. *)
Ltac log_fits :=
  cbn [calls_fit demo_calls]; repeat split;
  try (intros i [= <-]; vm_compute; lia); try (intros i [=]; fail); vm_compute; congruence.

(** On a ring of an earlier publisher, with a message and a subscriber that is still there in slot 0. *)
Definition old_ring : ring := (ring_exec_all [CClaim 0; CTryPublish [Byte.x7a]] (create 2 5 3)).1.

Lemma ring_is_a_broadcast_log_witness :
  (ring_exec_all demo_calls (create_or_reuse (RingFile old_ring) 2 5 3)).2
  = [AIdx (Some 1%nat); ABool true; ABool true; ABool false; AUnit; ARead [Byte.x61; Byte.x62] (Some 1); ABool true;
     ASlice [Byte.x63; Byte.x00; Byte.x00] (Some (2, SliceLen 1)); ABool true; ABool true; ABool true;
     ARead [Byte.x67] (Some 5); ABool true; ALags [(0%nat, 0); (1%nat, 5)]; ANum 2].
Proof.
  destruct (ring_is_a_broadcast_log (RingFile old_ring) 2 5 3 demo_calls) as (_ & E & _).
  - exact (repr_wf _ _ _ (lr_ring _ _ (proj2 (lr_exec_all [CClaim 0; CTryPublish [Byte.x7a]] _ _
      (log_of_file_repr NoRingFile 2 5 3 I ltac:(by split) ltac:(by split) ltac:(by split)) ltac:(log_fits))))).
  - by split.
  - by split.
  - by split.
  - log_fits.
  - etrans; [exact E|]. vm_compute. reflexivity.
Defined.
