(* ===== verification/Seqlock.v ===== *)
(** * The per-slot seqlock under interleaving ([write_slot], [try_receive] of ring.rs)

    The same code as [Ring.write_slot] and [Ring.try_receive], cut at every shared-memory access:
    the publisher stores the marked sequence number, the length, each payload byte and the commit
    one step at a time, and each reader loads the sequence number, the length, each payload byte
    and the sequence number again one step at a time.  [sys_step] interleaves one publisher with
    any number of readers under sequential consistency.  [publisher_alone] and [reader_alone] show
    that, run without interruption, these steps are the functions of [Ring.v]. *)

From Stdlib Require Import ZArith Lia.
From stdpp Require Import base option gmap list relations.
From S2P Require Import Prelude Ring.

(** ** The publisher, one store at a time *)

Inductive pub_pc :=
  | PIdle
  | PLen (data : list byte)              (* [tail | SEQ_WRITING_BIT] stored *)
  | PCopy (data : list byte) (i : nat)   (* length stored, [i] bytes copied *)
  | PTail.                               (* [seq = tail] stored *)

(** The first store of [write_slot]. *)
Definition pub_start (data : list byte) (m : ring) : ring * pub_pc :=
  (upd_slot (slot_index m (tail m)) (set_seq (Z.lor (tail m) SEQ_WRITING_BIT)) m, PLen data).

Definition pub_step (m : ring) (pc : pub_pc) : ring * pub_pc :=
  let idx := slot_index m (tail m) in
  match pc with
  | PIdle => (m, PIdle)
  | PLen data => (upd_slot idx (set_len (zlen data)) m, PCopy data 0)
  | PCopy data i =>
      match data !! i with
      | Some b => (upd_slot idx (set_bytes (Z.of_nat i) [b]) m, PCopy data (S i))
      | None => (upd_slot idx (set_seq (tail m)) m, PTail)
      end
  | PTail => (with_tail (wrap64 (tail m + 1)) m, PIdle)
  end.

(** ** A reader, one load at a time *)

Inductive rd_pc :=
  | RIdle
  | RSeq (retries : nat) (start e : Z)
  | RLen (retries : nat) (start e : Z)
  | RCopy (retries : nat) (start e len : Z) (acc : list byte)
  | RSeqAfter (retries : nat) (start e : Z) (acc : list byte)
  | RStore (start e : Z) (acc : list byte)
  | RDone (start : Z) (res : option (Z * list byte)).

(** The tail check of [try_receive]. *)
Definition rd_start (c : Z) (m : ring) : rd_pc :=
  if tail m <=? c then RDone c None else RSeq MAX_RETRIES c c.

Definition rd_step (i : nat) (m : ring) (pc : rd_pc) : ring * rd_pc :=
  match pc with
  | RIdle => (m, RIdle)
  | RSeq O start _ => (m, RDone start None)
  | RSeq (S n) start e =>
      let seq_before := seq (slot_at m (slot_index m e)) in
      (m, if negb (Z.land seq_before SEQ_WRITING_BIT =? 0) then RSeq n start e
          else if e <? seq_before then RSeq n start seq_before
          else if seq_before <? e then RDone start None
          else RLen n start e)
  | RLen n start e =>
      let len := slen (slot_at m (slot_index m e)) in
      (m, if slot_payload_size m <? len then RSeq n start e else RCopy n start e len [])
  | RCopy n start e len acc =>
      (m, if zlen acc <? len
          then RCopy n start e len
                 (acc ++ [default Byte.x00 (sdata (slot_at m (slot_index m e)) !! length acc)])
          else RSeqAfter n start e acc)
  | RSeqAfter n start e acc =>
      let seq_after := seq (slot_at m (slot_index m e)) in
      (m, if negb (seq_after =? e)
          then RSeq n start (if e <? clear_bit63 seq_after then clear_bit63 seq_after else e)
          else RStore start e acc)
  | RStore start e acc =>
      (set_cursor i (wrap64 (e + 1)) m, RDone start (Some (wrap64 (e + 1), acc)))
  | RDone start res => (m, RDone start res)
  end.

(** ** The interleaved system *)

Record sys := Sys {
  mem : ring;
  pub : pub_pc;
  rds : list rd_pc;
  hist : list (list byte)   (* the messages committed so far, in order *)
}.

(** The message the publisher commits in this step, if any. *)
Definition commits (pc : pub_pc) : list (list byte) :=
  match pc with
  | PCopy data i => match data !! i with Some _ => [] | None => [data] end
  | _ => []
  end.

Section system.
(** The tail when the publisher took the ring over: 0, or the WAL's next cursor. *)
Variable origin : Z.

Inductive sys_step : sys -> sys -> Prop :=
  | StPublish data m rs h :
      zlen data <= slot_payload_size m ->
      sys_step (Sys m PIdle rs h)
               (Sys (pub_start data m).1 (pub_start data m).2 rs h)
  | StPub m pc rs h :
      pc <> PIdle ->
      sys_step (Sys m pc rs h)
               (Sys (pub_step m pc).1 (pub_step m pc).2 rs (h ++ commits pc))
  | StReceive i c m pc rs rpc h :
      rs !! i = Some rpc -> (rpc = RIdle \/ exists st res, rpc = RDone st res) -> origin <= c ->
      sys_step (Sys m pc rs h) (Sys m pc (<[i := rd_start c m]> rs) h)
  | StRead i m pc rs rpc h :
      rs !! i = Some rpc ->
      sys_step (Sys m pc rs h)
               (Sys (rd_step i m rpc).1 pc (<[i := (rd_step i m rpc).2]> rs) h)
  | StCursor j v m pc rs h :
      is_u64 v ->
      sys_step (Sys m pc rs h) (Sys (set_cursor j v m) pc rs h).

(** A ring just taken over: any slot contents, nothing published yet. *)
Definition sys_init (s : sys) : Prop :=
  ring_wf (mem s) /\ tail (mem s) = origin /\ pub s = PIdle /\ hist s = []
  /\ Forall (fun pc => pc = RIdle) (rds s).

(** One past the newest committed position. *)
Definition top (s : sys) : Z := origin + zlen (hist s).

Definition writing (pc : pub_pc) : bool :=
  match pc with PLen _ | PCopy _ _ => true | _ => false end.

Definition pub_inv (s : sys) : Prop :=
  let m := mem s in
  let w := slot_at m (slot_index m (tail m)) in
  match pub s with
  | PIdle => tail m = top s
  | PLen data =>
      tail m = top s /\ zlen data <= slot_payload_size m /\ seq w = Z.lor (tail m) SEQ_WRITING_BIT
  | PCopy data i =>
      tail m = top s /\ zlen data <= slot_payload_size m /\ seq w = Z.lor (tail m) SEQ_WRITING_BIT
      /\ slen w = zlen data /\ (i <= length data)%nat /\ take i (sdata w) = take i data
  | PTail => tail m + 1 = top s
  end.

Definition slots_inv (s : sys) : Prop :=
  let m := mem s in
  forall p, origin <= p -> top s - capacity m <= p -> p < top s ->
    ~ (writing (pub s) = true /\ slot_index m (tail m) = slot_index m p) ->
    exists d, log_at origin (hist s) p = Some d /\ slot_holds m p d.

Definition committed (s : sys) (e : Z) : Prop := origin <= e < top s.
Definition started (s : sys) (e : Z) : Prop :=
  committed s e \/ (writing (pub s) = true /\ e = tail (mem s)).

(** "The slot of [e] still belongs to [e]". *)
Definition unchanged (s : sys) (e : Z) : Prop :=
  seq (slot_at (mem s) (slot_index (mem s) e)) = e.

Definition rd_inv (s : sys) (pc : rd_pc) : Prop :=
  match pc with
  | RIdle => True
  | RSeq _ start e => origin <= start <= e /\ started s e
  | RLen _ start e => origin <= start <= e /\ committed s e
  | RCopy _ start e len acc =>
      origin <= start <= e /\ committed s e
      /\ (unchanged s e -> exists d, log_at origin (hist s) e = Some d
            /\ len = zlen d /\ zlen acc <= len /\ acc = take (length acc) d)
  | RSeqAfter _ start e acc =>
      origin <= start <= e /\ committed s e
      /\ (unchanged s e -> log_at origin (hist s) e = Some acc)
  | RStore start e acc =>
      start <= e /\ committed s e /\ log_at origin (hist s) e = Some acc
  | RDone _ None => True
  | RDone start (Some (c, out)) =>
      exists p, start <= p /\ committed s p /\ c = p + 1 /\ log_at origin (hist s) p = Some out
  end.

Record sys_inv (s : sys) : Prop := {
  si_wf : ring_wf (mem s);
  si_origin : 0 <= origin;
  si_pub : pub_inv s;
  si_slots : slots_inv s;
  si_rds : Forall (rd_inv s) (rds s)
}.

(** ** What a step of another thread may change

    [mono s s'] collects what a reader relies on: the log only grows, a position stays committed or
    started, and a slot that left position [e] never comes back to it. *)

Record mono (s s' : sys) : Prop := {
  mono_hist : forall p d, log_at origin (hist s) p = Some d -> log_at origin (hist s') p = Some d;
  mono_top : top s <= top s';
  mono_started : forall e, started s e -> started s' e;
  mono_unchanged : forall e, committed s e -> unchanged s' e -> unchanged s e
}.

Lemma rd_inv_mono s s' pc : mono s s' -> rd_inv s pc -> rd_inv s' pc.
Proof.
  intros [Hh Ht Hs Hu].
  assert (Hc : forall e, committed s e -> committed s' e) by (unfold committed; lia).
  destruct pc as [| | | | | |st [[c out]|]]; cbn [rd_inv]; try (by intros; intuition auto).
  - intros (Hse & Hce & H). split; [done|]. split; [auto|]. intros (d & ? & ?)%(Hu _ Hce)%H. eauto.
  - intros (p & ? & ? & ? & ?). exists p. auto.
Qed.

(** ** Slots under single stores *)

Definition upd_w (f : slot -> slot) (m : ring) : ring := upd_slot (slot_index m (tail m)) f m.

Lemma slot_at_upd_w f m p :
  ring_wf m ->
  slot_at (upd_w f m) (slot_index m p) =
    if decide (slot_index m (tail m) = slot_index m p) then f (slot_at m (slot_index m p))
    else slot_at m (slot_index m p).
Proof.
  intros Hwf. pose proof (wf_capacity m Hwf). pose proof (wf_slots_len m Hwf).
  pose proof (slot_index_range m p ltac:(lia)). pose proof (slot_index_range m (tail m) ltac:(lia)).
  unfold upd_w. rewrite slot_at_upd by lia. done.
Qed.

Lemma slot_at_upd_w_same f m :
  ring_wf m -> slot_at (upd_w f m) (slot_index m (tail m)) = f (slot_at m (slot_index m (tail m))).
Proof. intros. by rewrite slot_at_upd_w, decide_True. Qed.

Lemma upd_w_wf f m :
  ring_wf m ->
  (slot_wf (slot_payload_size m) (slot_at m (slot_index m (tail m))) ->
   slot_wf (slot_payload_size m) (f (slot_at m (slot_index m (tail m))))) ->
  ring_wf (upd_w f m).
Proof.
  intros Hwf Hf. pose proof (slot_at_wf m (tail m) Hwf) as Hw. specialize (Hf Hw).
  destruct Hwf. unfold upd_w, upd_slot, with_slots.
  constructor; cbn; try done.
  - unfold zlen in *. by rewrite length_alter.
  - apply Forall_alter; [done|]. intros s Hs _.
    unfold slot_at in Hf. rewrite Hs in Hf. done.
Qed.

(** Positions that share the slot being written: none is both committed and recent. *)
Lemma seq_writing_large t : 0 <= t < two63 -> two63 <= Z.lor t SEQ_WRITING_BIT.
Proof. intros. unfold SEQ_WRITING_BIT. rewrite lor_two63_small by done. lia. Qed.

(** The newest committed position that shares the slot of [e]. *)
Lemma newest_committed s e :
  sys_inv s -> committed s e ->
  ~ (writing (pub s) = true /\ slot_index (mem s) (tail (mem s)) = slot_index (mem s) e) ->
  exists p d, e <= p /\ committed s p /\ slot_index (mem s) p = slot_index (mem s) e
    /\ log_at origin (hist s) p = Some d /\ slot_holds (mem s) p d.
Proof.
  intros [Hwf Ho Hp Hs _] [He1 He2] Hnw. pose proof (wf_capacity _ Hwf) as Hcap.
  destruct (newest_pos_spec (with_tail (top s) (mem s)) e) as ([H1 H2] & H3 & H4);
    [cbn; lia|cbn; lia|].
  set (p := newest_pos _ e) in *. cbn [tail with_tail capacity] in *.
  change (slot_index (mem s) p = slot_index (mem s) e) in H4.
  destruct (Hs p) as (d & Hd & Hh); [lia|lia|lia|by rewrite H4|].
  exists p, d. unfold committed. repeat split; try done; try lia; apply Hh.
Qed.

Lemma unchanged_holds s e :
  sys_inv s -> top s < two63 -> committed s e -> unchanged s e ->
  exists d, log_at origin (hist s) e = Some d /\ slot_holds (mem s) e d.
Proof.
  intros Hinv Hmax Hc Hu. pose proof Hinv as [Hwf Ho Hp _ _].
  destruct (decide (writing (pub s) = true
                    /\ slot_index (mem s) (tail (mem s)) = slot_index (mem s) e)) as [[Hw E]|Hnw].
  - exfalso. unfold unchanged in Hu. rewrite <- E in Hu.
    unfold pub_inv in Hp. pose proof (wf_tail _ Hwf). unfold committed in Hc.
    destruct (pub s); try done;
      [destruct Hp as (Ht & _ & Hq)|destruct Hp as (Ht & _ & Hq & _)];
      rewrite Hq in Hu; pose proof (seq_writing_large (tail (mem s))); unfold is_u64 in *; lia.
  - destruct (newest_committed s e Hinv Hc Hnw) as (p & d & Hle & Hcp & Hsl & Hd & Hh).
    assert (p = e) as ->; [|by eauto].
    destruct Hh as [Hq _]. unfold unchanged in Hu. rewrite Hsl in Hq. congruence.
Qed.

(** What a reader at a started position finds in its slot: the write mark of the position being
    published, or the newest committed position of the slot. *)
Lemma seq_cases s e :
  sys_inv s -> top s < two63 -> started s e ->
  let q := seq (slot_at (mem s) (slot_index (mem s) e)) in
  (writing (pub s) = true /\ q = Z.lor (tail (mem s)) SEQ_WRITING_BIT /\ e <= tail (mem s)
   /\ tail (mem s) = top s)
  \/ (e <= q /\ committed s q).
Proof.
  intros Hinv Hmax Hst. pose proof Hinv as [Hwf Ho Hp _ _]. cbn zeta.
  destruct (decide (writing (pub s) = true
                    /\ slot_index (mem s) (tail (mem s)) = slot_index (mem s) e)) as [[Hw E]|Hnw].
  - left. rewrite <- E. unfold pub_inv in Hp.
    assert (Hle : tail (mem s) = top s -> e <= tail (mem s)).
    { intros. destruct Hst as [[_ ?]|[_ ->]]; lia. }
    destruct (pub s); try done; destruct Hp as (Ht & _ & Hq); [|destruct Hq as [Hq _]]; auto.
  - right. destruct Hst as [Hc|[Hw ->]]; [|by exfalso; apply Hnw].
    destruct (newest_committed s e Hinv Hc Hnw) as (p & d & Hle & Hcp & Hsl & Hd & Hh).
    destruct Hh as [Hq _]. rewrite Hsl in Hq. by rewrite Hq.
Qed.

Lemma seq_not_marked q : 0 <= q < two63 -> (Z.land q SEQ_WRITING_BIT =? 0) = true.
Proof. intros. unfold SEQ_WRITING_BIT. by rewrite land_two63_small. Qed.

Lemma seq_marked t : 0 <= t < two63 -> (Z.land (Z.lor t SEQ_WRITING_BIT) SEQ_WRITING_BIT =? 0) = false.
Proof. intros. unfold SEQ_WRITING_BIT. by rewrite land_two63_flag. Qed.

Lemma top_u63 s e : sys_inv s -> top s < two63 -> committed s e -> 0 <= e < two63.
Proof. intros [_ ? _ _ _] ? [? ?]. lia. Qed.

Lemma rd_step_seq i s n start e :
  sys_inv s -> top s < two63 -> rd_inv s (RSeq n start e) ->
  rd_inv s (rd_step i (mem s) (RSeq n start e)).2.
Proof.
  intros Hinv Hmax [Hse Hst]. pose proof Hinv as [Hwf Ho _ _ _].
  destruct n as [|n]; [done|]. cbn [rd_step snd].
  destruct (seq_cases s e Hinv Hmax Hst) as [(Hw & -> & Hle & Ht)|[Hle Hc]].
  - pose proof (wf_tail _ Hwf). unfold is_u64 in *. by rewrite seq_marked by lia.
  - pose proof (top_u63 _ _ Hinv Hmax Hc).
    rewrite seq_not_marked by done. cbn [negb].
    set (q := seq _) in *.
    destruct (Z.ltb_spec e q); [split; [lia|by left]|].
    destruct (Z.ltb_spec q e); [done|].
    assert (q = e) as E by lia. rewrite E in Hc. by split.
Qed.

Lemma rd_step_len i s n start e :
  sys_inv s -> top s < two63 -> rd_inv s (RLen n start e) ->
  rd_inv s (rd_step i (mem s) (RLen n start e)).2.
Proof.
  intros Hinv Hmax [Hse Hc]. cbn [rd_step snd].
  destruct (_ <? _); [split; [done|by left]|].
  split; [done|]. split; [done|]. intros Hu.
  destruct (unchanged_holds s e Hinv Hmax Hc Hu) as (d & Hd & _ & Hl & _).
  exists d. rewrite Hl. repeat split; [done|]. apply zlen_nonneg.
Qed.

Lemma rd_step_copy i s n start e len acc :
  sys_inv s -> top s < two63 -> rd_inv s (RCopy n start e len acc) ->
  rd_inv s (rd_step i (mem s) (RCopy n start e len acc)).2.
Proof.
  intros Hinv Hmax (Hse & Hc & H). cbn [rd_step snd].
  destruct (Z.ltb_spec (zlen acc) len) as [Hlt|Hge];
    (split; [done|]); (split; [done|]); intros Hu;
    destruct (H Hu) as (d & Hd & -> & Hle & Hacc).
  - exists d. split; [done|]. split; [done|]. split; [rewrite zlen_app, zlen_cons, zlen_nil; lia|].
    destruct (unchanged_holds s e Hinv Hmax Hc Hu) as (d' & Hd' & _ & _ & Hdata & _).
    rewrite Hd in Hd'. simplify_eq. unfold zlen in *.
    destruct (lookup_lt_is_Some_2 d' (length acc)) as [b Hb]; [lia|].
    assert (sdata (slot_at (mem s) (slot_index (mem s) e)) !! length acc = Some b) as ->.
    { rewrite <- Hdata in Hb. unfold ztake in Hb. by apply lookup_take_Some in Hb as [? _]. }
    rewrite length_app. cbn [default length]. rewrite Nat.add_1_r, (take_S_r _ _ b) by done.
    by rewrite <- Hacc.
  - rewrite Hd. f_equal. rewrite Hacc. symmetry. apply take_ge. unfold zlen in *. lia.
Qed.

Lemma rd_step_after i s n start e acc :
  sys_inv s -> top s < two63 -> rd_inv s (RSeqAfter n start e acc) ->
  rd_inv s (rd_step i (mem s) (RSeqAfter n start e acc)).2.
Proof.
  intros Hinv Hmax (Hse & Hc & H). cbn [rd_step snd]. pose proof Hinv as [Hwf _ _ _ _].
  destruct (Z.eqb_spec (seq (slot_at (mem s) (slot_index (mem s) e))) e) as [E|Hne]; cbn [negb].
  { split; [lia|]. split; [done|]. by apply H. }
  destruct (Z.ltb_spec e (clear_bit63 (seq (slot_at (mem s) (slot_index (mem s) e)))));
    [|split; [done|by left]].
  split; [lia|].
  destruct (seq_cases s e Hinv Hmax ltac:(by left)) as [(Hw & E & Hle & Ht)|[Hle Hq]].
  - rewrite E. pose proof (wf_tail _ Hwf). unfold SEQ_WRITING_BIT, is_u64 in *.
    rewrite clear_bit63_flag by lia. by right.
  - left. rewrite clear_bit63_small by by eapply top_u63. done.
Qed.

Lemma rd_step_inv i s pc :
  sys_inv s -> top s < two63 -> rd_inv s pc -> rd_inv s (rd_step i (mem s) pc).2.
Proof.
  intros Hinv Hmax H.
  destruct pc as [| | | | |start e acc|]; try done.
  - by apply rd_step_seq.
  - by apply rd_step_len.
  - by apply rd_step_copy.
  - by apply rd_step_after.
  - destruct H as (Hse & Hc & Hd). pose proof (top_u63 _ _ Hinv Hmax Hc). cbn.
    rewrite wrap64_small by ulia. exists e. split; [lia|]. done.
Qed.

(** ** Publisher steps *)

Lemma slot_holds_upd_w f m p d :
  ring_wf m -> slot_index m (tail m) <> slot_index m p -> slot_holds m p d ->
  slot_holds (upd_w f m) p d.
Proof.
  intros Hwf Hne Hh. unfold slot_holds.
  change (slot_index (upd_w f m) p) with (slot_index m p).
  by rewrite slot_at_upd_w, decide_False.
Qed.

Lemma log_at_app_prefix log log' p d :
  log_at origin log p = Some d -> log_at origin (log ++ log') p = Some d.
Proof.
  unfold log_at. destruct (p <? origin); [done|]. intros. by apply lookup_app_l_Some.
Qed.

Lemma mono_refl_mem s s' :
  hist s' = hist s -> slots (mem s') = slots (mem s) -> capacity (mem s') = capacity (mem s) ->
  (forall e, started s e -> started s' e) -> mono s s'.
Proof.
  intros Hh Hs Hc Hst. constructor; unfold top, unchanged, slot_at, slot_index; rewrite ?Hh, ?Hs, ?Hc;
    try done; auto.
Qed.

Lemma mono_upd s pc rs f h :
  ring_wf (mem s) ->
  (forall e, started s e -> started (Sys (upd_w f (mem s)) pc rs (hist s ++ h)) e) ->
  (forall e, committed s e -> slot_index (mem s) (tail (mem s)) = slot_index (mem s) e ->
     let w := slot_at (mem s) (slot_index (mem s) (tail (mem s))) in seq (f w) = e -> seq w = e) ->
  mono s (Sys (upd_w f (mem s)) pc rs (hist s ++ h)).
Proof.
  intros Hwf Hst Hu. constructor; cbn [mem hist]; [| |done|].
  - intros. by apply log_at_app_prefix.
  - unfold top. cbn [hist]. rewrite zlen_app. pose proof (zlen_nonneg h). lia.
  - intros e Hc. unfold unchanged. cbn [mem].
    change (slot_index (upd_w f (mem s)) e) with (slot_index (mem s) e).
    rewrite slot_at_upd_w by done. case_decide as E; [|done].
    rewrite <- E. by apply Hu.
Qed.

(** The publisher's part of the invariant is about the slot it is writing only, so a store to that
    slot keeps every other committed slot as it was. *)
Lemma slots_inv_upd s pc rs f :
  ring_wf (mem s) -> writing pc = true -> slots_inv s ->
  slots_inv (Sys (upd_w f (mem s)) pc rs (hist s)).
Proof.
  intros Hwf Hw Hs p H1 H2 H3 Hnw. cbn [mem hist pub] in *.
  change (capacity (upd_w f (mem s))) with (capacity (mem s)) in H2.
  assert (slot_index (mem s) (tail (mem s)) <> slot_index (mem s) p) as Hne by auto.
  destruct (Hs p H1 H2 H3) as (d & Hd & Hh); [by intros [_ ?]|].
  exists d. split; [done|]. by apply slot_holds_upd_w.
Qed.

Lemma sys_inv_upd s pc f :
  sys_inv s -> top s < two63 -> tail (mem s) = top s -> writing pc = true ->
  let s' := Sys (upd_w f (mem s)) pc (rds s) (hist s) in
  let w := slot_at (mem s) (slot_index (mem s) (tail (mem s))) in
  (slot_wf (slot_payload_size (mem s)) w -> slot_wf (slot_payload_size (mem s)) (f w)) ->
  (seq (f w) = seq w \/ seq (f w) = Z.lor (tail (mem s)) SEQ_WRITING_BIT) ->
  pub_inv s' -> sys_inv s'.
Proof.
  intros [Hwf Ho Hp Hs Hr] Hmax Ht Hw s' w Hfw Hq Hpub. constructor; try done.
  - by apply upd_w_wf.
  - apply slots_inv_upd; auto.
  - apply (Forall_impl _ _ _ Hr). intros pc'. apply rd_inv_mono.
    unfold s'. rewrite <- (app_nil_r (hist s)). apply mono_upd; [done| |].
    + rewrite app_nil_r. unfold started, committed, top. cbn [hist pub mem].
      intros e [?|[? Ee]]; [by left|by right].
    + intros e [_ He] E. cbn zeta. fold w. destruct Hq as [-> | ->]; [done|]. intros <-.
      pose proof (wf_tail _ Hwf). pose proof (seq_writing_large (tail (mem s))).
      unfold is_u64 in *. lia.
Qed.

Lemma set_seq_wf sps q w : is_u64 q -> slot_wf sps w -> slot_wf sps (set_seq q w).
Proof. by intros ? (? & ? & ?). Qed.

Lemma marked_u64 t : 0 <= t < two63 -> is_u64 (Z.lor t SEQ_WRITING_BIT).
Proof. intros. unfold SEQ_WRITING_BIT. rewrite lor_two63_small by done. ulia. Qed.

Lemma pub_start_inv s data :
  sys_inv s -> top s < two63 -> pub s = PIdle -> zlen data <= slot_payload_size (mem s) ->
  sys_inv (Sys (pub_start data (mem s)).1 (pub_start data (mem s)).2 (rds s) (hist s)).
Proof.
  intros Hinv Hmax Hpc Hlen. pose proof Hinv as [Hwf Ho Hp _ _].
  unfold pub_inv in Hp. rewrite Hpc in Hp. pose proof (wf_tail _ Hwf) as Htl. unfold is_u64 in Htl.
  apply (sys_inv_upd s (PLen data) (set_seq (Z.lor (tail (mem s)) SEQ_WRITING_BIT))); auto.
  - apply set_seq_wf, marked_u64. lia.
  - cbn. change (slot_index (upd_w ?f (mem s)) _) with (slot_index (mem s) (tail (mem s))).
    rewrite slot_at_upd_w_same by done. done.
Qed.

Lemma pub_len_inv s data :
  sys_inv s -> top s < two63 -> pub s = PLen data ->
  sys_inv (Sys (pub_step (mem s) (PLen data)).1 (PCopy data 0) (rds s) (hist s)).
Proof.
  intros Hinv Hmax Hpc. pose proof Hinv as [Hwf Ho Hp _ _].
  unfold pub_inv in Hp. rewrite Hpc in Hp. destruct Hp as (Ht & Hl & Hq).
  apply (sys_inv_upd s (PCopy data 0) (set_len (zlen data))); auto.
  - intros (? & ? & ?). pose proof (zlen_nonneg data). done.
  - cbn. change (slot_index (upd_w ?f (mem s)) _) with (slot_index (mem s) (tail (mem s))).
    rewrite slot_at_upd_w_same by done. cbn. repeat split; auto; lia.
Qed.

Lemma take_zsplice_one (i : nat) (b : byte) (l : list byte) :
  (i < length l)%nat -> take (S i) (zsplice (Z.of_nat i) [b] l) = take i l ++ [b].
Proof.
  intros Hi. unfold zsplice, ztake. rewrite Nat2Z.id, app_assoc, take_app_le.
  - apply take_ge. rewrite length_app, length_take. cbn. lia.
  - rewrite length_app, length_take. cbn. lia.
Qed.

Lemma pub_copy_inv s data i b :
  sys_inv s -> top s < two63 -> pub s = PCopy data i -> data !! i = Some b ->
  sys_inv (Sys (upd_w (set_bytes (Z.of_nat i) [b]) (mem s)) (PCopy data (S i)) (rds s) (hist s)).
Proof.
  intros Hinv Hmax Hpc Hb. pose proof Hinv as [Hwf Ho Hp _ _].
  unfold pub_inv in Hp. rewrite Hpc in Hp. destruct Hp as (Ht & Hl & Hq & Hlen & Hi & Htk).
  apply lookup_lt_Some in Hb as Hlt.
  destruct (slot_at_wf (mem s) (tail (mem s)) Hwf) as (Hw1 & Hw2 & Hw3).
  assert (Hin : (i < length (sdata (slot_at (mem s) (slot_index (mem s) (tail (mem s))))))%nat)
    by (unfold zlen in *; lia).
  apply (sys_inv_upd s (PCopy data (S i)) (set_bytes (Z.of_nat i) [b])); auto.
  - intros _. split; [done|]. split; [done|]. cbn [set_bytes sdata].
    rewrite zlen_zsplice; [done|lia|]. rewrite zlen_cons, zlen_nil. unfold zlen in *. lia.
  - unfold pub_inv. cbn [pub mem].
    change (slot_index (upd_w ?f (mem s)) _) with (slot_index (mem s) (tail (mem s))).
    rewrite slot_at_upd_w_same by done. cbn [set_bytes seq slen sdata].
    split; [done|]. repeat split; auto.
    rewrite take_zsplice_one, Htk by done. symmetry. by apply take_S_r.
Qed.

(** The commit: the message joins the log at position [tail]. *)
Lemma pub_commit_inv s data i :
  sys_inv s -> top s + 1 < two63 -> pub s = PCopy data i -> data !! i = None ->
  sys_inv (Sys (upd_w (set_seq (tail (mem s))) (mem s)) PTail (rds s) (hist s ++ [data])).
Proof.
  intros Hinv Hmax Hpc Hb. pose proof Hinv as [Hwf Ho Hp Hs Hr].
  unfold pub_inv in Hp. rewrite Hpc in Hp. destruct Hp as (Ht & Hl & Hq & Hlen & Hi & Htk).
  apply lookup_ge_None in Hb. assert (i = length data) as -> by lia.
  pose proof (wf_tail _ Hwf) as Htl. pose proof (wf_capacity _ Hwf).
  assert (Htop : forall m pc rs, top (Sys m pc rs (hist s ++ [data])) = top s + 1)
    by (intros; unfold top; cbn [hist]; rewrite zlen_app, zlen_cons, zlen_nil; lia).
  constructor; [| done | | |].
  - apply upd_w_wf; [done|]. by apply set_seq_wf.
  - unfold pub_inv. cbn [pub]. rewrite Htop. cbn. lia.
  - intros p H1 H2 H3 _. cbn [mem hist] in *. rewrite Htop in *.
    change (capacity (upd_w _ (mem s))) with (capacity (mem s)) in H2.
    destruct (decide (p = tail (mem s))) as [->|Hne].
    + exists data. split; [rewrite Ht; apply log_at_app_new|].
      unfold slot_holds. change (slot_index (upd_w ?f (mem s)) ?q) with (slot_index (mem s) q).
      rewrite slot_at_upd_w_same by done. cbn [set_seq seq slen sdata].
      repeat split; [done| |done]. unfold ztake, zlen. rewrite Nat2Z.id, Htk. by apply take_ge.
    + assert (slot_index (mem s) (tail (mem s)) <> slot_index (mem s) p) as Hsl.
      { intros E. symmetry in E. apply same_slot_close in E; lia. }
      destruct (Hs p H1 ltac:(lia) ltac:(lia)) as (d & Hd & Hh); [by intros [_ ?]|].
      exists d. split; [by apply log_at_app_prefix|]. by apply slot_holds_upd_w.
  - apply (Forall_impl _ _ _ Hr). intros pc'. apply rd_inv_mono. apply mono_upd; [done| |].
    + intros e Hst. left. unfold committed. rewrite Htop. destruct Hst as [[? ?]|[_ ->]]; [lia|].
      split; [|lia]. pose proof (zlen_nonneg (hist s)). unfold top in Ht. lia.
    + intros e [_ He] E. cbn. lia.
Qed.

Lemma pub_tail_inv s :
  sys_inv s -> top s < two63 -> pub s = PTail ->
  sys_inv (Sys (with_tail (wrap64 (tail (mem s) + 1)) (mem s)) PIdle (rds s) (hist s)).
Proof.
  intros Hinv Hmax Hpc. pose proof Hinv as [Hwf Ho Hp Hs Hr].
  unfold pub_inv in Hp. rewrite Hpc in Hp. pose proof (wf_tail _ Hwf).
  rewrite wrap64_small by ulia. constructor; [| done | | |].
  - apply with_tail_wf; [done|]. ulia.
  - unfold pub_inv. done.
  - intros p H1 H2 H3 _. apply (Hs p H1 H2 H3). rewrite Hpc. by intros [? _].
  - apply (Forall_impl _ _ _ Hr). intros pc'. apply rd_inv_mono, mono_refl_mem; try done.
    intros e [?|[Hw _]]; [by left|]. by rewrite Hpc in Hw.
Qed.

(** A store to the cursor table concerns no slot. *)
Lemma cursor_store_inv s m rs :
  sys_inv s -> ring_wf m -> slots m = slots (mem s) -> capacity m = capacity (mem s) ->
  slot_payload_size m = slot_payload_size (mem s) -> tail m = tail (mem s) ->
  Forall (rd_inv s) rs -> sys_inv (Sys m (pub s) rs (hist s)).
Proof.
  intros [Hwf Ho Hp Hs Hr] Hm Hsl Hc Hsz Ht Hrs. constructor; [done|done| | |].
  - unfold pub_inv, slot_at, slot_index, top in *. cbn. by rewrite Ht, Hc, Hsl, Hsz.
  - unfold slots_inv, slot_holds, slot_at, slot_index, top in *. cbn.
    by rewrite Ht, Hc, Hsl, Hsz.
  - apply (Forall_impl _ _ _ Hrs). intros pc'. apply rd_inv_mono, mono_refl_mem; try done.
    unfold started, committed, top. cbn. by rewrite Ht.
Qed.

Lemma rd_start_inv s c : sys_inv s -> top s < two63 -> origin <= c -> rd_inv s (rd_start c (mem s)).
Proof.
  intros [Hwf Ho Hp Hs Hr] Hmax Hc. unfold rd_start. destruct (Z.leb_spec (tail (mem s)) c); [done|].
  split; [lia|]. left. split; [done|]. unfold pub_inv in Hp. destruct (pub s); lia.
Qed.

Lemma rd_step_mem_inv i s pc rs :
  sys_inv s -> Forall (rd_inv s) rs -> sys_inv (Sys (rd_step i (mem s) pc).1 (pub s) rs (hist s)).
Proof.
  intros Hinv Hrs. pose proof Hinv as [Hwf _ _ _ _].
  destruct pc as [|[|n]| | | | |]; try (by apply cursor_store_inv).
  apply cursor_store_inv; try done. cbn. auto with mm.
Qed.

Lemma sys_step_inv s s' : sys_inv s -> sys_step s s' -> top s' < two63 -> sys_inv s'.
Proof.
  intros Hinv Hstep. inversion Hstep as
    [data m rs h Hlen|m pc rs h Hne|i c m pc rs rpc h Hi Hpc Hc|i m pc rs rpc h Hi|j v m pc rs h Hv];
    subst; intros Hmax.
  - by apply (pub_start_inv (Sys m PIdle rs h) data).
  - assert (Hle : top (Sys m pc rs h) <= top (Sys (pub_step m pc).1 (pub_step m pc).2 rs (h ++ commits pc))).
    { unfold top. cbn [hist]. rewrite zlen_app. pose proof (zlen_nonneg (commits pc)). lia. }
    destruct pc as [|data|data i|]; [done| | |]; cbn [pub_step commits fst snd] in *.
    + rewrite app_nil_r in *. by apply (pub_len_inv (Sys m (PLen data) rs h)).
    + destruct (data !! i) as [b|] eqn:Hb.
      * rewrite app_nil_r in *. apply (pub_copy_inv (Sys m (PCopy data i) rs h)); try done.
      * apply (pub_commit_inv (Sys m (PCopy data i) rs h) data i); try done.
        unfold top in *. cbn [hist] in *. rewrite zlen_app, zlen_cons, zlen_nil in Hmax. lia.
    + rewrite app_nil_r in *. by apply (pub_tail_inv (Sys m PTail rs h)).
  - pose proof Hinv as [Hwf _ _ _ Hr]. apply (cursor_store_inv (Sys m pc rs h)); try done.
    apply Forall_insert; [done|]. by apply (rd_start_inv (Sys m pc rs h)).
  - pose proof Hinv as [_ _ _ _ Hr]. apply (rd_step_mem_inv i (Sys m pc rs h)); [done|].
    apply Forall_insert; [done|]. apply (rd_step_inv i (Sys m pc rs h)); [done|done|].
    rewrite Forall_lookup in Hr. by eapply Hr.
  - pose proof Hinv as [Hwf _ _ _ Hr]. apply (cursor_store_inv (Sys m pc rs h)); try done.
    cbn. auto with mm.
Qed.

Lemma sys_step_top s s' : sys_step s s' -> top s <= top s'.
Proof.
  intros []; unfold top; cbn [hist]; try lia.
  rewrite zlen_app. pose proof (zlen_nonneg (commits pc)). lia.
Qed.

Lemma sys_init_inv s : 0 <= origin < two63 -> sys_init s -> sys_inv s.
Proof.
  intros Ho (Hwf & Ht & Hp & Hh & Hr). constructor; [done|lia| | |].
  - unfold pub_inv. rewrite Hp. unfold top. rewrite Hh, zlen_nil. lia.
  - intros p H1 _ H2. unfold top in H2. rewrite Hh, zlen_nil in H2. lia.
  - apply (Forall_impl _ _ _ Hr). by intros pc ->.
Qed.

Lemma reachable_inv s0 s :
  0 <= origin < two63 -> sys_init s0 -> rtc sys_step s0 s -> top s < two63 -> sys_inv s.
Proof.
  intros Ho Hi Hr. assert (Hinv : sys_inv s0) by (by apply sys_init_inv). clear Hi.
  induction Hr as [|s0 s1 s Hst Hr IH]; intros Hmax; [done|].
  apply IH; [|done]. apply (sys_step_inv s0); [done|done|].
  enough (top s1 <= top s) by lia. clear -Hr.
  induction Hr as [|x y z Hxy _ IHr]; [lia|]. apply sys_step_top in Hxy. lia.
Qed.

(** C4: no torn reads.  However a publisher's stores and any number of readers' loads interleave, a
    message a reader returns is, byte for byte, one the publisher committed, at the position just
    below the returned cursor, and that position is not before the cursor the reader asked for. *)
Theorem no_torn_read s0 s i start c out :
  0 <= origin < two63 -> sys_init s0 -> rtc sys_step s0 s -> top s < two63 ->
  rds s !! i = Some (RDone start (Some (c, out))) ->
  start < c <= top s /\ log_at origin (hist s) (c - 1) = Some out.
Proof.
  intros Ho Hi Hr Hmax Hd. destruct (reachable_inv s0 s Ho Hi Hr Hmax) as [_ _ _ _ Hrs].
  rewrite Forall_lookup in Hrs. destruct (Hrs _ _ Hd) as (p & Hp & [Hc1 Hc2] & -> & Hlog).
  replace (p + 1 - 1) with p by lia. split; [lia|done].
Qed.

End system.

(** ** The single steps, run alone, are the functions of [Ring.v] *)

Fixpoint pub_run (k : nat) (st : ring * pub_pc) : ring * pub_pc :=
  match k with
  | O => st
  | S k => pub_run k (pub_step st.1 st.2)
  end.

Fixpoint rd_run (i : nat) (k : nat) (st : ring * rd_pc) : ring * rd_pc :=
  match k with
  | O => st
  | S k => rd_run i k (rd_step i st.1 st.2)
  end.

Lemma rd_run_add i j k st : rd_run i (j + k) st = rd_run i k (rd_run i j st).
Proof. revert st. induction j as [|j IH]; intros st; [done|]. cbn. apply IH. Qed.

Lemma zsplice_snoc (data : list byte) (i : nat) (b : byte) (l : list byte) :
  data !! i = Some b -> zlen data <= zlen l ->
  zsplice (Z.of_nat i) [b] (zsplice 0 (take i data) l) = zsplice 0 (take (S i) data) l.
Proof.
  intros Hb Hl. apply lookup_lt_Some in Hb as Hlt. rewrite (take_S_r _ _ b) by done.
  unfold zsplice. rewrite !ztake_0. cbn [app].
  rewrite ztake_app_exact by (unfold zlen; rewrite length_take; lia).
  rewrite <- app_assoc. cbn [app]. f_equal. f_equal.
  rewrite zdrop_app_ge by (unfold zlen; rewrite length_take; cbn; lia).
  rewrite zdrop_zdrop by (unfold zlen; rewrite ?length_take; cbn; lia).
  f_equal. unfold zlen. rewrite length_app, length_take. cbn. lia.
Qed.

Lemma upd_slot_ext idx f g m :
  f (slot_at m idx) = g (slot_at m idx) -> upd_slot idx f m = upd_slot idx g m.
Proof.
  intros E. unfold upd_slot. f_equal. apply list_alter_ext; [|done].
  intros s Hs. unfold slot_at in E. by rewrite Hs in E.
Qed.

(** [i] bytes copied is [copy_nonoverlapping] of the first [i] bytes. *)
Lemma pub_copy_run data k i m :
  zlen data <= zlen (sdata (slot_at m (slot_index m (tail m)))) ->
  (i + k = length data)%nat ->
  pub_run k (upd_w (set_bytes 0 (take i data)) m, PCopy data i)
  = (upd_w (set_bytes 0 data) m, PCopy data (length data)).
Proof.
  intros Hl. revert i. induction k as [|k IH]; intros i Hi.
  { replace i with (length data) by lia. by rewrite firstn_all. }
  destruct (lookup_lt_is_Some_2 data i) as [b Hb]; [lia|].
  cbn [pub_run pub_step fst snd]. rewrite Hb.
  rewrite <- (IH (S i)) by lia. do 2 f_equal.
  change (slot_index (upd_w ?f m) (tail (upd_w ?f m))) with (slot_index m (tail m)).
  unfold upd_w. rewrite upd_slot_fuse. apply upd_slot_ext.
  unfold set_bytes. cbn [seq slen sdata]. f_equal. by apply zsplice_snoc.
Qed.

Lemma pub_run_add j k st : pub_run (j + k) st = pub_run k (pub_run j st).
Proof. revert st. induction j as [|j IH]; intros st; [done|]. cbn. apply IH. Qed.

(** Run without interruption, the publisher's single stores are [write_slot] followed by the store
    of the tail, that is [publish_drop_oldest], and they end after [length data + 3] steps. *)
Theorem publisher_alone data m :
  ring_wf m -> zlen data <= slot_payload_size m ->
  pub_run (length data + 3) (pub_start data m) = ((publish_drop_oldest data m).1, PIdle).
Proof.
  intros Hwf Hl.
  set (m1 := upd_slot (slot_index m (tail m)) (set_seq (Z.lor (tail m) SEQ_WRITING_BIT)) m).
  set (m2 := upd_slot (slot_index m (tail m)) (set_len (zlen data)) m1).
  replace (length data + 3)%nat with (1 + (length data + 2))%nat by lia.
  rewrite pub_run_add. change (pub_run 1 (pub_start data m)) with (m2, PCopy data 0).
  assert (Hsd : sdata (slot_at m2 (slot_index m2 (tail m2))) = sdata (slot_at m (slot_index m (tail m)))).
  { unfold m2, m1. rewrite upd_slot_fuse.
    change (slot_at (upd_slot _ ?f m) _) with (slot_at (upd_w f m) (slot_index m (tail m))).
    by rewrite slot_at_upd_w_same. }
  destruct (slot_at_wf m (tail m) Hwf) as (_ & _ & Hd).
  assert (Hm2 : m2 = upd_w (set_bytes 0 (take 0 data)) m2).
  { symmetry. unfold upd_w, upd_slot. rewrite list_alter_id; [by destruct m2|]. by intros []. }
  rewrite Hm2 at 1. rewrite pub_run_add, pub_copy_run; [|rewrite Hsd; lia|lia].
  cbn [pub_run pub_step fst snd]. by rewrite (proj2 (lookup_ge_None data (length data))) by lia.
Qed.

Lemma rd_copy_run i n start e m acc k :
  let s := slot_at m (slot_index m e) in
  slen s = zlen acc + Z.of_nat k -> slen s <= zlen (sdata s) ->
  acc = take (length acc) (sdata s) ->
  rd_run i (S k) (m, RCopy n start e (slen s) acc) = (m, RSeqAfter n start e (ztake (slen s) (sdata s))).
Proof.
  cbn zeta. set (s := slot_at m (slot_index m e)).
  revert acc. induction k as [|k IH]; intros acc Hl Hle Hacc.
  - cbn [rd_run rd_step fst snd]. destruct (Z.ltb_spec (zlen acc) (slen s)); [lia|].
    rewrite Hacc. unfold ztake, zlen in *. do 3 f_equal. lia.
  - change (rd_run i (S (S k)) ?st) with (rd_run i (S k) (rd_step i st.1 st.2)).
    cbn [rd_step fst snd]. destruct (Z.ltb_spec (zlen acc) (slen s)); [|lia]. fold s.
    destruct (lookup_lt_is_Some_2 (sdata s) (length acc)) as [b Hb]; [unfold zlen in *; lia|].
    rewrite Hb. cbn [default]. apply IH; [|done|].
    + rewrite zlen_app, zlen_cons, zlen_nil. lia.
    + rewrite length_app. cbn [length]. rewrite Nat.add_1_r, (take_S_r _ _ b) by done. by f_equal.
Qed.

(** The result of a finished read, as [try_receive] reports it. *)
Definition rd_result (out : list byte) (res : option (Z * list byte)) : list byte * option Z :=
  match res with Some (c, d) => (d, Some c) | None => (out, None) end.

Lemma rd_loop_run i start m out :
  ring_wf m -> forall n e, exists k res,
  (k <= 2 * n + Z.to_nat (slot_payload_size m) + 5)%nat
  /\ rd_run i k (m, RSeq n start e) = ((receive_loop n i e out m).1.1, RDone start res)
  /\ rd_result out res = ((receive_loop n i e out m).1.2, (receive_loop n i e out m).2).
Proof.
  intros Hwf n. induction n as [|n IH]; intros e.
  { exists 1%nat, None. split; [lia|]. done. }
  destruct (slot_at_wf m e Hwf) as (Hq & Hl & Hd).
  enough (exists k res, (k <= 2 * n + Z.to_nat (slot_payload_size m) + 6)%nat
    /\ rd_run i k (rd_step i m (RSeq (S n) start e))
       = ((receive_loop (S n) i e out m).1.1, RDone start res)
    /\ rd_result out res = ((receive_loop (S n) i e out m).1.2, (receive_loop (S n) i e out m).2))
    as (k & res & Hk & E1 & E2).
  { exists (S k), res. split; [lia|]. split; [|done]. rewrite <- E1. done. }
  cbn [rd_step receive_loop]. set (s := slot_at m (slot_index m e)) in *.
  destruct (negb _); [|destruct (e <? seq s) eqn:E0; [|destruct (seq s <? e) eqn:E]].
  - destruct (IH e) as (k & res & ? & ? & ?). exists k, res. split; [lia|done].
  - destruct (IH (seq s)) as (k & res & ? & ? & ?). exists k, res. split; [lia|done].
  - exists 0%nat, None. split; [lia|]. done.
  - destruct (Z.ltb_spec (slot_payload_size m) (slen s)); [lia|].
    rewrite Z.eqb_refl. cbn [negb].
    exists (1 + (S (Z.to_nat (slen s)) + 2))%nat, (Some (wrap64 (e + 1), ztake (slen s) (sdata s))).
    split; [lia|]. split; [|done].
    rewrite rd_run_add. cbn [rd_run rd_step fst snd]. fold s.
    destruct (Z.ltb_spec (slot_payload_size m) (slen s)); [lia|].
    rewrite rd_run_add. rewrite rd_copy_run; [|rewrite zlen_nil; fold s; lia|fold s; lia|done].
    cbn [rd_run rd_step fst snd]. fold s.
    replace (seq s =? e) with true; [done|].
    apply Z.ltb_ge in E0, E. symmetry. apply Z.eqb_eq. lia.
Qed.

(** Run without interruption, a reader's single loads are [try_receive], with the same ring, result
    and payload, and they end within [2 * 16 + slot_payload_size + 5] steps. *)
Theorem reader_alone i c m out :
  ring_wf m -> exists k res,
  (k <= 2 * 16 + Z.to_nat (slot_payload_size m) + 5)%nat
  /\ rd_run i k (m, rd_start c m) = ((try_receive i c out m).1.1, RDone c res)
  /\ rd_result out res = ((try_receive i c out m).1.2, (try_receive i c out m).2).
Proof.
  intros Hwf. unfold try_receive, rd_start. destruct (tail m <=? c).
  - exists 0%nat, None. split; [lia|]. done.
  - by apply rd_loop_run.
Qed.

(** ** An executable scheduler, and a concrete interleaving *)

Inductive act :=
  | APublish (data : list byte)
  | APub
  | AReceive (i : nat) (c : Z)
  | ARead (i : nat).

(** One scheduled step; an action that is not enabled does nothing. *)
Definition run_act (origin : Z) (s : sys) (a : act) : sys :=
  match a with
  | APublish data =>
      match pub s with
      | PIdle =>
          if zlen data <=? slot_payload_size (mem s)
          then Sys (pub_start data (mem s)).1 (pub_start data (mem s)).2 (rds s) (hist s) else s
      | _ => s
      end
  | APub =>
      match pub s with
      | PIdle => s
      | pc => Sys (pub_step (mem s) pc).1 (pub_step (mem s) pc).2 (rds s) (hist s ++ commits pc)
      end
  | AReceive i c =>
      match rds s !! i with
      | Some (RIdle | RDone _ _) =>
          if origin <=? c then Sys (mem s) (pub s) (<[i := rd_start c (mem s)]> (rds s)) (hist s)
          else s
      | _ => s
      end
  | ARead i =>
      match rds s !! i with
      | Some pc => Sys (rd_step i (mem s) pc).1 (pub s) (<[i := (rd_step i (mem s) pc).2]> (rds s)) (hist s)
      | None => s
      end
  end.

Lemma run_act_steps origin s a : rtc (sys_step origin) s (run_act origin s a).
Proof.
  destruct s as [m pc rs h]. destruct a as [data| |i c|i]; cbn [run_act pub mem rds hist].
  - destruct pc; try apply rtc_refl.
    destruct (Z.leb_spec (zlen data) (slot_payload_size m)); [|apply rtc_refl].
    apply rtc_once. by constructor.
  - destruct pc; try apply rtc_refl; apply rtc_once; by constructor.
  - destruct (rs !! i) as [[| | | | | |]|] eqn:E; try apply rtc_refl;
      (destruct (Z.leb_spec origin c); [|apply rtc_refl]); apply rtc_once;
      (eapply StReceive; [done| |done]); eauto.
  - destruct (rs !! i) as [rpc|] eqn:E; [|apply rtc_refl]. apply rtc_once. by econstructor.
Qed.

Lemma run_acts_steps origin s acts : rtc (sys_step origin) s (foldl (run_act origin) s acts).
Proof.
  revert s. induction acts as [|a acts IH]; intros s; [apply rtc_refl|].
  cbn [foldl]. etransitivity; [apply run_act_steps|apply IH].
Qed.

(** One slot: the reader loads the sequence number of position 0 and a byte of its payload, the
    publisher overwrites the slot with position 1, and the reader's check sends it to position 1. *)
Definition torn_init : sys := Sys (create 1 2 1) PIdle [RIdle] [].

Definition torn_acts : list act :=
  [APublish [Byte.x01; Byte.x01]; APub; APub; APub; APub; APub; AReceive 0 0; ARead 0; ARead 0;
   ARead 0; APublish [Byte.x02; Byte.x02]; APub; APub; ARead 0; APub; APub; APub] ++ repeat (ARead 0) 9.

Lemma torn_init_ok : sys_init 0 torn_init.
Proof.
  split; [by apply create_wf|]. repeat split. by constructor.
Qed.

Lemma no_torn_read_witness :
  let s := foldl (run_act 0) torn_init torn_acts in
  rds s = [RDone 0 (Some (2, [Byte.x02; Byte.x02]))]
  /\ log_at 0 (hist s) 1 = Some [Byte.x02; Byte.x02].
Proof.
  split; [vm_compute; reflexivity|].
  refine (proj2 (no_torn_read 0 torn_init (foldl (run_act 0) torn_init torn_acts) 0%nat 0 2
                   [Byte.x02; Byte.x02] _ torn_init_ok (run_acts_steps 0 torn_init torn_acts) _ _)).
  - split; vm_compute; congruence.
  - vm_compute. reflexivity.
  - vm_compute. reflexivity.
Defined.

Lemma publisher_alone_witness :
  pub_run 5 (pub_start [Byte.x07; Byte.x08] demo_ring)
  = ((publish_drop_oldest [Byte.x07; Byte.x08] demo_ring).1, PIdle).
Proof.
  apply (publisher_alone [Byte.x07; Byte.x08] demo_ring (repr_wf _ _ _ demo_repr)).
  vm_compute. congruence.
Defined.

Lemma reader_alone_witness : exists k res,
  rd_run 0 k (demo_ring, rd_start 1 demo_ring) = ((try_receive 0 1 [] demo_ring).1.1, RDone 1 res).
Proof.
  destruct (reader_alone 0 1 demo_ring [] (repr_wf _ _ _ demo_repr)) as (k & res & _ & E & _).
  exists k, res. exact E.
Defined.
