(* ===== verification/Wakeup.v ===== *)
(** * The wakeup handshake (eventcount) between publisher and subscriber

    [Publisher::broadcast_wakeup] against [Subscriber::wait_readable] / [arm_wakeup], one subscriber,
    one memory access per step.  Both threads own a FIFO store buffer (total store order): a store
    goes into the buffer and reaches memory later, which is the reordering the two [SeqCst] fences of
    the source exist to forbid.  The eventfd is a counter ([EFD_SEMAPHORE]: a read takes one unit). *)

From Stdlib Require Import ZArith Lia.
From stdpp Require Import base option gmap list relations.
From S2P Require Import Prelude Ring.

(** Where the publisher stands in [publish] / [publish_many]. *)
Inductive pub_pc :=
  | PIdle
  | PRing       (* [accept_clients] has run: ring writes *)
  | PBroadcast  (* last ring write issued: entering [broadcast_wakeup] *)
  | PFence      (* clients not empty: at the fence *)
  | PSwap       (* past the fence: at [take_wakeflag] *)
  | PWake.      (* the flag was set: at the eventfd write *)

(** Where the subscriber stands in [connect] / [receive] / [wait_readable]. *)
Inductive sub_pc :=
  | SOff        (* not connected *)
  | SRun        (* reading the ring *)
  | SArm        (* ring seen empty: entering [wait_readable] *)
  | SFence      (* flag store issued: at the fence *)
  | SCheck      (* past the fence: re-checking the tail *)
  | SSleep      (* blocked in [wait_wakeup] *)
  | SClear.     (* woken or timed out: at [clear_wakeflag] *)

Record state := State {
  tail_m : Z;          (* the tail in memory *)
  flag_m : bool;       (* the wakeup flag in memory *)
  pbuf : list Z;       (* the publisher's pending tail stores *)
  sbuf : list bool;    (* the subscriber's pending flag stores *)
  efd : nat;           (* units in the eventfd *)
  cur : Z;             (* the subscriber's cursor *)
  conn : bool;         (* handshake done on the subscriber's side *)
  known : bool;        (* the publisher holds a [Client] for it *)
  ppc : pub_pc;
  spc : sub_pc
}.

(** The tail as the publisher itself reads it. *)
Definition own_tail (t : Z) (pb : list Z) : Z := default t (last pb).

Inductive step : state -> state -> Prop :=
  (* accept_clients *)
  | StAccept t f pb sb e c co k sp :
      step (State t f pb sb e c co k PIdle sp) (State t f pb sb e c co (k || co) PRing sp)
  (* write_slot: the Release store of the tail *)
  | StTail t f pb sb e c co k sp :
      step (State t f pb sb e c co k PRing sp)
           (State t f (pb ++ [own_tail t pb + 1]) sb e c co k PRing sp)
  | StBroadcast t f pb sb e c co k sp :
      step (State t f pb sb e c co k PRing sp) (State t f pb sb e c co k PBroadcast sp)
  (* clients.is_empty() *)
  | StNoClients t f pb sb e c co sp :
      step (State t f pb sb e c co false PBroadcast sp) (State t f pb sb e c co false PIdle sp)
  | StClients t f pb sb e c co sp :
      step (State t f pb sb e c co true PBroadcast sp) (State t f pb sb e c co true PFence sp)
  | StPubFence t f sb e c co k sp :
      step (State t f [] sb e c co k PFence sp) (State t f [] sb e c co k PSwap sp)
  (* take_wakeflag: an atomic swap, which drains the buffer too *)
  | StSwap t f sb e c co k sp :
      step (State t f [] sb e c co k PSwap sp)
           (State t false [] sb e c co k (if f then PWake else PIdle) sp)
  | StWake t f pb sb e c co k sp :
      step (State t f pb sb e c co k PWake sp) (State t f pb sb (S e) c co k PIdle sp)
  | StFlushPub t' t f pb sb e c co k pp sp :
      step (State t f (t' :: pb) sb e c co k pp sp) (State t' f pb sb e c co k pp sp)
  (* connect_with, StartPos::Now *)
  | StConnect t f pb sb e c k pp :
      step (State t f pb sb e c false k pp SOff) (State t f pb sb e t true k pp SRun)
  (* ring.try_receive *)
  | StRead t f pb sb e c co k pp :
      c < t -> step (State t f pb sb e c co k pp SRun) (State t f pb sb e (c + 1) co k pp SRun)
  | StEmpty t f pb sb e c co k pp :
      t <= c -> step (State t f pb sb e c co k pp SRun) (State t f pb sb e c co k pp SArm)
  (* set_wakeflag; fence; re-check *)
  | StSetFlag t f pb sb e c co k pp :
      step (State t f pb sb e c co k pp SArm) (State t f pb (sb ++ [true]) e c co k pp SFence)
  | StSubFence t f pb e c co k pp :
      step (State t f pb [] e c co k pp SFence) (State t f pb [] e c co k pp SCheck)
  | StRecheckData t f pb sb e c co k pp :
      c < t -> step (State t f pb sb e c co k pp SCheck)
                    (State t f pb (sb ++ [false]) e c co k pp SRun)
  | StRecheckEmpty t f pb sb e c co k pp :
      t <= c -> step (State t f pb sb e c co k pp SCheck) (State t f pb sb e c co k pp SSleep)
  (* wait_wakeup: eventfd_drain after poll, or a timeout *)
  | StWoken t f pb sb e c co k pp :
      step (State t f pb sb (S e) c co k pp SSleep) (State t f pb sb e c co k pp SClear)
  | StTimeout t f pb sb e c co k pp :
      step (State t f pb sb e c co k pp SSleep) (State t f pb sb e c co k pp SClear)
  | StClearFlag t f pb sb e c co k pp :
      step (State t f pb sb e c co k pp SClear) (State t f pb (sb ++ [false]) e c co k pp SRun)
  | StFlushSub b t f pb sb e c co k pp sp :
      step (State t f pb (b :: sb) e c co k pp sp) (State t b pb sb e c co k pp sp).

Definition initial (s : state) : Prop :=
  pbuf s = [] /\ sbuf s = [] /\ flag_m s = false /\ efd s = 0%nat /\ conn s = false
  /\ known s = false /\ ppc s = PIdle /\ spc s = SOff.

(** The publisher still has this broadcast's flag check ahead of it. *)
Definition will_swap (p : pub_pc) : bool :=
  match p with PRing | PBroadcast | PFence | PSwap => true | _ => false end.

(** A unit is in the eventfd, or about to be written, or the flag that asks for one is up. *)
Definition signalled (s : state) : Prop := (0 < efd s)%nat \/ ppc s = PWake.

Record inv (s : state) : Prop := {
  (* a publisher that knows the subscriber leaves no tail store pending behind it *)
  inv_drained : known s = true -> (ppc s = PIdle \/ ppc s = PSwap \/ ppc s = PWake) -> pbuf s = [];
  inv_known : known s = true -> conn s = true;
  inv_off : conn s = true -> spc s <> SOff;
  (* between the fence and the wakeup the flag is up unless the publisher took it *)
  inv_armed : (spc s = SCheck \/ spc s = SSleep) -> sbuf s = [] /\ (flag_m s = true \/ signalled s);
  inv_fence : spc s = SFence -> last (sbuf s) = Some true \/ (sbuf s = [] /\ (flag_m s = true \/ signalled s));
  (* unread data while asleep: signalled, or the publisher has yet to look at the flag *)
  inv_sleep : known s = true -> spc s = SSleep -> cur s < tail_m s -> signalled s \/ will_swap (ppc s) = true
}.

Lemma inv_initial s : initial s -> inv s.
Proof.
  intros (? & ? & ? & ? & ? & ? & ? & ?). constructor; intros; try congruence.
  destruct H7; congruence.
Qed.

Lemma inv_step s s' : inv s -> step s s' -> inv s'.
Proof.
  intros [H1 H2 H3 H4 H5 H6] Hst. destruct Hst; unfold signalled in *;
    cbn [tail_m flag_m pbuf sbuf efd cur conn known ppc spc will_swap] in *;
    constructor; cbn [tail_m flag_m pbuf sbuf efd cur conn known ppc spc will_swap];
    unfold signalled; cbn [efd ppc].
  all: try done.
  all: try (intros; by auto).
  all: try solve [intros; intuition (discriminate || congruence)].
  (* accept *)
  - destruct k; cbn; auto.
  (* swap *)
  - intros Hsp. destruct (H4 Hsp) as [? [->|[?|?]]]; auto; done.
  - intros Hsp. destruct (H5 Hsp) as [?|[? [->|[?|?]]]]; auto; done.
  - intros _ Hsp _. destruct (H4 (or_intror Hsp)) as [? [->|[?|?]]]; auto; done.
  (* wake *)
  - intros Hsp. destruct (H4 Hsp). split; [done|]. right. left. lia.
  - intros Hsp. destruct (H5 Hsp) as [?|[? _]]; [auto|]. right. split; [done|]. right. left. lia.
  - intros _ _ _. left. left. lia.
  (* flush of a tail store *)
  - intros Hk Hsp _. right. specialize (H1 Hk). destruct pp; try done; exfalso; naive_solver.
  (* flag store issued *)
  - intros _. left. by rewrite last_snoc.
  (* re-check found nothing *)
  - lia.
  (* flush of a flag store *)
  - intros Hsp. destruct (H5 Hsp) as [Hl|[? _]]; [|done]. destruct sb as [|b' sb].
    + cbn in Hl. right. split; [done|]. left. congruence.
    + left. by rewrite last_cons_cons in Hl.
Qed.

Lemma inv_reachable s0 s : initial s0 -> rtc step s0 s -> inv s.
Proof.
  intros Hi Hr. apply inv_initial in Hi. induction Hr; [done|]. eauto using inv_step.
Qed.

(** C10: no lost wakeup.  Once the publisher has accepted a subscriber, then whenever the publisher is
    between two publishes and the subscriber is blocked in its wait with a message it has not read,
    the eventfd holds a unit that ends the wait, whatever the order in which the stores of both
    threads reached memory. *)
Theorem no_lost_wakeup s0 s :
  initial s0 -> rtc step s0 s ->
  known s = true -> ppc s = PIdle -> spc s = SSleep -> cur s < tail_m s ->
  (0 < efd s)%nat /\ pbuf s = [].
Proof.
  intros Hi Hr Hk Hp Hs Hc. destruct (inv_reachable s0 s Hi Hr) as [H1 _ _ _ _ H6].
  split; [|by auto]. destruct (H6 Hk Hs Hc) as [[?|E]|E]; [done|congruence|].
  by rewrite Hp in E.
Qed.

(** A subscriber whose handshake completes between [accept_clients] and [broadcast_wakeup] of one
    publish: it reads the tail before the ring write, goes to sleep, and the publisher, which has no
    client yet, returns from [broadcast_wakeup] at once. *)
Definition late_state : state := State 1 true [] [] 0 0 true false PIdle SSleep.

Definition off_state : state := State 0 false [] [] 0 0 false false PIdle SOff.

(** A message can stay unread with its subscriber asleep and the publisher idle, when the
    subscriber connects while a publish is running: the wakeup comes only with the next publish. *)
Theorem late_subscriber_sleeps_on_unread_message :
  initial off_state /\ rtc step off_state late_state
  /\ conn late_state = true /\ spc late_state = SSleep /\ ppc late_state = PIdle
  /\ efd late_state = 0%nat /\ cur late_state < tail_m late_state.
Proof.
  repeat split; try done. unfold off_state, late_state.
  eapply rtc_l; [apply StAccept|]. cbn [orb].
  eapply rtc_l; [apply StConnect|].
  eapply rtc_l; [apply StEmpty; lia|].
  eapply rtc_l; [apply StSetFlag|]. cbn [app].
  eapply rtc_l; [apply StFlushSub|].
  eapply rtc_l; [apply StSubFence|].
  eapply rtc_l; [apply StRecheckEmpty; lia|].
  eapply rtc_l; [apply StTail|]. cbn.
  eapply rtc_l; [apply StFlushPub|].
  eapply rtc_l; [apply StBroadcast|].
  apply rtc_once, StNoClients.
Qed.

(** The same subscriber, accepted before the publish: the run ends with a unit in the eventfd. *)
Definition woken_state : state := State 1 false [] [] 1 0 true true PIdle SSleep.

Lemma woken_reach : rtc step off_state woken_state.
Proof.
  unfold off_state, woken_state.
  eapply rtc_l; [apply StConnect|].
  eapply rtc_l; [apply StAccept|]. cbn [orb].
  eapply rtc_l; [apply StEmpty; lia|].
  eapply rtc_l; [apply StSetFlag|]. cbn [app].
  eapply rtc_l; [apply StTail|]. cbn.
  eapply rtc_l; [apply StFlushSub|].
  eapply rtc_l; [apply StSubFence|].
  eapply rtc_l; [apply StRecheckEmpty; lia|].
  eapply rtc_l; [apply StFlushPub|].
  eapply rtc_l; [apply StBroadcast|].
  eapply rtc_l; [apply StClients|].
  eapply rtc_l; [apply StPubFence|].
  eapply rtc_l; [apply StSwap|]. cbn.
  apply rtc_once, StWake.
Qed.

Lemma no_lost_wakeup_witness : (0 < efd woken_state)%nat.
Proof.
  apply (no_lost_wakeup off_state woken_state); try reflexivity; [|exact woken_reach].
  repeat split; reflexivity.
Defined.
