(* ===== verification/Record.v ===== *)
(** * WAL records and segment headers ([crates/mmbus/src/wal/record.rs])

    The on-disk layout of a record and of the 32-byte segment header.  The CRC-32C function comes
    from the [crc32c] crate: it is the class [Crc], of which only the width of the result is used. *)

From Stdlib Require Import ZArith Lia Strings.Byte.
From stdpp Require Import base option gmap list.
From S2P Require Import Prelude.

Definition SEGMENT_MAGIC : Z := 0x6D6D62757357414C.
Definition SEGMENT_VERSION : Z := 1.
Definition SEGMENT_HEADER_LEN : Z := 32.
Definition RECORD_FRAMING : Z := 28.
Definition MAX_RECORD_LEN : Z := 16 * 1024 * 1024.
Definition MAX_PAYLOAD_LEN : Z := MAX_RECORD_LEN - RECORD_FRAMING.

(** The [crc32c] crate: a [u32] checksum of a byte string. *)
Class Crc := {
  crc32c : list byte -> Z;
  crc32c_u32 : forall bs, 0 <= crc32c bs < two32
}.

Record record := Record_ {
  rcursor : Z;
  ts_unix_nanos : Z;
  payload : list byte
}.

Record segment_header := SegmentHeader {
  first_cursor : Z;
  created_unix_nanos : Z
}.

Inductive header_error :=
  | BadMagic (got : Z)
  | UnsupportedVersion (got : Z)
  | Truncated (len : Z).

#[global] Instance record_eq_dec : EqDecision record.
Proof. solve_decision. Defined.

Definition encoded_len (r : record) : Z := RECORD_FRAMING + zlen (payload r).

(** Bytes covered by the checksum. *)
Definition record_body (cursor ts : Z) (payload : list byte) : list byte :=
  to_le 8 cursor ++ to_le 8 ts ++ to_le 4 (zlen payload) ++ payload.

Definition encode_record_into `{Crc} (out : list byte) (cursor ts : Z) (payload : list byte) :
    list byte :=
  let record_len := (RECORD_FRAMING + zlen payload) mod two32 in
  let body := record_body cursor ts payload in
  out ++ to_le 4 record_len ++ body ++ to_le 4 (crc32c body).

Definition encode_into `{Crc} (r : record) (out : list byte) : list byte :=
  encode_record_into out (rcursor r) (ts_unix_nanos r) (payload r).

(** The writes into [[0u8; 32]], in order; [created] is the wall clock at the call. *)
Definition encode_segment_header (first_cursor created : Z) : list byte :=
  let b := zrep SEGMENT_HEADER_LEN Byte.x00 in
  let b := zsplice 0 (to_le 8 SEGMENT_MAGIC) b in
  let b := zsplice 8 (to_le 4 SEGMENT_VERSION) b in
  let b := zsplice 16 (to_le 8 first_cursor) b in
  zsplice 24 (to_le 8 created) b.

#[global] Arguments encode_segment_header : simpl never.

Definition parse (bytes : list byte) : result header_error segment_header :=
  if zlen bytes <? SEGMENT_HEADER_LEN then Err (Truncated (zlen bytes))
  else
    let magic := from_le (zslice 0 8 bytes) in
    if negb (magic =? SEGMENT_MAGIC) then Err (BadMagic magic)
    else
      let version := from_le (zslice 8 12 bytes) in
      if negb (version =? SEGMENT_VERSION) then Err (UnsupportedVersion version)
      else Ok (SegmentHeader (from_le (zslice 16 24 bytes)) (from_le (zslice 24 32 bytes))).

(** What the encoder's debug assertion and the [u64] fields require of a record. *)
Definition record_ok (r : record) : Prop :=
  is_u64 (rcursor r) /\ is_u64 (ts_unix_nanos r) /\ zlen (payload r) <= MAX_PAYLOAD_LEN.

#[global] Instance record_ok_dec r : Decision (record_ok r).
Proof. unfold record_ok, is_u64. apply _. Defined.

(** ** The header *)

Lemma encode_segment_header_eq first created :
  encode_segment_header first created
  = to_le 8 SEGMENT_MAGIC ++ to_le 4 SEGMENT_VERSION ++ to_le 4 0 ++ to_le 8 first ++ to_le 8 created.
Proof. reflexivity. Qed.

Lemma zlen_encode_segment_header first created :
  zlen (encode_segment_header first created) = SEGMENT_HEADER_LEN.
Proof. reflexivity. Qed.

Lemma parse_encode_header first created rest :
  is_u64 first -> is_u64 created ->
  parse (encode_segment_header first created ++ rest) = Ok (SegmentHeader first created).
Proof.
  intros Hf Hc. unfold parse. rewrite zlen_app, zlen_encode_segment_header.
  pose proof (zlen_nonneg rest).
  destruct (Z.ltb_spec (SEGMENT_HEADER_LEN + zlen rest) SEGMENT_HEADER_LEN); [lia|].
  rewrite encode_segment_header_eq, <- !app_assoc.
  rewrite (zslice_exact 8 (to_le 8 SEGMENT_MAGIC)) by done.
  change (from_le (to_le 8 SEGMENT_MAGIC) =? SEGMENT_MAGIC) with true. cbn [negb].
  rewrite (zslice_app_r 8 12), !zlen_to_le by done. change (8 - Z.of_nat 8) with 0.
  rewrite (zslice_exact (12 - Z.of_nat 8) (to_le 4 SEGMENT_VERSION)) by done.
  change (from_le (to_le 4 SEGMENT_VERSION) =? SEGMENT_VERSION) with true. cbn [negb].
  rewrite (zslice_app_r 16), (zslice_app_r (16 - _)), (zslice_app_r (16 - _ - _)) by (rewrite ?zlen_to_le; done).
  rewrite (zslice_app_r 24), (zslice_app_r (24 - _)), (zslice_app_r (24 - _ - _)),
    (zslice_app_r (24 - _ - _ - _)) by (rewrite ?zlen_to_le; done).
  rewrite !zlen_to_le. rewrite zslice_exact by done. rewrite zslice_exact by done.
  rewrite !from_to_le_small; [done| |]; apply Hf || apply Hc.
Qed.

(** ** The record *)

Lemma zlen_record_body cursor ts p : zlen (record_body cursor ts p) = 20 + zlen p.
Proof. unfold record_body. rewrite !zlen_app, !zlen_to_le. lia. Qed.

Lemma encode_record_app `{Crc} out cursor ts p :
  encode_record_into out cursor ts p = out ++ encode_record_into [] cursor ts p.
Proof. done. Qed.

Lemma zlen_encode_record `{Crc} out cursor ts p :
  zlen (encode_record_into out cursor ts p) = zlen out + RECORD_FRAMING + zlen p.
Proof.
  unfold encode_record_into. rewrite !zlen_app, !zlen_to_le, zlen_record_body.
  unfold RECORD_FRAMING. lia.
Qed.

(** The encoding of one record, and of a run of them. *)
Definition enc `{Crc} (r : record) : list byte := encode_into r [].
Definition enc_all `{Crc} (rs : list record) : list byte := concat (map enc rs).

Lemma zlen_enc `{Crc} r : zlen (enc r) = encoded_len r.
Proof. unfold enc, encode_into, encoded_len. rewrite zlen_encode_record, zlen_nil. lia. Qed.

Lemma enc_all_app `{Crc} rs rs' : enc_all (rs ++ rs') = enc_all rs ++ enc_all rs'.
Proof. unfold enc_all. by rewrite map_app, concat_app. Qed.

Lemma enc_all_nil `{Crc} : enc_all [] = [].
Proof. done. Qed.

Lemma enc_all_cons `{Crc} r rs : enc_all (r :: rs) = enc r ++ enc_all rs.
Proof. done. Qed.

Lemma encoded_len_pos r : 28 <= encoded_len r.
Proof. unfold encoded_len, RECORD_FRAMING. pose proof (zlen_nonneg (payload r)). lia. Qed.

#[export] Hint Rewrite @zlen_enc zlen_record_body : zlen.

(** A toy checksum, to evaluate the codec on concrete input. *)
Definition sum_crc : Crc.
Proof.
  refine {| crc32c := fun bs => foldr (fun b a => (byte_to_Z b + 31 * a) mod two32) 7 bs |}.
  intros [|b bs]; [done|]. cbn [foldr]. apply Z.mod_pos_bound. done.
Defined.

Lemma parse_encode_header_example :
  parse (encode_segment_header 5 9) = Ok (SegmentHeader 5 9).
Proof. vm_compute. reflexivity. Qed.
