(* ===== verification/Chain.v ===== *)
(** * Segments as lists of records

    What both write-ahead logs store: segments named by their first cursor, the records of each counting up
    from it, one segment following the other without a gap, and the index that maps first cursors to
    segments. *)

From Stdlib Require Import ZArith Lia.
From stdpp Require Import base option sorting gmap list.
From S2P Require Import Prelude OrdMap Record.

(** Cursors count up from [c]. *)
Definition consecutive (c : Z) (rs : list record) : Prop :=
  forall i r, rs !! i = Some r -> rcursor r = c + Z.of_nat i.

Record seg := Seg { sfirst : Z; screated : Z; srecs : list record }.

Definition seg_ok (sg : seg) : Prop :=
  is_u64 (sfirst sg) /\ is_u64 (screated sg) /\ Forall record_ok (srecs sg)
  /\ consecutive (sfirst sg) (srecs sg).

Definition log_of (segs : list seg) : list record := concat (map srecs segs).

(** Segments follow each other without a gap, from cursor [c] to cursor [e]. *)
Fixpoint chain (c : Z) (segs : list seg) (e : Z) : Prop :=
  match segs with
  | [] => c = e
  | sg :: segs => sfirst sg = c /\ chain (c + zlen (srecs sg)) segs e
  end.

Lemma log_of_app l1 l2 : log_of (l1 ++ l2) = log_of l1 ++ log_of l2.
Proof. unfold log_of. by rewrite map_app, concat_app. Qed.

Lemma log_of_cons sg l : log_of (sg :: l) = srecs sg ++ log_of l.
Proof. done. Qed.

Lemma chain_app c l1 l2 e : chain c (l1 ++ l2) e <-> exists m, chain c l1 m /\ chain m l2 e.
Proof.
  revert c. induction l1 as [|sg l1 IH]; intros c; cbn.
  - split; [by exists c|]. by intros (m & -> & ?).
  - rewrite IH. naive_solver.
Qed.

Lemma chain_length c segs e : chain c segs e -> e = c + zlen (log_of segs).
Proof.
  revert c. induction segs as [|sg segs IH]; intros c; cbn [chain].
  - intros ->. cbn. rewrite zlen_nil. lia.
  - intros [_ H1]. apply IH in H1. rewrite log_of_cons, zlen_app. lia.
Qed.

Lemma consecutive_app c l1 l2 :
  consecutive c (l1 ++ l2) <-> consecutive c l1 /\ consecutive (c + zlen l1) l2.
Proof.
  unfold consecutive, zlen. split.
  - intros Hc. split; intros i r Hi.
    + apply Hc. by apply lookup_app_l_Some.
    + rewrite (Hc (length l1 + i)%nat r); [lia|]. rewrite lookup_app_r by lia.
      by replace (length l1 + i - length l1)%nat with i by lia.
  - intros [H1 H2] i r Hi. apply lookup_app_Some in Hi as [Hi|[Hle Hi]]; [by apply H1|].
    rewrite (H2 _ _ Hi). lia.
Qed.

(** The whole log of a chain has consecutive cursors. *)
Lemma chain_consecutive c segs e :
  chain c segs e -> Forall seg_ok segs -> consecutive c (log_of segs).
Proof.
  intros Hch Hok. revert c Hch. induction Hok as [|sg segs (_ & _ & _ & Hc) _ IH]; intros c.
  - intros _ i r Hi. by destruct i.
  - intros [<- Hch]. rewrite log_of_cons. apply consecutive_app. auto.
Qed.

Lemma log_ok segs : Forall seg_ok segs -> Forall record_ok (log_of segs).
Proof.
  induction 1 as [|sg segs (_ & _ & Hr & _) _ IH]; [done|]. rewrite log_of_cons. by apply Forall_app.
Qed.

(** The records at or past a cursor of a log with consecutive cursors. *)
Lemma filter_consecutive c f rs :
  consecutive c rs ->
  List.filter (fun r => negb (rcursor r <? f)) rs = zdrop (f - c) rs.
Proof.
  revert c. induction rs as [|r rs IH]; intros c Hc; [unfold zdrop; by rewrite drop_nil|].
  assert (Hr : rcursor r = c) by (rewrite (Hc 0%nat r eq_refl); lia).
  assert (Hrs : consecutive (c + 1) rs).
  { intros i x Hi. rewrite (Hc (S i) x Hi). lia. }
  cbn. rewrite Hr. destruct (Z.ltb_spec c f); cbn [negb].
  - rewrite (IH _ Hrs). unfold zdrop. replace (Z.to_nat (f - c)) with (S (Z.to_nat (f - (c + 1)))) by lia.
    done.
  - rewrite (IH _ Hrs). unfold zdrop.
    replace (Z.to_nat (f - (c + 1))) with 0%nat by lia. by replace (Z.to_nat (f - c)) with 0%nat by lia.
Qed.

(** The index of a list of segments. *)
Definition index_of (segs : list seg) : omap Z := map (fun sg => (sfirst sg, sfirst sg)) segs.

Lemma om_keys_index segs : om_keys (index_of segs) = map sfirst segs.
Proof. unfold om_keys, index_of. rewrite map_map. done. Qed.

(** Every segment but the last holds a record. *)
Fixpoint inner_nonempty (segs : list seg) : Prop :=
  match segs with
  | [] | [_] => True
  | sg :: segs => srecs sg <> [] /\ inner_nonempty segs
  end.

Lemma chain_firsts c segs e sg : chain c segs e -> sg ∈ segs -> c <= sfirst sg <= e.
Proof.
  revert c. induction segs as [|x segs IH]; intros c Hch Hin; [by apply not_elem_of_nil in Hin|].
  destruct Hch as [Hx Hch]. pose proof (zlen_nonneg (srecs x)).
  apply elem_of_cons in Hin as [->|Hin].
  - apply chain_length in Hch. pose proof (zlen_nonneg (log_of segs)). lia.
  - specialize (IH _ Hch Hin). lia.
Qed.

Lemma chain_sorted c segs e : chain c segs e -> inner_nonempty segs -> om_sorted (index_of segs).
Proof.
  revert c. induction segs as [|sg segs IH]; intros c Hch Hne; [apply om_sorted_nil|].
  destruct Hch as [<- Hch]. unfold index_of. cbn [map]. apply om_sorted_cons. split.
  - apply (IH _ Hch). by destruct segs; [|apply Hne].
  - rewrite om_keys_index. apply Forall_forall. intros k Hk. apply list_elem_of_fmap in Hk as (x & -> & Hx).
    destruct segs as [|sg2 segs]; [by apply not_elem_of_nil in Hx|]. destruct Hne as [Hne _].
    pose proof (chain_firsts _ _ _ _ Hch Hx). destruct (srecs sg); [done|].
    rewrite zlen_cons in *. pose proof (zlen_nonneg l). lia.
Qed.

Lemma containing_split b segs e c :
  chain b segs e -> segs <> [] -> b <= c ->
  exists l1 sg l2, segs = l1 ++ sg :: l2 /\ sfirst sg <= c /\ Forall (fun k => c < k) (om_keys (index_of l2)).
Proof.
  revert b. induction segs as [|sg segs IH]; intros b Hch Hne Hc; [done|]. destruct Hch as [<- Hch].
  destruct segs as [|sg2 segs]; [by exists [], sg, []|].
  destruct (Z.le_gt_cases (sfirst sg + zlen (srecs sg)) c) as [Hle|Hgt].
  - destruct (IH _ Hch ltac:(done) Hle) as (l1 & x & l2 & -> & ? & ?). by exists (sg :: l1), x, l2.
  - exists [], sg, (sg2 :: segs). split; [done|]. split; [done|]. rewrite om_keys_index.
    apply Forall_forall. intros k Hk. apply list_elem_of_fmap in Hk as (x & -> & Hx).
    pose proof (chain_firsts _ _ _ _ Hch Hx). lia.
Qed.

Lemma om_from_index b l1 sg l2 e :
  chain b (l1 ++ sg :: l2) e -> inner_nonempty (l1 ++ sg :: l2) ->
  om_from (sfirst sg) (index_of (l1 ++ sg :: l2)) = index_of (sg :: l2).
Proof.
  intros Hch Hne. pose proof (chain_sorted _ _ _ Hch Hne) as Hso. unfold om_sorted in Hso.
  rewrite om_keys_index, map_app in Hso. unfold index_of. rewrite map_app, om_from_app.
  fold (index_of l1) (index_of (sg :: l2)). rewrite om_from_none, om_from_all; [done| |].
  - rewrite om_keys_index. apply chain_app in Hch as (m & _ & Hm). apply Forall_forall.
    intros k Hk. apply list_elem_of_fmap in Hk as (x & -> & Hx).
    pose proof (chain_firsts _ _ _ _ Hm Hx). destruct Hm as [-> _]. lia.
  - rewrite om_keys_index. apply Forall_forall. intros k Hk.
    eapply (StronglySorted_app_1_elem_of Z.lt); [exact Hso|done|]. cbn. by left.
Qed.

Lemma chain_mono c segs e : chain c segs e -> c <= e.
Proof. intros H0. rewrite (chain_length _ _ _ H0). pose proof (zlen_nonneg (log_of segs)). lia. Qed.

(** Cursors past the end of a chain of non-empty segments name no segment. *)
Lemma chain_fresh c old e :
  chain c old e -> Forall (fun sg => srecs sg <> []) old -> Forall (fun k => k < e) (map sfirst old).
Proof.
  revert c. induction old as [|sg old IH]; intros c Hch Hne; [done|].
  destruct Hch as [<- Hch]. apply Forall_cons in Hne as [Hsg Hne].
  cbn. constructor; [|by eapply IH]. apply chain_mono in Hch.
  destruct (srecs sg); [done|]. rewrite zlen_cons in Hch. pose proof (zlen_nonneg l). lia.
Qed.

Lemma index_of_app l1 l2 : index_of (l1 ++ l2) = index_of l1 ++ index_of l2.
Proof. apply map_app. Qed.

Lemma index_insert_last l sg :
  Forall (fun k => k < sfirst sg) (map sfirst l) ->
  om_insert (sfirst sg) (sfirst sg) (index_of l) = index_of (l ++ [sg]).
Proof. intros Hl. rewrite om_insert_last by (by rewrite om_keys_index). by rewrite index_of_app. Qed.

(** [read_from]: the segments an index gives for cursor [c], and which of their records are wanted. *)
Lemma index_from b segs e c :
  chain b segs e -> inner_nonempty segs -> segs <> [] -> Forall seg_ok segs -> b <= c ->
  exists l1 l2, segs = l1 ++ l2 /\ om_first (index_of segs) = Some b
    /\ om_values (om_from (default b (om_floor c (index_of segs))) (index_of segs)) = map sfirst l2
    /\ List.filter (fun r => negb (rcursor r <? c)) (log_of l2) = zdrop (c - b) (log_of segs).
Proof.
  intros Hch Hne Hnil Hok Hc.
  assert (Hfirst : om_first (index_of segs) = Some b).
  { destruct segs as [|sg segs]; [done|]. destruct Hch as [<- _]. done. }
  destruct (containing_split _ _ _ _ Hch Hnil Hc) as (l1 & sg & l2 & -> & Hsg & Hl2).
  exists l1, (sg :: l2). split; [done|]. split; [done|].
  assert (Hfl : om_floor c (index_of (l1 ++ sg :: l2)) = Some (sfirst sg)).
  { unfold index_of. rewrite map_app. cbn [map]. by apply om_floor_split. }
  rewrite Hfl. change (default b (Some (sfirst sg))) with (sfirst sg). rewrite (om_from_index _ _ _ _ _ Hch Hne). split.
  - unfold om_values, index_of. by rewrite map_map.
  - apply chain_app in Hch as (m & Hch1 & Hch2). pose proof (chain_length _ _ _ Hch1) as Hm. pose proof Hch2 as [Hf _].
    apply Forall_app in Hok as [_ Hok]. rewrite log_of_app.
    rewrite (filter_consecutive m) by (by eapply chain_consecutive). rewrite zdrop_app_ge by lia. f_equal. lia.
Qed.

(** A cursor below the first segment. *)
Lemma index_first b segs e : chain b segs e -> segs <> [] -> om_first (index_of segs) = Some b.
Proof. destruct segs as [|sg segs]; [done|]. by intros [<- _]. Qed.

Lemma om_last_index l sg : om_last (index_of (l ++ [sg])) = Some (sfirst sg, sfirst sg).
Proof. unfold om_last. rewrite index_of_app. apply last_snoc. Qed.

(** ** One more record *)

(** In the last segment, or in a new one. *)
Definition grown (r : record) (segs segs' : list seg) : Prop :=
  (exists l sg sg', segs = l ++ [sg] /\ segs' = l ++ [sg'] /\ sfirst sg' = sfirst sg /\ srecs sg' = srecs sg ++ [r])
  \/ exists sg', segs' = segs ++ [sg'] /\ srecs sg' = [r].

Lemma grown_log r segs segs' : grown r segs segs' -> log_of segs' = log_of segs ++ [r].
Proof.
  intros [(l & sg & sg' & -> & -> & _ & E)|(sg' & -> & E)]; rewrite !log_of_app.
  - rewrite <- app_assoc. f_equal. unfold log_of. cbn. rewrite E, !app_nil_r. done.
  - f_equal. unfold log_of. cbn. by rewrite E.
Qed.

Lemma grown_first r segs segs' : grown r segs segs' -> segs <> [] -> om_first (index_of segs') = om_first (index_of segs).
Proof. intros [(l & sg & sg' & -> & -> & E & _)|(sg' & -> & _)] Hne; [destruct l; cbn; by rewrite ?E|]. by destruct segs. Qed.

(** The log begins at [b], or would if there were a record. *)
Definition begins_at (b : Z) (segs : list seg) (e : Z) : Prop :=
  match om_first (index_of segs) with Some o => o = b | None => e = b end.

Lemma begins_chain b segs e b' : begins_at b segs e -> chain b' segs e -> b' = b.
Proof. unfold begins_at. destruct segs as [|sg segs]; cbn; [congruence|]. by intros <- [-> _]. Qed.

Lemma chain_begins b segs e : chain b segs e -> begins_at b segs e.
Proof. unfold begins_at. destruct segs as [|sg segs]; cbn; [done|]. by intros [-> _]. Qed.

Lemma grown_begins r b segs segs' e b1 b2 : grown r segs segs' -> begins_at b segs e -> chain b1 segs e -> chain b2 segs' (e + 1) -> begins_at b segs' (e + 1).
Proof.
  intros Hg Hb H1 H2. rewrite (begins_chain _ _ _ _ Hb H1) in H1. apply chain_begins.
  enough (b2 = b) as -> by done. apply chain_length in H2. rewrite (grown_log _ _ _ Hg), zlen_app, zlen_cons, zlen_nil in H2. apply chain_length in H1. lia.
Qed.

(** Some of the segments in a row: they stay, and it is not one of them that grows (then something follows them
    afterwards, if there are any); or the last of them does, as the last of all. *)
Lemma grown_listed r pre l post segs' : grown r (pre ++ l ++ post) segs' ->
  (exists pre' post', segs' = pre' ++ l ++ post' /\ (post' = [] -> l = []))
  \/ exists l0 sg sg', post = [] /\ l = l0 ++ [sg] /\ segs' = pre ++ l0 ++ [sg'] /\ sfirst sg' = sfirst sg /\ srecs sg' = srecs sg ++ [r].
Proof.
  intros Hg. destruct (destruct_list_end post) as [->|(post0 & x & ->)].
  - destruct (destruct_list_end l) as [->|(l0 & sg & ->)]; [left; by exists segs', []; rewrite app_nil_r|].
    rewrite app_nil_r in Hg. destruct Hg as [(k & x & x' & E & -> & Hf & Hr)|(x' & -> & _)].
    + right. rewrite app_assoc in E. apply app_inj_tail in E as [<- <-]. exists l0, sg, x'. by rewrite <- app_assoc.
    + left. exists pre, [x']. by rewrite <- !app_assoc.
  - left. destruct Hg as [(k & y & y' & E & -> & _)|(y' & -> & _)].
    + rewrite !app_assoc in E. apply app_inj_tail in E as [<- <-]. exists pre, (post0 ++ [y']). rewrite <- !app_assoc. split; [done|].
      by destruct post0.
    + exists pre, ((post0 ++ [x]) ++ [y']). rewrite <- !app_assoc. split; [done|]. by destruct post0.
Qed.
