(* ===== verification/Disk.v ===== *)
(** * The WAL directory

    [dir/wal/] as the WAL code uses it: files named by their first cursor ([{:020}.seg]), each with
    its bytes and the length that has reached stable storage.  Every system call consults [fate], a
    script of failures, so that error paths can be followed: [Some n] lets the call transfer [n]
    bytes (or none, for calls that transfer no data) before it fails, [None] and the end of the
    script let it succeed.  Standard-library I/O ([File], [OpenOptions], [BufWriter]) is what this
    file models; files whose names are not a [u64] are ignored by the source and left out. *)

From Stdlib Require Import ZArith Lia Strings.Byte.
From stdpp Require Import base option gmap list.
From S2P Require Import Prelude OrdMap.

Inductive io_error :=
  | AlreadyExists
  | NotFound
  | UnexpectedEof
  | WouldBlock
  | TimedOut
  | OtherIo.

Record file := File {
  fdata : list byte;
  fsynced : Z      (* the first [fsynced] bytes are on stable storage *)
}.

Record disk := Disk {
  files : omap file;
  fate : list (option Z)
}.

(** The fate of the next call, and the disk with it consumed. *)
Definition next_fate (d : disk) : disk * option Z :=
  match fate d with
  | [] => (d, None)
  | f :: fs => (Disk (files d) fs, f)
  end.

(** A call that transfers no data. *)
Definition syscall {E} (e : E) : M disk E unit := fun d =>
  let '(d, f) := next_fate d in
  match f with None => (d, Ok tt) | Some _ => (d, Err e) end.

Definition set_files (m : omap file) (d : disk) : disk := Disk m (fate d).

(** [OpenOptions::new().create_new(true)] *)
Definition create_new (k : Z) : M disk io_error unit := fun d =>
  match om_lookup k (files d) with
  | Some _ => (d, Err AlreadyExists)
  | None => (do! syscall OtherIo in modify (fun d => set_files (om_insert k (File [] 0) (files d)) d)) d
  end.

(** [write_all] on an append position: the number of bytes written before success or failure. *)
Definition write_end (k : Z) (bs : list byte) (d : disk) : disk * Z * bool :=
  let '(d, f) := next_fate d in
  let n := match f with None => zlen bs | Some n => Z.max 0 (Z.min n (zlen bs)) end in
  let upd m := match om_lookup k m with
               | Some fl => om_insert k (File (fdata fl ++ ztake n bs) (fsynced fl)) m
               | None => m
               end in
  (set_files (upd (files d)) d, n, n =? zlen bs).

(** [sync_data] / [sync_all] *)
Definition sync (k : Z) : M disk io_error unit :=
  do! syscall OtherIo in
  modify (fun d => match om_lookup k (files d) with
                   | Some fl => set_files (om_insert k (File (fdata fl) (zlen (fdata fl))) (files d)) d
                   | None => d
                   end).

(** [set_len], shrinking. *)
Definition set_len (k : Z) (n : Z) : M disk io_error unit :=
  do! syscall OtherIo in
  modify (fun d => match om_lookup k (files d) with
                   | Some fl => set_files (om_insert k (File (ztake n (fdata fl)) (Z.min n (fsynced fl))) (files d)) d
                   | None => d
                   end).

(** [File::open] and reading the whole file. *)
Definition open_read (k : Z) : M disk io_error (list byte) := fun d =>
  match om_lookup k (files d) with
  | Some fl => (d, Ok (fdata fl))
  | None => (d, Err NotFound)
  end.

(** [let _ = fs::remove_file(..)] *)
Definition remove_file (k : Z) (d : disk) : disk := set_files (om_remove k (files d)) d.

(** ** Crashes: what was not synced may be cut at any point *)

Inductive crash_file : file -> file -> Prop :=
  | CrashFile data s n :
      s <= n -> n <= zlen data -> crash_file (File data s) (File (ztake n data) n).

(** ** Lemmas *)

Lemma next_fate_files d : files (next_fate d).1 = files d.
Proof. unfold next_fate. by destruct (fate d). Qed.

Lemma syscall_files {E} (e : E) d : files (syscall e d).1 = files d.
Proof.
  unfold syscall, next_fate. destruct (fate d) as [|[n|] fs]; done.
Qed.

Lemma write_end_spec k bs d fl :
  om_lookup k (files d) = Some fl ->
  exists n, (write_end k bs d).1.2 = n /\ 0 <= n <= zlen bs
    /\ ((write_end k bs d).2 = true <-> n = zlen bs)
    /\ om_lookup k (files (write_end k bs d).1.1) = Some (File (fdata fl ++ ztake n bs) (fsynced fl))
    /\ forall k', k' <> k -> om_lookup k' (files (write_end k bs d).1.1) = om_lookup k' (files d).
Proof.
  intros Hk. unfold write_end.
  destruct (next_fate d) as [d' f] eqn:E. assert (files d' = files d) as Hf.
  { pose proof (next_fate_files d) as H. by rewrite E in H. }
  cbn [fst snd files set_files]. rewrite Hf, Hk.
  eexists. split; [reflexivity|]. pose proof (zlen_nonneg bs). split; [destruct f; lia|].
  split; [apply Z.eqb_eq|]. split; [apply om_lookup_insert|].
  intros k' Hne. by apply om_lookup_insert_ne.
Qed.

Lemma sync_spec k d fl :
  om_lookup k (files d) = Some fl ->
  let '(d', r) := sync k d in
  om_lookup k (files d') = Some (if is_ok r then File (fdata fl) (zlen (fdata fl)) else fl)
  /\ forall k', k' <> k -> om_lookup k' (files d') = om_lookup k' (files d).
Proof.
  intros Hk. unfold sync, bind. pose proof (syscall_files OtherIo d) as Hf.
  destruct (syscall OtherIo d) as [d' [[]|e]]; cbn in *; rewrite Hf, ?Hk; [|done].
  split; [apply om_lookup_insert|]. intros k' Hne. by apply om_lookup_insert_ne.
Qed.

Lemma set_len_spec k n d fl :
  om_lookup k (files d) = Some fl ->
  let '(d', r) := set_len k n d in
  om_lookup k (files d')
    = Some (if is_ok r then File (ztake n (fdata fl)) (Z.min n (fsynced fl)) else fl)
  /\ forall k', k' <> k -> om_lookup k' (files d') = om_lookup k' (files d).
Proof.
  intros Hk. unfold set_len, bind. pose proof (syscall_files OtherIo d) as Hf.
  destruct (syscall OtherIo d) as [d' [[]|e]]; cbn in *; rewrite Hf, ?Hk; [|done].
  split; [apply om_lookup_insert|]. intros k' Hne. by apply om_lookup_insert_ne.
Qed.

Lemma create_new_spec k d :
  match create_new k d with
  | (d', Ok _) => om_lookup k (files d) = None /\ files d' = om_insert k (File [] 0) (files d)
  | (d', Err _) => files d' = files d
  end.
Proof.
  unfold create_new. destruct (om_lookup k (files d)) eqn:E; [done|].
  unfold bind. pose proof (syscall_files OtherIo d) as Hf.
  destruct (syscall OtherIo d) as [d' [[]|e]]; cbn in *; by rewrite ?Hf.
Qed.

Lemma write_end_fate k bs d :
  fate d = [] -> fate (write_end k bs d).1.1 = [] /\ (write_end k bs d).2 = true.
Proof. intros Hf. unfold write_end, next_fate. rewrite Hf. cbn. by rewrite Z.eqb_refl. Qed.

Lemma sync_fate k d : fate d = [] -> fate (sync k d).1 = [] /\ (sync k d).2 = Ok tt.
Proof.
  intros Hf. unfold sync, bind, syscall, next_fate. rewrite Hf. cbn.
  by destruct (om_lookup k (files d)).
Qed.

(** What a call on file [k] leaves alone. *)
Definition others_same (k : Z) (d d' : disk) : Prop :=
  forall k', k' <> k -> om_lookup k' (files d') = om_lookup k' (files d).

Lemma others_same_trans k d1 d2 d3 : others_same k d1 d2 -> others_same k d2 d3 -> others_same k d1 d3.
Proof. intros H1 H2 k' Hne. by rewrite H2, H1. Qed.

Lemma others_same_refl k d : others_same k d d.
Proof. done. Qed.

#[export] Hint Resolve others_same_refl : mm.

(** Every call keeps the directory a map in key order. *)
Lemma syscall_sorted {E} (e : E) d : om_sorted (files d) -> om_sorted (files (syscall e d).1).
Proof. by rewrite syscall_files. Qed.

Lemma write_end_sorted k bs d : om_sorted (files d) -> om_sorted (files (write_end k bs d).1.1).
Proof.
  intros Hs. unfold write_end. destruct (next_fate d) as [d' f] eqn:E. cbn.
  pose proof (next_fate_files d) as Hf. rewrite E in Hf. cbn in Hf. rewrite Hf.
  destruct (om_lookup k (files d)); [by apply om_insert_sorted|done].
Qed.

Lemma sync_sorted k d : om_sorted (files d) -> om_sorted (files (sync k d).1).
Proof.
  intros Hs. unfold sync, bind. pose proof (syscall_sorted OtherIo d Hs) as H1.
  destruct (syscall OtherIo d) as [d' [[]|e]]; cbn in *; [|done].
  destruct (om_lookup k (files d')); [by apply om_insert_sorted|done].
Qed.

Lemma set_len_sorted k n d : om_sorted (files d) -> om_sorted (files (set_len k n d).1).
Proof.
  intros Hs. unfold set_len, bind. pose proof (syscall_sorted OtherIo d Hs) as H1.
  destruct (syscall OtherIo d) as [d' [[]|e]]; cbn in *; [|done].
  destruct (om_lookup k (files d')); [by apply om_insert_sorted|done].
Qed.

Lemma create_new_sorted k d : om_sorted (files d) -> om_sorted (files (create_new k d).1).
Proof.
  intros Hs. unfold create_new. destruct (om_lookup k (files d)); [done|]. unfold bind.
  pose proof (syscall_sorted OtherIo d Hs) as H1.
  destruct (syscall OtherIo d) as [d' [[]|e]]; cbn in *; [by apply om_insert_sorted|done].
Qed.

#[export] Hint Resolve write_end_sorted sync_sorted set_len_sorted create_new_sorted syscall_sorted : mm.
