(* ===== verification/SegmentReader.v ===== *)
(** * Segment reader and recovery scan ([crates/mmbus/src/wal/segment_reader.rs])

    [read_one_record] decodes the record at a byte offset, [next_record] is the stateful iterator,
    and [recover_truncate] cuts a segment at its first bad record.  The theorems: the codec round
    trips, what decodes is canonical, and recovery keeps exactly the longest intact run of records. *)

From Stdlib Require Import ZArith Lia Strings.Byte.
From stdpp Require Import base option gmap list.
From S2P Require Import Prelude OrdMap Disk Record.

Inductive reader_error :=
  | Io (e : io_error)
  | Header (e : header_error)
  | OversizeRecord (record_len : Z)
  | CrcMismatch (offset stored computed : Z)
  | ShortRead (offset needed : Z).

Record segment_reader := SegmentReader_ {
  header : segment_header;
  file_bytes : list byte;   (* the bytes behind the open descriptor *)
  file_len : Z;             (* captured at open *)
  pos : Z;
  halted : bool
}.

Record recovery_report := RecoveryReport {
  final_len : Z;
  bytes_dropped : Z;
  last_cursor : option Z
}.

(** [seek(pos)] then [read_exact] of [n] bytes. *)
Definition read_exact (file : list byte) (pos n : Z) : result reader_error (list byte) :=
  if zlen file <? pos + n then Err (Io UnexpectedEof) else Ok (zslice pos (pos + n) file).

Definition open (k : Z) : M disk reader_error segment_reader := fun d =>
  match open_read k d with
  | (d, Err e) => (d, Err (Io e))
  | (d, Ok bytes) =>
      if zlen bytes <? SEGMENT_HEADER_LEN then (d, Err (Header (Truncated (zlen bytes))))
      else match parse (ztake SEGMENT_HEADER_LEN bytes) with
           | Err e => (d, Err (Header e))
           | Ok h => (d, Ok (SegmentReader_ h bytes (zlen bytes) SEGMENT_HEADER_LEN false))
           end
  end.

Section codec.
Context `{Crc}.

Definition read_one_record (file : list byte) (pos file_len : Z) :
    result reader_error (option (record * Z)) :=
  let remaining := saturating_sub file_len pos in
  if remaining =? 0 then Ok None
  else if remaining <? 4 then Err (ShortRead pos (4 - remaining))
  else
    let? len_bytes := read_exact file pos 4 in
    let record_len := from_le len_bytes in
    if MAX_RECORD_LEN <? record_len then Err (OversizeRecord record_len)
    else if record_len <? RECORD_FRAMING then Err (OversizeRecord record_len)
    else
      let total_after_len := record_len - 4 in
      let remaining_after_len := remaining - 4 in
      if remaining_after_len <? total_after_len
      then Err (ShortRead pos (total_after_len - remaining_after_len))
      else
        let? body_and_crc := read_exact file (pos + 4) total_after_len in
        let body_len := total_after_len - 4 in
        let body := ztake body_len body_and_crc in
        let stored_crc := from_le (zslice body_len total_after_len body_and_crc) in
        let computed_crc := crc32c body in
        if negb (stored_crc =? computed_crc) then Err (CrcMismatch pos stored_crc computed_crc)
        else
          let cursor := from_le (zslice 0 8 body) in
          let ts := from_le (zslice 8 16 body) in
          let payload_len := from_le (zslice 16 20 body) in
          if negb (payload_len + RECORD_FRAMING =? record_len) then Err (OversizeRecord record_len)
          else Ok (Some (Record_ cursor ts (zslice 20 (20 + payload_len) body), record_len)).

Definition next_record (r : segment_reader) : segment_reader * option (result reader_error record) :=
  if halted r then (r, None)
  else match read_one_record (file_bytes r) (pos r) (file_len r) with
       | Ok (Some (rec, advance)) =>
           (SegmentReader_ (header r) (file_bytes r) (file_len r) (pos r + advance) (halted r),
            Some (Ok rec))
       | Ok None => (r, None)
       | Err e =>
           (SegmentReader_ (header r) (file_bytes r) (file_len r) (pos r) true, Some (Err e))
       end.

(** The loop of [recover_truncate]: [(last_good_end, last_cursor, hit_bad_record)]. *)
Fixpoint scan_loop (fuel : nat) (file : list byte) (file_len pos : Z) (last : option Z) :
    result reader_error (Z * option Z * bool) :=
  match fuel with
  | O => Ok (pos, last, false)
  | S fuel =>
      match read_one_record file pos file_len with
      | Ok None => Ok (pos, last, false)
      | Ok (Some (rec, advance)) =>
          scan_loop fuel file file_len (pos + advance) (Some (rcursor rec))
      | Err (CrcMismatch _ _ _) | Err (OversizeRecord _) | Err (ShortRead _ _) =>
          Ok (pos, last, true)
      | Err e => Err e
      end
  end.

(** Every record takes at least one byte, so the file's length bounds the iterations. *)
Definition scan_fuel (file : list byte) : nat := S (length file).

Definition recover_truncate (k : Z) : M disk reader_error recovery_report :=
  let! reader := open k in
  let! s := lift (scan_loop (scan_fuel (file_bytes reader)) (file_bytes reader) (file_len reader)
                    SEGMENT_HEADER_LEN None) in
  let '(last_good_end, last_cursor, hit_bad_record) := s in
  let original_len := file_len reader in
  if (hit_bad_record : bool) then
    fun d =>
      match (do! set_len k last_good_end in sync k) d with
      | (d, Err e) => (d, Err (Io e))
      | (d, Ok _) =>
          (d, Ok (RecoveryReport last_good_end (original_len - last_good_end) last_cursor))
      end
  else ret (RecoveryReport original_len 0 last_cursor).

(** ** Decoding one record *)

Lemma read_exact_app (pre bs post : list byte) n :
  n = zlen bs -> read_exact (pre ++ bs ++ post) (zlen pre) n = Ok bs.
Proof.
  intros ->. unfold read_exact. pose proof (zlen_nonneg post).
  rewrite !zlen_app. destruct (Z.ltb_spec (zlen pre + (zlen bs + zlen post)) (zlen pre + zlen bs)); [lia|].
  rewrite zslice_app_r by lia. rewrite Z.sub_diag. rewrite zslice_exact by lia. done.
Qed.

Lemma record_len_small (p : list byte) :
  zlen p <= MAX_PAYLOAD_LEN -> from_le (to_le 4 ((RECORD_FRAMING + zlen p) mod two32)) = RECORD_FRAMING + zlen p.
Proof.
  intros Hp. pose proof (zlen_nonneg p). unfold MAX_PAYLOAD_LEN, MAX_RECORD_LEN, RECORD_FRAMING in *.
  rewrite from_to_le_small; [apply Z.mod_small|].
  - rewrite two32_eq. lia.
  - change (2 ^ (8 * Z.of_nat 4)) with two32. apply Z.mod_pos_bound. done.
Qed.

Lemma read_one_enc (pre : list byte) r (post : list byte) :
  record_ok r ->
  read_one_record (pre ++ enc r ++ post) (zlen pre) (zlen (pre ++ enc r ++ post))
  = Ok (Some (r, encoded_len r)).
Proof.
  intros (Hc & Ht & Hp). destruct r as [c t p]. cbn [rcursor ts_unix_nanos payload] in *.
  pose proof (zlen_nonneg p). pose proof (zlen_nonneg pre). pose proof (zlen_nonneg post).
  pose proof (encoded_len_pos (Record_ c t p)) as Hpos.
  unfold read_one_record. rewrite !zlen_app, zlen_enc.
  unfold saturating_sub. rewrite Z.max_r by lia.
  destruct (Z.eqb_spec (zlen pre + (encoded_len (Record_ c t p) + zlen post) - zlen pre) 0); [lia|].
  destruct (Z.ltb_spec (zlen pre + (encoded_len (Record_ c t p) + zlen post) - zlen pre) 4); [lia|].
  unfold enc, encode_into, encode_record_into. cbn [rcursor ts_unix_nanos payload app].
  set (body := record_body c t p). set (lenb := to_le 4 ((RECORD_FRAMING + zlen p) mod two32)).
  rewrite <- !app_assoc.
  rewrite (read_exact_app pre lenb) by done. unfold lenb. rewrite record_len_small by done.
  unfold encoded_len in *. cbn [payload] in *. unfold MAX_PAYLOAD_LEN, RECORD_FRAMING in *.
  destruct (Z.ltb_spec MAX_RECORD_LEN (28 + zlen p)); [lia|].
  destruct (Z.ltb_spec (28 + zlen p) 28); [lia|].
  destruct (Z.ltb_spec (zlen pre + (28 + zlen p + zlen post) - zlen pre - 4) (28 + zlen p - 4)); [lia|].
  fold lenb. rewrite app_assoc. replace (zlen pre + 4) with (zlen (pre ++ lenb))
    by (rewrite zlen_app; unfold lenb; by rewrite zlen_to_le).
  rewrite (app_assoc body). assert (zlen body = 20 + zlen p) as Hb by apply zlen_record_body.
  rewrite read_exact_app by (rewrite zlen_app, zlen_to_le, Hb; lia).
  rewrite ztake_app_exact by lia. rewrite zslice_app_r by lia.
  replace (28 + zlen p - 4 - 4 - zlen body) with 0 by lia.
  rewrite zslice_full by (rewrite zlen_to_le; lia).
  pose proof (crc32c_u32 body). rewrite from_to_le_small by (change (2 ^ _) with two32; lia).
  rewrite Z.eqb_refl. cbn [negb]. unfold body, record_body.
  rewrite zslice_exact by done. rewrite from_to_le_small by apply Hc.
  rewrite (zslice_app_r 8), zlen_to_le, zslice_exact by done. rewrite from_to_le_small by apply Ht.
  rewrite (zslice_app_r 16), (zslice_app_r (16 - _)), !zlen_to_le by done.
  rewrite zslice_exact by done. unfold MAX_RECORD_LEN in *.
  rewrite from_to_le_small by (change (2 ^ _) with two32; rewrite two32_eq; lia).
  destruct (Z.eqb_spec (zlen p + 28) (28 + zlen p)); [|lia]. cbn [negb].
  rewrite (zslice_app_r 20), (zslice_app_r (20 - _)), (zslice_app_r (20 - _ - _)), !zlen_to_le by done.
  rewrite zslice_full by lia. done.
Qed.

(** What decodes is the encoding of what was decoded: no two byte strings decode alike. *)
(** A body that is as long as its length fields say, between its length and its checksum, is an encoding. *)
Lemma body_is_record body lenb crcb :
  28 <= from_le lenb <= MAX_RECORD_LEN -> zlen lenb = 4 -> zlen crcb = 4 -> zlen body = from_le lenb - 8 ->
  from_le (zslice 16 20 body) + 28 = from_le lenb -> from_le crcb = crc32c body ->
  let r := Record_ (from_le (zslice 0 8 body)) (from_le (zslice 8 16 body)) (zslice 20 (20 + from_le (zslice 16 20 body)) body) in
  record_ok r /\ encoded_len r = from_le lenb /\ enc r = lenb ++ body ++ crcb.
Proof.
  intros Hrl Hlenb Hcrcb Hbody Hpl Hcrc r. set (rl := from_le lenb) in *.
  assert (zlen (payload r) = rl - 28) as Hpay by (unfold r; cbn [payload]; rewrite zlen_zslice; lia).
  assert (Hu : forall lo, 0 <= lo -> lo + 8 <= zlen body -> is_u64 (from_le (zslice lo (lo + 8) body))).
  { intros lo ? ?. unfold is_u64. pose proof (from_le_range (zslice lo (lo + 8) body)) as Hr.
    rewrite zlen_zslice in Hr by lia. replace (8 * (lo + 8 - lo)) with 64 in Hr by lia. done. }
  split; [split; [apply (Hu 0); lia|split; [apply (Hu 8); lia|]]|].
  { rewrite Hpay. unfold MAX_PAYLOAD_LEN, RECORD_FRAMING, MAX_RECORD_LEN in *. lia. }
  split; [unfold encoded_len, RECORD_FRAMING; lia|].
  assert (Hbd : record_body (rcursor r) (ts_unix_nanos r) (payload r) = body).
  { unfold record_body. rewrite Hpay. unfold r. cbn [rcursor ts_unix_nanos payload].
    replace (rl - 28) with (from_le (zslice 16 20 body)) by lia.
    rewrite !to_from_le_zlen by (rewrite zlen_zslice; lia).
    replace (20 + from_le (zslice 16 20 body)) with (zlen body) by lia.
    rewrite <- !(zslice_split _ _ (zlen body)) by lia. by apply zslice_full. }
  unfold enc, encode_into, encode_record_into. cbn [app]. rewrite Hbd, Hpay, <- Hcrc. unfold RECORD_FRAMING.
  replace (28 + (rl - 28)) with rl by lia. rewrite Z.mod_small by (unfold MAX_RECORD_LEN in *; rewrite two32_eq; lia).
  unfold rl. by rewrite !to_from_le_zlen.
Qed.

Lemma read_one_sound file p r adv :
  0 <= p -> read_one_record file p (zlen file) = Ok (Some (r, adv)) ->
  record_ok r /\ adv = encoded_len r /\ p + adv <= zlen file
  /\ file = ztake p file ++ enc r ++ zdrop (p + adv) file.
Proof.
  intros Hp. unfold read_one_record, read_exact.
  destruct (Z.eqb_spec (saturating_sub (zlen file) p) 0) as [|H0]; [done|].
  assert (p < zlen file) as Hlt by (unfold saturating_sub in H0; lia).
  replace (saturating_sub (zlen file) p) with (zlen file - p) by (unfold saturating_sub; lia).
  destruct (Z.ltb_spec (zlen file - p) 4); [done|].
  destruct (Z.ltb_spec (zlen file) (p + 4)); [lia|].
  set (lenb := zslice p (p + 4) file). set (rl := from_le lenb).
  destruct (Z.ltb_spec MAX_RECORD_LEN rl); [done|].
  unfold RECORD_FRAMING. destruct (Z.ltb_spec rl 28); [done|].
  destruct (Z.ltb_spec (zlen file - p - 4) (rl - 4)); [done|].
  destruct (Z.ltb_spec (zlen file) (p + 4 + (rl - 4))); [lia|].
  set (b := zslice (p + 4) (p + 4 + (rl - 4)) file).
  destruct (Z.eqb_spec (from_le (zslice (rl - 4 - 4) (rl - 4) b)) (crc32c (ztake (rl - 4 - 4) b)))
    as [Hcrc|]; [|done]. cbn [negb].
  set (body := ztake (rl - 4 - 4) b) in *.
  destruct (Z.eqb_spec (from_le (zslice 16 20 body) + 28) rl) as [Hpl|]; [|done]. cbn [negb].
  intros ?; minv.
  assert (zlen b = rl - 4) as Hb by (unfold b; rewrite zlen_zslice; lia).
  assert (Hbody : zlen body = rl - 8) by (unfold body; rewrite zlen_ztake; lia).
  set (crcb := zslice (rl - 4 - 4) (rl - 4) b) in *.
  destruct (body_is_record body lenb crcb) as (Hok & Hlen & Henc); fold rl; try lia.
  { unfold lenb. rewrite zlen_zslice; lia. }
  { unfold crcb. rewrite zlen_zslice; lia. }
  split; [exact Hok|]. fold rl in Hlen. split; [by rewrite Hlen|]. split; [lia|]. rewrite Henc.
  assert (Hbb : body ++ crcb = b) by (unfold body, crcb; rewrite <- Hb at 3; rewrite zslice_zlen by lia; apply ztake_zdrop).
  assert (Hlb : lenb ++ b = zslice p (p + rl) file).
  { unfold lenb, b. rewrite <- zslice_split by lia. f_equal; lia. }
  rewrite Hbb, Hlb. rewrite <- (zslice_zlen (p + rl)) by lia. rewrite <- zslice_split by lia.
  rewrite zslice_zlen by lia. symmetry. apply ztake_zdrop.
Qed.

(** ** Runs of records *)

(** No record, however continued, starts these bytes. *)
Definition no_record (bs : list byte) : Prop :=
  forall r post, record_ok r -> bs <> enc r ++ post.

Lemma enc_prefix_free r r' x y :
  record_ok r -> record_ok r' -> enc r ++ x = enc r' ++ y -> r = r' /\ x = y.
Proof.
  intros Hr Hr' E.
  pose proof (read_one_enc [] r x Hr) as H1. pose proof (read_one_enc [] r' y Hr') as H2.
  cbn [app] in *. rewrite E, H2 in H1. by simplify_eq.
Qed.

Lemma enc_nonempty r : enc r <> [].
Proof.
  intros E. pose proof (zlen_enc r) as Hl. rewrite E, zlen_nil in Hl. pose proof (encoded_len_pos r). lia.
Qed.

Lemma no_record_nil : no_record [].
Proof. intros r post _ E. destruct (List.app_eq_nil _ _ (eq_sym E)). by destruct (enc_nonempty r). Qed.

(** A record cut short is no record. *)
Lemma no_record_cut r cut rest :
  record_ok r -> enc r = cut ++ rest -> rest <> [] -> no_record cut.
Proof.
  intros Hr E Hne r' post Hr' ->. rewrite <- app_assoc in E.
  rewrite <- (app_nil_r (enc r)) in E. apply enc_prefix_free in E as [_ E]; [|done|done].
  by destruct (List.app_eq_nil _ _ (eq_sym E)).
Qed.

(** A run of intact records is a prefix of every maximal decomposition of the same bytes. *)
Lemma runs_prefix rs rs' junk rest :
  Forall record_ok rs -> Forall record_ok rs' -> no_record rest ->
  enc_all rs ++ junk = enc_all rs' ++ rest ->
  exists rs'', rs' = rs ++ rs'' /\ junk = enc_all rs'' ++ rest.
Proof.
  intros Hrs. revert rs'. induction Hrs as [|r rs Hr Hrs IH]; intros rs' Hrs' Hno E.
  { exists rs'. done. }
  rewrite enc_all_cons, <- app_assoc in E. destruct Hrs' as [|r' rs' Hr' Hrs'].
  { exfalso. by apply (Hno r (enc_all rs ++ junk)). }
  rewrite enc_all_cons, <- app_assoc in E. apply enc_prefix_free in E as [-> E]; [|done|done].
  destruct (IH rs' Hrs' Hno E) as (rs'' & -> & ->). exists rs''. done.
Qed.

(** A prefix of a run of records is a run of records and a cut record. *)
Lemma runs_cut rs n :
  Forall record_ok rs -> exists j junk,
  ztake n (enc_all rs) = enc_all (take j rs) ++ junk /\ no_record junk /\ (j <= length rs)%nat.
Proof.
  intros Hrs. revert n. induction Hrs as [|r rs Hr Hrs IH]; intros n.
  { exists 0%nat, []. split; [unfold ztake; change (enc_all []) with (@nil byte); by rewrite take_nil|]. split; [apply no_record_nil|done]. }
  rewrite enc_all_cons. destruct (Z.le_gt_cases (zlen (enc r)) n) as [Hle|Hgt].
  - rewrite ztake_app_ge by done. destruct (IH (n - zlen (enc r))) as (j & junk & -> & Hno & Hj).
    exists (S j), junk. rewrite app_assoc. split; [done|]. split; [done|cbn; lia].
  - rewrite ztake_app_le by lia. exists 0%nat, (ztake n (enc r)). split; [done|]. split; [|lia].
    apply (no_record_cut r _ (zdrop n (enc r))); [done|by rewrite ztake_zdrop|].
    intros E. apply (f_equal zlen) in E. pose proof (zlen_nonneg (enc r)).
    destruct (Z.le_gt_cases 0 n); [rewrite zlen_zdrop, zlen_nil in E by lia; lia|].
    unfold zdrop in E. replace (Z.to_nat n) with 0%nat in E by lia. cbn in E. by destruct (enc_nonempty r (zlen_0 _ E)).
Qed.

(** ** The recovery scan *)

Lemma read_one_none file p : p <= zlen file -> read_one_record file p (zlen file) = Ok None -> p = zlen file.
Proof.
  intros Hp. unfold read_one_record, read_exact. unfold saturating_sub.
  destruct (Z.eqb_spec (Z.max 0 (zlen file - p)) 0); [lia|]. repeat dgoal; done.
Qed.

Lemma read_one_end file : read_one_record file (zlen file) (zlen file) = Ok None.
Proof. unfold read_one_record, saturating_sub. by rewrite Z.sub_diag. Qed.

(** Reads stay below the length captured at open, so the descriptor never runs short. *)
Lemma read_one_no_io file p e : 0 <= p -> read_one_record file p (zlen file) <> Err (Io e).
Proof.
  intros Hp. unfold read_one_record, read_exact.
  destruct (Z.eqb_spec (saturating_sub (zlen file) p) 0) as [|H0]; [done|].
  replace (saturating_sub (zlen file) p) with (zlen file - p) by (unfold saturating_sub in *; lia).
  destruct (Z.ltb_spec (zlen file - p) 4); [done|].
  destruct (Z.ltb_spec (zlen file) (p + 4)); [lia|]. cbv zeta.
  destruct (MAX_RECORD_LEN <? _); [done|]. destruct (_ <? RECORD_FRAMING); [done|].
  destruct (Z.ltb_spec (zlen file - p - 4) (from_le (zslice p (p + 4) file) - 4)); [done|].
  destruct (Z.ltb_spec (zlen file) (p + 4 + (from_le (zslice p (p + 4) file) - 4))); [lia|].
  repeat dgoal; done.
Qed.

Lemma read_one_no_header file p e : read_one_record file p (zlen file) <> Err (Header e).
Proof. unfold read_one_record, read_exact. repeat dgoal; congruence. Qed.

Definition last_cursor_of (prev : option Z) (rs : list record) : option Z :=
  match list.last rs with Some r => Some (rcursor r) | None => prev end.

Lemma last_cursor_of_cons prev r rs :
  last_cursor_of prev (r :: rs) = last_cursor_of (Some (rcursor r)) rs.
Proof.
  unfold last_cursor_of. rewrite last_cons. by destruct (list.last rs).
Qed.

Lemma scan_loop_spec fuel file p prev :
  0 <= p <= zlen file -> zlen file - p < Z.of_nat fuel ->
  exists rs junk, let good := p + zlen (enc_all rs) in
  scan_loop fuel file (zlen file) p prev
    = Ok (good, last_cursor_of prev rs, negb (zlen junk =? 0))
  /\ Forall record_ok rs /\ no_record junk /\ file = ztake p file ++ enc_all rs ++ junk.
Proof.
  revert p prev. induction fuel as [|fuel IH]; intros p prev Hp Hf; [lia|]. cbn [scan_loop].
  destruct (read_one_record file p (zlen file)) as [[[r adv]|]|e] eqn:E.
  - apply read_one_sound in E as (Hr & -> & Hle & Hfile); [|lia].
    pose proof (encoded_len_pos r). pose proof (zlen_nonneg file).
    destruct (IH (p + encoded_len r) (Some (rcursor r))) as (rs & junk & Hs & Hrs & Hno & Hf2); [lia|lia|].
    exists (r :: rs), junk. cbn zeta. rewrite Hs, last_cursor_of_cons, enc_all_cons, zlen_app, zlen_enc.
    split; [do 3 f_equal; lia|]. split; [by constructor|]. split; [done|].
    rewrite Hfile at 1. do 1 f_equal. rewrite <- app_assoc. f_equal.
    rewrite Hf2 at 1. rewrite zdrop_app_exact; [done|]. rewrite zlen_ztake; lia.
  - apply read_one_none in E; [|lia]. subst p. exists [], []. cbn zeta.
    rewrite Z.add_0_r. split; [done|]. split; [done|]. split; [apply no_record_nil|].
    rewrite ztake_all by lia. by rewrite app_nil_r.
  - assert (Hno : no_record (zdrop p file)).
    { intros r post Hr Hd. pose proof (ztake_zdrop p file) as Hsp. rewrite Hd in Hsp.
      pose proof (read_one_enc (ztake p file) r post Hr) as H1.
      rewrite Hsp, zlen_ztake, E in H1 by lia. done. }
    assert (Hne : (zlen (zdrop p file) =? 0) = false).
    { apply Z.eqb_neq. rewrite zlen_zdrop by lia. intros Hz. assert (p = zlen file) as -> by lia.
      by rewrite read_one_end in E. }
    exists [], (zdrop p file). cbn zeta. rewrite Hne, Z.add_0_r. cbn [negb].
    split; [|split; [done|split; [done|symmetry; apply ztake_zdrop]]].
    destruct e as [e|e|l|o x c|o n]; try done; [by apply read_one_no_io in E; lia|].
    by apply read_one_no_header in E.
Qed.

(** A segment's bytes: a header that parses, an intact run of records, and the rest. *)
Record seg_bytes (data : list byte) (h : segment_header) (rs : list record) (junk : list byte) : Prop := {
  sb_header : parse (ztake SEGMENT_HEADER_LEN data) = Ok h;
  sb_len : SEGMENT_HEADER_LEN <= zlen data;
  sb_split : data = ztake SEGMENT_HEADER_LEN data ++ enc_all rs ++ junk;
  sb_ok : Forall record_ok rs
}.

Lemma open_ok k d fl h rs junk :
  om_lookup k (files d) = Some fl -> seg_bytes (fdata fl) h rs junk ->
  open k d = (d, Ok (SegmentReader_ h (fdata fl) (zlen (fdata fl)) SEGMENT_HEADER_LEN false)).
Proof.
  intros Hk [Hh Hl _ _]. unfold open, open_read. rewrite Hk.
  destruct (Z.ltb_spec (zlen (fdata fl)) SEGMENT_HEADER_LEN); [lia|]. by rewrite Hh.
Qed.

Lemma seg_bytes_maximal data h rs junk rs' junk' :
  seg_bytes data h rs junk -> seg_bytes data h rs' junk' -> no_record junk' ->
  exists rs'', rs' = rs ++ rs'' /\ junk = enc_all rs'' ++ junk'.
Proof.
  intros [_ _ Hs Hok] [_ _ Hs' Hok'] Hno. rewrite Hs in Hs' at 1.
  apply app_inv_head in Hs'. by apply runs_prefix.
Qed.

Lemma scan_segment data h rs junk :
  seg_bytes data h rs junk -> no_record junk ->
  scan_loop (scan_fuel data) data (zlen data) SEGMENT_HEADER_LEN None
  = Ok (SEGMENT_HEADER_LEN + zlen (enc_all rs), last_cursor_of None rs, negb (zlen junk =? 0)).
Proof.
  intros Hsb Hno. pose proof (sb_len _ _ _ _ Hsb) as Hl.
  destruct (scan_loop_spec (scan_fuel data) data SEGMENT_HEADER_LEN None)
    as (rs' & junk' & Hs & Hok' & Hno' & Hd).
  { unfold SEGMENT_HEADER_LEN in *. lia. }
  { unfold scan_fuel, SEGMENT_HEADER_LEN, zlen. lia. }
  assert (seg_bytes data h rs' junk') as Hsb'.
  { split; [by destruct Hsb|done|done|done]. }
  destruct (seg_bytes_maximal data h rs junk rs' junk' Hsb Hsb' Hno') as (x & Hx & Hj).
  destruct (seg_bytes_maximal data h rs' junk' rs junk Hsb' Hsb Hno) as (y & Hy & Hj').
  rewrite Hy in Hx. apply (f_equal length) in Hx. rewrite !length_app in Hx.
  assert (x = []) as -> by (apply nil_length_inv; lia).
  assert (y = []) as -> by (apply nil_length_inv; lia).
  rewrite app_nil_r in Hy. subst rs'. cbn in Hj. subst junk'. done.
Qed.

(** [recover_truncate] on a segment whose intact run is [rs]: the file keeps exactly the header and
    [rs], and the report counts what was cut. *)
Lemma recover_truncate_run k d fl h rs junk :
  om_lookup k (files d) = Some fl -> seg_bytes (fdata fl) h rs junk -> no_record junk ->
  fate d = [] ->
  exists d', recover_truncate k d
    = (d', Ok (RecoveryReport (SEGMENT_HEADER_LEN + zlen (enc_all rs)) (zlen junk)
                 (last_cursor_of None rs)))
  /\ fate d' = []
  /\ (exists s, om_lookup k (files d')
        = Some (File (ztake SEGMENT_HEADER_LEN (fdata fl) ++ enc_all rs) s)
        /\ (fsynced fl <= zlen (fdata fl) -> s <= SEGMENT_HEADER_LEN + zlen (enc_all rs))
        /\ (fsynced fl = zlen (fdata fl) -> s = SEGMENT_HEADER_LEN + zlen (enc_all rs)))
  /\ forall k', k' <> k -> om_lookup k' (files d') = om_lookup k' (files d).
Proof.
  intros Hk Hsb Hno Hf. unfold recover_truncate, bind. rewrite (open_ok k d fl h rs junk Hk Hsb).
  cbn [file_bytes file_len lift]. unfold lift. rewrite (scan_segment _ h rs junk Hsb Hno).
  pose proof (sb_len _ _ _ _ Hsb) as Hl. pose proof (sb_split _ _ _ _ Hsb) as Hd.
  pose proof (zlen_nonneg junk) as Hj. pose proof (zlen_nonneg (enc_all rs)) as He.
  assert (Hlen : zlen (fdata fl) = SEGMENT_HEADER_LEN + zlen (enc_all rs) + zlen junk).
  { rewrite Hd at 1. rewrite !zlen_app, zlen_ztake by (unfold SEGMENT_HEADER_LEN in *; lia). lia. }
  assert (Hcut : ztake (SEGMENT_HEADER_LEN + zlen (enc_all rs)) (fdata fl)
                 = ztake SEGMENT_HEADER_LEN (fdata fl) ++ enc_all rs).
  { rewrite Hd at 1. rewrite app_assoc. apply ztake_app_exact.
    rewrite zlen_app, zlen_ztake by (unfold SEGMENT_HEADER_LEN in *; lia). lia. }
  destruct (Z.eqb_spec (zlen junk) 0) as [E|E]; cbn [negb].
  - exists d. rewrite Hlen, E, Z.add_0_r. split; [done|]. split; [done|]. split; [|done].
    exists (fsynced fl). split; [|lia]. rewrite Hk. destruct fl as [dt sy]. cbn [fdata fsynced] in *.
    do 2 f_equal. rewrite <- Hcut. symmetry. apply ztake_all. lia.
  - unfold set_len, sync, bind, syscall, next_fate. rewrite Hf. cbn. rewrite Hk.
    cbn. rewrite Hf. cbn. rewrite om_lookup_insert. cbn.
    eexists. split; [do 3 f_equal; lia|]. cbn. split; [done|]. split.
    + rewrite Hcut. eexists. rewrite om_lookup_insert. split; [done|].
      split; intros _; rewrite zlen_app, zlen_ztake by (unfold SEGMENT_HEADER_LEN in *; lia); lia.
    + intros k' Hne. rewrite !om_lookup_insert_ne by done. done.
Qed.

(** C33: the record codec round trips.  Wherever an encoded record sits in a file, decoding at its
    offset yields exactly that record and its encoded length; and whatever decodes at an offset is
    byte for byte the encoding of what was decoded, with all lengths within their caps. *)
Theorem record_roundtrip (pre post file : list byte) (r r' : record) p adv :
  (record_ok r ->
     read_one_record (pre ++ encode_into r [] ++ post) (zlen pre)
       (zlen (pre ++ encode_into r [] ++ post)) = Ok (Some (r, encoded_len r)))
  /\ (0 <= p -> read_one_record file p (zlen file) = Ok (Some (r', adv)) ->
     record_ok r' /\ adv = encoded_len r' /\ p + adv <= zlen file
     /\ file = ztake p file ++ encode_into r' [] ++ zdrop (p + adv) file).
Proof. split; [apply read_one_enc|apply read_one_sound]. Qed.

(** C27: recovery of an arbitrary segment.  Whatever bytes follow the header, [recover_truncate] keeps a
    run of intact records that every other intact run is a prefix of, drops the rest, reports the
    cursor of the last record kept, leaves the other segments alone, and a second recovery drops
    nothing more. *)
Theorem recover_truncate_keeps_longest_run k d fl h :
  om_lookup k (files d) = Some fl -> fate d = [] ->
  SEGMENT_HEADER_LEN <= zlen (fdata fl) -> parse (ztake SEGMENT_HEADER_LEN (fdata fl)) = Ok h ->
  exists rs junk d' s,
    seg_bytes (fdata fl) h rs junk
    /\ (forall rs0 junk0, seg_bytes (fdata fl) h rs0 junk0 -> exists rs1, rs = rs0 ++ rs1)
    /\ recover_truncate k d
       = (d', Ok (RecoveryReport (SEGMENT_HEADER_LEN + zlen (enc_all rs)) (zlen junk)
                    (last_cursor_of None rs)))
    /\ om_lookup k (files d') = Some (File (ztake SEGMENT_HEADER_LEN (fdata fl) ++ enc_all rs) s)
    /\ (forall k', k' <> k -> om_lookup k' (files d') = om_lookup k' (files d))
    /\ exists d'', recover_truncate k d'
       = (d'', Ok (RecoveryReport (SEGMENT_HEADER_LEN + zlen (enc_all rs)) 0
                    (last_cursor_of None rs)))
       /\ exists s', om_lookup k (files d'')
            = Some (File (ztake SEGMENT_HEADER_LEN (fdata fl) ++ enc_all rs) s').
Proof.
  intros Hk Hf Hl Hh. destruct (scan_loop_spec (scan_fuel (fdata fl)) (fdata fl) SEGMENT_HEADER_LEN None)
    as (rs & junk & _ & Hok & Hno & Hd).
  { unfold SEGMENT_HEADER_LEN in *. lia. }
  { unfold scan_fuel, SEGMENT_HEADER_LEN, zlen. lia. }
  assert (Hsb : seg_bytes (fdata fl) h rs junk) by done.
  destruct (recover_truncate_run k d fl h rs junk Hk Hsb Hno Hf) as (d' & Hr & Hf' & (s & Hs & _) & Hoth).
  assert (Hsb' : seg_bytes (ztake SEGMENT_HEADER_LEN (fdata fl) ++ enc_all rs) h rs []).
  { assert (ztake SEGMENT_HEADER_LEN (ztake SEGMENT_HEADER_LEN (fdata fl) ++ enc_all rs)
            = ztake SEGMENT_HEADER_LEN (fdata fl)) as E
      by (apply ztake_app_exact; rewrite zlen_ztake; unfold SEGMENT_HEADER_LEN in *; lia).
    split; rewrite ?E; try done.
    - rewrite zlen_app, zlen_ztake by (unfold SEGMENT_HEADER_LEN in *; lia).
      pose proof (zlen_nonneg (enc_all rs)). lia.
    - by rewrite app_nil_r. }
  destruct (recover_truncate_run k d' _ h rs [] Hs Hsb' no_record_nil Hf')
    as (d'' & Hr2 & _ & (s2 & Hs2 & _) & _).
  exists rs, junk, d', s. split; [done|]. split.
  { intros rs0 junk0 H0. destruct (seg_bytes_maximal _ _ _ _ _ _ H0 Hsb Hno) as (x & -> & _). eauto. }
  split; [done|]. split; [done|]. split; [done|]. exists d''. split; [done|].
  exists s2. cbn [fdata] in Hs2. rewrite Hs2. do 3 f_equal.
  apply ztake_app_exact. rewrite zlen_ztake; unfold SEGMENT_HEADER_LEN in *; lia.
Qed.

Lemma take_header first created x :
  ztake SEGMENT_HEADER_LEN (encode_segment_header first created ++ x) = encode_segment_header first created.
Proof. by apply ztake_app_exact. Qed.

Lemma seg_bytes_written first created rs junk :
  is_u64 first -> is_u64 created -> Forall record_ok rs ->
  seg_bytes (encode_segment_header first created ++ enc_all rs ++ junk) (SegmentHeader first created) rs junk.
Proof.
  intros Hf Hc Hok. split; rewrite ?take_header; try done.
  - rewrite <- (app_nil_r (encode_segment_header _ _)). by apply parse_encode_header.
  - rewrite zlen_app. pose proof (zlen_nonneg (enc_all rs ++ junk)).
    rewrite zlen_encode_segment_header. lia.
Qed.

(** A segment that is a prefix of a header and records [rs] recovers to the first [j] of them, where
    [j] is the number of records the prefix holds completely. *)
Lemma recover_cut k d fl first created rs n :
  is_u64 first -> is_u64 created -> Forall record_ok rs -> fate d = [] ->
  SEGMENT_HEADER_LEN <= n -> om_lookup k (files d) = Some fl ->
  fdata fl = ztake n (encode_segment_header first created ++ enc_all rs) ->
  exists j d' s dropped, (j <= length rs)%nat
    /\ recover_truncate k d
       = (d', Ok (RecoveryReport (SEGMENT_HEADER_LEN + zlen (enc_all (take j rs))) dropped
                    (last_cursor_of None (take j rs))))
    /\ om_lookup k (files d') = Some (File (encode_segment_header first created ++ enc_all (take j rs)) s)
    /\ others_same k d d'
    /\ (forall i, (i <= length rs)%nat ->
          SEGMENT_HEADER_LEN + zlen (enc_all (take i rs)) <= n -> (i <= j)%nat).
Proof.
  intros Hfi Hcr Hok Hf Hn Hk Hdata.
  pose proof (zlen_encode_segment_header first created) as Hh.
  destruct (runs_cut rs (n - SEGMENT_HEADER_LEN) Hok) as (j & junk & Hcut & Hno & Hj).
  assert (Ht : fdata fl = encode_segment_header first created ++ enc_all (take j rs) ++ junk).
  { rewrite Hdata, ztake_app_ge by lia. by rewrite Hh, Hcut. }
  assert (Hsb : seg_bytes (fdata fl) (SegmentHeader first created) (take j rs) junk).
  { rewrite Ht. apply seg_bytes_written; [done|done|by apply Forall_take]. }
  destruct (recover_truncate_run k d _ _ _ _ Hk Hsb Hno Hf) as (d' & Hr & _ & (s' & Hs & _) & Hoth).
  rewrite Ht, take_header in Hs. exists j, d', s', (zlen junk).
  split; [done|]. split; [done|]. split; [done|]. split; [done|].
  intros i Hi Hlen.
  assert (Hti : ztake (n - SEGMENT_HEADER_LEN) (enc_all rs)
    = enc_all (take i rs) ++ ztake (n - SEGMENT_HEADER_LEN - zlen (enc_all (take i rs))) (enc_all (drop i rs))).
  { rewrite <- (take_drop i rs) at 1. rewrite enc_all_app. apply ztake_app_ge. lia. }
  rewrite Hcut in Hti. symmetry in Hti.
  apply runs_prefix in Hti as (x & Hx & _); [|by apply Forall_take|by apply Forall_take|done].
  apply (f_equal length) in Hx. rewrite length_app, !length_take in Hx. lia.
Qed.

(** Power loss.  A segment written as a header and the records [rs], cut by a crash anywhere at or
    after its synced length, recovers to the header and the first [j] of [rs], complete and in order;
    no record that had been synced is lost, and nothing that was not written appears. *)
Theorem crash_recovery_keeps_synced k d fl h first created rs :
  is_u64 first -> is_u64 created -> Forall record_ok rs -> fate d = [] ->
  SEGMENT_HEADER_LEN <= fsynced h ->
  fdata h = encode_segment_header first created ++ enc_all rs ->
  crash_file h fl -> om_lookup k (files d) = Some fl ->
  exists j d' s dropped, (j <= length rs)%nat
    /\ recover_truncate k d
       = (d', Ok (RecoveryReport (SEGMENT_HEADER_LEN + zlen (enc_all (take j rs))) dropped
                    (last_cursor_of None (take j rs))))
    /\ om_lookup k (files d') = Some (File (encode_segment_header first created ++ enc_all (take j rs)) s)
    /\ (forall i, (i <= length rs)%nat ->
          SEGMENT_HEADER_LEN + zlen (enc_all (take i rs)) <= fsynced h -> (i <= j)%nat).
Proof.
  intros Hfi Hcr Hok Hf Hsy Hdata Hcrash Hk. destruct Hcrash as [data s n Hsn Hn].
  cbn [fdata fsynced] in *. subst data.
  destruct (recover_cut k d _ first created rs n Hfi Hcr Hok Hf ltac:(lia) Hk eq_refl)
    as (j & d' & s' & dropped & Hj & Hr & Hs & _ & Hi).
  exists j, d', s', dropped. repeat (split; [done|]). intros i Hil Hle. apply Hi; [done|lia].
Qed.

(** A segment whose header never reached the disk completely cannot be recovered: the scan reports
    an error instead of dropping the segment. *)
Lemma torn_header_error k d fl :
  om_lookup k (files d) = Some fl -> zlen (fdata fl) < SEGMENT_HEADER_LEN ->
  recover_truncate k d = (d, Err (Header (Truncated (zlen (fdata fl))))).
Proof.
  intros Hk Hl. unfold recover_truncate, bind, open, open_read. rewrite Hk.
  by destruct (Z.ltb_spec (zlen (fdata fl)) SEGMENT_HEADER_LEN); [|lia].
Qed.
End codec.

(** ** Concrete segments *)

Definition rec5 : record := Record_ 5 100 [Byte.x61; Byte.x62].
Definition rec6 : record := Record_ 6 101 [].

Definition torn_segment : list byte :=
  encode_segment_header 5 9 ++ enc_all (H := sum_crc) [rec5] ++ [Byte.x1c; Byte.x00; Byte.x00].

Definition torn_disk : disk := Disk [(5, File torn_segment 32)] [].

Lemma record_roundtrip_witness :
  read_one_record (H := sum_crc) (encode_into (H := sum_crc) rec5 []) 0 30 = Ok (Some (rec5, 30)).
Proof.
  refine (proj1 (record_roundtrip (H := sum_crc) [] [] [] rec5 rec5 0 0) _).
  repeat split; vm_compute; congruence.
Defined.

Example torn_disk_recovers :
  (recover_truncate (H := sum_crc) 5 torn_disk).2 = Ok (RecoveryReport 62 3 (Some 5)).
Proof. vm_compute. reflexivity. Qed.

Lemma recover_truncate_keeps_longest_run_witness :
  exists rs (junk : list byte) d', recover_truncate (H := sum_crc) 5 torn_disk
    = (d', Ok (RecoveryReport (SEGMENT_HEADER_LEN + zlen (enc_all (H := sum_crc) rs)) (zlen junk)
                 (last_cursor_of None rs))) /\ exists rs1, rs = [rec5] ++ rs1.
Proof.
  destruct (recover_truncate_keeps_longest_run (H := sum_crc) 5 torn_disk (File torn_segment 32)
              (SegmentHeader 5 9)) as (rs & junk & d' & s & _ & Hmax & E & _);
    [vm_compute; reflexivity..| |vm_compute; reflexivity|].
  - vm_compute. congruence.
  - exists rs, junk, d'. split; [exact E|].
    apply (Hmax [rec5] [Byte.x1c; Byte.x00; Byte.x00]).
    split; [reflexivity|vm_compute; congruence|vm_compute; reflexivity|].
    repeat constructor; vm_compute; congruence.
Defined.

Definition crashed_disk : disk := Disk [(5, File torn_segment 65)] [].

Lemma crash_recovery_keeps_synced_witness :
  exists j s, (1 <= j)%nat /\ om_lookup 5 (files (recover_truncate (H := sum_crc) 5 crashed_disk).1)
    = Some (File (encode_segment_header 5 9 ++ enc_all (H := sum_crc) (take j [rec5; rec6])) s).
Proof.
  set (full := encode_segment_header 5 9 ++ enc_all (H := sum_crc) [rec5; rec6]).
  destruct (crash_recovery_keeps_synced (H := sum_crc) 5 crashed_disk (File torn_segment 65)
    (File full 62) 5 9 [rec5; rec6]) as (j & d' & s & dropped & _ & Hr & Hd & Hj).
  - done.
  - done.
  - repeat constructor; vm_compute; congruence.
  - done.
  - vm_compute. congruence.
  - done.
  - replace torn_segment with (ztake 65 full) by (vm_compute; reflexivity).
    apply CrashFile; vm_compute; congruence.
  - done.
  - exists j, s. rewrite Hr. split; [|exact Hd]. apply (Hj 1%nat); [cbn; lia|]. vm_compute. congruence.
Defined.
