(* ===== verification/SegmentWriter.v ===== *)
(** * Segment writer ([crates/mmbus/src/wal/segment_writer.rs])

    One segment file behind a [BufWriter] of the standard library's default capacity.  The invariant
    [writer_inv] says that the file's bytes followed by the buffered bytes are the header and the
    encodings of the records appended so far, with consecutive cursors; every operation keeps it
    whenever it succeeds, and small records keep it even when a write fails. *)

From Stdlib Require Import ZArith Lia Strings.Byte.
From stdpp Require Import base option gmap list.
From S2P Require Import Prelude OrdMap Chain Disk Record SegmentReader.

Inductive writer_error :=
  | PayloadTooLarge (payload_len : Z)
  | CursorRegressed (got expected : Z)
  | WIo (e : io_error).

Record segment_writer := SegmentWriter_ {
  wfirst : Z;        (* [first_cursor]; also names the file *)
  wpending : Z;      (* [pending_cursor] *)
  wdurable : Z;      (* [durable_cursor] *)
  bytes_written : Z;
  wbuf : list byte   (* the bytes held by the [BufWriter] *)
}.

(** [DEFAULT_BUF_SIZE] of [std::io] *)
Definition BUF_CAPACITY : Z := 8 * 1024.

Definition set_wbuf (b : list byte) (w : segment_writer) : segment_writer :=
  SegmentWriter_ (wfirst w) (wpending w) (wdurable w) (bytes_written w) b.

Definition dw : Type := disk * segment_writer.

(** A call on the file behind the buffer. *)
Definition on_file (m : M disk io_error unit) : M dw writer_error unit := fun '(d, w) =>
  let '(d', r) := m d in ((d', w), map_err WIo r).

(** [BufWriter::flush_buf]: what was written leaves the buffer even when the write fails. *)
Definition flush_buf : M dw writer_error unit := fun '(d, w) =>
  match wbuf w with
  | [] => ((d, w), Ok tt)
  | _ =>
      let '(d', n, ok) := write_end (wfirst w) (wbuf w) d in
      ((d', set_wbuf (zdrop n (wbuf w)) w), if ok : bool then Ok tt else Err (WIo OtherIo))
  end.

(** [BufWriter::write_all] *)
Definition buf_write_all (bs : list byte) : M dw writer_error unit := fun '(d, w) =>
  let spare := BUF_CAPACITY - zlen (wbuf w) in
  if zlen bs <? spare then ((d, set_wbuf (wbuf w ++ bs) w), Ok tt)
  else
    (do! (if spare <? zlen bs then flush_buf else ret tt) in
     fun '(d, w) =>
       if BUF_CAPACITY <=? zlen bs then
         let '(d', n, ok) := write_end (wfirst w) bs d in
         ((d', w), if ok : bool then Ok tt else Err (WIo OtherIo))
       else ((d, set_wbuf (wbuf w ++ bs) w), Ok tt)) (d, w).

(** Dropping the [BufWriter] flushes it, ignoring errors. *)
Definition drop_writer (d : disk) (w : segment_writer) : disk := (flush_buf (d, w)).1.1.

Definition create (k first_cursor created : Z) : M disk writer_error segment_writer := fun d =>
  match create_new k d with
  | (d, Err e) => (d, Err (WIo e))
  | (d, Ok _) =>
      let w := SegmentWriter_ k first_cursor first_cursor SEGMENT_HEADER_LEN [] in
      match (do! buf_write_all (encode_segment_header first_cursor created) in
             do! flush_buf in on_file (sync k)) (d, w) with
      | ((d, w), Ok _) => (d, Ok w)
      | ((d, w), Err e) => (drop_writer d w, Err e)
      end
  end.

Definition fsync : M dw writer_error Z :=
  do! flush_buf in
  do! (fun '(d, w) => on_file (sync (wfirst w)) (d, w)) in
  fun '(d, w) =>
    ((d, SegmentWriter_ (wfirst w) (wpending w) (wpending w) (bytes_written w) (wbuf w)),
     Ok (wpending w)).

(** Flushes, and returns the cursor the caller may record after syncing the clone. *)
Definition flush_for_external_fsync : M dw writer_error Z :=
  do! flush_buf in
  do! on_file (syscall OtherIo) in
  fun '(d, w) => ((d, w), Ok (wpending w)).

Definition record_durable_at (durable : Z) (w : segment_writer) : segment_writer :=
  if wdurable w <? durable
  then SegmentWriter_ (wfirst w) (wpending w) durable (bytes_written w) (wbuf w) else w.

(** [close(mut self)]: the writer is dropped on both paths. *)
Definition close (d : disk) (w : segment_writer) : disk * result writer_error unit :=
  match fsync (d, w) with
  | ((d, w), Ok _) => (drop_writer d w, Ok tt)
  | ((d, w), Err e) => (drop_writer d w, Err e)
  end.

Section writer.
Context `{Crc}.

Definition append (cursor ts_unix_nanos : Z) (payload : list byte) : M dw writer_error unit :=
  fun '(d, w) =>
    if MAX_PAYLOAD_LEN <? zlen payload then ((d, w), Err (PayloadTooLarge (zlen payload)))
    else if negb (cursor =? wpending w) then ((d, w), Err (CursorRegressed cursor (wpending w)))
    else
      let scratch := encode_record_into [] cursor ts_unix_nanos payload in
      (do! buf_write_all scratch in
       fun '(d, w) =>
         ((d, SegmentWriter_ (wfirst w) (wrap64 (cursor + 1)) (wdurable w)
                (bytes_written w + zlen scratch) (wbuf w)), Ok tt)) (d, w).

(** ** Invariant *)

(** The file's bytes followed by the buffered ones are [total], the first [dn] of them synced. *)
Definition writer_bytes (d : disk) (w : segment_writer) (total : list byte) (dn : Z) : Prop :=
  exists fl, om_lookup (wfirst w) (files d) = Some fl
    /\ fdata fl ++ wbuf w = total /\ dn <= fsynced fl <= zlen (fdata fl).

(** The length of the header and of the records below the durable cursor. *)
Definition durable_len (w : segment_writer) (rs : list record) : Z :=
  SEGMENT_HEADER_LEN + zlen (enc_all (take (Z.to_nat (wdurable w - wfirst w)) rs)).

Record writer_inv (d : disk) (w : segment_writer) (created : Z) (rs : list record) : Prop := {
  wi_bytes : writer_bytes d w (encode_segment_header (wfirst w) created ++ enc_all rs) (durable_len w rs);
  wi_created : is_u64 created;
  wi_ok : Forall record_ok rs;
  wi_cursors : consecutive (wfirst w) rs;
  wi_pending : wpending w = wfirst w + zlen rs;
  wi_durable : wfirst w <= wdurable w <= wpending w;
  wi_count : bytes_written w = SEGMENT_HEADER_LEN + zlen (enc_all rs);
  wi_first : is_u64 (wfirst w);
  wi_buf : zlen (wbuf w) <= BUF_CAPACITY
}.

(** What a buffer operation leaves alone. *)
Definition same_but_buf (w w' : segment_writer) : Prop := w' = set_wbuf (wbuf w') w.

Lemma consecutive_snoc c rs r :
  consecutive c rs -> rcursor r = c + zlen rs -> consecutive c (rs ++ [r]).
Proof.
  intros Hc Hr i x Hx. apply lookup_app_Some in Hx as [Hx|[Hle Hx]]; [by apply Hc|].
  apply list_lookup_singleton_Some in Hx as [Hi <-]. unfold zlen in *. lia.
Qed.

(** Moving bytes from the buffer to the file, all or only some of them, keeps their concatenation. *)
Lemma flush_buf_bytes d w total dn d' w' r :
  writer_bytes d w total dn -> flush_buf (d, w) = ((d', w'), r) ->
  writer_bytes d' w' total dn /\ same_but_buf w w' /\ others_same (wfirst w) d d'
  /\ zlen (wbuf w') <= zlen (wbuf w) /\ (is_ok r = true -> wbuf w' = [])
  /\ (fate d = [] -> fate d' = [] /\ r = Ok tt).
Proof.
  intros Hb. unfold flush_buf, same_but_buf. destruct (wbuf w) as [|b bs] eqn:Eb.
  { intros ?; minv. rewrite Eb. repeat split; try done. destruct w'. cbn in *. by subst. }
  rewrite <- Eb. destruct Hb as (fl & Hk & Hd & Hs).
  pose proof (write_end_spec (wfirst w) (wbuf w) d fl Hk) as (n & Hn & Hr & Hok & Hk' & Hoth).
  pose proof (write_end_fate (wfirst w) (wbuf w) d) as Hfate.
  destruct (write_end (wfirst w) (wbuf w) d) as [[d0 n'] ok]. cbn [fst snd] in *. subst n'.
  intros ?; minv. cbn [wbuf set_wbuf]. split; [|split; [done|split; [done|split; [|split]]]].
  - eexists. split; [done|]. cbn [fdata fsynced wbuf set_wbuf]. rewrite <- app_assoc, ztake_zdrop.
    split; [done|]. rewrite zlen_app, zlen_ztake by lia. lia.
  - rewrite zlen_zdrop by lia. lia.
  - destruct ok; [|done]. intros _. apply zdrop_all. rewrite (proj1 Hok eq_refl). lia.
  - intros Hf. destruct (Hfate Hf) as [? ->]. done.
Qed.

(** A write that bypasses the (empty) buffer. *)
Lemma write_direct_bytes bs d w total dn d' n ok :
  writer_bytes d w total dn -> wbuf w = [] -> write_end (wfirst w) bs d = (d', n, ok) ->
  others_same (wfirst w) d d' /\ (fate d = [] -> fate d' = [] /\ ok = true)
  /\ if ok : bool then writer_bytes d' w (total ++ bs) dn
     else 0 <= n < zlen bs /\ writer_bytes d' w (total ++ ztake n bs) dn.
Proof.
  intros (fl & Hk & Hd & Hs) Hnil E.
  pose proof (write_end_spec (wfirst w) bs d fl Hk) as (n' & Hn & Hr & Hok & Hk' & Hoth).
  pose proof (write_end_fate (wfirst w) bs d) as Hfate.
  rewrite E in *. cbn [fst snd] in *. subst n'. split; [done|]. split; [done|].
  assert (Hwb : writer_bytes d' w (total ++ ztake n bs) dn).
  { eexists. split; [done|]. cbn [fdata fsynced]. rewrite <- Hd, Hnil, !app_nil_r. split; [done|].
    rewrite zlen_app, zlen_ztake by lia. lia. }
  destruct ok.
  - by rewrite ztake_all in Hwb by (rewrite (proj1 Hok eq_refl); lia).
  - split; [|done]. destruct (decide (n = zlen bs)) as [En|]; [by apply Hok in En|lia].
Qed.

(** Making room in the buffer for [bs]. *)
Lemma make_room_bytes (bs : list byte) d w total dn d' w' r :
  writer_bytes d w total dn ->
  (if BUF_CAPACITY - zlen (wbuf w) <? zlen bs then flush_buf else ret tt) (d, w) = ((d', w'), r) ->
  writer_bytes d' w' total dn /\ same_but_buf w w' /\ others_same (wfirst w) d d'
  /\ zlen (wbuf w') <= zlen (wbuf w)
  /\ (is_ok r = true -> zlen bs <= BUF_CAPACITY - zlen (wbuf w) \/ wbuf w' = [])
  /\ (fate d = [] -> fate d' = [] /\ r = Ok tt).
Proof.
  intros Hb E. destruct (Z.ltb_spec (BUF_CAPACITY - zlen (wbuf w)) (zlen bs)) as [Hc|Hc].
  - destruct (flush_buf_bytes _ _ _ _ _ _ _ Hb E) as (? & ? & ? & ? & ? & ?).
    repeat (split; [done|]). split; [auto|done].
  - unfold ret in E. minv. split; [done|]. split; [by destruct w'|].
    split; [done|]. split; [lia|]. split; [by left|done].
Qed.

(** [write_all]: on success the bytes are appended; on failure either nothing was taken, or the bytes
    were large enough to bypass the buffer and a strict prefix of them is in the file. *)
Lemma buf_write_all_bytes bs d w total dn d' w' r :
  writer_bytes d w total dn -> buf_write_all bs (d, w) = ((d', w'), r) ->
  zlen (wbuf w) <= BUF_CAPACITY ->
  same_but_buf w w' /\ others_same (wfirst w) d d' /\ zlen (wbuf w') <= BUF_CAPACITY
  /\ (fate d = [] -> fate d' = [] /\ r = Ok tt)
  /\ match r with
     | Ok _ => writer_bytes d' w' (total ++ bs) dn
     | Err _ =>
         writer_bytes d' w' total dn
         \/ BUF_CAPACITY <= zlen bs /\ exists n, 0 <= n < zlen bs
            /\ writer_bytes d' w' (total ++ ztake n bs) dn
     end.
Proof.
  intros Hb Hrun Hcap. unfold buf_write_all in Hrun. pose proof (zlen_nonneg bs) as Hbs.
  destruct (Z.ltb_spec (zlen bs) (BUF_CAPACITY - zlen (wbuf w))) as [Hlt|Hge].
  { minv. split; [done|]. split; [done|]. cbn [wbuf set_wbuf]. rewrite zlen_app.
    split; [lia|]. split; [done|]. destruct Hb as (fl & Hk & Hd & Hs). exists fl.
    split; [done|]. split; [|done]. cbn. by rewrite app_assoc, Hd. }
  unfold bind in Hrun.
  destruct ((if BUF_CAPACITY - zlen (wbuf w) <? zlen bs then flush_buf else ret tt) (d, w))
    as [[d1 w1] r1] eqn:E1.
  destruct (make_room_bytes bs _ _ _ _ _ _ _ Hb E1) as (Hb1 & Hsame & Hoth & Hl1 & Hok1 & Hf1).
  assert (wfirst w1 = wfirst w) as Hfst by (rewrite Hsame; done).
  destruct r1 as [[]|e]; [specialize (Hok1 eq_refl)|minv; repeat (split; [done || lia|]); auto].
  destruct (Z.leb_spec BUF_CAPACITY (zlen bs)) as [Hbig|Hsmall].
  - assert (wbuf w1 = []) as Hnil.
    { destruct Hok1 as [Hle|]; [|done]. apply zlen_0. pose proof (zlen_nonneg (wbuf w1)).
      pose proof (zlen_nonneg (wbuf w)). lia. }
    destruct (write_end (wfirst w1) bs d1) as [[d2 n] ok] eqn:E2.
    destruct (write_direct_bytes _ _ _ _ _ _ _ _ Hb1 Hnil E2) as (Hoth2 & Hf2 & Hres).
    minv. split; [done|]. rewrite Hfst in Hoth2. split; [by eapply others_same_trans|].
    split; [rewrite Hnil; done|].
    split; [intros Hf; destruct (Hf1 Hf) as [Hf' _]; destruct (Hf2 Hf') as [? ->]; done|].
    destruct ok; [done|]. right. split; [done|]. by exists n.
  - minv. cbn [wbuf set_wbuf]. split; [unfold same_but_buf; rewrite Hsame; done|]. split; [done|].
    rewrite zlen_app. split; [destruct Hok1 as [?| ->]; [lia|rewrite zlen_nil; lia]|].
    split; [intros Hf; destruct (Hf1 Hf); done|].
    destruct Hb1 as (fl & Hk & Hd & Hs).
    exists fl. split; [done|]. split; [|done]. cbn. by rewrite app_assoc, Hd.
Qed.

(** ** The operations keep the invariant *)

Lemma enc_all_snoc rs r : enc_all (rs ++ [r]) = enc_all rs ++ enc r.
Proof. rewrite enc_all_app, enc_all_cons. by rewrite app_nil_r. Qed.

Lemma durable_len_snoc w rs r :
  wfirst w <= wdurable w <= wfirst w + zlen rs -> durable_len w (rs ++ [r]) = durable_len w rs.
Proof.
  intros. unfold durable_len. rewrite take_app_le; [done|]. unfold zlen in *. lia.
Qed.

(** An operation that only moved buffered bytes. *)
Lemma writer_inv_same d w d' w' created rs :
  writer_inv d w created rs -> same_but_buf w w' -> zlen (wbuf w') <= BUF_CAPACITY ->
  writer_bytes d' w' (encode_segment_header (wfirst w) created ++ enc_all rs) (durable_len w rs) ->
  writer_inv d' w' created rs.
Proof. intros [] -> ? ?. by constructor. Qed.

Lemma flush_buf_inv d w created rs d' w' r :
  writer_inv d w created rs -> flush_buf (d, w) = ((d', w'), r) ->
  writer_inv d' w' created rs /\ others_same (wfirst w) d d' /\ same_but_buf w w'
  /\ (is_ok r = true -> wbuf w' = []) /\ (fate d = [] -> fate d' = [] /\ r = Ok tt).
Proof.
  intros Hinv E. destruct (flush_buf_bytes _ _ _ _ _ _ _ (wi_bytes _ _ _ _ Hinv) E)
    as (Hb & Hsame & Hoth & Hl & Hok & Hf).
  split; [|done]. apply (writer_inv_same d w); try done.
  pose proof (wi_buf _ _ _ _ Hinv). lia.
Qed.

(** A segment with the strict prefix [torn] of an encoding after its records. *)
Definition torn_after (d : disk) (w : segment_writer) (created : Z) (rs : list record)
    (torn : list byte) : Prop :=
  writer_bytes d w (encode_segment_header (wfirst w) created ++ enc_all rs ++ torn) (durable_len w rs).

Lemma append_inv cursor ts p d w created rs d' w' r :
  writer_inv d w created rs -> is_u64 ts -> wpending w + 1 < two64 ->
  append cursor ts p (d, w) = ((d', w'), r) ->
  others_same (wfirst w) d d' /\ wfirst w' = wfirst w
  /\ match r with
     | Ok _ =>
         cursor = wpending w /\ zlen p <= MAX_PAYLOAD_LEN
         /\ writer_inv d' w' created (rs ++ [Record_ cursor ts p])
     | Err (PayloadTooLarge n) => n = zlen p /\ MAX_PAYLOAD_LEN < n /\ d' = d /\ w' = w
     | Err (CursorRegressed got expected) =>
         got = cursor /\ expected = wpending w /\ got <> expected /\ d' = d /\ w' = w
     | Err (WIo _) =>
         (writer_inv d' w' created rs
          \/ BUF_CAPACITY <= encoded_len (Record_ cursor ts p)
             /\ exists n, 0 <= n < encoded_len (Record_ cursor ts p)
                /\ torn_after d' w' created rs (ztake n (enc (Record_ cursor ts p))))
         /\ fate d <> []
     end
  /\ (fate d = [] -> fate d' = []).
Proof.
  intros Hinv Hts Hmax. unfold append.
  destruct (Z.ltb_spec MAX_PAYLOAD_LEN (zlen p)) as [Hbig|Hp]; [by intros; minv|].
  destruct (Z.eqb_spec cursor (wpending w)) as [->|Hne]; cbn [negb]; [|by intros; minv].
  change (encode_record_into [] (wpending w) ts p) with (enc (Record_ (wpending w) ts p)).
  set (rec := Record_ (wpending w) ts p). unfold bind.
  destruct (buf_write_all (enc rec) (d, w)) as [[d1 w1] r1] eqn:E.
  destruct (buf_write_all_bytes _ _ _ _ _ _ _ _ (wi_bytes _ _ _ _ Hinv) E (wi_buf _ _ _ _ Hinv))
    as (Hsame & Hoth & Hl & Hf & Hres).
  pose proof Hinv as [Hb Hcr Hok Hcur Hpend Hdur Hcnt Hfst Hbuf].
  destruct r1 as [[]|e]; intros ?; minv.
  - split; [done|]. split; [by rewrite Hsame|]. split; [|by intros [? _]%Hf].
    split; [done|]. split; [done|]. rewrite Hsame. cbn [wfirst wpending wdurable bytes_written wbuf set_wbuf].
    rewrite wrap64_small by (unfold is_u64 in *; pose proof (zlen_nonneg rs); lia).
    constructor; cbn [wfirst wpending wdurable bytes_written wbuf set_wbuf]; try done.
    + rewrite enc_all_snoc, app_assoc. unfold durable_len. cbn [wfirst wdurable].
      fold (durable_len w (rs ++ [rec])). rewrite durable_len_snoc by lia.
      by rewrite Hsame in Hres.
    + apply Forall_app_2; [done|]. constructor; [|done]. unfold record_ok, is_u64 in *. cbn.
      pose proof (zlen_nonneg rs). lia.
    + by apply consecutive_snoc.
    + rewrite zlen_app, zlen_cons, zlen_nil. lia.
    + lia.
    + rewrite enc_all_snoc, zlen_app. fold rec. lia.
  - split; [done|]. split; [by rewrite Hsame|]. split; [|by intros [? _]%Hf].
    assert (exists io, e = WIo io) as [io ->].
    { clear -E. unfold buf_write_all, bind, flush_buf, ret in E. repeat (dmatch E); simplify_eq; eauto. }
    rewrite zlen_enc in Hres. split; [|by intros [_ ?]%Hf].
    destruct Hres as [Hres|(Hbig & n & Hn & Hres)].
    + left. by apply (writer_inv_same d w).
    + right. split; [done|]. exists n. split; [done|]. unfold torn_after.
      assert (durable_len w' rs = durable_len w rs /\ wfirst w' = wfirst w) as [-> ->]
        by (by rewrite Hsame).
      by rewrite app_assoc.
Qed.

Lemma take_durable_all (c : Z) (rs : list record) : take (Z.to_nat (c + zlen rs - c)) rs = rs.
Proof. apply take_ge. unfold zlen. lia. Qed.

Lemma fsync_inv d w created rs d' w' r :
  writer_inv d w created rs -> fsync (d, w) = ((d', w'), r) ->
  writer_inv d' w' created rs /\ others_same (wfirst w) d d'
  /\ wfirst w' = wfirst w /\ wpending w' = wpending w
  /\ match r with
     | Ok c => c = wpending w /\ wdurable w' = wpending w /\ wbuf w' = []
         /\ exists s, om_lookup (wfirst w) (files d')
               = Some (File (encode_segment_header (wfirst w) created ++ enc_all rs) s)
            /\ s = SEGMENT_HEADER_LEN + zlen (enc_all rs)
     | Err _ => wdurable w' = wdurable w /\ fate d <> []
     end
  /\ (fate d = [] -> fate d' = []).
Proof.
  intros Hinv. unfold fsync, bind.
  destruct (flush_buf (d, w)) as [[d1 w1] r1] eqn:E1.
  destruct (flush_buf_inv _ _ _ _ _ _ _ Hinv E1) as (Hinv1 & Hoth & Hsame & Hnil & Hf).
  destruct r1 as [[]|e].
  2:{ intros ?; minv. rewrite Hsame. cbn. rewrite <- Hsame.
      repeat (split; [done|]). split; [|by intros [? _]%Hf]. split; [done|]. by intros [_ ?]%Hf. }
  specialize (Hnil eq_refl). unfold on_file.
  pose proof (wi_bytes _ _ _ _ Hinv1) as (fl & Hk & Hd & Hs).
  pose proof (sync_spec (wfirst w1) d1 fl Hk) as Hsync. pose proof (sync_fate (wfirst w1) d1) as Hsf.
  destruct (sync (wfirst w1) d1) as [d2 [[]|e]]; cbn in *; destruct Hsync as [Hk2 Hoth2].
  - intros ?; minv.
    assert (Hw1 : wfirst w1 = wfirst w /\ wpending w1 = wpending w) by (by rewrite Hsame).
    destruct Hw1 as [Hw1 Hw2]. rewrite Hw1 in *. rewrite Hnil, app_nil_r in Hd.
    pose proof Hinv as [_ ? ? ? Hpend ? ? ? ?]. pose proof Hinv1 as [_ ? ? ? Hp1 ? Hc1 ? ?].
    assert (Hlen : zlen (fdata fl) = SEGMENT_HEADER_LEN + zlen (enc_all rs))
      by (rewrite Hd, zlen_app; done).
    split; [|split; [by eapply others_same_trans|]].
    + constructor; cbn [wfirst wpending wdurable bytes_written wbuf]; rewrite ?Hw1 in *; try done; [|lia].
      eexists. split; [done|]. cbn [wbuf wfirst fdata fsynced]. rewrite Hnil, app_nil_r. split; [done|].
      unfold durable_len. cbn [wfirst wdurable]. rewrite ?Hw1, Hw2, Hpend, take_durable_all. lia.
    + cbn. repeat (split; [done|]). split; [|by intros [? _]%Hf; apply Hsf].
      repeat (split; [done|]). rewrite Hk2, Hd. eexists. split; [done|]. by rewrite zlen_app.
  - intros ?; minv. rewrite Hsame. cbn. rewrite <- Hsame.
    assert (wfirst w' = wfirst w) as Hw1 by (by rewrite Hsame). rewrite Hw1 in *.
    split; [|split; [by eapply others_same_trans|]].
    + pose proof Hinv1 as []. constructor; try done. exists fl. rewrite Hw1. done.
    + repeat (split; [done|]). split.
      * split; [done|]. intros Hfd. apply Hf in Hfd as [Hfd _]. by apply Hsf in Hfd as [_ ?].
      * intros [Hfd _]%Hf. by apply Hsf in Hfd as [? _].
Qed.

(** A fresh segment: its header is written and synced before the writer is handed out.  When the call
    fails the name may be taken all the same. *)
(** Dropping a writer touches its own file only, and fails only where the disk does. *)
Lemma drop_writer_bytes d w bs n :
  writer_bytes d w bs n -> others_same (wfirst w) d (drop_writer d w) /\ (fate d = [] -> fate (drop_writer d w) = []).
Proof.
  intros Hb. unfold drop_writer. destruct (flush_buf (d, w)) as [[d3 w3] r3] eqn:E3.
  destruct (flush_buf_bytes _ _ _ _ _ _ _ Hb E3) as (_ & _ & Ho & _ & _ & Hf). cbn. split; [done|]. by intros [? _]%Hf.
Qed.

(** [create_new] on a disk that does not fail. *)
Lemma create_new_fate k d : fate d = [] ->
  fate (create_new k d).1 = [] /\ (om_lookup k (files d) = None -> (create_new k d).2 = Ok tt).
Proof.
  intros Hf. unfold create_new, bind, syscall, next_fate. rewrite Hf. by destruct (om_lookup k (files d)).
Qed.

Lemma create_inv k created d d' r :
  is_u64 k -> is_u64 created -> create k k created d = (d', r) ->
  match r with
  | Ok w => om_lookup k (files d) = None /\ writer_inv d' w created [] /\ wfirst w = k
            /\ wpending w = k /\ wdurable w = k /\ wbuf w = []
  | Err e => e = WIo AlreadyExists /\ d' = d /\ om_lookup k (files d) <> None \/ fate d <> []
  end
  /\ others_same k d d' /\ (fate d = [] -> fate d' = []).
Proof.
  intros Hk Hcr. unfold create. pose proof (create_new_spec k d) as Hc.
  pose proof (create_new_fate k d) as Hcf.
  destruct (create_new k d) as [d1 [[]|e]] eqn:E1; cbn in Hcf.
  2:{ intros ?; minv. split; [|split; [intros k' _; by rewrite Hc|by intros [? _]%Hcf]].
      unfold create_new in E1. destruct (om_lookup k (files d)) eqn:Ek; [left; by minv|].
      right. intros Hf. by destruct (Hcf Hf) as [_ ?%(fun H => H eq_refl)]. }
  destruct Hc as [Hnone Hfiles].
  assert (Hoth1 : others_same k d d1).
  { intros k' Hne. rewrite Hfiles. by apply om_lookup_insert_ne. }
  assert (Hfl : om_lookup k (files d1) = Some (File [] 0)) by (rewrite Hfiles; apply om_lookup_insert).
  set (w0 := SegmentWriter_ k k k SEGMENT_HEADER_LEN []).
  set (hdr := encode_segment_header k created).
  set (w1 := set_wbuf hdr w0). unfold bind.
  change (buf_write_all hdr (d1, w0)) with ((d1, w1), @Ok writer_error unit tt). cbn [fst snd].
  assert (Hb1 : writer_bytes d1 w1 hdr 0) by (by exists (File [] 0)).
  destruct (flush_buf (d1, w1)) as [[d2 w2] r2] eqn:E2.
  destruct (flush_buf_bytes _ _ _ _ _ _ _ Hb1 E2) as (Hb2 & Hs2 & Hoth2 & _ & Hnil & Hf2).
  assert (Hw2 : wfirst w2 = k) by (by rewrite Hs2). change (wfirst w1) with k in Hoth2.
  destruct r2 as [[]|e].
  2:{ intros [= <- <-]. destruct (drop_writer_bytes _ _ _ _ Hb2) as [Ho Hf]. rewrite Hw2 in Ho. split.
      - right. intros [Hfd _]%Hcf. by apply Hf2 in Hfd as [_ ?].
      - split; [eapply others_same_trans; [done|]; by eapply others_same_trans|].
        intros [Hfd _]%Hcf. apply Hf. by apply Hf2. }
  specialize (Hnil eq_refl). destruct Hb2 as (fl & Hk2 & Hd2 & Hsy). rewrite Hw2 in Hk2.
  rewrite Hnil, app_nil_r in Hd2. unfold on_file.
  pose proof (sync_spec k d2 fl Hk2) as Hsync. pose proof (sync_fate k d2) as Hsf.
  destruct (sync k d2) as [d3 r3]. destruct Hsync as [Hk3 Hoth3]. cbn [fst snd] in Hsf.
  assert (Hb3 : writer_bytes d3 w2 hdr 0).
  { rewrite <- Hd2. exists (if is_ok r3 then File (fdata fl) (zlen (fdata fl)) else fl).
    rewrite Hw2, Hnil. split; [done|]. pose proof (zlen_nonneg (fdata fl)).
    destruct (is_ok r3); cbn; rewrite app_nil_r; split; done || lia. }
  assert (Hoth : others_same k d d3).
  { eapply others_same_trans; [done|]. by eapply others_same_trans. }
  assert (Hff : fate d = [] -> fate d3 = [] /\ r3 = Ok tt).
  { intros [Hfd _]%Hcf. apply Hf2 in Hfd as [Hfd _]. by apply Hsf. }
  destruct r3 as [[]|e]; cbn [map_err is_ok] in *; intros [= <- <-].
  - split; [|split; [done|by intros [? _]%Hff]]. split; [done|].
    assert (w2 = w0) as Hw by (rewrite Hs2; by rewrite Hnil). rewrite Hw. split; [|done].
    constructor; cbn; rewrite ?zlen_nil; try done; try lia.
    exists (File (fdata fl) (zlen (fdata fl))). split; [done|]. cbn [fdata fsynced wbuf w0].
    rewrite app_nil_r, Hd2. unfold durable_len. rewrite take_nil. change (enc_all []) with (@nil byte). rewrite app_nil_r. split; [done|].
    unfold hdr. rewrite zlen_encode_segment_header, zlen_nil. lia.
  - destruct (drop_writer_bytes _ _ _ _ Hb3) as [Ho Hf]. rewrite Hw2 in Ho. split; [right; by intros [_ ?]%Hff|].
    split; [by eapply others_same_trans|]. intros [? _]%Hff. by apply Hf.
Qed.

Lemma record_durable_at_inv d w created rs c :
  writer_inv d w created rs ->
  (* what the flusher guarantees: the records below [c] were flushed, then synced *)
  c <= wpending w ->
  (exists fl, om_lookup (wfirst w) (files d) = Some fl
     /\ SEGMENT_HEADER_LEN + zlen (enc_all (take (Z.to_nat (c - wfirst w)) rs)) <= fsynced fl) ->
  writer_inv d (record_durable_at c w) created rs
  /\ wdurable (record_durable_at c w) = Z.max c (wdurable w).
Proof.
  intros Hinv Hc (fl & Hk & Hs). pose proof Hinv as [(fl' & Hk' & Hd & Hsy) ? ? ? ? ? ? ? ?].
  simplify_eq. unfold record_durable_at.
  destruct (Z.ltb_spec (wdurable w) c); [|split; [done|lia]].
  split; [|cbn; lia]. constructor; cbn; try done; [|lia].
  exists fl. split; [done|]. split; [done|]. unfold durable_len. cbn. lia.
Qed.

(** ** A segment's life: any sequence of calls, then a power cut *)

Inductive wop :=
  | WAppend (cursor ts : Z) (payload : list byte)
  | WFsync
  | WFlush.   (* the flusher's first phase, or the [BufWriter] filling up *)

(** Runs one call; [log] collects the records whose append returned [Ok]. *)
Definition wstep (s : dw * list record) (o : wop) : dw * list record :=
  let '(x, log) := s in
  match o with
  | WAppend c ts p =>
      match append c ts p x with
      | (x', Ok _) => (x', log ++ [Record_ c ts p])
      | (x', Err _) => (x', log)
      end
  | WFsync => ((fsync x).1, log)
  | WFlush => ((flush_buf x).1, log)
  end.

(** Timestamps are [u64]; a record that may fail must be one the buffer takes whole. *)
Definition wop_ok (may_fail : bool) (o : wop) : Prop :=
  match o with
  | WAppend c ts p => is_u64 ts /\ (may_fail = true -> encoded_len (Record_ c ts p) < BUF_CAPACITY)
  | _ => True
  end.

Lemma wstep_inv may_fail created o d w log :
  wop_ok may_fail o -> (may_fail = false -> fate d = []) -> wpending w + 1 < two64 ->
  writer_inv d w created log ->
  let '(x', log') := wstep ((d, w), log) o in
  writer_inv x'.1 x'.2 created log' /\ (may_fail = false -> fate x'.1 = [])
  /\ wfirst x'.2 = wfirst w /\ wpending x'.2 <= wpending w + 1
  /\ others_same (wfirst w) d x'.1.
Proof.
  intros Hok Hfate Hmax Hinv. destruct o as [c ts p| |]; cbn [wstep].
  - destruct (append c ts p (d, w)) as [[d' w'] r] eqn:E. destruct Hok as [Hts Hsmall].
    destruct (append_inv _ _ _ _ _ _ _ _ _ _ Hinv Hts Hmax E) as (Hoth & Hfst & Hr & Hf).
    assert (Hf' : may_fail = false -> fate d' = []) by auto.
    destruct r as [[]|[n|g x|io]]; cbn [fst snd].
    + destruct Hr as (-> & _ & Hinv'). split; [done|]. split; [done|]. split; [done|].
      split; [|done]. rewrite (wi_pending _ _ _ _ Hinv'), (wi_pending _ _ _ _ Hinv), Hfst.
      rewrite zlen_app, zlen_cons, zlen_nil. lia.
    + destruct Hr as (_ & _ & -> & ->). repeat (split; [done|]). split; [lia|done].
    + destruct Hr as (_ & _ & _ & -> & ->). repeat (split; [done|]). split; [lia|done].
    + destruct Hr as [[Hinv'|[Hbig _]] Hne].
      * split; [done|]. split; [done|]. split; [done|]. split; [|done].
        rewrite (wi_pending _ _ _ _ Hinv'), (wi_pending _ _ _ _ Hinv), Hfst. lia.
      * exfalso. destruct may_fail; [specialize (Hsmall eq_refl); lia|by apply Hne, Hfate].
  - destruct (fsync (d, w)) as [[d' w'] r] eqn:E.
    destruct (fsync_inv _ _ _ _ _ _ _ Hinv E) as (Hinv' & Hoth & Hfst & Hp & _ & Hf). cbn.
    split; [done|]. split; [auto|]. split; [done|]. split; [lia|done].
  - destruct (flush_buf (d, w)) as [[d' w'] r] eqn:E.
    destruct (flush_buf_inv _ _ _ _ _ _ _ Hinv E) as (Hinv' & Hoth & Hsame & _ & Hf). cbn.
    split; [done|]. split; [intros Hm; by apply Hf, Hfate|]. rewrite Hsame. cbn.
    split; [done|]. split; [lia|done].
Qed.

Lemma wrun_inv may_fail created ops d w log :
  Forall (wop_ok may_fail) ops -> (may_fail = false -> fate d = []) ->
  wpending w + zlen ops < two64 -> writer_inv d w created log ->
  let '(x', log') := foldl wstep ((d, w), log) ops in writer_inv x'.1 x'.2 created log'.
Proof.
  intros Hops. revert d w log. induction Hops as [|o ops Ho _ IH]; intros d w log Hfate Hmax Hinv; [done|].
  cbn [foldl]. rewrite zlen_cons in Hmax. pose proof (zlen_nonneg ops).
  pose proof (wstep_inv may_fail created o d w log Ho Hfate ltac:(lia) Hinv) as Hst.
  destruct (wstep (d, w, log) o) as [[d' w'] log'] eqn:E.
  destruct Hst as (Hinv' & Hf' & _ & Hp & _). apply IH; [done|cbn in *; lia|done].
Qed.

(** A writer's segment after a power cut. *)
Lemma writer_crash_recovers d w created rs dc fl fl' :
  writer_inv d w created rs -> om_lookup (wfirst w) (files d) = Some fl -> crash_file fl fl' ->
  om_lookup (wfirst w) (files dc) = Some fl' -> fate dc = [] ->
  exists j d' s dropped, (j <= length rs)%nat /\ wdurable w <= wfirst w + Z.of_nat j
    /\ recover_truncate (wfirst w) dc
       = (d', Ok (RecoveryReport (SEGMENT_HEADER_LEN + zlen (enc_all (take j rs))) dropped
                    (last_cursor_of None (take j rs))))
    /\ om_lookup (wfirst w) (files d')
       = Some (File (encode_segment_header (wfirst w) created ++ enc_all (take j rs)) s).
Proof.
  intros Hinv Hk Hcrash Hkc Hf. pose proof Hinv as [(fl0 & Hk0 & Hd & Hs) Hcr Hok _ Hp Hdur _ Hfst _].
  rewrite Hk0 in Hk. injection Hk as <-. destruct Hcrash as [data s n Hsn Hn]. cbn [fdata fsynced] in *.
  assert (32 <= durable_len w rs).
  { unfold durable_len, SEGMENT_HEADER_LEN. pose proof (zlen_nonneg (enc_all (take (Z.to_nat (wdurable w - wfirst w)) rs))). lia. }
  destruct (recover_cut (wfirst w) dc (File (ztake n data) n) (wfirst w) created rs n Hfst Hcr Hok Hf)
    as (j & d' & s' & dropped & Hj & Hr & Hs' & _ & Hi).
  - unfold SEGMENT_HEADER_LEN. lia.
  - done.
  - cbn [fdata]. rewrite <- Hd. symmetry. apply ztake_app_le. lia.
  - exists j, d', s', dropped. split; [done|]. split; [|done].
    enough (Z.to_nat (wdurable w - wfirst w) <= j)%nat by lia.
    apply Hi; [unfold zlen in *; lia|]. unfold durable_len in *. lia.
Qed.

(** C21: durability of one segment.  After any sequence of appends, flushes and fsyncs, with system calls
    failing at will as long as every record is small enough for the buffer (or with no failures and
    records of any size), a power cut leaves a file that recovers to the first [j] records whose append
    had returned [Ok], in order, and [j] reaches at least the durable cursor the writer reported. *)
Theorem segment_survives_crash may_fail created ops d w dc fl fl' :
  Forall (wop_ok may_fail) ops -> (may_fail = false -> fate d = []) ->
  wpending w + zlen ops < two64 -> writer_inv d w created [] ->
  let '((d', w'), log) := foldl wstep ((d, w), []) ops in
  om_lookup (wfirst w') (files d') = Some fl -> crash_file fl fl' ->
  om_lookup (wfirst w') (files dc) = Some fl' -> fate dc = [] ->
  exists j s, (j <= length log)%nat /\ wdurable w' <= wfirst w' + Z.of_nat j
    /\ om_lookup (wfirst w') (files (recover_truncate (wfirst w') dc).1)
       = Some (File (encode_segment_header (wfirst w') created ++ enc_all (take j log)) s).
Proof.
  intros Hops Hfate Hmax Hinv.
  pose proof (wrun_inv may_fail created ops d w [] Hops Hfate Hmax Hinv) as Hrun.
  destruct (foldl wstep (d, w, []) ops) as [[d' w'] log]. cbn [fst snd] in Hrun. intros Hk Hcrash Hkc Hfc.
  destruct (writer_crash_recovers _ _ _ _ _ _ _ Hrun Hk Hcrash Hkc Hfc)
    as (j & d2 & s & dropped & Hj & Hdur & Hr & Hs).
  exists j, s. rewrite Hr. done.
Qed.

(** ** Without failures the file always ends at a record boundary *)

(** The file holds the header and [flushed]; the buffer holds [buffered]. *)
Definition aligned (d : disk) (w : segment_writer) (created : Z) (flushed buffered : list record) : Prop :=
  (exists s, om_lookup (wfirst w) (files d)
     = Some (File (encode_segment_header (wfirst w) created ++ enc_all flushed) s))
  /\ wbuf w = enc_all buffered.

(** The first [dn] bytes of file [k] are synced. *)
Definition synced_upto (d : disk) (k dn : Z) : Prop :=
  exists fl, om_lookup k (files d) = Some fl /\ dn <= fsynced fl.

Lemma write_end_ok k bs d fl :
  fate d = [] -> om_lookup k (files d) = Some fl ->
  exists d', write_end k bs d = (d', zlen bs, true) /\ fate d' = []
    /\ files d' = om_insert k (File (fdata fl ++ bs) (fsynced fl)) (files d).
Proof.
  intros Hf Hk. unfold write_end, next_fate. rewrite Hf. cbv iota zeta. rewrite Hk, Z.eqb_refl, ztake_all by lia.
  by eexists.
Qed.

Lemma flush_aligned d w created flushed buffered :
  fate d = [] -> aligned d w created flushed buffered ->
  exists d', flush_buf (d, w) = ((d', set_wbuf [] w), Ok tt)
    /\ aligned d' (set_wbuf [] w) created (flushed ++ buffered) []
    /\ fate d' = [] /\ others_same (wfirst w) d d' /\ (om_sorted (files d) -> om_sorted (files d'))
    /\ (forall dn, synced_upto d (wfirst w) dn -> synced_upto d' (wfirst w) dn).
Proof.
  intros Hf [[s Hk] Hb]. unfold flush_buf. destruct (wbuf w) as [|b bs] eqn:E.
  - exists d. assert (set_wbuf [] w = w) as -> by (destruct w; cbn in *; by subst).
    split; [done|]. split; [|done]. split; [|by rewrite enc_all_nil].
    exists s. rewrite enc_all_app, <- Hb. by rewrite app_nil_r.
  - rewrite <- E in *. destruct (write_end_ok _ (wbuf w) _ _ Hf Hk) as (d' & -> & Hf' & Hfiles).
    cbv iota zeta. rewrite zdrop_all by lia. exists d'. split; [done|]. split; [|split; [done|split; [|split]]].
    + split; [|done]. exists s. cbn [wfirst set_wbuf]. rewrite Hfiles, om_lookup_insert. cbn [fdata fsynced].
      by rewrite enc_all_app, <- Hb, app_assoc.
    + intros k' Hne. rewrite Hfiles. by apply om_lookup_insert_ne.
    + rewrite Hfiles. by apply om_insert_sorted.
    + intros dn (fl & Hfl & Hdn). rewrite Hk in Hfl. injection Hfl as <-.
      eexists. rewrite Hfiles, om_lookup_insert. split; [done|done].
Qed.

(** One append, on every path through the buffer. *)
Lemma append_aligned d w created flushed buffered ts p :
  let rec := Record_ (wpending w) ts p in
  fate d = [] -> aligned d w created flushed buffered -> zlen p <= MAX_PAYLOAD_LEN ->
  exists d' w' fl' bu',
    append (wpending w) ts p (d, w) = ((d', w'), Ok tt) /\ aligned d' w' created fl' bu'
    /\ fl' ++ bu' = (flushed ++ buffered) ++ [rec] /\ wfirst w' = wfirst w
    /\ fate d' = [] /\ others_same (wfirst w) d d' /\ (om_sorted (files d) -> om_sorted (files d'))
    /\ (forall dn, synced_upto d (wfirst w) dn -> synced_upto d' (wfirst w) dn)
    /\ (length flushed <= length fl')%nat.
Proof.
  intros rec Hf Hal Hp. unfold append, buf_write_all, bind. cbv zeta.
  destruct (Z.ltb_spec MAX_PAYLOAD_LEN (zlen p)); [lia|]. rewrite Z.eqb_refl. cbn [negb].
  change (encode_record_into [] (wpending w) ts p) with (enc rec).
  assert (Henc : forall l, enc_all (l ++ [rec]) = enc_all l ++ enc rec) by (intros; apply enc_all_snoc).
  destruct (Z.ltb_spec (zlen (enc rec)) (BUF_CAPACITY - zlen (wbuf w))) as [Hfit|Hfull].
  { destruct Hal as [Hk Hb]. eexists _, _, flushed, (buffered ++ [rec]). split; [reflexivity|].
    split; [split; [done|cbn; by rewrite Henc, Hb]|]. rewrite app_assoc. by repeat split. }
  assert (exists d1 w1 fl1 bu1, (if BUF_CAPACITY - zlen (wbuf w) <? zlen (enc rec) then flush_buf else ret tt) (d, w)
       = ((d1, w1), @Ok writer_error unit tt) /\ aligned d1 w1 created fl1 bu1 /\ fl1 ++ bu1 = flushed ++ buffered
       /\ wfirst w1 = wfirst w /\ fate d1 = [] /\ others_same (wfirst w) d d1
       /\ (om_sorted (files d) -> om_sorted (files d1))
       /\ (forall dn, synced_upto d (wfirst w) dn -> synced_upto d1 (wfirst w) dn)
       /\ (length flushed <= length fl1)%nat
       /\ (BUF_CAPACITY <= zlen (enc rec) -> bu1 = []))
    as (d1 & w1 & fl1 & bu1 & -> & Hal1 & Happ & Hw1 & Hf1 & Ho1 & Hso1 & Hsy1 & Hle1 & Hnil).
  { destruct (Z.ltb_spec (BUF_CAPACITY - zlen (wbuf w)) (zlen (enc rec))).
    - destruct (flush_aligned _ _ _ _ _ Hf Hal) as (d1 & E & Hal1 & Hf1 & Ho1 & Hso1 & Hsy1).
      exists d1, (set_wbuf [] w), (flushed ++ buffered), []. rewrite E, app_nil_r. do 8 (split; [done|]). rewrite length_app.
      split; [lia|done].
    - exists d, w, flushed, buffered. repeat (split; [done|]). intros Hbig. destruct Hal as [_ Hb].
      destruct buffered as [|x xs]; [done|]. assert (zlen (wbuf w) <= 0) as Hz by lia.
      rewrite Hb, enc_all_cons, zlen_app, zlen_enc in Hz.
      pose proof (encoded_len_pos x). pose proof (zlen_nonneg (enc_all xs)). lia. }
  destruct Hal1 as [[s Hk] Hb]. destruct (Z.leb_spec BUF_CAPACITY (zlen (enc rec))) as [Hbig|Hsmall].
  - rewrite (Hnil Hbig), app_nil_r, enc_all_nil in *. subst fl1.
    destruct (write_end_ok _ (enc rec) _ _ Hf1 Hk) as (d2 & -> & Hf2 & Hfiles). cbv iota zeta.
    eexists d2, _, ((flushed ++ buffered) ++ [rec]), []. split; [reflexivity|]. cbn [wfirst wbuf].
    rewrite app_nil_r. split; [|split; [done|split; [done|split; [done|split; [|split; [|split]]]]]].
    + split; [|done]. exists s. cbn [wfirst]. rewrite Hfiles, om_lookup_insert. cbn [fdata fsynced].
      by rewrite Henc, app_assoc.
    + intros k' Hne. rewrite Hfiles, Hw1, om_lookup_insert_ne by done. by apply Ho1.
    + intros Hso. rewrite Hfiles. by apply om_insert_sorted, Hso1.
    + intros dn Hdn. apply Hsy1 in Hdn as (fl & Hfl & Hdn). rewrite <- Hw1 in *. rewrite Hk in Hfl.
      injection Hfl as <-. eexists. rewrite Hfiles, om_lookup_insert. split; [done|done].
    + rewrite !length_app in *. lia.
  - eexists d1, _, fl1, (bu1 ++ [rec]). split; [reflexivity|]. cbn [wfirst wbuf set_wbuf].
    split; [split; [by exists s|cbn; by rewrite Henc, Hb]|].
    rewrite app_assoc, Happ. by repeat (split; [done|]).
Qed.

Lemma fsync_aligned d w created flushed buffered :
  fate d = [] -> aligned d w created flushed buffered ->
  let data := encode_segment_header (wfirst w) created ++ enc_all (flushed ++ buffered) in
  exists d', fsync (d, w)
      = ((d', SegmentWriter_ (wfirst w) (wpending w) (wpending w) (bytes_written w) []), Ok (wpending w))
    /\ om_lookup (wfirst w) (files d') = Some (File data (zlen data))
    /\ fate d' = [] /\ others_same (wfirst w) d d' /\ (om_sorted (files d) -> om_sorted (files d')).
Proof.
  intros Hf Hal data. unfold fsync, bind.
  destruct (flush_aligned _ _ _ _ _ Hf Hal) as (d1 & -> & [[s Hk] _] & Hf1 & Ho1 & Hso1 & _).
  cbn [wfirst set_wbuf] in Hk. unfold on_file.
  pose proof (sync_spec (wfirst w) d1 _ Hk) as Hs. pose proof (sync_fate (wfirst w) d1 Hf1) as [Hf2 Hr].
  assert (Hso2 : om_sorted (files d1) -> om_sorted (files (sync (wfirst w) d1).1)).
  { unfold sync, bind, syscall, next_fate. rewrite Hf1. cbn. rewrite Hk. cbn. apply om_insert_sorted. }
  cbn [wfirst set_wbuf]. destruct (sync (wfirst w) d1) as [d2 r]. cbn in Hr, Hf2, Hso2. subst r.
  destruct Hs as [Hk2 Ho2]. cbn in Hk2. cbn. exists d2. split; [done|]. split; [done|].
  split; [done|]. split; [by eapply others_same_trans|auto].
Qed.

Lemma close_aligned d w created flushed buffered :
  fate d = [] -> aligned d w created flushed buffered ->
  let data := encode_segment_header (wfirst w) created ++ enc_all (flushed ++ buffered) in
  exists d', close d w = (d', Ok tt)
    /\ om_lookup (wfirst w) (files d') = Some (File data (zlen data))
    /\ fate d' = [] /\ others_same (wfirst w) d d' /\ (om_sorted (files d) -> om_sorted (files d')).
Proof.
  intros Hf Hal data. unfold close. destruct (fsync_aligned _ _ _ _ _ Hf Hal) as (d' & -> & H1).
  exists d'. by split.
Qed.

Lemma flush_buf_sorted x : om_sorted (files x.1) -> om_sorted (files (flush_buf x).1.1).
Proof.
  destruct x as [d w]. intros Hs. unfold flush_buf. destruct (wbuf w); [done|].
  pose proof (write_end_sorted (wfirst w) (b :: l) d Hs). by destruct (write_end _ _ d) as [[d' n] ok].
Qed.

Lemma buf_write_all_sorted bs x : om_sorted (files x.1) -> om_sorted (files (buf_write_all bs x).1.1).
Proof.
  destruct x as [d w]. intros Hs. unfold buf_write_all. cbv zeta. destruct (_ <? _); [done|]. unfold bind.
  assert (om_sorted (files ((if BUF_CAPACITY - zlen (wbuf w) <? zlen bs then flush_buf else ret tt) (d, w)).1.1)) as H1.
  { destruct (_ <? _); [by apply (flush_buf_sorted (d, w))|done]. }
  destruct ((if BUF_CAPACITY - zlen (wbuf w) <? zlen bs then flush_buf else ret tt) (d, w)) as [[d1 w1] [[]|e]];
    cbn in *; [|done].
  destruct (_ <=? _); [|done]. pose proof (write_end_sorted (wfirst w1) bs d1 H1).
  by destruct (write_end _ _ d1) as [[d' n] ok].
Qed.

Lemma create_sorted k first created d :
  om_sorted (files d) -> om_sorted (files (create k first created d).1).
Proof.
  intros Hs. unfold create. pose proof (create_new_sorted k d Hs) as H1.
  destruct (create_new k d) as [d1 [[]|e]]; cbn in H1; [|done]. cbv zeta. unfold bind.
  set (w := SegmentWriter_ k first first SEGMENT_HEADER_LEN []).
  pose proof (buf_write_all_sorted (encode_segment_header first created) (d1, w) H1) as H2.
  destruct (buf_write_all _ (d1, w)) as [[d2 w2] [[]|e]]; cbn in H2;
    [|by apply (flush_buf_sorted (d2, w2))].
  pose proof (flush_buf_sorted (d2, w2) H2) as H3.
  destruct (flush_buf (d2, w2)) as [[d3 w3] [[]|e]]; cbn in H3; [|by apply (flush_buf_sorted (d3, w3))].
  unfold on_file. pose proof (sync_sorted k d3 H3) as H4.
  destruct (sync k d3) as [d4 [[]|e]]; cbn in *; [done|by apply (flush_buf_sorted (d4, w3))].
Qed.

Lemma create_aligned k created d d' w :
  create k k created d = (d', Ok w) -> is_u64 k -> is_u64 created -> aligned d' w created [] [].
Proof.
  intros E Hk Hcr. destruct (create_inv _ _ _ _ _ Hk Hcr E) as [(Hn & Hinv & Hw & _ & _ & Hb) _].
  destruct (wi_bytes _ _ _ _ Hinv) as (fl & Hl & Hd & _).
  rewrite Hb, app_nil_r in Hd. change (enc_all []) with (@nil byte) in Hd. rewrite app_nil_r in Hd.
  split; [|by rewrite Hb]. exists (fsynced fl). change (enc_all []) with (@nil byte). rewrite app_nil_r, Hl, <- Hd. by destruct fl.
Qed.

(** ** A failed large append, retried *)

(** An encoding starts with its own length. *)
Lemma enc_length_prefix r post :
  encoded_len r < two32 ->
  exists tl, enc r ++ post
    = byte_of_Z (encoded_len r) :: byte_of_Z (encoded_len r / 256)
      :: byte_of_Z (encoded_len r / 256 / 256) :: byte_of_Z (encoded_len r / 256 / 256 / 256) :: tl.
Proof.
  intros Hl. unfold enc, encode_into, encode_record_into.
  change (RECORD_FRAMING + zlen (payload r)) with (encoded_len r).
  pose proof (encoded_len_pos r). rewrite Z.mod_small by lia. cbn [app to_le]. eauto.
Qed.

(** Two bytes of a length prefix followed by the whole record: the length read there is out of range. *)
Lemma torn_then_retried_is_no_record rec more :
  256 <= encoded_len rec < 65536 -> no_record (ztake 2 (enc rec) ++ enc rec ++ more).
Proof.
  intros HL r post (_ & _ & Hp) E.
  assert (Hr : encoded_len r <= MAX_RECORD_LEN).
  { unfold encoded_len, MAX_PAYLOAD_LEN in *. lia. }
  pose proof (encoded_len_pos r). set (b := encoded_len r) in *.
  destruct (enc_length_prefix r post) as [tl Htl]; [rewrite two32_eq; unfold b, MAX_RECORD_LEN in *; lia|].
  destruct (enc_length_prefix rec []) as [tl1 Htl1]; [rewrite two32_eq; lia|].
  destruct (enc_length_prefix rec more) as [tl2 Htl2]; [rewrite two32_eq; lia|].
  rewrite app_nil_r in Htl1. rewrite Htl, Htl2, Htl1 in E. clear Htl Htl1 Htl2. fold b in E.
  set (a := encoded_len rec) in *. cbn in E. injection E as E0 E1 E2 E3 _.
  apply (f_equal byte_to_Z) in E0, E1, E2, E3. rewrite !byte_to_of_Z in *.
  unfold MAX_RECORD_LEN in *. Z.div_mod_to_equations. lia.
Qed.

(** An append whose encoding bypasses the empty buffer is one [write]. *)
Lemma append_large_run d w ts p d' n ok :
  let rec := Record_ (wpending w) ts p in
  wbuf w = [] -> BUF_CAPACITY <= encoded_len rec -> zlen p <= MAX_PAYLOAD_LEN ->
  0 <= wpending w -> wpending w + 1 < two64 ->
  write_end (wfirst w) (enc rec) d = (d', n, ok) ->
  append (wpending w) ts p (d, w)
  = if ok : bool
    then ((d', SegmentWriter_ (wfirst w) (wpending w + 1) (wdurable w)
                 (bytes_written w + encoded_len rec) []), Ok tt)
    else ((d', w), Err (WIo OtherIo)).
Proof.
  intros rec Hnil Hbig Hp H0 Hmax E. unfold append.
  change (encode_record_into [] (wpending w) ts p) with (enc rec). rewrite Z.eqb_refl. cbn [negb].
  destruct (Z.ltb_spec MAX_PAYLOAD_LEN (zlen p)); [lia|].
  unfold bind, buf_write_all, flush_buf. rewrite Hnil, zlen_nil, zlen_enc.
  destruct (Z.ltb_spec (encoded_len rec) (BUF_CAPACITY - 0)); [lia|].
  unfold bind. destruct (Z.ltb_spec (BUF_CAPACITY - 0) (encoded_len rec));
    [rewrite Hnil|]; (destruct (Z.leb_spec BUF_CAPACITY (encoded_len rec)); [|lia]);
    cbv [ret]; rewrite E; (destruct ok; [|done]); cbn; rewrite wrap64_small by lia; by rewrite Hnil.
Qed.

(** An append whose write bypasses the buffer and fails after two bytes (a full disk, say) leaves
    those bytes in the segment.  The publisher retries, the retry succeeds, [fsync] reports the record
    durable, and the next recovery drops it with everything that follows. *)
Theorem retried_large_append_is_lost d w created rs ts p :
  let rec := Record_ (wpending w) ts p in
  writer_inv d w created rs -> wbuf w = [] -> fate d = [Some 2] ->
  is_u64 ts -> wpending w + 1 < two64 ->
  BUF_CAPACITY <= zlen p -> encoded_len rec < 65536 ->
  exists x1 x2 x3 d' s,
    append (wpending w) ts p (d, w) = (x1, Err (WIo OtherIo))
    /\ append (wpending w) ts p x1 = (x2, Ok tt)
    /\ fsync x2 = (x3, Ok (wpending w + 1))
    /\ recover_truncate (wfirst w) x3.1
       = (d', Ok (RecoveryReport (SEGMENT_HEADER_LEN + zlen (enc_all rs)) (2 + encoded_len rec)
                    (last_cursor_of None rs)))
    /\ om_lookup (wfirst w) (files d')
       = Some (File (encode_segment_header (wfirst w) created ++ enc_all rs) s).
Proof.
  intros rec Hinv Hnil Hfate Hts Hmax Hbig Hsmall.
  assert (Hel : encoded_len rec = 28 + zlen p) by done.
  assert (Hel2 : 256 <= encoded_len rec) by (unfold BUF_CAPACITY in *; lia).
  pose proof Hinv as [(fl & Hk & Hd & Hs) Hcr Hok Hcur Hpend Hdur Hcnt Hfst Hbuf].
  rewrite Hnil, app_nil_r in Hd.
  set (fl1 := File (fdata fl ++ ztake 2 (enc rec)) (fsynced fl)).
  set (d1 := Disk (om_insert (wfirst w) fl1 (files d)) []).
  set (fl2 := File (fdata fl1 ++ enc rec) (fsynced fl)).
  set (d2 := Disk (om_insert (wfirst w) fl2 (files d1)) []).
  set (w2 := SegmentWriter_ (wfirst w) (wpending w + 1) (wdurable w) (bytes_written w + encoded_len rec) []).
  assert (Happ : forall dd dd' n ok, write_end (wfirst w) (enc rec) dd = (dd', n, ok) ->
    append (wpending w) ts p (dd, w) = if ok : bool then ((dd', w2), Ok tt) else ((dd', w), Err (WIo OtherIo))).
  { intros. pose proof (zlen_nonneg rs). unfold is_u64 in *. apply append_large_run with (n := n); try done; try lia.
    - change (BUF_CAPACITY <= encoded_len rec). lia.
    - unfold MAX_PAYLOAD_LEN, MAX_RECORD_LEN, RECORD_FRAMING. lia. }
  assert (E1 : write_end (wfirst w) (enc rec) d = (d1, 2, false)).
  { unfold write_end, next_fate. rewrite Hfate, zlen_enc. cbn [files set_files].
    replace (Z.max 0 (Z.min 2 (encoded_len rec))) with 2 by lia. rewrite Hk.
    destruct (Z.eqb_spec 2 (encoded_len rec)); [lia|done]. }
  assert (E2 : write_end (wfirst w) (enc rec) d1 = (d2, encoded_len rec, true)).
  { unfold write_end, next_fate. cbn [fate d1 files set_files]. rewrite zlen_enc, Z.eqb_refl.
    unfold d1 at 1. cbn [files]. rewrite om_lookup_insert, ztake_all by (rewrite zlen_enc; lia). done. }
  exists (d1, w), (d2, w2). rewrite (Happ _ _ _ _ E1), (Happ _ _ _ _ E2).
  set (fl3 := File (fdata fl2) (zlen (fdata fl2))).
  set (d3 := Disk (om_insert (wfirst w) fl3 (files d2)) []).
  exists (d3, SegmentWriter_ (wfirst w) (wpending w + 1) (wpending w + 1) (bytes_written w + encoded_len rec) []).
  assert (Hdata : fdata fl3 = encode_segment_header (wfirst w) created ++ enc_all rs
                              ++ ztake 2 (enc rec) ++ enc rec ++ []).
  { cbn. rewrite Hd. by rewrite !app_nil_r, <- !app_assoc. }
  assert (Hsb : seg_bytes (fdata fl3) (SegmentHeader (wfirst w) created) rs (ztake 2 (enc rec) ++ enc rec ++ []))
    by (rewrite Hdata; by apply seg_bytes_written).
  assert (Hk3 : om_lookup (wfirst w) (files d3) = Some fl3) by apply om_lookup_insert.
  destruct (recover_truncate_run _ _ _ _ _ _ Hk3 Hsb) as (d' & Hr & _ & (s & Hs' & _) & _);
    [apply torn_then_retried_is_no_record; unfold BUF_CAPACITY in *; lia|done|].
  exists d', s. split; [done|]. split; [done|]. split; [|split].
  - unfold fsync, bind, flush_buf, on_file, sync, syscall, next_fate. cbn. by rewrite om_lookup_insert.
  - cbn [fst]. rewrite Hr. do 3 f_equal. rewrite !zlen_app, zlen_enc, zlen_ztake, zlen_nil by (rewrite zlen_enc; lia).
    lia.
  - rewrite Hs'. rewrite Hdata at 1. rewrite ztake_app_exact by done. done.
Qed.
End writer.

(** ** Concrete runs *)

Definition fresh_writer : segment_writer := SegmentWriter_ 5 5 5 32 [].
Definition fresh_disk : disk := Disk [(5, File (encode_segment_header 5 9) 32)] [].

Lemma fresh_inv : writer_inv (H := sum_crc) fresh_disk fresh_writer 9 [].
Proof.
  destruct (create_inv (H := sum_crc) 5 9 (Disk [] []) fresh_disk (Ok fresh_writer)) as [(_ & H & _) _];
    [done|done|vm_compute; reflexivity|exact H].
Qed.

(** Two appends, an fsync whose [sync_data] fails, an fsync that succeeds, and one more append that
    stays in the buffer. *)
Definition demo_wops : list wop :=
  [WAppend 5 100 [Byte.x61]; WFsync; WAppend 6 101 []; WFsync; WAppend 7 102 [Byte.x62]].

Definition flaky_disk : disk := Disk (files fresh_disk) [None; Some 0].

Lemma flaky_inv : writer_inv (H := sum_crc) flaky_disk fresh_writer 9 [].
Proof. destruct fresh_inv. by constructor. Qed.

Example demo_wops_run :
  let '((d, w), log) := foldl (wstep (H := sum_crc)) ((flaky_disk, fresh_writer), []) demo_wops in
  wdurable w = 7 /\ wpending w = 8 /\ length log = 3%nat /\ zlen (wbuf w) = 29.
Proof. vm_compute. done. Qed.

Lemma segment_survives_crash_witness :
  let '((d, w), log) := foldl (wstep (H := sum_crc)) ((flaky_disk, fresh_writer), []) demo_wops in
  exists j, 7 <= 5 + Z.of_nat j /\ (j <= length log)%nat.
Proof.
  destruct (foldl (wstep (H := sum_crc)) ((flaky_disk, fresh_writer), []) demo_wops) as [[d w] log] eqn:E.
  pose (fl := default (File [] 0) (om_lookup 5 (files d))).
  assert (Ew : wfirst w = 5 /\ wdurable w = 7 /\ om_lookup 5 (files d) = Some fl /\ fsynced fl = zlen (fdata fl)).
  { unfold fl. vm_compute in E. injection E as <- <- <-. vm_compute. done. }
  destruct Ew as (Ew1 & Ew2 & Ew3 & Ew4).
  pose proof (segment_survives_crash (H := sum_crc) true 9 demo_wops flaky_disk fresh_writer
                (Disk [(5, fl)] []) fl fl) as P.
  rewrite E, Ew1, Ew2 in P. destruct P as (j & s & Hj & Hd & _); try done.
  - repeat constructor; vm_compute; congruence.
  - exact flaky_inv.
  - destruct fl as [data s]. cbn in Ew4. subst s.
    pose proof (CrashFile data (zlen data) (zlen data) (Z.le_refl _) (Z.le_refl _)) as C.
    by rewrite ztake_all in C by done.
  - eauto.
Defined.

Lemma retried_large_append_is_lost_witness :
  exists (x3 : dw) d', recover_truncate (H := sum_crc) 5 x3.1
    = (d', Ok (RecoveryReport 32 8230 None)).
Proof.
  destruct (retried_large_append_is_lost (H := sum_crc) (Disk (files fresh_disk) [Some 2]) fresh_writer 9 []
              7 (zrep 8200 Byte.x00)) as (x1 & x2 & x3 & d' & s & _ & _ & _ & E & _).
  - destruct fresh_inv. by constructor.
  - reflexivity.
  - reflexivity.
  - done.
  - reflexivity.
  - vm_compute. congruence.
  - vm_compute. reflexivity.
  - exists x3, d'. exact E.
Defined.
