(* ===== verification/Config.v ===== *)
(** * Configuration ([crates/mmbus/src/config.rs], [crates/mmbus/src/wal/config.rs])

    The configuration records and their defaults.  Durations are in milliseconds; paths are strings. *)

From Stdlib Require Import ZArith Lia.
From stdpp Require Import base option strings list.
From S2P Require Import Prelude.

Inductive fsync_policy := NoFsync | Batched | Each.

Record wal_config := WalConfig {
  enabled : bool;
  policy : fsync_policy;
  fsync_interval : Z;
  fsync_batch_bytes : Z;
  segment_size_max : Z;
  retention_bytes : Z
}.

Definition wal_default : wal_config :=
  WalConfig true Batched 5 (1024 * 1024) (64 * 1024 * 1024) (1024 * 1024 * 1024).

Definition disabled : wal_config :=
  WalConfig false (policy wal_default) (fsync_interval wal_default) (fsync_batch_bytes wal_default)
    (segment_size_max wal_default) (retention_bytes wal_default).

Definition batched : wal_config := wal_default.

Inductive backpressure_policy := ErrorPolicy | DropOldest.

Record bus_config := BusConfig {
  slot_size : Z;
  bcapacity : Z;
  base_dir : string;
  bmax_subscribers : Z;
  backpressure : backpressure_policy;
  wal_cfg : wal_config
}.

(** [default_base_dir] on Unix. *)
Definition default_base_dir : string := "/tmp/mmbus".

Definition bus_default : bus_config :=
  BusConfig (64 * 1024) 256 default_base_dir 16 ErrorPolicy wal_default.

#[global] Instance fsync_policy_eq_dec : EqDecision fsync_policy.
Proof. solve_decision. Defined.
#[global] Instance backpressure_policy_eq_dec : EqDecision backpressure_policy.
Proof. solve_decision. Defined.
