(* ===== verification/Stats.v ===== *)
(** * Observability records and public errors ([crates/mmbus/src/stats.rs], [crates/mmbus/src/wal/stats.rs],
    [crates/mmbus/src/error.rs])

    The snapshots the monitoring calls return, and the error type of the public API, over the error type
    of the WAL backend that is compiled in. *)

From Stdlib Require Import ZArith Lia.
From stdpp Require Import base option strings list.
From S2P Require Import Prelude Ring Disk.

Record wal_stats := WalStats {
  ws_pending : Z;
  ws_durable : Z;
  ws_oldest : Z;
  ws_active_bytes : Z;
  ws_total_bytes : Z;
  ws_segments : Z;
  ws_appends : Z;
  ws_append_bytes : Z;
  ws_flushes : Z
}.

Record topic_stats := TopicStats {
  ts_ring : ring_stats;
  connected_sockets : Z;
  ts_wal : option wal_stats;
  ts_published_total : Z;
  ts_full_rejected_total : Z;
  ts_subscribers_dropped_total : Z;
  ts_wakeups_sent_total : Z
}.

Inductive error (WE : Type) :=
  | Io (e : io_error)
  | Full
  | TooLarge (size max : Z)
  | Timeout (name : string)
  | TooManySubscribers (limit : Z)
  | AlreadyPublishing (name : string)
  | CursorTooOld (requested oldest : Z)
  | WalError (e : WE).
Arguments Io {WE} e.
Arguments Full {WE}.
Arguments TooLarge {WE} size max.
Arguments Timeout {WE} name.
Arguments TooManySubscribers {WE} limit.
Arguments AlreadyPublishing {WE} name.
Arguments CursorTooOld {WE} requested oldest.
Arguments WalError {WE} e.
