(* ===== verification/WalV1.v ===== *)
(** * The write-ahead log ([crates/mmbus/src/wal/wal.rs], [crates/mmbus/src/wal/reader.rs])

    The multi-segment aggregator: recovery on open, append with rotation and retention, the batched
    flusher's two phases, and the lazily opening replayer.  A path in [dir/wal/] is the cursor its
    name is made of, so the index maps a cursor to itself for every file this code creates. *)

From Stdlib Require Import ZArith Lia Strings.Byte.
From stdpp Require Import base option sorting gmap list.
From S2P Require Import Prelude OrdMap Chain Disk Record SegmentReader SegmentWriter Config Stats.

Inductive wal_error :=
  | EIo (e : io_error)
  | EWriter (e : writer_error)
  | EReader (e : reader_error)
  | CursorTooOld (requested oldest : Z)
  | Poisoned
  | EPayloadTooLarge (payload_len : Z)
  | UnwrapNone.   (* the panic of [inner.writer.as_mut().unwrap()] *)

(** [Wal] and its mutex-guarded [Inner]; [clock] is what [SystemTime::now] will return. *)
Record wal := Wal {
  cfg : wal_config;
  segments : omap Z;
  segment_sizes : omap Z;
  active_bytes : Z;
  retained_bytes : Z;
  writer : option segment_writer;
  durable_cursor : Z;
  pending_cursor : Z;
  poisoned : bool;
  appends_total : Z;
  append_bytes_total : Z;
  flushes_total : Z;
  clock : Z
}.

Definition st : Type := disk * wal.

Definition with_inner (segs : omap Z) (sizes : omap Z) (ab rb : Z) (wr : option segment_writer) (w : wal) : wal :=
  Wal (cfg w) segs sizes ab rb wr (durable_cursor w) (pending_cursor w) (poisoned w)
      (appends_total w) (append_bytes_total w) (flushes_total w) (clock w).
Definition with_writer (wr : option segment_writer) (w : wal) : wal :=
  with_inner (segments w) (segment_sizes w) (active_bytes w) (retained_bytes w) wr w.
Definition with_durable (c : Z) (w : wal) : wal :=
  Wal (cfg w) (segments w) (segment_sizes w) (active_bytes w) (retained_bytes w) (writer w)
      c (pending_cursor w) (poisoned w) (appends_total w) (append_bytes_total w)
      (flushes_total w) (clock w).
Definition with_pending (c : Z) (w : wal) : wal :=
  Wal (cfg w) (segments w) (segment_sizes w) (active_bytes w) (retained_bytes w) (writer w)
      (durable_cursor w) c (poisoned w) (appends_total w) (append_bytes_total w)
      (flushes_total w) (clock w).
Definition with_poisoned (b : bool) (w : wal) : wal :=
  Wal (cfg w) (segments w) (segment_sizes w) (active_bytes w) (retained_bytes w) (writer w)
      (durable_cursor w) (pending_cursor w) b (appends_total w) (append_bytes_total w)
      (flushes_total w) (clock w).
Definition count_append (n : Z) (w : wal) : wal :=
  Wal (cfg w) (segments w) (segment_sizes w) (active_bytes w) (retained_bytes w) (writer w)
      (durable_cursor w) (pending_cursor w) (poisoned w) (appends_total w + 1)
      (append_bytes_total w + n) (flushes_total w) (clock w).
Definition count_flush (w : wal) : wal :=
  Wal (cfg w) (segments w) (segment_sizes w) (active_bytes w) (retained_bytes w) (writer w)
      (durable_cursor w) (pending_cursor w) (poisoned w) (appends_total w)
      (append_bytes_total w) (flushes_total w + 1) (clock w).

(** A writer call on the active segment. *)
Definition on_writer {A} (m : M dw writer_error A) : M st wal_error A := fun '(d, w) =>
  match writer w with
  | None => ((d, w), Err UnwrapNone)
  | Some sw =>
      let '((d', sw'), r) := m (d, sw) in
      ((d', with_writer (Some sw') w), map_err EWriter r)
  end.

Section wal.
Context `{Crc}.

(** ** Open *)

(** One pass over the directory: recover each segment, then stat it. *)
Fixpoint scan_dir (names : list Z) (segs sizes : omap Z) : M disk wal_error (omap Z * omap Z) :=
  match names with
  | [] => ret (segs, sizes)
  | k :: names => fun d =>
      match recover_truncate k d with
      | (d, Err e) => (d, Err (EReader e))
      | (d, Ok _) =>
          match om_lookup k (files d) with
          | None => (d, Err (EIo NotFound))
          | Some fl => scan_dir names (om_insert k k segs) (om_insert k (zlen (fdata fl)) sizes) d
          end
      end
  end.

(** [for r in reader.iter().flatten() { last_cursor = Some(r.cursor) }] *)
Fixpoint last_record_cursor (fuel : nat) (r : segment_reader) (last : option Z) : option Z :=
  match fuel with
  | O => last
  | S fuel =>
      match next_record r with
      | (r, Some (Ok rec)) => last_record_cursor fuel r (Some (rcursor rec))
      | (r, Some (Err _)) => last_record_cursor fuel r last
      | (_, None) => last
      end
  end.

(** The new writer, the pending cursor, the active bytes, and the index with the new segment. *)
Definition open_active (segs sizes : omap Z) (now : Z) :
    M disk wal_error (option segment_writer * Z * Z * omap Z * omap Z) :=
  match om_last segs with
  | None => ret (None, 0, 0, segs, sizes)
  | Some (last_first_cursor, last_path) => fun d =>
      match SegmentReader.open last_path d with
      | (d, Err e) => (d, Err (EReader e))
      | (d, Ok reader) =>
          let last_cursor := last_record_cursor (scan_fuel (file_bytes reader)) reader None in
          let next_cursor := match last_cursor with Some c => wrap64 (c + 1) | None => last_first_cursor end in
          if next_cursor =? last_first_cursor then (d, Ok (None, last_first_cursor, 0, segs, sizes))
          else
            match create next_cursor next_cursor now d with
            | (d, Err e) => (d, Err (EWriter e))
            | (d, Ok w) =>
                (d, Ok (Some w, next_cursor, bytes_written w,
                        om_insert next_cursor next_cursor segs,
                        om_insert next_cursor (bytes_written w) sizes))
            end
      end
  end.

Definition sum (l : list Z) : Z := foldr Z.add 0 l.

Definition open (c : wal_config) (now : Z) : M disk wal_error wal := fun d =>
  (let! ss := scan_dir (om_keys (files d)) [] [] in
   let '(segs, sizes) := ss in
   let! act := open_active segs sizes now in
   let '(wr, pending, active, segs, sizes) := act in
   let sizes := match om_last segs with
                | Some (k, _) => if 0 <? active then om_remove k sizes else sizes
                | None => sizes
                end in
   ret (Wal c segs sizes active (sum (om_values sizes)) wr pending pending false 0 0 0 now)) d.

(** ** Append *)

Definition rotate_locked (new_first_cursor : Z) : M st wal_error unit :=
  do! (fun '(d, w) =>
         match writer w with
         | None => ((d, w), Ok tt)
         | Some sw =>
             let w := with_writer None w in
             let final_bytes := bytes_written sw in
             match close d sw with
             | (d, Err e) => ((d, w), Err (EWriter e))
             | (d, Ok _) =>
                 ((d, with_inner (segments w) (om_insert (wfirst sw) final_bytes (segment_sizes w))
                        (active_bytes w) (retained_bytes w + final_bytes) None w), Ok tt)
             end
         end) in
  fun '(d, w) =>
    match create new_first_cursor new_first_cursor (clock w) d with
    | (d, Err e) => ((d, w), Err (EWriter e))
    | (d, Ok sw) =>
        ((d, with_inner (om_insert new_first_cursor new_first_cursor (segments w)) (segment_sizes w)
               (bytes_written sw) (retained_bytes w) (Some sw) w), Ok tt)
    end.

(** The deferred creation of the first writer. *)
Definition ensure_writer (cursor : Z) : M st wal_error unit := fun '(d, w) =>
  match writer w with
  | Some _ => ((d, w), Ok tt)
  | None =>
      match create cursor cursor (clock w) d with
      | (d, Err e) => ((d, w), Err (EWriter e))
      | (d, Ok sw) =>
          ((d, with_inner (om_insert cursor cursor (segments w)) (segment_sizes w) (bytes_written sw)
                 (retained_bytes w) (Some sw) w), Ok tt)
      end
  end.

(** One turn of the retention loop: [None] when it returns. *)
Definition retention_turn (s : st) : option st :=
  let '(d, w) := s in
  if retained_bytes w + active_bytes w <=? retention_bytes (cfg w) then None
  else
    let active_first := match writer w with Some sw => wfirst sw | None => u64_MAX end in
    match List.find (fun k => negb (k =? active_first)) (om_keys (segments w)) with
    | None => None
    | Some k =>
        let d := match om_lookup k (segments w) with Some path => remove_file path d | None => d end in
        let rb := match om_lookup k (segment_sizes w) with
                  | Some size => saturating_sub (retained_bytes w) size
                  | None => retained_bytes w
                  end in
        Some (d, with_inner (om_remove k (segments w)) (om_remove k (segment_sizes w))
                   (active_bytes w) rb (writer w) w)
    end.

Fixpoint enforce_retention (fuel : nat) (s : st) : st :=
  match fuel with
  | O => s
  | S fuel => match retention_turn s with None => s | Some s => enforce_retention fuel s end
  end.

(** Every turn removes a segment from the index. *)
Definition enforce_retention_locked : M st wal_error unit := fun s =>
  (enforce_retention (S (length (segments s.2))) s, Ok tt).

Definition fsync_active : M st wal_error unit :=
  let! d := on_writer fsync in
  modify (fun '(dk, w) => (dk, count_flush (with_durable d w))).

Definition append (cursor ts_unix_nanos : Z) (payload : list byte) : M st wal_error unit := fun s =>
  let w := s.2 in
  if negb (enabled (cfg w)) then (s, Ok tt)
  else if MAX_PAYLOAD_LEN <? zlen payload then (s, Err (EPayloadTooLarge (zlen payload)))
  else if poisoned w then (s, Err Poisoned)
  else
    (do! ensure_writer cursor in
     let record_bytes := RECORD_FRAMING + zlen payload in
     do! (fun s => if segment_size_max (cfg s.2) <? active_bytes s.2 + record_bytes
                   then rotate_locked cursor s else (s, Ok tt)) in
     do! on_writer (SegmentWriter.append cursor ts_unix_nanos payload) in
     do! (fun '(d, w) =>
            match writer w with
            | Some sw => ((d, with_pending (wpending sw)
                                (with_inner (segments w) (segment_sizes w) (bytes_written sw)
                                   (retained_bytes w) (writer w) w)), Ok tt)
            | None => ((d, w), Err UnwrapNone)
            end) in
     do! modify (fun '(d, w) => (d, count_append (zlen payload) w)) in
     do! (if decide (policy (cfg w) = Each) then fsync_active else ret tt) in
     fun s => if retention_bytes (cfg s.2) <? retained_bytes s.2 + active_bytes s.2
              then enforce_retention_locked s else (s, Ok tt)) s.

(** ** Other operations *)

Definition fsync_wal : M st wal_error unit := fun s =>
  match writer s.2 with Some _ => fsync_active s | None => (s, Ok tt) end.

Definition bump_generation : M st wal_error unit := fun s =>
  match writer s.2 with Some sw => rotate_locked (wpending sw) s | None => (s, Ok tt) end.

Definition oldest_cursor (w : wal) : Z := default 0 (om_first (segments w)).

Definition stats (w : wal) : wal_stats :=
  WalStats (pending_cursor w) (durable_cursor w) (default 0 (om_first (segments w))) (active_bytes w)
    (retained_bytes w + active_bytes w) (zlen (segments w)) (appends_total w) (append_bytes_total w)
    (flushes_total w).

(** Dropping the WAL: the flusher is joined, then a best-effort fsync; the writer's buffer is flushed
    when it is dropped in turn. *)
Definition drop_wal (s : st) : disk :=
  let '(d, w) := if enabled (cfg s.2) then (fsync_wal s).1 else s in
  match writer w with Some sw => drop_writer d sw | None => d end.

(** ** The batched flusher *)

(** Phase 1, under the mutex: the file to sync and the cursor to publish. *)
Definition flusher_flush (s : st) : st * option (Z * Z) :=
  match writer s.2 with
  | None => (s, None)
  | Some sw =>
      match on_writer flush_for_external_fsync s with
      | (s, Ok pending) => (s, Some (wfirst sw, pending))
      | ((d, w), Err _) => ((d, with_poisoned true w), None)
      end
  end.

(** Phase 2, without the mutex. *)
Definition flusher_sync (job : Z * Z) (s : st) : st :=
  let '(d, w) := s in
  match sync job.1 d with
  | (d, Err _) => (d, with_poisoned true w)
  | (d, Ok _) => (d, count_flush (with_durable job.2 w))
  end.

(** ** Replay *)

Record replayer := Replayer {
  rsegments : list Z;      (* the paths not yet opened *)
  cursor_floor : Z;
  current : option segment_reader
}.

Fixpoint replay_next (fuel : nat) (r : replayer) (d : disk) :
    disk * replayer * option (result wal_error record) :=
  match fuel with
  | O => (d, r, None)
  | S fuel =>
      match current r with
      | None =>
          match rsegments r with
          | [] => (d, r, None)
          | path :: rest =>
              match SegmentReader.open path d with
              | (d, Ok rd) => replay_next fuel (Replayer rest (cursor_floor r) (Some rd)) d
              | (d, Err e) => (d, Replayer rest (cursor_floor r) None, Some (Err (EReader e)))
              end
          end
      | Some rd =>
          match next_record rd with
          | (rd, Some (Ok rec)) =>
              let r := Replayer (rsegments r) (cursor_floor r) (Some rd) in
              if rcursor rec <? cursor_floor r then replay_next fuel r d
              else (d, r, Some (Ok rec))
          | (rd, Some (Err e)) =>
              (d, Replayer (rsegments r) (cursor_floor r) (Some rd), Some (Err (EReader e)))
          | (_, None) => replay_next fuel (Replayer (rsegments r) (cursor_floor r) None) d
          end
      end
  end.

(** [Wal::read_from] and [WalReader::read_from] differ only in where the index comes from. *)
Definition read_from_index (segs : omap Z) (cursor : Z) : result wal_error replayer :=
  match om_first segs with
  | None => Ok (Replayer [] cursor None)
  | Some oldest =>
      if cursor <? oldest then Err (CursorTooOld cursor oldest)
      else
        let containing_first := default oldest (om_floor cursor segs) in
        Ok (Replayer (om_values (om_from containing_first segs)) cursor None)
  end.

Definition read_from (w : wal) (cursor : Z) : result wal_error replayer :=
  read_from_index (segments w) cursor.

(** ** The subscriber's read-only view *)

Definition reader_open (d : disk) : omap Z := map (fun k => (k, k)) (om_keys (files d)).

Definition reader_read_from (segs : omap Z) (cursor : Z) : result wal_error replayer :=
  read_from_index segs cursor.

(** ** Segment files *)

Definition seg_file (sg : seg) : list byte :=
  encode_segment_header (sfirst sg) (screated sg) ++ enc_all (srecs sg).

(** ** The record iterator *)

(** A reader whose remaining records are [rs]. *)
Definition reader_at (rd : segment_reader) (rs : list record) : Prop :=
  halted rd = false /\ file_len rd = zlen (file_bytes rd) /\ Forall record_ok rs
  /\ exists pre, file_bytes rd = pre ++ enc_all rs /\ pos rd = zlen pre.

Lemma next_record_spec rd rs :
  reader_at rd rs ->
  match rs with
  | [] => next_record rd = (rd, None)
  | r :: rs' => exists rd', next_record rd = (rd', Some (Ok r)) /\ reader_at rd' rs'
      /\ file_bytes rd' = file_bytes rd
  end.
Proof.
  intros (Hh & Hl & Hok & pre & Hb & Hp). unfold next_record. rewrite Hh, Hl, Hp.
  destruct rs as [|r rs].
  - rewrite enc_all_nil, app_nil_r in Hb. rewrite Hb. by rewrite read_one_end.
  - apply Forall_cons in Hok as [Hr Hok]. rewrite enc_all_cons in Hb.
    rewrite Hb, read_one_enc by done. eexists. split; [reflexivity|]. split; [|done].
    split; [done|]. split; [by rewrite <- Hb|]. split; [done|].
    exists (pre ++ enc r). split; [by rewrite <- app_assoc|]. cbn [pos]. by rewrite zlen_app, zlen_enc.
Qed.

Lemma open_segment k d sg s :
  om_lookup k (files d) = Some (File (seg_file sg) s) -> seg_ok sg ->
  exists rd, SegmentReader.open k d = (d, Ok rd) /\ reader_at rd (srecs sg)
    /\ file_bytes rd = seg_file sg.
Proof.
  intros Hk (Hf & Hc & Hok & _).
  pose proof (seg_bytes_written (sfirst sg) (screated sg) (srecs sg) [] Hf Hc Hok) as Hsb.
  rewrite app_nil_r in Hsb. rewrite (open_ok k d _ _ _ _ Hk Hsb). eexists. split; [reflexivity|].
  split; [|done]. split; [done|]. split; [done|]. split; [done|].
  exists (encode_segment_header (sfirst sg) (screated sg)). done.
Qed.

Lemma last_record_cursor_spec fuel rd rs last :
  reader_at rd rs -> (length rs < fuel)%nat ->
  last_record_cursor fuel rd last = last_cursor_of last rs.
Proof.
  revert rd rs last. induction fuel as [|fuel IH]; intros rd rs last Hrd Hf; [lia|].
  cbn [last_record_cursor]. pose proof (next_record_spec rd rs Hrd) as Hn. destruct rs as [|r rs].
  - by rewrite Hn.
  - destruct Hn as (rd' & -> & Hrd' & _). rewrite (IH rd' rs) by (done || cbn in *; lia).
    by rewrite last_cursor_of_cons.
Qed.

(** Every record takes a byte of its file, so [scan_fuel] is enough for its records. *)
Lemma enc_all_length rs : (length rs <= length (enc_all rs))%nat.
Proof.
  induction rs as [|r rs IH]; [done|]. rewrite enc_all_cons, length_app. cbn [length].
  pose proof (zlen_enc r). pose proof (encoded_len_pos r). unfold zlen in *. lia.
Qed.

(** ** Replay *)

Definition disk_holds (d : disk) (segs : list seg) : Prop :=
  Forall (fun sg => exists s, om_lookup (sfirst sg) (files d) = Some (File (seg_file sg) s)) segs.

(** A replayer that has the segments [segs] to open yet, and of the one it reads the records [cur_rs]. *)
Definition replay_at (d : disk) (r : replayer) (segs : list seg) (cur_rs : list record) : Prop :=
  Forall seg_ok segs /\ disk_holds d segs /\ rsegments r = map sfirst segs
  /\ match current r with
     | Some rd => reader_at rd cur_rs
     | None => cur_rs = []
     end.

(** ... that still has the records [rem] to go through. *)
Definition replay_repr (d : disk) (r : replayer) (rem : list record) : Prop :=
  exists segs cur_rs, replay_at d r segs cur_rs /\ rem = cur_rs ++ log_of segs.

Definition replay_measure (r : replayer) (rem : list record) : nat :=
  length rem + 2 * length (rsegments r) + (if current r then 1 else 0).

Definition wanted (r : replayer) (rec : record) : bool := negb (rcursor rec <? cursor_floor r).

Lemma replay_next_at fuel d r segs cur_rs :
  replay_at d r segs cur_rs -> (replay_measure r (cur_rs ++ log_of segs) < fuel)%nat ->
  exists r' k cur_rs', let rem := List.filter (wanted r) (cur_rs ++ log_of segs) in let segs' := drop k segs in
    replay_next fuel r d = (d, r', match rem with [] => None | x :: _ => Some (Ok x) end)
    /\ replay_at d r' segs' cur_rs' /\ cursor_floor r' = cursor_floor r
    /\ List.filter (wanted r) (cur_rs' ++ log_of segs') = List.tl rem
    /\ (replay_measure r' (cur_rs' ++ log_of segs') <= replay_measure r (cur_rs ++ log_of segs))%nat.
Proof.
  revert r segs cur_rs. induction fuel as [|fuel IH]; intros r segs cur_rs Hr Hf; [lia|]. cbn [replay_next].
  destruct Hr as (Hok & Hd & Hs & Hcur). unfold replay_measure in *.
  destruct (current r) as [rd|] eqn:Ec.
  - pose proof (next_record_spec rd cur_rs Hcur) as Hn. destruct cur_rs as [|x rs].
    + rewrite Hn. cbn [app]. destruct (IH (Replayer (rsegments r) (cursor_floor r) None) segs [])
        as (r' & k & rs' & E & ? & ? & ? & ?); [done|cbn in *; lia|].
      exists r', k, rs'. cbv zeta. rewrite E. do 4 (split; [done|]). cbn in *. lia.
    + destruct Hn as (rd' & -> & Hrd' & _). cbn [app List.filter].
      change (wanted r x) with (negb (rcursor x <? cursor_floor r)).
      assert (Hrepr : replay_at d (Replayer (rsegments r) (cursor_floor r) (Some rd')) segs rs) by done.
      cbn [cursor_floor].
      destruct (rcursor x <? cursor_floor r) eqn:Ex; cbn [negb].
      * destruct (IH _ _ _ Hrepr) as (r' & k & rs' & E & ? & ? & ? & ?); [cbn in *; lia|].
        exists r', k, rs'. cbv zeta. rewrite E. do 4 (split; [done|]). cbn in *. lia.
      * eexists _, 0%nat, rs. split; [reflexivity|]. do 3 (split; [done|]). change (drop 0 segs) with segs. cbn. lia.
  - subst cur_rs. cbn [app] in *. destruct segs as [|sg segs]; rewrite Hs; cbn [map].
    + exists r, 0%nat, []. split; [done|]. split; [by unfold replay_at; rewrite Ec|].
      split; [done|]. split; [done|]. cbn. rewrite Hs, Ec. cbn. lia.
    + apply Forall_cons in Hok as [Hsg Hok]. apply Forall_cons in Hd as [[s Hk] Hd].
      destruct (open_segment _ _ _ _ Hk Hsg) as (rd & -> & Hrd & _).
      destruct (IH (Replayer (map sfirst segs) (cursor_floor r) (Some rd)) segs (srecs sg))
        as (r' & k & rs' & E & ? & ? & ? & ?); [done|rewrite Hs in Hf; rewrite log_of_cons in Hf; cbn in *; lia|].
      exists r', (S k), rs'. cbv zeta. rewrite log_of_cons, E. do 4 (split; [done|]). change (drop (S k) (sg :: segs)) with (drop k segs). cbn in *. lia.
Qed.

Lemma replay_next_spec fuel d r rem :
  replay_repr d r rem -> (replay_measure r rem < fuel)%nat ->
  exists r' rem',
    replay_next fuel r d
    = (d, r', match List.filter (wanted r) rem with [] => None | x :: _ => Some (Ok x) end)
    /\ replay_repr d r' rem' /\ cursor_floor r' = cursor_floor r
    /\ List.filter (wanted r) rem' = List.tl (List.filter (wanted r) rem)
    /\ (replay_measure r' rem' <= replay_measure r rem)%nat.
Proof.
  intros (segs & cur_rs & Hr & ->) Hf. destruct (replay_next_at fuel d r segs cur_rs Hr Hf) as (r' & k & rs' & E & Hr' & H1 & H2 & H3).
  eexists r', _. split; [exact E|]. split; [by eexists _, _|]. done.
Qed.

(** What iterating a replayer to its end yields: the records, and whether it ended cleanly. *)
Fixpoint replay_collect (n fuel : nat) (r : replayer) (d : disk) : list record * bool :=
  match n with
  | O => ([], false)
  | S n =>
      match replay_next fuel r d with
      | (d, r, Some (Ok rec)) => let '(recs, ok) := replay_collect n fuel r d in (rec :: recs, ok)
      | (_, _, Some (Err _)) => ([], false)
      | (_, _, None) => ([], true)
      end
  end.

Lemma replay_collect_spec n fuel d r rem :
  replay_repr d r rem -> (replay_measure r rem < fuel)%nat ->
  (length (List.filter (wanted r) rem) < n)%nat ->
  replay_collect n fuel r d = (List.filter (wanted r) rem, true).
Proof.
  revert r rem. induction n as [|n IH]; intros r rem Hr Hf Hn; [lia|]. cbn [replay_collect].
  destruct (replay_next_spec fuel d r rem Hr Hf) as (r' & rem' & -> & Hr' & Hfl & Htl & Hm).
  assert (Hw : wanted r' = wanted r) by (unfold wanted; by rewrite Hfl).
  destruct (List.filter (wanted r) rem) as [|x xs] eqn:E; [done|]. cbn in *.
  rewrite (IH r' rem') by (rewrite ?Hw, ?Htl; done || lia). by rewrite Hw, Htl.
Qed.

(** [read_from]: the index of a gapless run of segments, read from cursor [c]. *)
Lemma read_from_index_repr d b segs e c :
  chain b segs e -> inner_nonempty segs -> segs <> [] -> Forall seg_ok segs -> disk_holds d segs -> b <= c ->
  exists r rem, read_from_index (index_of segs) c = Ok r /\ replay_repr d r rem
    /\ List.filter (wanted r) rem = zdrop (c - b) (log_of segs)
    /\ (replay_measure r rem <= length (log_of segs) + 2 * length segs)%nat.
Proof.
  intros Hch Hne Hnil Hok Hd Hc. destruct (index_from _ _ _ _ Hch Hne Hnil Hok Hc) as (l1 & l2 & -> & Hfirst & Hv & Hfi).
  unfold read_from_index. rewrite Hfirst. destruct (Z.ltb_spec c b); [lia|]. cbv zeta. rewrite Hv.
  apply Forall_app in Hok as [_ Hok]. apply Forall_app in Hd as [_ Hd].
  exists (Replayer (map sfirst l2) c None), (log_of l2). split; [done|]. split; [by exists l2, []|]. split; [exact Hfi|].
  unfold replay_measure. cbn [rsegments current]. rewrite length_map, log_of_app, !length_app. lia.
Qed.

Lemma read_from_index_spec d b segs e c :
  chain b segs e -> inner_nonempty segs -> segs <> [] -> Forall seg_ok segs -> disk_holds d segs ->
  (c < b -> read_from_index (index_of segs) c = Err (CursorTooOld c b))
  /\ (b <= c -> exists r, read_from_index (index_of segs) c = Ok r
       /\ forall n fuel, (length (log_of segs) + 2 * length segs < fuel)%nat ->
            (length (log_of segs) < n)%nat ->
            replay_collect n fuel r d = (zdrop (c - b) (log_of segs), true)).
Proof.
  intros Hch Hne Hnil Hok Hd. split; intros Hc.
  - assert (Hfirst : om_first (index_of segs) = Some b).
    { destruct segs as [|sg segs]; [done|]. destruct Hch as [<- _]. done. }
    unfold read_from_index. by rewrite Hfirst, (proj2 (Z.ltb_lt _ _) Hc).
  - destruct (read_from_index_repr _ _ _ _ _ Hch Hne Hnil Hok Hd Hc) as (r & rem & E & Hr & Hf & Hm).
    exists r. split; [done|]. intros n fuel Hfuel Hn. rewrite (replay_collect_spec n fuel d r _ Hr).
    + by rewrite Hf.
    + lia.
    + rewrite Hf. unfold zdrop. rewrite length_drop. lia.
Qed.

(** ** Invariant

    [old] are the retired segments, oldest first; [act] is the active one with its writer, the records
    in its file and those still in the buffer.  No call has failed. *)

Record active := Active {
  awriter : segment_writer;
  acreated : Z;
  aflushed : list record;
  abuffered : list record
}.

Definition aseg (a : active) : seg := Seg (wfirst (awriter a)) (acreated a) (aflushed a ++ abuffered a).

Definition segs_of (old : list seg) (act : option active) : list seg :=
  old ++ match act with Some a => [aseg a] | None => [] end.

Definition sizes_of (old : list seg) : omap Z := map (fun sg => (sfirst sg, zlen (seg_file sg))) old.

(** The header and the records below [c] are synced in the file of the segment. *)
Definition seg_synced (d : disk) (sg : seg) (c : Z) : Prop :=
  synced_upto d (sfirst sg)
    (SEGMENT_HEADER_LEN + zlen (enc_all (take (Z.to_nat (c - sfirst sg)) (srecs sg)))).

Definition active_inv (d : disk) (a : active) : Prop :=
  writer_inv d (awriter a) (acreated a) (aflushed a ++ abuffered a)
  /\ aligned d (awriter a) (acreated a) (aflushed a) (abuffered a).

Record wal_inv (d : disk) (w : wal) (old : list seg) (act : option active) : Prop := {
  wv_fate : fate d = [];
  wv_sorted : om_sorted (files d);
  wv_files : forall k, om_lookup k (files d) <> None -> k ∈ map sfirst (segs_of old act);
  wv_ok : Forall seg_ok old;
  wv_nonempty : Forall (fun sg => srecs sg <> []) old;
  wv_disk : Forall (fun sg => om_lookup (sfirst sg) (files d)
                = Some (File (seg_file sg) (zlen (seg_file sg)))) old;
  wv_index : segments w = index_of (segs_of old act);
  wv_sizes : segment_sizes w = sizes_of old;
  wv_retained : retained_bytes w = sum (om_values (sizes_of old));
  wv_chain : exists b, 0 <= b /\ chain b (segs_of old act) (pending_cursor w);
  wv_act : match act with
           | None => writer w = None /\ active_bytes w = 0
           | Some a => writer w = Some (awriter a) /\ active_inv d a
                       /\ active_bytes w = bytes_written (awriter a)
                       /\ seg_synced d (aseg a) (durable_cursor w)
           end;
  wv_durable : 0 <= durable_cursor w <= pending_cursor w;
  wv_pending : 0 <= pending_cursor w < two64;
  wv_clock : is_u64 (clock w)
}.

Lemma segs_of_some old a : segs_of old (Some a) = old ++ [aseg a].
Proof. done. Qed.

Lemma segs_of_none old : segs_of old None = old.
Proof. apply app_nil_r. Qed.

Lemma sizes_insert_last l sg :
  Forall (fun k => k < sfirst sg) (map sfirst l) ->
  om_insert (sfirst sg) (zlen (seg_file sg)) (sizes_of l) = sizes_of (l ++ [sg]).
Proof.
  intros Hl. unfold sizes_of. rewrite map_app. apply om_insert_last.
  unfold om_keys. by rewrite map_map.
Qed.

Lemma sum_app l1 l2 : sum (l1 ++ l2) = sum l1 + sum l2.
Proof. unfold sum. induction l1 as [|x l1 IH]; cbn; lia. Qed.

(** Calls on one file leave the retired segments alone. *)
Lemma old_disk_same k d d' old :
  others_same k d d' -> Forall (fun x => x < k) (map sfirst old) ->
  Forall (fun sg => om_lookup (sfirst sg) (files d) = Some (File (seg_file sg) (zlen (seg_file sg)))) old ->
  Forall (fun sg => om_lookup (sfirst sg) (files d') = Some (File (seg_file sg) (zlen (seg_file sg)))) old.
Proof.
  intros Ho Hk Hold. rewrite Forall_forall in Hk. rewrite Forall_forall in Hold |- *. intros sg Hsg. rewrite Ho; [by apply Hold|].
  assert (sfirst sg < k); [|lia]. apply Hk. apply list_elem_of_fmap. eauto.
Qed.

Lemma files_same k d d' (l : list Z) :
  others_same k d d' -> k ∈ l ->
  (forall x, om_lookup x (files d) <> None -> x ∈ l) ->
  forall x, om_lookup x (files d') <> None -> x ∈ l.
Proof.
  intros Ho Hk Hl x Hx. destruct (decide (x = k)) as [->|Hne]; [done|].
  rewrite Ho in Hx by done. by apply Hl.
Qed.

(** Creating the segment for the pending cursor, after the retired ones. *)
Lemma create_active d w old :
  fate d = [] -> om_sorted (files d) ->
  (forall k, om_lookup k (files d) <> None -> k ∈ map sfirst old) ->
  Forall (fun sg => srecs sg <> []) old ->
  (exists b, 0 <= b /\ chain b old (pending_cursor w)) ->
  0 <= pending_cursor w < two64 -> is_u64 (clock w) -> durable_cursor w <= pending_cursor w ->
  exists d' sw, create (pending_cursor w) (pending_cursor w) (clock w) d = (d', Ok sw)
    /\ let a := Active sw (clock w) [] [] in
       active_inv d' a /\ wfirst sw = pending_cursor w /\ wpending sw = pending_cursor w
       /\ bytes_written sw = SEGMENT_HEADER_LEN
       /\ seg_synced d' (aseg a) (durable_cursor w) /\ fate d' = [] /\ om_sorted (files d')
       /\ others_same (pending_cursor w) d d'.
Proof.
  intros Hf Hso Hfiles Hne (b & Hb & Hch) Hp Hcl Hdur.
  assert (Hnone : om_lookup (pending_cursor w) (files d) = None).
  { destruct (om_lookup (pending_cursor w) (files d)) eqn:E; [|done].
    assert (pending_cursor w ∈ map sfirst old) as Hin by (apply Hfiles; by rewrite E).
    pose proof (chain_fresh _ _ _ Hch Hne) as Hfr. rewrite Forall_forall in Hfr.
    specialize (Hfr _ Hin). cbn in Hfr. lia. }
  destruct (create (pending_cursor w) (pending_cursor w) (clock w) d) as [d' r] eqn:E.
  pose proof (create_sorted (pending_cursor w) (pending_cursor w) (clock w) d Hso) as Hso'.
  rewrite E in Hso'. cbn in Hso'.
  destruct (create_inv _ _ _ _ _ Hp Hcl E) as (Hr & Ho & Hf').
  destruct r as [sw|e]; [|by destruct Hr as [(_ & _ & ?)|?]].
  pose proof (create_aligned _ _ _ _ _ E Hp Hcl) as Hal.
  destruct Hr as (_ & Hinv & Hw & Hpe & Hd & Hbuf).
  exists d', sw. split; [done|]. cbv zeta. split; [done|]. split; [done|]. split; [done|].
  split; [rewrite (wi_count _ _ _ _ Hinv); by rewrite enc_all_nil, zlen_nil, Z.add_0_r|].
  split; [|auto]. unfold seg_synced, aseg. cbn [sfirst srecs awriter aflushed abuffered app].
  rewrite take_nil. destruct (wi_bytes _ _ _ _ Hinv) as (fl & Hk & _ & Hs).
  exists fl. split; [done|]. unfold durable_len in Hs. rewrite take_nil in Hs. lia.
Qed.

(** What the steps of an append leave alone. *)
Definition same_config (w w' : wal) : Prop :=
  cfg w' = cfg w /\ poisoned w' = poisoned w /\ clock w' = clock w.

Definition arecs (act : option active) : list record :=
  match act with Some a => aflushed a ++ abuffered a | None => [] end.

(** How the active segment moves on: the same one with more in its file, or one that starts later. *)
Definition later (a a' : active) : Prop :=
  wfirst (awriter a') = wfirst (awriter a) /\ (length (aflushed a) <= length (aflushed a'))%nat
    /\ (length (arecs (Some a)) <= length (arecs (Some a')))%nat
  \/ wfirst (awriter a) + zlen (arecs (Some a)) <= wfirst (awriter a').

Lemma later_refl a : later a a.
Proof. by left. Qed.

Lemma later_trans a1 a2 a3 : later a1 a2 -> later a2 a3 -> later a1 a3.
Proof.
  unfold later, zlen. intros [(E1 & L1 & R1)|H1] [(E2 & L2 & R2)|H2]; [left|right..]; lia.
Qed.

Lemma log_segs_of old act : log_of (segs_of old act) = log_of old ++ arecs act.
Proof.
  unfold segs_of. rewrite log_of_app. f_equal. destruct act as [a|]; [|done].
  rewrite log_of_cons. apply app_nil_r.
Qed.

Lemma active_first d w old a :
  wal_inv d w old (Some a) ->
  Forall (fun k => k < wfirst (awriter a)) (map sfirst old)
  /\ pending_cursor w = wpending (awriter a)
  /\ pending_cursor w = wfirst (awriter a) + zlen (arecs (Some a)).
Proof.
  intros [_ _ _ _ Hne _ _ _ _ (b & Hb & Hch) (_ & (Hinv & _) & _) _ _ _].
  rewrite segs_of_some in Hch. apply chain_app in Hch as (m & Hch1 & Hch2).
  destruct Hch2 as [Hm Hch2]. cbn in Hm, Hch2. subst m. split; [by eapply chain_fresh|].
  rewrite (wi_pending _ _ _ _ Hinv). cbn. lia.
Qed.

Lemma fresh_wal_inv d w d' old sw segs sizes rb :
  fate d' = [] -> om_sorted (files d') -> others_same (pending_cursor w) d d' ->
  (forall k, om_lookup k (files d) <> None -> k ∈ map sfirst old) ->
  Forall seg_ok old -> Forall (fun sg => srecs sg <> []) old ->
  Forall (fun sg => om_lookup (sfirst sg) (files d) = Some (File (seg_file sg) (zlen (seg_file sg)))) old ->
  segs = index_of old -> sizes = sizes_of old -> rb = sum (om_values (sizes_of old)) ->
  (exists b, 0 <= b /\ chain b old (pending_cursor w)) ->
  0 <= durable_cursor w <= pending_cursor w -> 0 <= pending_cursor w < two64 -> is_u64 (clock w) ->
  let a := Active sw (clock w) [] [] in
  active_inv d' a -> wfirst sw = pending_cursor w -> bytes_written sw = SEGMENT_HEADER_LEN ->
  seg_synced d' (aseg a) (durable_cursor w) ->
  wal_inv d' (with_inner (om_insert (pending_cursor w) (pending_cursor w) segs) sizes (bytes_written sw)
                rb (Some sw) w) old (Some a).
Proof.
  intros Hf Hso Ho Hfiles Hok Hne Hdisk -> -> -> (b & Hb & Hch) Hdur Hp Hcl a Ha Hw Hbw Hsy.
  pose proof (chain_fresh _ _ _ Hch Hne) as Hfr.
  assert (Hin : map sfirst (segs_of old (Some a)) = map sfirst old ++ [pending_cursor w]).
  { rewrite segs_of_some, map_app. cbn. by rewrite Hw. }
  constructor; try done; unfold with_inner; cbn [segments segment_sizes retained_bytes pending_cursor durable_cursor clock writer active_bytes].
  - intros k Hk. rewrite Hin. apply elem_of_app. destruct (decide (k = pending_cursor w)) as [->|Hkne].
    + right. by left.
    + left. apply Hfiles. by rewrite Ho in Hk.
  - by apply (old_disk_same (pending_cursor w) d).
  - rewrite segs_of_some, <- Hw. apply (index_insert_last old (aseg a)). cbn. by rewrite Hw.
  - exists b. split; [done|]. rewrite segs_of_some. apply chain_app. exists (pending_cursor w).
    split; [done|]. cbn. rewrite zlen_nil. split; [done|lia].
Qed.

Lemma ensure_writer_inv d w old act :
  wal_inv d w old act ->
  exists d' w' a, ensure_writer (pending_cursor w) (d, w) = ((d', w'), Ok tt)
    /\ wal_inv d' w' old (Some a) /\ arecs (Some a) = arecs act
    /\ pending_cursor w' = pending_cursor w /\ same_config w w' /\ (forall a0, act = Some a0 -> a = a0).
Proof.
  intros Hinv. pose proof Hinv as [Hf Hso Hfiles Hok Hne Hdisk Hidx Hsz Hrb Hch Hact Hdur Hp Hcl].
  unfold ensure_writer. destruct act as [a|].
  - destruct Hact as (Hw & _). rewrite Hw. exists d, w, a. repeat (split; [done|]). by intros a0 [= ->].
  - destruct Hact as (Hw & _). rewrite Hw. rewrite segs_of_none in *.
    destruct (create_active d w old) as (d' & sw & -> & Ha & Hw1 & Hw2 & Hbw & Hsy & Hf' & Hso' & Ho);
      try done; [lia|]. cbv zeta in Ha.
    eexists d', _, (Active sw (clock w) [] []). split; [reflexivity|].
    split; [|done]. by apply (fresh_wal_inv d).
Qed.

Lemma rotate_inv d w old a :
  wal_inv d w old (Some a) -> arecs (Some a) <> [] ->
  exists d' w' a', rotate_locked (pending_cursor w) (d, w) = ((d', w'), Ok tt)
    /\ wal_inv d' w' (old ++ [aseg a]) (Some a') /\ arecs (Some a') = []
    /\ pending_cursor w' = pending_cursor w /\ same_config w w'
    /\ active_bytes w' = SEGMENT_HEADER_LEN.
Proof.
  intros Hinv Hnn. pose proof (active_first _ _ _ _ Hinv) as (Hfr & Hpe & Hpf).
  pose proof Hinv as [Hf Hso Hfiles Hok Hne Hdisk Hidx Hsz Hrb Hch (Hw & (Hwi & Hal) & Hab & Hsy) Hdur Hp Hcl].
  unfold rotate_locked, bind. rewrite Hw. cbv zeta.
  destruct (close_aligned _ _ _ _ _ Hf Hal) as (d1 & -> & Hk1 & Hf1 & Ho1 & Hso1). cbv iota.
  set (sw := awriter a) in *.
  assert (Hbytes : bytes_written sw = zlen (seg_file (aseg a))).
  { rewrite (wi_count _ _ _ _ Hwi). unfold seg_file, aseg. cbn [sfirst screated srecs].
    by rewrite zlen_app. }
  set (w1 := with_inner (segments (with_writer None w)) _ _ _ None (with_writer None w)).
  assert (Hfiles1 : forall k, om_lookup k (files d1) <> None -> k ∈ map sfirst (old ++ [aseg a])).
  { apply (files_same (wfirst sw) d); [done| |].
    - rewrite map_app. apply elem_of_app. right. by left.
    - intros k Hk. by apply Hfiles in Hk. }
  assert (Hne1 : Forall (fun sg => srecs sg <> []) (old ++ [aseg a])) by (apply Forall_app; auto).
  assert (Hok1 : Forall seg_ok (old ++ [aseg a])).
  { apply Forall_app. split; [done|]. constructor; [|done].
    destruct Hwi as [_ Hcr Hrok Hcons _ _ _ Hfst _]. done. }
  assert (Hdisk1 : Forall (fun sg => om_lookup (sfirst sg) (files d1)
            = Some (File (seg_file sg) (zlen (seg_file sg)))) (old ++ [aseg a])).
  { apply Forall_app. split; [by apply (old_disk_same (wfirst sw) d)|]. constructor; [|done].
    exact Hk1. }
  destruct (create_active d1 w1 (old ++ [aseg a])) as (d2 & sw2 & E & Ha & Hw1 & Hw2 & Hbw & Hsy2 & Hf2 & Hso2 & Ho2);
    try done; [auto|by cbn; lia|].
  change (pending_cursor w1) with (pending_cursor w) in *. change (clock w1) with (clock w) in *. rewrite E.
  eexists d2, _, (Active sw2 (clock w) [] []). split; [reflexivity|]. split; [|done].
  apply (fresh_wal_inv d1 w1); try done; auto.
  - unfold w1. cbn [with_inner with_writer segment_sizes]. rewrite Hsz, Hbytes.
    apply (sizes_insert_last old (aseg a)). done.
  - unfold w1. cbn [with_inner with_writer retained_bytes]. rewrite Hrb, Hbytes.
    unfold sizes_of, om_values. rewrite !map_app, sum_app. cbn. lia.
Qed.

(** The middle of [append]: the writer's append, then the mirrored counters. *)
Definition write_record (cursor ts : Z) (payload : list byte) : M st wal_error unit :=
  do! on_writer (SegmentWriter.append cursor ts payload) in
  fun '(d, w) =>
    match writer w with
    | Some sw => ((d, with_pending (wpending sw)
                        (with_inner (segments w) (segment_sizes w) (bytes_written sw)
                           (retained_bytes w) (writer w) w)), Ok tt)
    | None => ((d, w), Err UnwrapNone)
    end.

Lemma seg_synced_snoc d sw fl bu fl' bu' created r c :
  fl' ++ bu' = (fl ++ bu) ++ [r] -> c <= wfirst sw + zlen (fl ++ bu) ->
  seg_synced d (aseg (Active sw created fl bu)) c ->
  seg_synced d (aseg (Active sw created fl' bu')) c.
Proof.
  intros E Hc. unfold seg_synced, aseg. cbn [sfirst srecs awriter aflushed abuffered]. rewrite E.
  rewrite (take_app_le (fl ++ bu)); [done|]. unfold zlen in *. lia.
Qed.

Lemma write_record_inv d w old a ts p :
  wal_inv d w old (Some a) -> is_u64 ts -> zlen p <= MAX_PAYLOAD_LEN -> pending_cursor w + 1 < two64 ->
  exists d' w' a', write_record (pending_cursor w) ts p (d, w) = ((d', w'), Ok tt)
    /\ wal_inv d' w' old (Some a')
    /\ arecs (Some a') = arecs (Some a) ++ [Record_ (pending_cursor w) ts p]
    /\ pending_cursor w' = pending_cursor w + 1 /\ same_config w w'
    /\ active_bytes w' = active_bytes w + RECORD_FRAMING + zlen p
    /\ durable_cursor w' = durable_cursor w /\ later a a'.
Proof.
  intros Hinv Hts Hp Hmax. pose proof (active_first _ _ _ _ Hinv) as (Hfr & Hpe & Hpf).
  pose proof Hinv as [Hf Hso Hfiles Hok Hne Hdisk Hidx Hsz Hrb (b & Hb & Hch) (Hw & (Hwi & Hal) & Hab & Hsy) Hdur Hpc Hcl].
  unfold write_record, bind, on_writer. rewrite Hw, Hpe.
  destruct (append_aligned d (awriter a) (acreated a) (aflushed a) (abuffered a) ts p Hf Hal Hp)
    as (d' & sw' & fl' & bu' & E & Hal' & Hrecs & Hfst & Hf' & Ho & Hso' & Hsy' & Hle).
  rewrite E. cbn [map_err with_writer with_inner writer].
  destruct (append_inv _ _ _ _ _ _ _ _ _ _ Hwi Hts ltac:(lia) E) as (_ & _ & (_ & _ & Hwi') & _).
  rewrite <- Hrecs in Hwi'.
  pose proof (wi_pending _ _ _ _ Hwi') as Hp'. pose proof (wi_pending _ _ _ _ Hwi) as Hp0.
  rewrite Hrecs, zlen_app, zlen_cons, zlen_nil, Hfst in Hp'.
  assert (Hby : bytes_written sw' = active_bytes w + RECORD_FRAMING + zlen p).
  { rewrite (wi_count _ _ _ _ Hwi'), Hrecs, enc_all_snoc, zlen_app, zlen_enc, Hab, (wi_count _ _ _ _ Hwi).
    unfold encoded_len. cbn [payload]. lia. }
  assert (Hps : wpending sw' = pending_cursor w + 1) by lia.
  eexists d', _, (Active sw' (acreated a) fl' bu'). split; [reflexivity|].
  split; [|split; [exact Hrecs|split; [cbn; lia|split; [done|split; [done|split; [done|]]]]]].
  2:{ left. split; [done|]. split; [done|]. cbn [arecs aflushed abuffered]. rewrite Hrecs, (length_app (aflushed a ++ abuffered a)). lia. }
  constructor; cbn [with_pending with_inner with_writer segments segment_sizes retained_bytes pending_cursor
    durable_cursor clock writer active_bytes]; try done; auto; try lia.
  - intros k Hk. rewrite segs_of_some, map_app in *. cbn [aseg sfirst map awriter] in *. rewrite Hfst.
    eapply files_same; [exact Ho| |exact Hfiles|exact Hk]. apply elem_of_app. right. by left.
  - by apply (old_disk_same (wfirst (awriter a)) d).
  - rewrite Hidx. unfold index_of. rewrite !segs_of_some, !map_app. cbn. by rewrite Hfst.
  - exists b. split; [done|]. rewrite segs_of_some in *. apply chain_app in Hch as (m & Hc1 & Hc2).
    apply chain_app. exists m. split; [done|]. cbn in *. destruct Hc2 as [Hm Hc2].
    rewrite Hfst. split; [done|]. rewrite Hrecs, zlen_app, zlen_cons, zlen_nil. lia.
  - split; [done|]. split; [done|]. split; [done|].
    assert (Hs2 : seg_synced d' (aseg (Active (awriter a) (acreated a) fl' bu')) (durable_cursor w)).
    { eapply seg_synced_snoc; [exact Hrecs|cbn in *; lia|]. unfold seg_synced in *. cbn in *. by apply Hsy'. }
    unfold seg_synced, aseg in *. cbn in *. by rewrite Hfst.
Qed.

Lemma fsync_active_inv d w old a :
  wal_inv d w old (Some a) ->
  exists d' w' a', fsync_active (d, w) = ((d', w'), Ok tt) /\ wal_inv d' w' old (Some a')
    /\ arecs (Some a') = arecs (Some a) /\ abuffered a' = []
    /\ pending_cursor w' = pending_cursor w /\ same_config w w'
    /\ active_bytes w' = active_bytes w /\ durable_cursor w' = pending_cursor w /\ later a a'.
Proof.
  intros Hinv. pose proof (active_first _ _ _ _ Hinv) as (Hfr & Hpe & Hpf).
  pose proof Hinv as [Hf Hso Hfiles Hok Hne Hdisk Hidx Hsz Hrb (b & Hb & Hch) (Hw & (Hwi & Hal) & Hab & Hsy) Hdur Hpc Hcl].
  unfold fsync_active, bind, on_writer. rewrite Hw.
  destruct (fsync_aligned _ _ _ _ _ Hf Hal) as (d' & E & Hk & Hf' & Ho & Hso'). rewrite E. cbn.
  destruct (fsync_inv _ _ _ _ _ _ _ Hwi E) as (Hwi' & _).
  set (sw' := SegmentWriter_ _ _ _ _ _) in *.
  eexists d', _, (Active sw' (acreated a) (aflushed a ++ abuffered a) []). split; [reflexivity|].
  split.
  2:{ split; [cbn; apply app_nil_r|]. do 4 (split; [done|]). split; [cbn; lia|]. left.
      cbn [awriter aflushed abuffered arecs wfirst sw']. rewrite app_nil_r, length_app. lia. }
  constructor; cbn; try done; auto; try lia.
  - assert (map sfirst (segs_of old (Some a)) = map sfirst old ++ [wfirst (awriter a)]) as Hm
      by (by rewrite segs_of_some, map_app).
    intros k Hk'. rewrite segs_of_some, map_app. rewrite Hm in Hfiles.
    eapply files_same; [exact Ho| |exact Hfiles|exact Hk']. apply elem_of_app. right. by left.
  - by apply (old_disk_same (wfirst (awriter a)) d).
  - rewrite Hidx. unfold index_of. by rewrite !segs_of_some, !map_app.
  - exists b. split; [done|]. rewrite segs_of_some in *. apply chain_app in Hch as (m & Hc1 & Hc2).
    apply chain_app. exists m. split; [done|]. cbn in *. rewrite app_nil_r. done.
  - split; [done|]. split; [|split; [done|]].
    + split; [by cbn; rewrite app_nil_r|]. split; [by eexists|done].
    + eexists. split; [exact Hk|]. cbn. rewrite app_nil_r, zlen_app, zlen_encode_segment_header.
      rewrite take_ge; [lia|]. unfold zlen in *. cbn in *. lia.
Qed.

Lemma sum_sizes_nonneg old : 0 <= sum (om_values (sizes_of old)).
Proof.
  induction old as [|x old IH]; [done|]. pose proof (zlen_nonneg (seg_file x)).
  change (sum (om_values (sizes_of (x :: old)))) with (zlen (seg_file x) + sum (om_values (sizes_of old))).
  lia.
Qed.

(** Dropping the oldest retired segment. *)
Lemma drop_oldest_inv d w sg old a :
  wal_inv d w (sg :: old) (Some a) ->
  wal_inv (remove_file (sfirst sg) d)
    (with_inner (om_remove (sfirst sg) (segments w)) (om_remove (sfirst sg) (segment_sizes w))
       (active_bytes w) (saturating_sub (retained_bytes w) (zlen (seg_file sg))) (writer w) w)
    old (Some a)
  /\ saturating_sub (retained_bytes w) (zlen (seg_file sg)) = sum (om_values (sizes_of old)).
Proof.
  intros Hinv. pose proof (active_first _ _ _ _ Hinv) as (Hfr & Hpe & Hpf).
  pose proof Hinv as [Hf Hso Hfiles Hok Hne Hdisk Hidx Hsz Hrb (b & Hb & Hch) (Hw & (Hwi & Hal) & Hab & Hsy) Hdur Hpc Hcl].
  apply Forall_cons in Hok as [Hsg Hok]. apply Forall_cons in Hne as [Hsgne Hne].
  apply Forall_cons in Hdisk as [Hsgd Hdisk]. apply Forall_cons in Hfr as [Hsgfr Hfr].
  destruct Hch as [Hsgb Hch]. cbn in Hsgfr.
  assert (Hrest : Forall (fun k => sfirst sg < k) (map sfirst (segs_of old (Some a)))).
  { apply Forall_forall. intros k Hk. apply list_elem_of_fmap in Hk as (x & -> & Hx).
    pose proof (chain_firsts _ _ _ _ Hch Hx). pose proof (zlen_pos _ Hsgne). cbn in *. lia. }
  assert (Hneq : forall k, k ∈ map sfirst (segs_of old (Some a)) -> sfirst sg <> k).
  { intros k Hk. rewrite Forall_forall in Hrest. specialize (Hrest k Hk). cbn in Hrest. lia. }
  assert (Hsum : saturating_sub (retained_bytes w) (zlen (seg_file sg)) = sum (om_values (sizes_of old))).
  { rewrite Hrb. unfold saturating_sub.
    change (sum (om_values (sizes_of (sg :: old)))) with (zlen (seg_file sg) + sum (om_values (sizes_of old))).
    pose proof (sum_sizes_nonneg old). lia. }
  split; [|done].
  assert (Hlk : forall k, sfirst sg <> k -> om_lookup k (files (remove_file (sfirst sg) d)) = om_lookup k (files d)).
  { intros k Hk. cbn. by apply om_lookup_remove_ne. }
  assert (Hak : sfirst sg <> wfirst (awriter a)) by lia.
  constructor; cbn [with_inner segments segment_sizes retained_bytes pending_cursor durable_cursor clock writer
    active_bytes]; try done.
  - cbn. by apply om_remove_sorted.
  - intros k Hk. destruct (decide (sfirst sg = k)) as [<-|Hkne].
    { cbn in Hk. by rewrite om_lookup_remove in Hk. }
    rewrite Hlk in Hk by done. apply Hfiles in Hk. cbn in Hk. by apply elem_of_cons in Hk as [->|?].
  - rewrite Forall_forall in Hdisk |- *. intros x Hx. rewrite Hlk; [by apply Hdisk|].
    apply Hneq. apply list_elem_of_fmap. exists x. split; [done|]. rewrite segs_of_some. apply elem_of_app. by left.
  - rewrite Hidx. cbn. by rewrite Z.eqb_refl.
  - rewrite Hsz. cbn. by rewrite Z.eqb_refl.
  - exists (b + zlen (srecs sg)). pose proof (zlen_nonneg (srecs sg)). split; [lia|done].
  - split; [done|]. split; [|split; [done|]].
    + split.
      * destruct Hwi as [(fl & Hk & Hd) ? ? ? ? ? ? ? ?]. constructor; try done. exists fl.
        by rewrite Hlk.
      * destruct Hal as [[s Hk] Hbf]. split; [|done]. exists s. by rewrite Hlk.
    + destruct Hsy as (fl & Hk & Hd). exists fl. by rewrite Hlk.
Qed.

Lemma retention_spec fuel d w old a :
  wal_inv d w old (Some a) -> (length old < fuel)%nat ->
  exists dropped kept d' w', old = dropped ++ kept
    /\ enforce_retention fuel (d, w) = (d', w') /\ wal_inv d' w' kept (Some a)
    /\ (retained_bytes w' + active_bytes w' <= retention_bytes (cfg w') \/ kept = [])
    /\ pending_cursor w' = pending_cursor w /\ durable_cursor w' = durable_cursor w
    /\ same_config w w' /\ active_bytes w' = active_bytes w.
Proof.
  revert d w old. induction fuel as [|fuel IH]; intros d w old Hinv Hf; [lia|].
  cbn [enforce_retention]. unfold retention_turn.
  destruct (Z.leb_spec (retained_bytes w + active_bytes w) (retention_bytes (cfg w))) as [Hle|Hgt].
  { exists [], old, d, w. repeat (split; [done|]). split; [by left|]. by repeat split. }
  pose proof (wv_act _ _ _ _ Hinv) as (Hw & _). rewrite Hw. rewrite (wv_index _ _ _ _ Hinv), om_keys_index.
  destruct old as [|sg old].
  { cbn. rewrite Z.eqb_refl. cbn. exists [], [], d, w. repeat (split; [done|]). split; [by right|]. by repeat split. }
  pose proof (active_first _ _ _ _ Hinv) as (Hfr & _). apply Forall_cons in Hfr as [Hsg _]. cbn in Hsg.
  assert (Hfind : List.find (fun k => negb (k =? wfirst (awriter a))) (map sfirst (segs_of (sg :: old) (Some a)))
            = Some (sfirst sg)).
  { cbn. destruct (Z.eqb_spec (sfirst sg) (wfirst (awriter a))); [lia|done]. }
  rewrite Hfind. cbv zeta.
  assert (Hl1 : om_lookup (sfirst sg) (index_of (segs_of (sg :: old) (Some a))) = Some (sfirst sg))
    by (cbn; by rewrite Z.eqb_refl).
  assert (Hl2 : om_lookup (sfirst sg) (segment_sizes w) = Some (zlen (seg_file sg)))
    by (rewrite (wv_sizes _ _ _ _ Hinv); cbn; by rewrite Z.eqb_refl).
  rewrite Hl1, Hl2. destruct (drop_oldest_inv _ _ _ _ _ Hinv) as [Hinv' _].
  rewrite Hw, (wv_index _ _ _ _ Hinv) in Hinv'.
  destruct (IH _ _ _ Hinv' ltac:(cbn in *; lia)) as (dr & kept & d' & w' & -> & E & Hi & Hb & Hp & Hd & Hc & Ha).
  exists (sg :: dr), kept, d', w'. split; [done|]. split; [exact E|]. split; [done|]. split; [done|].
  by repeat split; try apply Hc.
Qed.

(** Where [append] accepts a record. *)
Record append_ok (w : wal) (ts : Z) (p : list byte) : Prop := {
  ao_enabled : enabled (cfg w) = true;
  ao_poisoned : poisoned w = false;
  ao_ts : is_u64 ts;
  ao_payload : zlen p <= MAX_PAYLOAD_LEN;
  ao_fits : SEGMENT_HEADER_LEN + RECORD_FRAMING + zlen p <= segment_size_max (cfg w);
  ao_cursor : pending_cursor w + 1 < two64
}.

(** Rotation before the record, when it is due. *)
Lemma maybe_rotate_inv d w old a n :
  wal_inv d w old (Some a) -> SEGMENT_HEADER_LEN + n <= segment_size_max (cfg w) ->
  exists d' w' old' a',
    (if segment_size_max (cfg w) <? active_bytes w + n then rotate_locked (pending_cursor w) (d, w)
     else ((d, w), Ok tt)) = ((d', w'), Ok tt)
    /\ wal_inv d' w' old' (Some a')
    /\ log_of old' ++ arecs (Some a') = log_of old ++ arecs (Some a)
    /\ (old' = old /\ a' = a \/ old' = old ++ [aseg a] /\ arecs (Some a') = [])
    /\ pending_cursor w' = pending_cursor w /\ same_config w w'
    /\ active_bytes w' + n <= segment_size_max (cfg w) /\ later a a'.
Proof.
  intros Hinv Hn. destruct (Z.ltb_spec (segment_size_max (cfg w)) (active_bytes w + n)) as [Hlt|Hge].
  - destruct (wv_act _ _ _ _ Hinv) as (_ & (Hwi & _) & Hab & _).
    assert (Hne : arecs (Some a) <> []).
    { intros E. cbn in E. rewrite Hab, (wi_count _ _ _ _ Hwi), E, enc_all_nil, zlen_nil in Hlt. lia. }
    destruct (rotate_inv _ _ _ _ Hinv Hne) as (d' & w' & a' & E & Hinv' & Hr & Hp & Hc & Hb).
    exists d', w', (old ++ [aseg a]), a'. split; [done|]. split; [done|]. split.
    { rewrite Hr, app_nil_r, log_of_app. f_equal. rewrite log_of_cons. apply app_nil_r. }
    split; [by right|]. split; [done|]. split; [done|]. split; [rewrite Hb; lia|].
    right. pose proof (active_first _ _ _ _ Hinv) as (_ & _ & Hpf).
    pose proof (active_first _ _ _ _ Hinv') as (_ & _ & Hpf'). rewrite Hr, zlen_nil in Hpf'. lia.
  - exists d, w, old, a. repeat (split; [done|]). split; [by left|].
    split; [done|]. split; [by repeat split|]. split; [done|apply later_refl].
Qed.

(** The bytes of all segments are what retention counts. *)
Definition total (segs : list seg) : Z := sum (map (fun sg => zlen (seg_file sg)) segs).

Lemma total_app l1 l2 : total (l1 ++ l2) = total l1 + total l2.
Proof. unfold total. by rewrite map_app, sum_app. Qed.

Lemma total_one sg : total [sg] = zlen (seg_file sg).
Proof. unfold total. cbn [map sum foldr]. lia. Qed.

Lemma zlen_seg_file sg : zlen (seg_file sg) = SEGMENT_HEADER_LEN + zlen (enc_all (srecs sg)).
Proof. unfold seg_file. by rewrite zlen_app, zlen_encode_segment_header. Qed.

Lemma wal_inv_bytes d w old act : wal_inv d w old act -> retained_bytes w + active_bytes w = total (segs_of old act).
Proof.
  intros [_ _ _ _ _ _ _ _ Hrb _ Hact _ _ _]. unfold segs_of. rewrite Hrb, total_app. unfold sizes_of, om_values. rewrite map_map. cbn [snd].
  fold (total old). f_equal. destruct act as [a|]; [|by destruct Hact as [_ ->]].
  destruct Hact as (_ & (Hwi & _) & -> & _). rewrite (wi_count _ _ _ _ Hwi). rewrite total_one, zlen_seg_file. done.
Qed.

Lemma grown_total r segs segs' : grown r segs segs' -> total segs' <= total segs + SEGMENT_HEADER_LEN + encoded_len r.
Proof.
  intros [(l & sg & sg' & -> & -> & _ & E)|(sg' & -> & E)]; rewrite !total_app, ?total_one, !zlen_seg_file, E.
  - rewrite enc_all_snoc, zlen_app, zlen_enc. unfold SEGMENT_HEADER_LEN. lia.
  - rewrite enc_all_cons, enc_all_nil, app_nil_r, zlen_enc. lia.
Qed.

(** [append] on a well-formed log: it succeeds, and whole old segments may be dropped by retention. *)
Lemma append_spec d w old act ts p :
  wal_inv d w old act -> append_ok w ts p ->
  exists d' w' old' a' dropped,
    append (pending_cursor w) ts p (d, w) = ((d', w'), Ok tt)
    /\ wal_inv d' w' old' (Some a')
    /\ dropped ++ log_of (segs_of old' (Some a'))
       = log_of (segs_of old act) ++ [Record_ (pending_cursor w) ts p]
    /\ pending_cursor w' = pending_cursor w + 1
    /\ active_bytes w' <= segment_size_max (cfg w)
    /\ (retained_bytes w' + active_bytes w' <= retention_bytes (cfg w) \/ old' = [])
    /\ (policy (cfg w) = Each -> durable_cursor w' = pending_cursor w')
    /\ cfg w' = cfg w /\ poisoned w' = false /\ (forall a, act = Some a -> later a a')
    /\ (policy (cfg w) = Each -> abuffered a' = [])
    /\ exists dr, dropped = log_of dr /\ grown (Record_ (pending_cursor w) ts p) (segs_of old act) (dr ++ segs_of old' (Some a'))
         /\ (total (dr ++ segs_of old' (Some a')) <= retention_bytes (cfg w) -> dr = []).
Proof.
  intros Hinv [Hen Hpo Hts Hpay Hfit Hmax]. unfold append. cbn [snd]. rewrite Hen, Hpo. cbn [negb].
  destruct (Z.ltb_spec MAX_PAYLOAD_LEN (zlen p)); [lia|].
  destruct (ensure_writer_inv _ _ _ _ Hinv) as (d1 & w1 & a1 & E1 & Hi1 & Hr1 & Hp1 & (Hc1 & Hpo1 & Hk1) & Ha1).
  step_ok E1. rewrite <- Hp1.
  destruct (maybe_rotate_inv _ _ _ _ (RECORD_FRAMING + zlen p) Hi1 ltac:(rewrite Hc1; lia))
    as (d2 & w2 & old2 & a2 & E2 & Hi2 & Hr2 & Hnew & Hp2 & (Hc2 & Hpo2 & Hk2) & Hb2 & Hl2).
  step_ok E2. rewrite <- Hp2.
  destruct (write_record_inv _ _ _ _ ts p Hi2 Hts Hpay ltac:(lia))
    as (d3 & w3 & a3 & E3 & Hi3 & Hr3 & Hp3 & (Hc3 & Hpo3 & Hk3) & Hb3 & Hd3 & Hl3).
  rewrite bind_assoc. step_ok E3. rewrite bind_modify. cbv beta iota zeta.
  set (w4 := count_append (zlen p) w3).
  assert (Hi4 : wal_inv d3 w4 old2 (Some a3)) by (destruct Hi3; by constructor).
  assert (exists d5 w5 a5, (if decide (policy (cfg w) = Each) then fsync_active else ret tt) (d3, w4)
            = ((d5, w5), @Ok wal_error unit tt)
          /\ wal_inv d5 w5 old2 (Some a5) /\ arecs (Some a5) = arecs (Some a3)
          /\ pending_cursor w5 = pending_cursor w4 /\ same_config w4 w5 /\ active_bytes w5 = active_bytes w4
          /\ (policy (cfg w) = Each -> durable_cursor w5 = pending_cursor w5) /\ later a3 a5
          /\ (policy (cfg w) = Each -> abuffered a5 = []))
    as (d5 & w5 & a5 & E5 & Hi5 & Hr5 & Hp5 & (Hc5 & Hpo5 & Hk5) & Hb5 & Hd5 & Hl5 & Hbu5).
  { destruct (decide (policy (cfg w) = Each)).
    - destruct (fsync_active_inv _ _ _ _ Hi4) as (d5 & w5 & a5 & -> & Hi5 & Hr5 & Hbu5 & Hp5 & Hc5 & Hb5 & Hd5 & Hl5).
      exists d5, w5, a5. rewrite Hp5. by repeat (split; [done|]).
    - exists d3, w4, a3. repeat (split; [done|]). split; [apply later_refl|done]. }
  step_ok E5. cbn [snd]. unfold enforce_retention_locked.
  change (cfg w4) with (cfg w3) in Hc5. change (poisoned w4) with (poisoned w3) in Hpo5.
  change (pending_cursor w4) with (pending_cursor w3) in Hp5. change (active_bytes w4) with (active_bytes w3) in Hb5.
  assert (Hlat : forall a, act = Some a -> later a a5).
  { intros a Ha. rewrite <- (Ha1 _ Ha). eauto using later_trans. }
  assert (Hlog : log_of (segs_of old2 (Some a5)) = log_of (segs_of old act) ++ [Record_ (pending_cursor w2) ts p]).
  { rewrite !log_segs_of, Hr5, Hr3, app_assoc, Hr2, Hr1. done. }
  assert (Hgr : grown (Record_ (pending_cursor w2) ts p) (segs_of old act) (segs_of old2 (Some a5))).
  { pose proof (active_first _ _ _ _ Hi2) as (_ & _ & Hpf2). pose proof (active_first _ _ _ _ Hi5) as (_ & _ & Hpf5).
    rewrite Hr5, Hr3, zlen_app, zlen_cons, zlen_nil in Hpf5.
    assert (Hfst : wfirst (awriter a5) = wfirst (awriter a2)) by lia.
    assert (Hrs : srecs (aseg a5) = arecs (Some a2) ++ [Record_ (pending_cursor w2) ts p]) by (by change (srecs (aseg a5)) with (arecs (Some a5)); rewrite Hr5, Hr3).
    rewrite segs_of_some. destruct Hnew as [[-> ->]|[-> Hnil]].
    - destruct act as [a|].
      + left. rewrite <- (Ha1 _ eq_refl), segs_of_some. by exists old, (aseg a1), (aseg a5).
      + right. rewrite segs_of_none. exists (aseg a5). split; [done|]. rewrite Hrs, Hr1. done.
    - assert (Hact : act = Some a1).
      { destruct act as [a|]; [by rewrite (Ha1 _ eq_refl)|]. exfalso. pose proof (wv_nonempty _ _ _ _ Hi2) as Hne.
        apply Forall_app in Hne as [_ Hne]. apply Forall_cons in Hne as [Hne _]. by apply Hne. }
      right. rewrite Hact, segs_of_some. exists (aseg a5). split; [done|]. rewrite Hrs, Hnil. done. }
  destruct (Z.ltb_spec (retention_bytes (cfg w5)) (retained_bytes w5 + active_bytes w5)) as [Hover|Hunder].
  - destruct (retention_spec (S (length (segments w5))) _ _ _ _ Hi5)
      as (dr & kept & d6 & w6 & -> & E6 & Hi6 & Hb6 & Hp6 & Hd6 & (Hc6 & Hpo6 & Hk6) & Ha6).
    { rewrite (wv_index _ _ _ _ Hi5). unfold index_of. rewrite length_map, segs_of_some, length_app. lia. }
    cbn [snd]. exists d6, w6, kept, a5, (log_of dr). rewrite E6. split; [done|]. split; [done|].
    split; [rewrite <- Hlog, !log_segs_of, log_of_app; by rewrite app_assoc|].
    split; [lia|]. split; [rewrite Hc1 in *; lia|].
    split; [by replace (cfg w) with (cfg w6) by congruence|].
    split; [intros Hea; rewrite Hd6, Hp6; auto|]. split; [congruence|]. split; [congruence|]. split; [done|]. split; [done|].
    exists dr. split; [done|]. unfold segs_of at 2 3. rewrite app_assoc. split; [exact Hgr|].
    rewrite (wal_inv_bytes _ _ _ _ Hi5) in Hover. unfold segs_of in Hover. replace (cfg w) with (cfg w5) by congruence. lia.
  - exists d5, w5, old2, a5, []. split; [done|]. split; [done|]. split; [done|].
    split; [lia|]. split; [rewrite Hc1 in *; lia|]. split; [left; congruence || (rewrite Hc5, Hc3, Hc2, Hc1 in Hunder; done)|].
    split; [done|]. split; [congruence|]. split; [congruence|]. split; [done|]. split; [done|]. by exists [].
Qed.
End wal.
