(* ===== verification/WalRecovery.v ===== *)
(** * Recovery of the write-ahead log ([crates/mmbus/src/wal/wal.rs])

    What [Wal::open] makes of a directory left by a crash or a clean stop, and what a replay of the
    reopened log yields. *)

From Stdlib Require Import ZArith Lia Strings.Byte.
From stdpp Require Import base option sorting gmap list.
From S2P Require Import Prelude OrdMap Chain Disk Record SegmentReader SegmentWriter Config WalV1.

Section recovery.
Context `{Crc}.

(** ** One pass over the directory *)

(** A segment file: its intact records, then bytes that are no record, all on stable storage. *)
Definition settled (d : disk) (x : seg * list byte) : Prop :=
  om_lookup (sfirst x.1) (files d)
  = Some (File (seg_file x.1 ++ x.2) (zlen (seg_file x.1 ++ x.2))).

Definition clean (d : disk) (sg : seg) : Prop :=
  om_lookup (sfirst sg) (files d) = Some (File (seg_file sg) (zlen (seg_file sg))).

Lemma recover_truncate_sorted k d : om_sorted (files d) -> om_sorted (files (recover_truncate k d).1).
Proof.
  intros Hs. unfold recover_truncate, bind, SegmentReader.open, open_read, lift.
  repeat (dgoal; minv; cbn [fst]; try done).
  all: try (injection E as <- <-); try done.
  all: repeat match goal with
       | E : set_len ?k ?n ?d = _ |- _ => pose proof (set_len_sorted k n d); rewrite E in *; clear E
       | E : sync ?k ?d = _ |- _ => pose proof (sync_sorted k d); rewrite E in *; clear E
       end; cbn in *; auto.
Qed.

Lemma recover_settled d sg junk :
  seg_ok sg -> no_record junk -> fate d = [] -> om_sorted (files d) -> settled d (sg, junk) ->
  exists d' rep, recover_truncate (sfirst sg) d = (d', Ok rep) /\ fate d' = [] /\ om_sorted (files d')
    /\ clean d' sg /\ others_same (sfirst sg) d d'.
Proof.
  intros (Hf & Hc & Hok & _) Hno Hfate Hso Hk. unfold settled in Hk. cbn [fst snd] in Hk.
  assert (Hsb : seg_bytes (seg_file sg ++ junk) (SegmentHeader (sfirst sg) (screated sg)) (srecs sg) junk).
  { unfold seg_file. rewrite <- app_assoc. by apply seg_bytes_written. }
  destruct (recover_truncate_run _ _ _ _ _ _ Hk Hsb Hno Hfate) as (d' & Hr & Hf' & (s & Hs & _ & Hsy) & Ho).
  pose proof (recover_truncate_sorted (sfirst sg) d Hso) as Hso'. rewrite Hr in Hso'.
  exists d', (RecoveryReport (SEGMENT_HEADER_LEN + zlen (enc_all (srecs sg))) (zlen junk)
                (last_cursor_of None (srecs sg))).
  split; [done|]. split; [done|]. split; [done|]. split; [|done].
  unfold clean. rewrite Hs, (Hsy eq_refl). cbn [fdata]. unfold seg_file at 1. rewrite <- app_assoc, take_header.
  unfold seg_file. by rewrite zlen_app, zlen_encode_segment_header.
Qed.

Lemma scan_dir_spec xs l d :
  Forall (fun x => seg_ok x.1 /\ no_record x.2) xs -> Forall (settled d) xs ->
  om_sorted (index_of (l ++ map fst xs)) -> fate d = [] -> om_sorted (files d) ->
  exists d', scan_dir (map (fun x => sfirst x.1) xs) (index_of l) (sizes_of l) d
             = (d', Ok (index_of (l ++ map fst xs), sizes_of (l ++ map fst xs)))
    /\ fate d' = [] /\ om_sorted (files d') /\ Forall (clean d') (map fst xs)
    /\ (forall k, k ∉ map (fun x => sfirst x.1) xs -> om_lookup k (files d') = om_lookup k (files d)).
Proof.
  revert l d. induction xs as [|[sg junk] xs IH]; intros l d Hok Hse Hso Hf Hfs; cbn [map scan_dir fst].
  { exists d. rewrite app_nil_r. by repeat split. }
  apply Forall_cons in Hok as [[Hsg Hno] Hok]. apply Forall_cons in Hse as [Hk Hse]. cbn [fst snd map] in *.
  destruct (recover_settled d sg junk Hsg Hno Hf Hfs Hk) as (d1 & rep & -> & Hf1 & Hs1 & Hcl & Ho1).
  rewrite Hcl. cbn [fdata].
  assert (Hl : Forall (fun k => k < sfirst sg) (map sfirst l)).
  { rewrite <- om_keys_index. apply Forall_forall. intros k Hin. unfold om_sorted in Hso.
    rewrite index_of_app in Hso. unfold om_keys in Hso. rewrite map_app in Hso.
    eapply (StronglySorted_app_1_elem_of Z.lt); [exact Hso|exact Hin|]. cbn. by left. }
  rewrite (index_insert_last l sg Hl), (sizes_insert_last l sg Hl).
  assert (Hne : sfirst sg ∉ map (fun x => sfirst x.1) xs).
  { rewrite index_of_app in Hso. unfold om_sorted, om_keys in Hso. rewrite map_app in Hso.
    apply StronglySorted_app_1_r in Hso. cbn in Hso. apply StronglySorted_inv in Hso as [_ Hlt].
    rewrite Forall_forall in Hlt. intros Hin. enough (sfirst sg < sfirst sg) by lia. apply Hlt.
    unfold index_of. rewrite !map_map. done. }
  assert (Hse1 : Forall (settled d1) xs).
  { rewrite Forall_forall in Hse |- *. intros x Hx. unfold settled. rewrite Ho1; [by apply Hse|].
    intros E. apply Hne. rewrite <- E. apply list_elem_of_fmap. eauto. }
  destruct (IH (l ++ [sg]) d1 Hok Hse1) as (d' & E & Hf' & Hs' & Hc' & Ho'); try done.
  { by rewrite <- app_assoc. }
  exists d'. rewrite E, <- !app_assoc. split; [done|]. split; [done|]. split; [done|]. split.
  - constructor; [|done]. unfold clean. rewrite Ho' by done. exact Hcl.
  - intros k Hk'. apply not_elem_of_cons in Hk' as [Hk1 Hk2]. rewrite Ho' by done. by apply Ho1.
Qed.

(** ** [Wal::open] *)

(** The directory that [open] finds: a gapless run of segments, each a header, intact records and
    bytes that are no record. *)
Record settled_dir (d : disk) (b : Z) (xs : list (seg * list byte)) (e : Z) : Prop := {
  sd_fate : fate d = [];
  sd_sorted : om_sorted (files d);
  sd_files : om_keys (files d) = map (fun x => sfirst x.1) xs;
  sd_settled : Forall (settled d) xs;
  sd_ok : Forall (fun x => seg_ok x.1 /\ no_record x.2) xs;
  sd_chain : chain b (map fst xs) e;
  sd_inner : inner_nonempty (map fst xs);
  sd_range : 0 <= b /\ e < two64
}.

Lemma last_cursor_of_consecutive c rs x :
  consecutive c (rs ++ [x]) -> last_cursor_of None (rs ++ [x]) = Some (c + zlen rs).
Proof.
  intros Hc. unfold last_cursor_of. rewrite last_snoc.
  rewrite (Hc (length rs) x); [done|]. by apply list_lookup_middle.
Qed.

Lemma scan_fuel_enough rd sg : file_bytes rd = seg_file sg -> (length (srecs sg) < scan_fuel (file_bytes rd))%nat.
Proof.
  intros ->. unfold scan_fuel, seg_file. rewrite length_app. pose proof (enc_all_length (srecs sg)). lia.
Qed.

(** The last record of a clean segment, as [open] reads it. *)
Lemma last_cursor_clean d sg rs x :
  clean d sg -> seg_ok sg -> srecs sg = rs ++ [x] ->
  exists rd, SegmentReader.open (sfirst sg) d = (d, Ok rd)
    /\ last_record_cursor (scan_fuel (file_bytes rd)) rd None = Some (sfirst sg + zlen rs).
Proof.
  intros Hcl Hok E. destruct (open_segment _ _ _ _ Hcl Hok) as (rd & Ho & Hrd & Hb).
  exists rd. split; [done|]. rewrite (last_record_cursor_spec _ _ _ _ Hrd) by (by apply scan_fuel_enough).
  destruct Hok as (_ & _ & _ & Hc). rewrite E in *. by apply last_cursor_of_consecutive.
Qed.

Lemma last_cursor_empty d sg :
  clean d sg -> seg_ok sg -> srecs sg = [] ->
  exists rd, SegmentReader.open (sfirst sg) d = (d, Ok rd)
    /\ last_record_cursor (scan_fuel (file_bytes rd)) rd None = None.
Proof.
  intros Hcl Hok E. destruct (open_segment _ _ _ _ Hcl Hok) as (rd & Ho & Hrd & Hb).
  exists rd. split; [done|]. rewrite (last_record_cursor_spec _ _ _ _ Hrd) by (by apply scan_fuel_enough).
  by rewrite E.
Qed.

Lemma om_remove_last {V} k (v : V) (m : omap V) :
  Forall (fun x => x < k) (om_keys m) -> om_remove k (m ++ [(k, v)]) = m.
Proof.
  induction m as [|[k' v'] m IH]; cbn; intros Hm; [by rewrite Z.eqb_refl|].
  apply Forall_cons in Hm as [Hk Hm]. destruct (Z.eqb_spec k k'); [cbn in Hk; lia|]. by rewrite IH.
Qed.

Lemma settled_scan d b xs e :
  settled_dir d b xs e ->
  exists d', scan_dir (om_keys (files d)) [] [] d
      = (d', Ok (index_of (map fst xs), sizes_of (map fst xs)))
    /\ fate d' = [] /\ om_sorted (files d') /\ Forall (clean d') (map fst xs)
    /\ Forall seg_ok (map fst xs)
    /\ (forall k, om_lookup k (files d') <> None -> k ∈ map sfirst (map fst xs)).
Proof.
  intros [Hf Hso Hfi Hse Hok Hch Hin _].
  destruct (scan_dir_spec xs [] d Hok Hse) as (d' & E & Hf' & Hs' & Hc' & Ho'); try done.
  { cbn [app]. by eapply chain_sorted. }
  exists d'. rewrite Hfi. split; [exact E|]. split; [done|]. split; [done|]. split; [done|]. split.
  - apply List.Forall_map. eapply Forall_impl; [exact Hok|]. by intros x [? _].
  - intros k Hk. rewrite map_map. destruct (decide (k ∈ map (fun x => sfirst x.1) xs)) as [|Hn]; [done|].
    rewrite Ho' in Hk by done. rewrite om_lookup_not_in in Hk; [done|]. by rewrite Hfi.
Qed.

(** The size of the new segment is taken out of the retired ones again. *)
Lemma drop_active_size l e n :
  Forall (fun k => k < e) (map sfirst l) -> 0 < n ->
  match om_last (om_insert e e (index_of l)) with
  | Some (k, _) => if 0 <? n then om_remove k (om_insert e n (sizes_of l)) else om_insert e n (sizes_of l)
  | None => om_insert e n (sizes_of l)
  end = sizes_of l.
Proof.
  intros Hl Hn. rewrite om_insert_last by (by rewrite om_keys_index). unfold om_last. rewrite last_snoc.
  destruct (Z.ltb_spec 0 n); [|lia].
  assert (Hk : Forall (fun k => k < e) (om_keys (sizes_of l))) by (unfold om_keys, sizes_of; by rewrite map_map).
  rewrite om_insert_last by done. by apply om_remove_last.
Qed.

(** The state [open] builds before any append. *)
Definition reopened (c : wal_config) (segs : omap Z) (sizes : omap Z) (ab : Z) (wr : option segment_writer)
    (p now : Z) : wal :=
  Wal c segs sizes ab (sum (om_values sizes)) wr p p false 0 0 0 now.

Lemma open_empty c now d :
  fate d = [] -> files d = [] -> is_u64 now ->
  open c now d = (d, Ok (reopened c [] [] 0 None 0 now)) /\ wal_inv d (reopened c [] [] 0 None 0 now) [] None.
Proof.
  intros Hf Hfi Hn. unfold open. rewrite Hfi. split; [done|].
  constructor; cbn; rewrite ?Hfi; try done; try apply om_sorted_nil.
  by exists 0.
Qed.

Lemma open_nonempty c now d b xs e :
  settled_dir d b xs e -> xs <> [] -> Forall (fun sg => srecs sg <> []) (map fst xs) -> is_u64 now ->
  exists d' w a, open c now d = (d', Ok w) /\ wal_inv d' w (map fst xs) (Some a)
    /\ arecs (Some a) = [] /\ pending_cursor w = e /\ durable_cursor w = e
    /\ cfg w = c /\ poisoned w = false /\ clock w = now.
Proof.
  intros Hd Hxs Hne Hnow. destruct (settled_scan _ _ _ _ Hd) as (d1 & E1 & Hf1 & Hs1 & Hcl & Hok & Hfi).
  destruct Hd as [_ _ _ _ _ Hch _ [Hb He]].
  destruct (destruct_list_end (map fst xs)) as [Em|(old & sg & Em)]; [by apply map_eq_nil in Em|].
  rewrite Em in *. clear Em.
  pose proof Hch as Hch'. apply chain_app in Hch' as (m & Hch1 & Hm & He'). cbn in Hm, He'. subst m.
  apply Forall_app in Hne as Hne'. destruct Hne' as [_ Hsgne]. apply Forall_cons in Hsgne as [Hsgne _].
  apply Forall_app in Hcl as Hcl'. destruct Hcl' as [_ Hsgcl]. apply Forall_cons in Hsgcl as [Hsgcl _].
  apply Forall_app in Hok as Hok'. destruct Hok' as [_ Hsgok]. apply Forall_cons in Hsgok as [Hsgok _].
  destruct (destruct_list_end (srecs sg)) as [?|(rs & x & Hrs)]; [done|].
  destruct (last_cursor_clean d1 sg rs x Hsgcl Hsgok Hrs) as (rd & Ho & Hlast).
  set (w0 := reopened c [] [] 0 None e now).
  assert (Hp0 : 0 <= e < two64) by (apply chain_mono in Hch; lia).
  destruct (create_active d1 w0 (old ++ [sg])) as (d2 & sw & E2 & Ha & Hw1 & Hw2 & Hbw & Hsy & Hf2 & Hs2 & Ho2);
    try done; [by exists b|].
  change (pending_cursor w0) with e in *. change (clock w0) with now in *. cbv zeta in Ha.
  pose proof (fresh_wal_inv d1 w0 d2 (old ++ [sg]) sw (index_of (old ++ [sg])) (sizes_of (old ++ [sg])) _
    Hf2 Hs2 Ho2 Hfi Hok Hne Hcl eq_refl eq_refl eq_refl (ex_intro _ b (conj Hb Hch))
    ltac:(cbn; lia) Hp0 Hnow Ha Hw1 Hbw Hsy) as Hinv.
  pose proof (chain_fresh _ _ _ Hch Hne) as Hfr.
  exists d2, (reopened c (om_insert e e (index_of (old ++ [sg]))) (sizes_of (old ++ [sg])) (bytes_written sw)
           (Some sw) e now), (Active sw now [] []).
  split; [|done]. unfold open. step_ok E1. unfold open_active. rewrite om_last_index.
  assert (Hnext : wrap64 (sfirst sg + zlen rs + 1) = e).
  { rewrite Hrs, zlen_app, zlen_cons, zlen_nil in He'. rewrite wrap64_small; lia. }
  assert (Hlt : sfirst sg < e).
  { pose proof (zlen_pos _ Hsgne). lia. }
  unfold bind at 1. rewrite Ho. cbv beta iota zeta. rewrite Hlast. cbv beta iota zeta. rewrite Hnext.
  destruct (Z.eqb_spec e (sfirst sg)); [lia|]. rewrite E2. cbv beta iota zeta.
  rewrite (drop_active_size _ _ _ Hfr) by (rewrite Hbw; done). done.
Qed.

(** ** Replay of a log in service *)

(** The segments as their files hold them: the active one without its buffered records. *)
Definition flushed_seg (a : active) : seg := Seg (wfirst (awriter a)) (acreated a) (aflushed a).

Lemma inner_nonempty_snoc l sg : Forall (fun sg => srecs sg <> []) l -> inner_nonempty (l ++ [sg]).
Proof.
  induction l as [|x l IH]; intros Hl; [done|]. apply Forall_cons in Hl as [Hx Hl].
  destruct l as [|y l]; [done|]. split; [done|]. by apply IH.
Qed.

(** What a replay yields, whatever fuel beyond the bound it is given. *)
Definition replays (d : disk) (r : replayer) (rs : list record) (bound : nat) : Prop :=
  forall n fuel, (bound < n)%nat -> (bound < fuel)%nat -> replay_collect n fuel r d = (rs, true).

Definition replay_bound (segs : list seg) : nat := length (log_of segs) + 2 * length segs.

Lemma read_index_replays d b segs e c :
  chain b segs e -> inner_nonempty segs -> segs <> [] -> Forall seg_ok segs -> disk_holds d segs ->
  b <= c -> exists r, read_from_index (index_of segs) c = Ok r
    /\ replays d r (zdrop (c - b) (log_of segs)) (replay_bound segs).
Proof.
  intros Hch Hne Hnil Hok Hd Hc.
  destruct (read_from_index_spec d b segs e c Hch Hne Hnil Hok Hd) as [_ Hr].
  destruct (Hr Hc) as (r & E & Hr'). exists r. split; [done|]. intros n fuel Hn Hf. unfold replay_bound in *.
  apply Hr'; lia.
Qed.

Lemma wal_inv_flushed d w old a :
  wal_inv d w old (Some a) ->
  let segs := old ++ [flushed_seg a] in
  segments w = index_of segs /\ inner_nonempty segs /\ Forall seg_ok segs /\ disk_holds d segs
  /\ exists b, 0 <= b /\ chain b segs (wfirst (awriter a) + zlen (aflushed a))
     /\ chain b (segs_of old (Some a)) (pending_cursor w).
Proof.
  intros Hinv segs. pose proof (active_first _ _ _ _ Hinv) as (Hfr & Hpe & Hpf).
  destruct Hinv as [_ _ _ Hok Hne Hdisk Hidx _ _ (b & Hb & Hch) (_ & (Hwi & [(s & Hk) _]) & _) _ _ _].
  split; [rewrite Hidx; unfold segs, index_of; by rewrite segs_of_some, !map_app|].
  split; [by apply inner_nonempty_snoc|]. split; [|split].
  - apply Forall_app. split; [done|]. constructor; [|done].
    destruct Hwi as [_ Hcr Hrok Hcons _ _ _ Hfst _]. apply Forall_app in Hrok as [Hrok _].
    apply consecutive_app in Hcons as [Hcons _]. done.
  - apply Forall_app. split; [|constructor; [by exists s|done]].
    eapply Forall_impl; [exact Hdisk|]. intros sg Hsg. eexists; exact Hsg.
  - exists b. split; [done|]. split; [|done]. rewrite segs_of_some in Hch.
    apply chain_app in Hch as (m & Hch1 & Hm & _). apply chain_app. exists m. split; [done|].
    cbn in Hm |- *. by subst m.
Qed.

(** ** A log that can no longer be appended to *)

(** The file of the next segment exists already and there is no writer for it. *)
Definition stuck (s : st) : Prop :=
  enabled (cfg s.2) = true /\ poisoned s.2 = false /\ writer s.2 = None
  /\ om_lookup (pending_cursor s.2) (files s.1) <> None.

Lemma create_exists k first now d :
  om_lookup k (files d) <> None -> create k first now d = (d, Err (WIo AlreadyExists)).
Proof.
  intros Hk. unfold create, create_new. by destruct (om_lookup k (files d)).
Qed.

Lemma stuck_append s ts p :
  stuck s -> zlen p <= MAX_PAYLOAD_LEN ->
  append (pending_cursor s.2) ts p s = (s, Err (EWriter (WIo AlreadyExists))).
Proof.
  destruct s as [d w]. intros (Hen & Hpo & Hw & Hk) Hp. cbn [fst snd] in *. unfold append. cbn [snd].
  rewrite Hen, Hpo. cbn [negb]. destruct (Z.ltb_spec MAX_PAYLOAD_LEN (zlen p)); [lia|].
  unfold bind at 1, ensure_writer. rewrite Hw. by rewrite create_exists.
Qed.

Lemma open_last_empty c now d b xs sg junk e :
  settled_dir d b (xs ++ [(sg, junk)]) e -> srecs sg = [] ->
  exists d', open c now d
      = (d', Ok (reopened c (index_of (map fst xs ++ [sg])) (sizes_of (map fst xs ++ [sg])) 0 None e now))
    /\ Forall (clean d') (map fst xs ++ [sg]) /\ e = sfirst sg.
Proof.
  intros Hd He. destruct (settled_scan _ _ _ _ Hd) as (d1 & E1 & _ & _ & Hcl & Hok & _).
  rewrite map_app in *. cbn [map fst] in *.
  pose proof Hcl as Hcl0. apply Forall_app in Hcl0 as [_ Hs]. apply Forall_cons in Hs as [Hs _].
  apply Forall_app in Hok as [_ Ho]. apply Forall_cons in Ho as [Ho _].
  assert (Hc : e = sfirst sg).
  { destruct Hd as [_ _ _ _ _ Hch _ _]. rewrite map_app in Hch. apply chain_app in Hch as (m & _ & Hm & Hz).
    cbn in Hm, Hz. rewrite He, zlen_nil in Hz. lia. }
  destruct (last_cursor_empty d1 sg Hs Ho He) as (rd & Hopen & Hlast).
  exists d1. split; [|done]. unfold open. step_ok E1. unfold open_active. rewrite om_last_index.
  unfold bind at 1. rewrite Hopen. cbv beta iota zeta. rewrite Hlast, Z.eqb_refl. cbv beta iota zeta.
  rewrite om_last_index. rewrite Hc. done.
Qed.

(** ** Power loss *)

(** Each file keeps at least its synced bytes and loses any part of the rest. *)
Definition crash_dir (d dc : disk) : Prop :=
  fate dc = [] /\ Forall2 (fun x y => x.1 = y.1 /\ crash_file x.2 y.2) (files d) (files dc).

Lemma crash_dir_keys d dc : crash_dir d dc -> om_keys (files dc) = om_keys (files d).
Proof.
  intros [_ Hc]. induction Hc as [|[k f] [k' f'] l l' [Hk _] _ IH]; [done|].
  cbn in Hk |- *. unfold om_keys in IH. by rewrite Hk, IH.
Qed.

Lemma crash_dir_lookup d dc k f :
  crash_dir d dc -> om_lookup k (files d) = Some f ->
  exists f', om_lookup k (files dc) = Some f' /\ crash_file f f'.
Proof.
  intros [_ Hc]. induction Hc as [|[k1 f1] [k2 f2] l l' [Hk Hf] _ IH]; [done|]. cbn in *. subst k2.
  destruct (k =? k1); [|done]. intros [= <-]. by exists f2.
Qed.

Lemma crash_file_inv data s f :
  crash_file (File data s) f -> exists n, s <= n /\ n <= zlen data /\ f = File (ztake n data) n.
Proof. intros Hc. inversion Hc; subst. eauto. Qed.

Lemma crash_clean data f : crash_file (File data (zlen data)) f -> f = File data (zlen data).
Proof.
  intros (n & Hs & Hn & ->)%crash_file_inv. assert (n = zlen data) as -> by lia. by rewrite ztake_all.
Qed.

Lemma inner_nonempty_segs_of old act : Forall (fun sg => srecs sg <> []) old -> inner_nonempty (segs_of old act).
Proof.
  intros Ho. destruct act as [a|]; [by apply (inner_nonempty_snoc old (aseg a))|]. rewrite segs_of_none.
  destruct (destruct_list_end old) as [->|(l & sg & ->)]; [done|]. apply Forall_app in Ho as [Ho _]. by apply inner_nonempty_snoc.
Qed.

(** The files of a well-formed log are exactly its segments'. *)
Lemma wal_inv_keys_of d w old act : wal_inv d w old act -> om_keys (files d) = map sfirst (segs_of old act).
Proof.
  intros [_ Hso Hfi _ Hne Hdisk _ _ _ (b & _ & Hch) Hact _ _ _].
  assert (Hs2 : StronglySorted Z.lt (map sfirst (segs_of old act))).
  { rewrite <- om_keys_index. apply (chain_sorted b _ _ Hch). by apply inner_nonempty_segs_of. }
  assert (Ha : AntiSymm (=) Z.lt) by (intros x y ? ?; lia).
  assert (Hnd : forall l, StronglySorted Z.lt l -> NoDup l).
  { induction 1 as [|x l _ IH Hx]; constructor; [|done]. rewrite Forall_forall in Hx.
    intros Hin. specialize (Hx _ Hin). lia. }
  apply (StronglySorted_unique Z.lt); [exact Hso|exact Hs2|]. apply NoDup_Permutation; [auto|auto|].
  intros k. split; intros Hin.
  - apply Hfi. destruct (om_lookup k (files d)) eqn:E; [done|]. exfalso.
    unfold om_keys in Hin. apply list_elem_of_fmap in Hin as ([k' f] & -> & Hin). cbn [fst] in E.
    revert Hin E. clear. induction (files d) as [|[k2 f2] m IH]; intros Hin; [by apply not_elem_of_nil in Hin|].
    cbn. destruct (Z.eqb_spec k' k2); [done|]. apply elem_of_cons in Hin as [[= -> ->]|Hin]; [done|by apply IH].
  - assert (Hl : om_lookup k (files d) <> None).
    { apply list_elem_of_fmap in Hin as (x & -> & Hx). apply elem_of_app in Hx as [Hx|Hx].
      - rewrite Forall_forall in Hdisk. by rewrite (Hdisk _ Hx).
      - destruct act as [a|]; [|by apply not_elem_of_nil in Hx]. destruct Hact as (_ & (_ & [(s & Hk) _]) & _).
        apply list_elem_of_singleton in Hx as ->. cbn. by rewrite Hk. }
    destruct (om_lookup k (files d)) as [f|] eqn:E; [|done]. apply om_lookup_in in E.
    apply list_elem_of_fmap. by exists (k, f).
Qed.

Lemma wal_inv_keys d w old a : wal_inv d w old (Some a) -> om_keys (files d) = map sfirst (old ++ [aseg a]).
Proof. apply (wal_inv_keys_of d w old (Some a)). Qed.

(** Of a run cut at byte [n], every record that ends by [n] survives. *)
Lemma cut_keeps rs n j junk i :
  Forall record_ok rs -> ztake n (enc_all rs) = enc_all (take j rs) ++ junk -> no_record junk ->
  (i <= length rs)%nat -> zlen (enc_all (take i rs)) <= n -> (i <= j)%nat.
Proof.
  intros Hok Hcut Hno Hi Hn. rewrite <- (take_drop i rs) in Hcut at 1.
  rewrite enc_all_app, ztake_app_ge in Hcut by lia.
  apply runs_prefix in Hcut as (x & Hx & _); [|by apply Forall_take|by apply Forall_take|done].
  apply (f_equal length) in Hx. rewrite length_app, !length_take in Hx. lia.
Qed.

(** The active segment after a crash: its first [j] records, and at least the durable ones. *)
Lemma crash_active d w old a dc :
  wal_inv d w old (Some a) -> crash_dir d dc ->
  exists j junk, (j <= length (arecs (Some a)))%nat
    /\ settled dc (Seg (wfirst (awriter a)) (acreated a) (take j (arecs (Some a))), junk)
    /\ no_record junk /\ durable_cursor w <= wfirst (awriter a) + Z.of_nat j.
Proof.
  intros Hinv Hcr. pose proof (active_first _ _ _ _ Hinv) as (_ & _ & Hpf).
  destruct Hinv as [_ _ _ _ _ _ _ _ _ _ (_ & (Hwi & [(s & Hk) _]) & _ & Hsy) [Hd0 Hdur] _ _].
  destruct (crash_dir_lookup _ _ _ _ Hcr Hk) as (f' & Hk' & Hf).
  apply crash_file_inv in Hf as (n & Hs & Hn & ->).
  destruct Hsy as (fl & Hfl & Hsy). cbn [aseg sfirst srecs] in Hfl, Hsy. rewrite Hk in Hfl. injection Hfl as <-.
  cbn [fsynced] in Hsy. destruct Hwi as [_ Hc Hok _ _ _ _ Hfst _].
  change (aflushed a ++ abuffered a) with (arecs (Some a)) in *. set (rs := arecs (Some a)) in *.
  set (hdr := encode_segment_header (wfirst (awriter a)) (acreated a)) in *.
  assert (Hh : zlen hdr = SEGMENT_HEADER_LEN) by apply zlen_encode_segment_header.
  set (i := Z.to_nat (durable_cursor w - wfirst (awriter a))) in *.
  pose proof (zlen_nonneg (enc_all (take i rs))) as Hpos.
  assert (Hdata : ztake n (hdr ++ enc_all (aflushed a)) = hdr ++ ztake (n - SEGMENT_HEADER_LEN) (enc_all rs)).
  { rewrite ztake_app_ge by lia. rewrite Hh. f_equal. unfold rs. cbn [arecs]. rewrite enc_all_app.
    symmetry. apply ztake_app_le. rewrite zlen_app in Hn. lia. }
  destruct (runs_cut rs (n - SEGMENT_HEADER_LEN) Hok) as (j & junk & Hcut & Hno & Hj).
  assert (Hlen : zlen (ztake n (hdr ++ enc_all (aflushed a))) = n) by (apply zlen_ztake; unfold SEGMENT_HEADER_LEN in *; lia).
  exists j, junk. split; [done|]. split; [|split; [done|]].
  - unfold settled. cbn [fst snd sfirst]. rewrite Hk'. unfold seg_file. cbn [sfirst screated srecs]. fold hdr.
    rewrite <- app_assoc, <- Hcut, <- Hdata. by rewrite Hlen.
  - assert (i <= j)%nat; [|unfold i in *; lia]. eapply cut_keeps; [exact Hok|exact Hcut|exact Hno| |lia].
    unfold i, zlen in *. lia.
Qed.

Lemma crash_settled d w old a dc b :
  wal_inv d w old (Some a) -> 0 <= b -> chain b (segs_of old (Some a)) (pending_cursor w) -> crash_dir d dc ->
  exists j junk, (j <= length (arecs (Some a)))%nat /\ durable_cursor w <= wfirst (awriter a) + Z.of_nat j
    /\ settled_dir dc b (map (fun sg => (sg, [])) old
                          ++ [(Seg (wfirst (awriter a)) (acreated a) (take j (arecs (Some a))), junk)])
         (wfirst (awriter a) + Z.of_nat j).
Proof.
  intros Hinv Hb Hch Hcr. destruct (crash_active _ _ _ _ _ Hinv Hcr) as (j & junk & Hj & Hse & Hno & Hdur).
  exists j, junk. split; [done|]. split; [done|].
  pose proof (active_first _ _ _ _ Hinv) as (_ & _ & Hpf). pose proof (wal_inv_keys _ _ _ _ Hinv) as Hkeys.
  pose proof (crash_dir_keys _ _ Hcr) as Hkc.
  destruct Hinv as [_ Hso _ Hok Hne Hdisk _ _ _ _ (_ & (Hwi & _) & _) _ Hp _].
  set (sg := Seg (wfirst (awriter a)) (acreated a) (take j (arecs (Some a)))) in *.
  assert (Hfst : map fst (map (fun sg => (sg, @nil byte)) old ++ [(sg, junk)]) = old ++ [sg]).
  { rewrite map_app, map_map. cbn. by rewrite map_id. }
  rewrite segs_of_some in Hch. apply chain_app in Hch as (m & Hch1 & Hm & _). cbn in Hm. subst m.
  constructor; rewrite ?Hfst.
  - by destruct Hcr.
  - unfold om_sorted. by rewrite Hkc.
  - rewrite Hkc, Hkeys, !map_app, map_map. done.
  - apply Forall_app. split; [|by constructor]. apply List.Forall_map. eapply Forall_impl; [exact Hdisk|].
    intros x Hx. unfold settled. cbn [fst snd]. rewrite app_nil_r. cbv beta in Hx.
    destruct (crash_dir_lookup _ _ _ _ Hcr Hx) as (f & Hk & Hf). by rewrite Hk, (crash_clean _ _ Hf).
  - apply Forall_app. split.
    + apply List.Forall_map. eapply Forall_impl; [exact Hok|]. intros x Hx. split; [done|apply no_record_nil].
    + constructor; [|done]. split; [|done]. destruct Hwi as [_ Hc Hrok Hcons _ _ _ Hf _].
      split; [done|]. split; [done|]. split; [by apply Forall_take|].
      change (aflushed a ++ abuffered a) with (arecs (Some a)) in Hcons.
      rewrite <- (take_drop j (arecs (Some a))) in Hcons. by apply consecutive_app in Hcons as [? _].
  - apply chain_app. exists (wfirst (awriter a)). split; [done|]. split; [done|].
    change (wfirst (awriter a) + zlen (take j (arecs (Some a))) = wfirst (awriter a) + Z.of_nat j).
    unfold zlen. rewrite length_take. lia.
  - by apply inner_nonempty_snoc.
  - split; [done|]. unfold zlen in Hpf. lia.
Qed.

Lemma take_log old a j : (j <= length (arecs (Some a)))%nat ->
  log_of (old ++ [Seg (wfirst (awriter a)) (acreated a) (take j (arecs (Some a)))])
  = take (length (log_of old) + j) (log_of (segs_of old (Some a))).
Proof.
  intros Hj. rewrite log_segs_of, log_of_app, take_app_add. f_equal. apply app_nil_r.
Qed.

(** Reopening a settled directory: the log is read back whole, from any retained cursor. *)
Lemma open_settled c now d b old sg junk e :
  settled_dir d b (map (fun sg => (sg, [])) old ++ [(sg, junk)]) e ->
  Forall (fun sg => srecs sg <> []) old -> is_u64 now ->
  exists d' w, open c now d = (d', Ok w) /\ pending_cursor w = e /\ durable_cursor w = e /\ cfg w = c
    /\ (forall cu, b <= cu -> exists r bound, read_from w cu = Ok r
          /\ replays d' r (zdrop (cu - b) (log_of (old ++ [sg]))) bound)
    /\ (srecs sg <> [] -> exists a, wal_inv d' w (old ++ [sg]) (Some a) /\ arecs (Some a) = [])
    /\ (srecs sg = [] -> enabled c = true -> stuck (d', w)).
Proof.
  intros Hsd Hne Hnow. set (xs := map (fun sg => (sg, @nil byte)) old) in *.
  assert (Hfst : map fst (xs ++ [(sg, junk)]) = old ++ [sg]).
  { unfold xs. rewrite map_app, map_map. cbn. by rewrite map_id. }
  pose proof (sd_chain _ _ _ _ Hsd) as Hch. pose proof (sd_inner _ _ _ _ Hsd) as Hin.
  pose proof (settled_scan _ _ _ _ Hsd) as (_ & _ & _ & _ & _ & Hok & _). rewrite Hfst in *.
  destruct (srecs sg) as [|x rs] eqn:Ers.
  - destruct (open_last_empty c now d b xs sg junk e Hsd Ers) as (d' & E & Hcl & He).
    assert (Hxs : map fst xs = old) by (unfold xs; rewrite map_map; apply map_id). rewrite Hxs in *.
    exists d', (reopened c (index_of (old ++ [sg])) (sizes_of (old ++ [sg])) 0 None e now).
    split; [done|]. split; [done|]. split; [done|]. split; [done|]. split; [|split; [done|]].
    + intros cu Hcu. destruct (read_index_replays d' b (old ++ [sg]) e cu Hch Hin) as (r & Hr & Hrep); try done.
      { by destruct old. }
      { eapply Forall_impl; [exact Hcl|]. intros y Hy. eexists. exact Hy. }
      eauto.
    + intros _ Hen. split; [done|]. split; [done|]. split; [done|]. cbn.
      apply Forall_app in Hcl as [_ Hcl]. apply Forall_cons in Hcl as [Hcl _]. rewrite He. by rewrite Hcl.
  - assert (Hne' : Forall (fun sg => srecs sg <> []) (old ++ [sg])).
    { apply Forall_app. split; [done|]. constructor; [by rewrite Ers|done]. }
    destruct (open_nonempty c now d b (xs ++ [(sg, junk)]) e Hsd) as (d' & w & a & E & Hinv & Hr & Hp & Hd & Hc & _);
      rewrite ?Hfst; try done.
    { by destruct xs. }
    rewrite Hfst in Hinv. exists d', w. split; [done|]. split; [done|]. split; [done|]. split; [done|].
    split; [|split; [by exists a|done]].
    intros cu Hcu. destruct (wal_inv_flushed _ _ _ _ Hinv) as (Hidx & Hin2 & Hok2 & Hdisk & b2 & _ & Hch2 & _).
    assert (Hfl : aflushed a = []) by (cbn in Hr; by apply app_eq_nil in Hr as [? _]).
    assert (b2 = b) as ->.
    { destruct old as [|s0 old]; cbn in Hch, Hch2; destruct Hch as [<- _], Hch2 as [<- _]; done. }
    destruct (read_index_replays d' b _ _ cu Hch2 Hin2) as (r & Hrd & Hrep); try done.
    { by destruct old. }
    exists r, (replay_bound ((old ++ [sg]) ++ [flushed_seg a])). unfold read_from. rewrite Hidx. split; [done|].
    rewrite (log_of_app (old ++ [sg])) in Hrep. unfold flushed_seg at 1 in Hrep. rewrite Hfl in Hrep.
    change (log_of [Seg (wfirst (awriter a)) (acreated a) []]) with (@nil record) in Hrep.
    by rewrite app_nil_r in Hrep.
Qed.

Lemma crash_reopens d w old a dc now :
  wal_inv d w old (Some a) -> crash_dir d dc -> is_u64 now ->
  let log := log_of (segs_of old (Some a)) in
  let base := pending_cursor w - zlen log in
  exists n d' w', (n <= length log)%nat /\ open (cfg w) now dc = (d', Ok w')
    /\ pending_cursor w' = base + Z.of_nat n
    /\ durable_cursor w <= pending_cursor w' <= pending_cursor w
    /\ (forall c, base <= c -> exists r bound, read_from w' c = Ok r
          /\ replays d' r (zdrop (c - base) (take n log)) bound)
    /\ ((exists old' a', wal_inv d' w' old' (Some a')) \/ n = length (log_of old)).
Proof.
  intros Hinv Hcr Hnow log base.
  destruct (wal_inv_flushed _ _ _ _ Hinv) as (_ & _ & _ & _ & b & Hb & _ & Hch).
  pose proof (chain_length _ _ _ Hch) as Hlen. change (log_of (segs_of old (Some a))) with log in Hlen.
  assert (Hbase : base = b) by (unfold base; lia). rewrite Hbase. clear Hbase base.
  pose proof (active_first _ _ _ _ Hinv) as (_ & _ & Hpf).
  assert (Hlog : length log = (length (log_of old) + length (arecs (Some a)))%nat).
  { unfold log. by rewrite log_segs_of, length_app. }
  destruct (crash_settled _ _ _ _ _ _ Hinv Hb Hch Hcr) as (j & junk & Hj & Hdur & Hsd).
  pose proof (take_log old a j Hj) as Htake. change (log_of (segs_of old (Some a))) with log in Htake.
  destruct (open_settled (cfg w) now dc b old _ junk _ Hsd (wv_nonempty _ _ _ _ Hinv) Hnow)
    as (d' & w' & E & Hp & _ & _ & Hread & Hok & _).
  rewrite Htake in Hread. exists (length (log_of old) + j)%nat, d', w'. unfold zlen in *.
  split; [lia|]. split; [done|]. split; [lia|]. split; [lia|]. split; [done|].
  destruct j as [|j]; [right; lia|]. left. destruct Hok as (a' & Hinv' & _); [|eauto].
  cbn [srecs]. destruct (arecs (Some a)); [cbn in Hj; lia|done].
Qed.

(** C7: durability of the log.  After a power cut, between two calls on a log none of whose calls failed, that loses
    any part of what was not synced (the header of the active segment was, before its creation returned), [open]
    succeeds, the pending cursor it reports lies between the durable cursor and the pending cursor of
    before the crash, and a replay from any retained cursor yields exactly the records below it: nothing
    durable is lost, nothing is reordered, altered or invented, and the replay ends without an error.
    The log accepts appends again, unless no record of the newest segment survived.  A cut while a segment is being
    created, before its header is synced, is another matter ([torn_header_blocks_open]). *)
Theorem crash_restart_keeps_durable d w old a dc now :
  wal_inv d w old (Some a) -> crash_dir d dc -> is_u64 now ->
  let log := log_of (segs_of old (Some a)) in
  let base := pending_cursor w - zlen log in
  exists n d' w', (n <= length log)%nat /\ open (cfg w) now dc = (d', Ok w')
    /\ pending_cursor w' = base + Z.of_nat n
    /\ durable_cursor w <= pending_cursor w' <= pending_cursor w
    /\ (forall c, base <= c -> exists r bound, read_from w' c = Ok r
          /\ replays d' r (zdrop (c - base) (take n log)) bound)
    /\ ((exists old' a', wal_inv d' w' old' (Some a')) \/ n = length (log_of old)).
Proof. apply crash_reopens. Qed.

(** ** Appending, then replaying *)

(** The publisher's use of the log: each record takes the pending cursor. *)
Fixpoint append_all (recs : list (Z * list byte)) : M st wal_error unit :=
  match recs with
  | [] => ret tt
  | (ts, p) :: recs => do! (fun s => append (pending_cursor s.2) ts p s) in append_all recs
  end.

Fixpoint records_from (c : Z) (recs : list (Z * list byte)) : list record :=
  match recs with
  | [] => []
  | (ts, p) :: recs => Record_ c ts p :: records_from (c + 1) recs
  end.

Definition fits (c : wal_config) (x : Z * list byte) : Prop :=
  is_u64 x.1 /\ zlen x.2 <= MAX_PAYLOAD_LEN /\ SEGMENT_HEADER_LEN + RECORD_FRAMING + zlen x.2 <= segment_size_max c.

Lemma append_all_spec recs d w old act :
  wal_inv d w old act -> enabled (cfg w) = true -> poisoned w = false ->
  Forall (fits (cfg w)) recs -> pending_cursor w + zlen recs < two64 -> recs <> [] ->
  exists d' w' old' a' dropped,
    append_all recs (d, w) = ((d', w'), Ok tt) /\ wal_inv d' w' old' (Some a')
    /\ dropped ++ log_of (segs_of old' (Some a'))
       = log_of (segs_of old act) ++ records_from (pending_cursor w) recs
    /\ pending_cursor w' = pending_cursor w + zlen recs
    /\ active_bytes w' <= segment_size_max (cfg w)
    /\ (retained_bytes w' + active_bytes w' <= retention_bytes (cfg w) \/ old' = [])
    /\ (policy (cfg w) = Each -> durable_cursor w' = pending_cursor w')
    /\ cfg w' = cfg w /\ poisoned w' = false /\ (forall a, act = Some a -> later a a').
Proof.
  revert d w old act. induction recs as [|[ts p] recs IH]; intros d w old act Hinv Hen Hpo Hfit Hmax Hne; [done|].
  apply Forall_cons in Hfit as [(Hts & Hp & Hsz) Hfit]. cbn [fst snd] in *. rewrite zlen_cons in *.
  pose proof (zlen_nonneg recs).
  destruct (append_spec d w old act ts p Hinv) as (d1 & w1 & old1 & a1 & dr1 & E1 & Hinv1 & Hlog1 & Hp1 & Hab1 & Hrt1 & Hea1 & Hc1 & Hpo1 & Hl1 & _).
  { split; try done. lia. }
  cbn [append_all]. step_ok E1. cbn [records_from].
  destruct recs as [|rc recs].
  { exists d1, w1, old1, a1, dr1. split; [done|]. split; [done|]. split; [done|]. rewrite zlen_nil. split; [lia|].
    split; [done|]. split; [done|]. done. }
  destruct (IH d1 w1 old1 (Some a1) Hinv1) as (d2 & w2 & old2 & a2 & dr2 & E2 & Hinv2 & Hlog2 & Hp2 & Hab2 & Hrt2 & Hea2 & Hc2 & Hpo2 & Hl2);
    rewrite ?Hc1; try done; [lia|].
  rewrite Hc1 in *. exists d2, w2, old2, a2, (dr1 ++ dr2). split; [done|]. split; [done|]. split.
  { rewrite <- app_assoc, Hlog2, app_assoc, Hlog1, <- app_assoc, Hp1. done. }
  split; [lia|]. do 5 (split; [done|]). intros a Ha. eapply later_trans; [by apply Hl1|by apply Hl2].
Qed.

Lemma fsync_wal_inv d w old a :
  wal_inv d w old (Some a) ->
  exists d' w' a', fsync_wal (d, w) = ((d', w'), Ok tt) /\ wal_inv d' w' old (Some a')
    /\ arecs (Some a') = arecs (Some a) /\ abuffered a' = []
    /\ pending_cursor w' = pending_cursor w /\ durable_cursor w' = pending_cursor w.
Proof.
  intros Hinv. pose proof (wv_act _ _ _ _ Hinv) as (Hw & _). unfold fsync_wal. cbn [snd]. rewrite Hw.
  destruct (fsync_active_inv _ _ _ _ Hinv) as (d' & w' & a' & E & Hi & Hr & Hb & Hp & _ & _ & Hd & _).
  exists d', w', a'. done.
Qed.

(** C23: the log does what a log is for.  Any run of records that fit a segment is appended without an
    error from any well-formed state, rotation and retention included, and after an fsync a replay from
    any retained cursor yields exactly the records from that cursor on, old ones first, then the new
    ones in order.  Retention only ever drops whole segments from the front, the active segment keeps
    within [segment_size_max], the total within [retention_bytes] unless only the active segment is
    left, and the pending cursor counts the records. *)
Theorem appends_are_replayed recs d w old act :
  wal_inv d w old act -> enabled (cfg w) = true -> poisoned w = false ->
  Forall (fits (cfg w)) recs -> pending_cursor w + zlen recs < two64 -> recs <> [] ->
  exists s' dropped kept,
    (do! append_all recs in fsync_wal) (d, w) = (s', Ok tt)
    /\ dropped ++ kept = log_of (segs_of old act) ++ records_from (pending_cursor w) recs
    /\ pending_cursor s'.2 = pending_cursor w + zlen recs
    /\ durable_cursor s'.2 = pending_cursor s'.2
    /\ active_bytes s'.2 <= segment_size_max (cfg w)
    /\ (retained_bytes s'.2 + active_bytes s'.2 <= retention_bytes (cfg w) \/ retained_bytes s'.2 = 0)
    /\ (let base := pending_cursor s'.2 - zlen kept in forall c,
          (c < base -> read_from s'.2 c = Err (CursorTooOld c base))
          /\ (base <= c -> exists r bound, read_from s'.2 c = Ok r
              /\ replays s'.1 r (zdrop (c - base) kept) bound)).
Proof.
  intros Hinv Hen Hpo Hfit Hmax Hne.
  destruct (append_all_spec recs d w old act Hinv Hen Hpo Hfit Hmax Hne)
    as (d1 & w1 & old1 & a1 & dr & E1 & Hinv1 & Hlog & Hp1 & Hab & Hrt & _ & Hc1 & _).
  pose proof (wv_act _ _ _ _ Hinv1) as (Hw1 & _).
  destruct (fsync_active_inv _ _ _ _ Hinv1) as (d2 & w2 & a2 & E2 & Hinv2 & Hr2 & Hb2 & Hp2 & (Hc2 & _) & Hab2 & Hd2 & _).
  exists (d2, w2), dr, (log_of (segs_of old1 (Some a1))). cbn [fst snd]. split.
  { step_ok E1. unfold fsync_wal. cbn [snd]. by rewrite Hw1. }
  split; [done|]. split; [lia|]. split; [lia|]. split; [lia|].
  pose proof (wv_retained _ _ _ _ Hinv1) as Hr1. pose proof (wv_retained _ _ _ _ Hinv2) as Hrt2.
  split; [destruct Hrt as [Hrt|Hrt]; [left; lia|right; rewrite Hrt2, Hrt; done]|].
  destruct (wal_inv_flushed _ _ _ _ Hinv2) as (Hidx & Hin & Hok & Hdisk & b & _ & Hch & Hch').
  assert (Hseg : log_of (old1 ++ [flushed_seg a2]) = log_of (segs_of old1 (Some a1))).
  { rewrite log_segs_of, log_of_app, <- Hr2. cbn [arecs]. rewrite Hb2, app_nil_r. f_equal. apply app_nil_r. }
  pose proof (chain_length _ _ _ Hch') as Hl. rewrite log_segs_of, Hr2, <- log_segs_of in Hl.
  assert (Hbase : pending_cursor w2 - zlen (log_of (segs_of old1 (Some a1))) = b) by lia.
  rewrite Hbase. intros c.
  destruct (read_from_index_spec d2 b _ _ c Hch Hin ltac:(by destruct old1) Hok Hdisk) as [Hlow _].
  unfold read_from. rewrite Hidx. split; [done|]. intros Hc.
  destruct (read_index_replays d2 b _ _ c Hch Hin ltac:(by destruct old1) Hok Hdisk Hc) as (r & Hr & Hrep).
  rewrite Hseg in Hrep. eauto.
Qed.

(** ** Where the log stops *)

Lemma stuck_append_all s recs :
  stuck s -> recs <> [] -> Forall (fun x => zlen x.2 <= MAX_PAYLOAD_LEN) recs ->
  append_all recs s = (s, Err (EWriter (WIo AlreadyExists))).
Proof.
  intros Hst Hrecs Hp. destruct recs as [|[ts p] recs]; [done|]. apply Forall_cons in Hp as [Hp _].
  cbn [append_all snd] in *. unfold bind. by rewrite (stuck_append s ts p Hst Hp).
Qed.

(** Two restarts without a record in between.  When the newest segment on disk holds no record, as
    every [open] that found records leaves it, [open] defers the writer but keeps the file, and every
    later append fails with [AlreadyExists] and changes nothing: the log accepts no record again. *)
Theorem empty_newest_segment_stops_the_log c now d b old sg junk e :
  settled_dir d b (map (fun sg => (sg, [])) old ++ [(sg, junk)]) e ->
  Forall (fun sg => srecs sg <> []) old -> is_u64 now -> enabled c = true -> srecs sg = [] ->
  exists d' w, open c now d = (d', Ok w) /\ pending_cursor w = e
    /\ forall recs, recs <> [] -> Forall (fun x => zlen x.2 <= MAX_PAYLOAD_LEN) recs ->
         append_all recs (d', w) = ((d', w), Err (EWriter (WIo AlreadyExists))).
Proof.
  intros Hsd Hne Hnow Hen He.
  destruct (open_settled c now d b old sg junk e Hsd Hne Hnow) as (d' & w & E & Hp & _ & _ & _ & _ & Hst).
  exists d', w. split; [done|]. split; [done|]. intros recs. apply stuck_append_all. auto.
Qed.

(** A record too large for any segment.  On a log whose active segment holds no record yet, an append
    that passes the [MAX_PAYLOAD_LEN] check but not [segment_size_max] closes the active segment, fails to
    create its successor of the same name, and leaves the log without a writer: every later append fails
    with [AlreadyExists], however small its payload. *)
Theorem oversized_record_stops_the_log d w old a ts p :
  wal_inv d w old (Some a) -> arecs (Some a) = [] -> enabled (cfg w) = true -> poisoned w = false ->
  zlen p <= MAX_PAYLOAD_LEN -> segment_size_max (cfg w) < SEGMENT_HEADER_LEN + RECORD_FRAMING + zlen p ->
  exists s', append (pending_cursor w) ts p (d, w) = (s', Err (EWriter (WIo AlreadyExists)))
    /\ pending_cursor s'.2 = pending_cursor w
    /\ forall recs, recs <> [] -> Forall (fun x => zlen x.2 <= MAX_PAYLOAD_LEN) recs ->
         append_all recs s' = (s', Err (EWriter (WIo AlreadyExists))).
Proof.
  intros Hinv Hr Hen Hpo Hp Hbig. pose proof (active_first _ _ _ _ Hinv) as (_ & _ & Hpf).
  rewrite Hr, zlen_nil, Z.add_0_r in Hpf. destruct (wv_act _ _ _ _ Hinv) as (Hw & (Hwi & Hal) & Hab & _).
  destruct (close_aligned _ _ _ _ _ (wv_fate _ _ _ _ Hinv) Hal) as (d1 & Ecl & Hk1 & _).
  pose proof (wi_count _ _ _ _ Hwi) as Hcnt. change (aflushed a ++ abuffered a) with (arecs (Some a)) in Hcnt.
  rewrite Hr, enc_all_nil, zlen_nil, Z.add_0_r in Hcnt.
  set (w1 := with_inner (segments w) (om_insert (wfirst (awriter a)) (bytes_written (awriter a)) (segment_sizes w))
               (active_bytes w) (retained_bytes w + bytes_written (awriter a)) None (with_writer None w)).
  assert (Hrot : rotate_locked (pending_cursor w) (d, w) = ((d1, w1), Err (EWriter (WIo AlreadyExists)))).
  { unfold rotate_locked, bind. rewrite Hw. cbv zeta. rewrite Ecl. cbv iota zeta. fold w1.
    rewrite create_exists; [done|]. rewrite Hpf, Hk1. done. }
  exists (d1, w1). split; [|split; [done|]].
  - unfold append. cbn [snd]. rewrite Hen, Hpo. cbn [negb].
    destruct (Z.ltb_spec MAX_PAYLOAD_LEN (zlen p)); [lia|].
    assert (Hens : ensure_writer (pending_cursor w) (d, w) = ((d, w), Ok tt)) by (unfold ensure_writer; by rewrite Hw).
    step_ok Hens. assert (Hlt : segment_size_max (cfg w) < active_bytes w + (RECORD_FRAMING + zlen p)) by lia.
    unfold bind at 1. cbn [snd]. destruct (Z.ltb_spec (segment_size_max (cfg w)) (active_bytes w + (RECORD_FRAMING + zlen p))); [|lia].
    by rewrite Hrot.
  - intros recs. apply stuck_append_all. split; [done|]. split; [done|]. split; [done|]. cbn. by rewrite Hpf, Hk1.
Qed.

(** A crash between the creation of a segment and the sync of its header leaves a file shorter than
    a header; [open] then fails, and fails again however often it is retried, although every record of
    the older segments is intact. *)
Theorem torn_header_blocks_open c now d k fl older :
  om_keys (files d) = map (fun x => sfirst x.1) older ++ [k] -> Forall (settled d) older ->
  Forall (fun x => seg_ok x.1 /\ no_record x.2) older -> om_sorted (index_of (map fst older)) ->
  fate d = [] -> om_sorted (files d) ->
  om_lookup k (files d) = Some fl -> zlen (fdata fl) < SEGMENT_HEADER_LEN ->
  exists d', open c now d = (d', Err (EReader (Header (Truncated (zlen (fdata fl))))))
    /\ Forall (clean d') (map fst older) /\ om_lookup k (files d') = Some fl.
Proof.
  intros Hkeys Hse Hok Hio Hf Hso Hk Hlen.
  destruct (scan_dir_spec older [] d Hok Hse Hio Hf Hso) as (d1 & E & _ & _ & Hcl & Ho).
  assert (Hk1 : om_lookup k (files d1) = Some fl).
  { rewrite Ho; [done|]. intros Hin. unfold om_sorted in Hso. rewrite Hkeys in Hso.
    assert (k < k); [|lia]. eapply (StronglySorted_app_1_elem_of Z.lt); [exact Hso|exact Hin|]. by left. }
  exists d1. split; [|done]. unfold open. rewrite Hkeys.
  assert (Hscan : forall names segs sizes d0 d1 s2, scan_dir names segs sizes d0 = (d1, Ok s2) ->
            scan_dir (names ++ [k]) segs sizes d0 = scan_dir [k] s2.1 s2.2 d1).
  { induction names as [|n names IH]; intros segs sizes d0 d2 s2 E0; cbn [scan_dir app] in *.
    - by injection E0 as <- <-.
    - destruct (recover_truncate n d0) as [d3 [rep|e]]; [|done].
      destruct (om_lookup n (files d3)); [|done]. by apply IH. }
  rewrite (bind_err _ _ _ d1 (EReader (Header (Truncated (zlen (fdata fl)))))); [done|].
  etransitivity; [exact (Hscan _ _ _ _ _ _ E)|]. cbn [scan_dir fst snd].
  pose proof (torn_header_error k d1 fl Hk1 Hlen) as Ht. by rewrite Ht.
Qed.
End recovery.

(** ** Concrete logs *)

Definition demo_cfg (p : fsync_policy) : wal_config := WalConfig true p 5 1048576 128 200.

Definition empty_wal (p : fsync_policy) : wal := reopened (demo_cfg p) [] [] 0 None 0 9.

Definition demo_recs : list (Z * list byte) :=
  [(100, [Byte.x61]); (101, [Byte.x62; Byte.x63]); (102, []); (103, [Byte.x64]); (104, []); (105, [Byte.x65])].

Lemma demo_fits p : Forall (fits (demo_cfg p)) demo_recs.
Proof. repeat constructor; vm_compute; congruence. Qed.

Lemma empty_wal_inv p : wal_inv (H := sum_crc) (Disk [] []) (empty_wal p) [] None.
Proof. by apply (open_empty (H := sum_crc)). Qed.

(** Six records, three segments: two rotations, and retention drops the oldest. *)
Example demo_rotates :
  let '((d, w), r) := append_all (H := sum_crc) demo_recs (Disk [] [], empty_wal Batched) in
  r = Ok tt /\ om_keys (segments w) = [3] /\ om_keys (files d) = [3]
  /\ pending_cursor w = 6 /\ durable_cursor w = 0.
Proof. vm_compute. done. Qed.

Lemma appends_are_replayed_witness :
  exists s' dropped kept,
    (do! append_all (H := sum_crc) demo_recs in fsync_wal) (Disk [] [], empty_wal Batched) = (s', Ok tt)
    /\ dropped ++ kept = records_from 0 demo_recs /\ pending_cursor s'.2 = 6.
Proof.
  destruct (appends_are_replayed (H := sum_crc) demo_recs (Disk [] []) (empty_wal Batched) [] None)
    as (s' & dropped & kept & E & Hk & Hp & _).
  - apply empty_wal_inv.
  - reflexivity.
  - reflexivity.
  - exact (demo_fits Batched).
  - vm_compute. reflexivity.
  - done.
  - exists s', dropped, kept. split; [exact E|]. split; [exact Hk|exact Hp].
Defined.

(** Three records under [Each], and a power cut that loses nothing, as everything is synced. *)
Definition each_disk : disk := ((append_all (H := sum_crc) (take 3 demo_recs) (Disk [] [], empty_wal Each)).1).1.
Definition each_wal : wal := ((append_all (H := sum_crc) (take 3 demo_recs) (Disk [] [], empty_wal Each)).1).2.

Lemma each_inv : exists old a, wal_inv (H := sum_crc) each_disk each_wal old (Some a).
Proof.
  destruct (append_all_spec (H := sum_crc) (take 3 demo_recs) (Disk [] []) (empty_wal Each) [] None)
    as (d & w & old & a & dr & E & Hinv & _).
  - apply empty_wal_inv.
  - reflexivity.
  - reflexivity.
  - apply Forall_take. exact (demo_fits Each).
  - vm_compute. reflexivity.
  - discriminate.
  - unfold each_disk, each_wal. rewrite E. eauto.
Qed.

Example each_reopens :
  let '(_, r) := open (H := sum_crc) (demo_cfg Each) 10 each_disk in
  match r with Ok w => pending_cursor w = 3 /\ om_keys (segments w) = [0; 3] | Err _ => False end.
Proof. vm_compute. done. Qed.

Lemma crash_intact data n : n = zlen data -> crash_file (File data n) (File data n).
Proof.
  intros ->. pose proof (CrashFile data (zlen data) (zlen data) (Z.le_refl _) (Z.le_refl _)) as C.
  by rewrite ztake_all in C.
Qed.

Lemma crash_dir_synced d :
  fate d = [] -> forallb (fun x => fsynced x.2 =? zlen (fdata x.2)) (files d) = true -> crash_dir d d.
Proof.
  intros Hf Hs. split; [done|]. induction (files d) as [|[k [data n]] m IH]; [done|].
  cbn in Hs. apply andb_prop in Hs as [Hn Hs]. constructor; [|by apply IH].
  split; [done|]. apply crash_intact. by apply Z.eqb_eq.
Qed.

Lemma crash_restart_keeps_durable_witness :
  exists n d' w', open (H := sum_crc) (demo_cfg Each) 10 each_disk = (d', Ok w')
    /\ pending_cursor w' = Z.of_nat n /\ 3 <= pending_cursor w'.
Proof.
  destruct each_inv as (old & a & Hinv).
  destruct (crash_restart_keeps_durable (H := sum_crc) each_disk each_wal old a each_disk 10)
    as (n & d' & w' & _ & E & _ & Hp & _).
  - exact Hinv.
  - apply crash_dir_synced; vm_compute; reflexivity.
  - done.
  - exists (Z.to_nat (pending_cursor w')), d', w'. split; [exact E|].
    assert (durable_cursor each_wal = 3) by (vm_compute; reflexivity). lia.
Defined.

(** A log used once, closed, opened and closed again without a record, then opened for good. *)
Definition twice_reopened : disk :=
  match open (H := sum_crc) (demo_cfg Each) 10 each_disk with
  | (d, Ok w) => drop_wal (d, w)
  | (d, Err _) => d
  end.

Definition each_seg : seg := Seg 0 9 (records_from 0 (take 3 demo_recs)).

Example twice_reopened_files : om_keys (files twice_reopened) = [0; 3].
Proof. vm_compute. reflexivity. Qed.

Lemma each_seg_ok : seg_ok each_seg.
Proof.
  split; [done|]. split; [done|]. split; [repeat constructor; vm_compute; congruence|].
  intros i r Hi. do 3 (destruct i as [|i]; [by injection Hi as <-|]). by destruct i.
Qed.

Lemma twice_reopened_settled :
  settled_dir (H := sum_crc) twice_reopened 0 (map (fun sg => (sg, [])) [each_seg] ++ [(Seg 3 10 [], [])]) 3.
Proof.
  constructor.
  - vm_compute. reflexivity.
  - unfold om_sorted. rewrite twice_reopened_files. repeat constructor.
  - exact twice_reopened_files.
  - repeat constructor; vm_compute; reflexivity.
  - constructor; [split; [exact each_seg_ok|apply no_record_nil]|]. constructor; [|done].
    split; [|apply no_record_nil]. split; [done|]. split; [done|]. split; [done|]. intros i r Hi. by destruct i.
  - vm_compute. done.
  - vm_compute. done.
  - done.
Qed.

Lemma empty_newest_segment_stops_the_log_witness :
  exists d' w, open (H := sum_crc) (demo_cfg Each) 11 twice_reopened = (d', Ok w)
    /\ append_all (H := sum_crc) [(106, [])] (d', w) = ((d', w), Err (EWriter (WIo AlreadyExists))).
Proof.
  destruct (empty_newest_segment_stops_the_log (H := sum_crc) (demo_cfg Each) 11 twice_reopened 0
              [each_seg] (Seg 3 10 []) [] 3) as (d' & w & E & _ & Happ).
  - exact twice_reopened_settled.
  - repeat constructor. vm_compute. congruence.
  - done.
  - done.
  - done.
  - exists d', w. split; [exact E|]. apply Happ; [done|]. repeat constructor. vm_compute. congruence.
Defined.

(** A fresh log opened by its first append attempt: one segment, no record. *)
Lemma header_only_inv :
  exists d w a, wal_inv (H := sum_crc) d w [] (Some a) /\ arecs (Some a) = []
    /\ cfg w = demo_cfg Each /\ poisoned w = false.
Proof.
  destruct (ensure_writer_inv (H := sum_crc) _ _ _ _ (empty_wal_inv Each))
    as (d & w & a & _ & Hinv & Hr & _ & (Hc & Hp & _) & _).
  exists d, w, a. split; [exact Hinv|]. split; [exact Hr|]. split; [exact Hc|exact Hp].
Qed.

Lemma oversized_record_stops_the_log_witness :
  exists s s', append (H := sum_crc) (pending_cursor s.2) 7 (zrep 100 Byte.x00) s
    = (s', Err (EWriter (WIo AlreadyExists))) /\ append_all (H := sum_crc) [(8, [])] s'
    = (s', Err (EWriter (WIo AlreadyExists))).
Proof.
  destruct header_only_inv as (d & w & a & Hinv & Hr & Hc & Hp).
  destruct (oversized_record_stops_the_log (H := sum_crc) d w [] a 7 (zrep 100 Byte.x00))
    as (s' & E & _ & Happ).
  - exact Hinv.
  - exact Hr.
  - by rewrite Hc.
  - exact Hp.
  - vm_compute. congruence.
  - rewrite Hc. vm_compute. reflexivity.
  - exists (d, w), s'. split; [exact E|]. apply Happ; [done|]. repeat constructor. vm_compute. congruence.
Defined.

(** The first segment of [each_disk] intact, and a second one cut inside its header. *)
Definition torn_dir : disk :=
  Disk [(0, File (seg_file (H := sum_crc) each_seg) (zlen (seg_file (H := sum_crc) each_seg)));
        (3, File [Byte.x4c; Byte.x41] 2)] [].

Lemma torn_header_blocks_open_witness :
  exists d', open (H := sum_crc) (demo_cfg Each) 11 torn_dir = (d', Err (EReader (Header (Truncated 2)))).
Proof.
  destruct (torn_header_blocks_open (H := sum_crc) (demo_cfg Each) 11 torn_dir 3 (File [Byte.x4c; Byte.x41] 2)
              [(each_seg, [])]) as (d' & E & _).
  - reflexivity.
  - repeat constructor.
  - constructor; [|done]. split; [exact each_seg_ok|apply no_record_nil].
  - repeat constructor.
  - reflexivity.
  - repeat constructor.
  - reflexivity.
  - reflexivity.
  - exists d'. exact E.
Defined.

(** The process dies after the flusher's first phase; [open] then reports the records as durable, and a
    power cut takes them. *)
Definition killed_disk : disk :=
  match append_all (H := sum_crc) (take 3 demo_recs) (Disk [] [], empty_wal Batched) with
  | (s, _) => (flusher_flush s).1.1
  end.

Definition cut_disk (d : disk) : disk :=
  Disk (map (fun x => (x.1, File (ztake (fsynced x.2) (fdata x.2)) (fsynced x.2))) (files d)) [].

(** After a process that died, [open] takes what it reads for durable.  It reports a durable cursor of
    3 for records that were flushed but never synced, and does not sync them: a power cut leaves none of
    them, and the log that starts at the reported cursor. *)
Theorem open_reports_unsynced_records_as_durable :
  let '(d, r) := open (H := sum_crc) (demo_cfg Batched) 10 killed_disk in
  exists w, r = Ok w /\ durable_cursor w = 3
    /\ om_lookup 0 (files (cut_disk d)) = Some (File (encode_segment_header 0 9) SEGMENT_HEADER_LEN)
    /\ om_keys (files (cut_disk d)) = [0; 3].
Proof. vm_compute. eexists. done. Qed.
