(* ===== verification/WalFlusher.v ===== *)
(** * The batched flusher ([crates/mmbus/src/wal/wal.rs], [spawn_flusher_thread])

    The flusher flushes under the mutex, syncs without it, then publishes the durable cursor; appends
    run in between. *)

From Stdlib Require Import ZArith Lia Strings.Byte.
From stdpp Require Import base option sorting gmap list.
From S2P Require Import Prelude OrdMap Chain Disk Record SegmentReader SegmentWriter Config WalV1 WalRecovery.

Section flusher.
Context `{Crc}.

(** What phase 1 hands to phase 2, as long as [a] is the active segment: the records below the cursor
    are in the file, or that file has been closed. *)
Definition job_ok (job : Z * Z) (w : wal) (a : active) : Prop :=
  0 <= job.2 <= pending_cursor w /\ job.2 <= wfirst (awriter a) + zlen (aflushed a)
  /\ (job.1 = wfirst (awriter a) \/ job.2 <= wfirst (awriter a)).

Lemma job_later job d w w' old a a' :
  wal_inv d w old (Some a) -> job_ok job w a -> later a a' -> pending_cursor w <= pending_cursor w' ->
  job_ok job w' a'.
Proof.
  intros Hinv (Hj1 & Hj2 & Hj3) Hl Hp. pose proof (active_first _ _ _ _ Hinv) as (_ & _ & Hpf).
  pose proof (zlen_nonneg (aflushed a')). unfold job_ok, later, zlen in *.
  destruct Hl as [(E & L & _)|Hl]; [split; [lia|]; split; [lia|]; rewrite E; done|].
  split; [lia|]. split; [lia|right; lia].
Qed.

Lemma flusher_flush_inv d w old a :
  wal_inv d w old (Some a) ->
  exists d' w' a', flusher_flush (d, w) = ((d', w'), Some (wfirst (awriter a), pending_cursor w))
    /\ wal_inv d' w' old (Some a') /\ job_ok (wfirst (awriter a), pending_cursor w) w' a'
    /\ arecs (Some a') = arecs (Some a) /\ pending_cursor w' = pending_cursor w /\ same_config w w'
    /\ durable_cursor w' = durable_cursor w.
Proof.
  intros Hinv. pose proof (active_first _ _ _ _ Hinv) as (Hfr & Hpe & Hpf).
  pose proof Hinv as [Hf Hso Hfiles Hok Hne Hdisk Hidx Hsz Hrb (b & Hb & Hch) (Hw & (Hwi & Hal) & Hab & Hsy) Hdur Hpc Hcl].
  unfold flusher_flush. cbn [snd]. rewrite Hw. unfold on_writer. rewrite Hw.
  unfold flush_for_external_fsync, bind.
  destruct (flush_aligned _ _ _ _ _ Hf Hal) as (d' & E & Hal' & Hf' & Ho & Hso' & Hsy').
  destruct (flush_buf_inv _ _ _ _ _ _ _ Hwi E) as (Hwi' & _).
  rewrite E. unfold on_file, syscall, next_fate. rewrite Hf'. cbn [map_err wpending set_wbuf]. rewrite <- Hpe.
  set (a' := Active (set_wbuf [] (awriter a)) (acreated a) (aflushed a ++ abuffered a) []).
  assert (Ha' : arecs (Some a') = arecs (Some a)) by apply app_nil_r.
  assert (Hseg : aseg a' = aseg a) by (unfold aseg, a'; cbn; by rewrite app_nil_r).
  exists d', (with_writer (Some (set_wbuf [] (awriter a))) w), a'. split; [by rewrite Hpe|].
  split; [|split; [|by repeat split]].
  - constructor; try done; unfold segs_of; rewrite ?Hseg; try (by auto).
    + intros k. apply (files_same (wfirst (awriter a)) d); [done| |done].
      rewrite map_app. apply elem_of_app. right. by left.
    + by apply (old_disk_same (wfirst (awriter a)) d).
    + by exists b.
    + split; [done|]. split; [|split; [done|by apply Hsy']]. split; [|done].
      change (aflushed a' ++ abuffered a') with (arecs (Some a')). by rewrite Ha'.
  - split; [cbn; lia|]. split; [|by left]. cbn in Hpf |- *. lia.
Qed.

(** [sync_data], on a file that may have been removed meanwhile. *)
Lemma sync_effect d k :
  fate d = [] ->
  exists d', sync k d = (d', Ok tt) /\ fate d' = [] /\ (om_sorted (files d) -> om_sorted (files d'))
    /\ others_same k d d'
    /\ om_lookup k (files d') = (fl ← om_lookup k (files d); Some (File (fdata fl) (zlen (fdata fl)))).
Proof.
  intros Hf. pose proof (sync_fate k d Hf) as [Hf' Hr]. pose proof (sync_sorted k d) as Hso.
  destruct (om_lookup k (files d)) as [fl|] eqn:Hk.
  - pose proof (sync_spec k d fl Hk) as Hs. destruct (sync k d) as [d' r]. cbn in *. subst r.
    destruct Hs as [H1 H2]. exists d'. split; [done|]. split; [done|]. split; [auto|]. done.
  - exists d. unfold sync, bind, syscall, next_fate. rewrite Hf. cbn. unfold modify. rewrite Hk. by repeat split.
Qed.

Lemma flusher_sync_inv job d w old a :
  wal_inv d w old (Some a) -> job_ok job w a ->
  exists d' w', flusher_sync job (d, w) = (d', w') /\ wal_inv d' w' old (Some a)
    /\ durable_cursor w' = job.2 /\ pending_cursor w' = pending_cursor w /\ same_config w w'.
Proof.
  destruct job as [k c]. intros Hinv (Hj1 & Hj2 & Hj3). cbn [fst snd] in *.
  pose proof Hinv as [Hf Hso Hfiles Hok Hne Hdisk Hidx Hsz Hrb (b & Hb & Hch) (Hw & (Hwi & [(s & Hk) Hbf]) & Hab & Hsy) Hdur Hpc Hcl].
  unfold flusher_sync. cbn [fst snd]. destruct (sync_effect d k Hf) as (d' & -> & Hf' & Hso' & Ho & Hl).
  eexists d', _. split; [reflexivity|]. split; [|done].
  assert (Hsame : forall x data n, om_lookup x (files d) = Some (File data n) -> n <= zlen data ->
            exists n', om_lookup x (files d') = Some (File data n') /\ n <= n' <= zlen data
              /\ (x = k -> n' = zlen data)).
  { intros x data n Hx Hn. destruct (decide (x = k)) as [->|Hxk].
    - rewrite Hl, Hx. exists (zlen data). split; [done|]. split; [lia|done].
    - rewrite Ho by done. exists n. split; [done|]. split; [lia|done]. }
  assert (Hs : exists s', om_lookup (wfirst (awriter a)) (files d')
             = Some (File (encode_segment_header (wfirst (awriter a)) (acreated a) ++ enc_all (aflushed a)) s')
           /\ s <= s' /\ (wfirst (awriter a) = k -> s' = SEGMENT_HEADER_LEN + zlen (enc_all (aflushed a)))
           /\ s' <= SEGMENT_HEADER_LEN + zlen (enc_all (aflushed a))).
  { destruct (wi_bytes _ _ _ _ Hwi) as (fl & Hfl & _ & Hsl). rewrite Hk in Hfl. apply (inj Some) in Hfl; subst fl.
    cbn [fdata fsynced] in Hsl. destruct (Hsame _ _ _ Hk) as (s' & Hs' & Hle & Heq); [lia|].
    exists s'. rewrite zlen_app, zlen_encode_segment_header in *. split; [done|]. split; [lia|]. split; [done|lia]. }
  destruct Hs as (s' & Hk' & Hss & Heq & Hle).
  constructor; cbn [count_flush with_durable durable_cursor pending_cursor segments segment_sizes retained_bytes writer
    active_bytes clock]; try done; auto.
  - intros x Hx. apply Hfiles. destruct (decide (x = k)) as [->|Hxk]; [|by rewrite <- Ho].
    rewrite Hl in Hx. by destruct (om_lookup k (files d)).
  - rewrite Forall_forall in Hdisk |- *. intros sg Hsg. specialize (Hdisk _ Hsg). cbv beta in Hdisk.
    destruct (Hsame _ _ _ Hdisk) as (n & Hn & Hnle & _); [lia|]. rewrite Hn. do 2 f_equal. lia.
  - by exists b.
  - split; [done|]. split; [|split; [done|]].
    + split; [|split; [by exists s'|done]]. destruct Hwi as [(fl & Hfl & Hd & Hsl) ? ? ? ? ? ? ? ?].
      rewrite Hk in Hfl. apply (inj Some) in Hfl; subst fl. constructor; try done. eexists. split; [exact Hk'|]. split; [done|].
      cbn [fdata fsynced] in *. rewrite zlen_app, zlen_encode_segment_header in *. lia.
    + eexists. split; [exact Hk'|]. cbn [fsynced aseg sfirst srecs].
      destruct (Z.le_gt_cases c (wfirst (awriter a))) as [Hcl'|Hcg].
      * replace (Z.to_nat (c - wfirst (awriter a))) with 0%nat by lia. rewrite take_0, enc_all_nil, zlen_nil.
        destruct Hsy as (fl & Hfl & Hsl). cbn in Hfl. rewrite Hk in Hfl. apply (inj Some) in Hfl; subst fl. cbn [fsynced] in Hsl.
        pose proof (zlen_nonneg (enc_all (take (Z.to_nat (durable_cursor w - sfirst (aseg a))) (srecs (aseg a))))). lia.
      * destruct Hj3 as [->|?]; [|lia]. rewrite (Heq eq_refl), take_app_le by (unfold zlen in *; lia).
        rewrite <- (take_drop (Z.to_nat (c - wfirst (awriter a))) (aflushed a)) at 2.
        rewrite enc_all_app, zlen_app. pose proof (zlen_nonneg (enc_all (drop (Z.to_nat (c - wfirst (awriter a))) (aflushed a)))). lia.
Qed.

(** C22: the flusher never claims more than the disk holds.  Between its two phases the publisher may append
    any records, with the rotations and the retention they cause; the durable cursor it then publishes
    is the pending cursor of the moment it flushed, and a power cut at any later moment before the next
    operation recovers every record below that cursor. *)
Theorem flusher_publishes_only_synced recs d w old a dc now :
  wal_inv d w old (Some a) -> enabled (cfg w) = true -> poisoned w = false ->
  Forall (fits (cfg w)) recs -> pending_cursor w + zlen recs < two64 ->
  exists s1 job s2, flusher_flush (d, w) = (s1, Some job) /\ append_all recs s1 = (s2, Ok tt)
    /\ durable_cursor (flusher_sync job s2).2 = pending_cursor w
    /\ pending_cursor (flusher_sync job s2).2 = pending_cursor w + zlen recs
    /\ (crash_dir (flusher_sync job s2).1 dc -> is_u64 now ->
          exists d' w', open (cfg w) now dc = (d', Ok w')
            /\ pending_cursor w <= pending_cursor w' <= pending_cursor w + zlen recs).
Proof.
  intros Hinv Hen Hpo Hfit Hmax.
  destruct (flusher_flush_inv _ _ _ _ Hinv) as (d1 & w1 & a1 & E1 & Hi1 & Hj1 & _ & Hp1 & (Hc1 & Hpo1 & _) & _).
  assert (exists d2 w2 old2 a2, append_all recs (d1, w1) = ((d2, w2), Ok tt) /\ wal_inv d2 w2 old2 (Some a2)
            /\ later a1 a2 /\ pending_cursor w2 = pending_cursor w + zlen recs /\ cfg w2 = cfg w)
    as (d2 & w2 & old2 & a2 & E2 & Hi2 & Hl2 & Hp2 & Hc2).
  { destruct recs as [|rc recs].
    - exists d1, w1, old, a1. rewrite zlen_nil. split; [done|]. split; [done|]. split; [apply later_refl|].
      split; [lia|done].
    - destruct (append_all_spec (rc :: recs) d1 w1 old (Some a1) Hi1)
        as (d2 & w2 & old2 & a2 & dr & E2 & Hi2 & _ & Hp2 & _ & _ & _ & Hc2 & _ & Hl2);
        rewrite ?Hc1, ?Hpo1, ?Hp1; try done.
      exists d2, w2, old2, a2. split; [done|]. split; [done|]. split; [auto|]. split; [lia|congruence]. }
  pose proof (zlen_nonneg recs) as Hz.
  assert (Hj2 : job_ok (wfirst (awriter a), pending_cursor w) w2 a2) by (eapply job_later; [exact Hi1|done|done|lia]).
  destruct (flusher_sync_inv _ _ _ _ _ Hi2 Hj2) as (d3 & w3 & E3 & Hi3 & Hd3 & Hp3 & (Hc3 & _)).
  exists (d1, w1), (wfirst (awriter a), pending_cursor w), (d2, w2). rewrite E3. cbn [fst snd].
  split; [done|]. split; [done|]. split; [done|]. split; [lia|]. intros Hcr Hnow.
  destruct (crash_reopens _ _ _ _ _ now Hi3 Hcr Hnow) as (n & d' & w' & _ & E & _ & Hp & _).
  rewrite Hc3, Hc2 in E. cbn [snd] in Hd3. exists d', w'. split; [done|]. lia.
Qed.
End flusher.

(** ** A concrete run: three records flushed, three more appended before the sync *)

Lemma flusher_publishes_only_synced_witness :
  exists s1 job s2, flusher_flush (each_disk, each_wal) = (s1, Some job)
    /\ append_all (H := sum_crc) (drop 3 demo_recs) s1 = (s2, Ok tt)
    /\ durable_cursor (flusher_sync job s2).2 = 3 /\ pending_cursor (flusher_sync job s2).2 = 6.
Proof.
  destruct each_inv as (old & a & Hinv).
  destruct (flusher_publishes_only_synced (H := sum_crc) (drop 3 demo_recs) each_disk each_wal old a each_disk 10)
    as (s1 & job & s2 & E1 & E2 & Hd & Hp & _).
  - exact Hinv.
  - vm_compute. reflexivity.
  - vm_compute. reflexivity.
  - replace (cfg each_wal) with (demo_cfg Each) by (vm_compute; reflexivity). apply Forall_drop. exact (demo_fits Each).
  - vm_compute. reflexivity.
  - exists s1, job, s2. split; [exact E1|]. split; [exact E2|].
    assert (Hc : pending_cursor each_wal = 3) by (vm_compute; reflexivity). rewrite Hc in *.
    split; [exact Hd|]. rewrite Hp. vm_compute. reflexivity.
Defined.
