(* ===== verification/WalApi.v ===== *)
(** * What the publisher needs of a write-ahead log

    [crates/mmbus/src/wal/mod.rs] re-exports one of two backends under the same names.  [WalBackend] is the
    part of that API the publisher calls; [WalLaws] is the contract its theorems rely on; the instance
    shows that the v1 log of [WalV1.v] honours it. *)

From Stdlib Require Import ZArith Lia.
From stdpp Require Import base option list.
From S2P Require Import Prelude OrdMap Chain Ring Stats Record Disk SegmentReader SegmentWriter Config WalV1 WalRecovery.

Class WalBackend (W WE : Type) := {
  wb_append : Z -> Z -> list byte -> M W WE unit;
  wb_pending_cursor : W -> Z;
  wb_current_ts : W -> Z;
  wb_stats : W -> wal_stats
}.

(** [wal_logs w base hist]: the payloads logged from cursor [base] on are [hist] (retention may have
    removed the oldest of them from disk).  [wal_fits w data]: no segment is too small for [data]. *)
Class WalLaws (W WE : Type) `{WalBackend W WE} := {
  wal_logs : W -> Z -> list (list byte) -> Prop;
  wal_fits : W -> list byte -> Prop;
  wal_logs_pending : forall w base hist, wal_logs w base hist -> wb_pending_cursor w = base + zlen hist;
  wal_append_logs : forall w base hist data,
    wal_logs w base hist -> wal_fits w data -> wb_pending_cursor w + 1 < two64 ->
    exists w', wb_append (wb_pending_cursor w) (wb_current_ts w) data w = (w', Ok tt)
      /\ wal_logs w' base (hist ++ [data]) /\ (forall x, wal_fits w x -> wal_fits w' x)
}.

(** ** The v1 log *)

#[export] Instance wal_v1_backend `{Crc} : WalBackend WalV1.st wal_error := {
  wb_append := WalV1.append;
  wb_pending_cursor s := pending_cursor s.2;
  wb_current_ts s := clock s.2;
  wb_stats s := WalV1.stats s.2
}.

Definition v1_logs `{Crc} (s : WalV1.st) (base : Z) (hist : list (list byte)) : Prop :=
  exists old act dropped, wal_inv s.1 s.2 old act /\ enabled (cfg s.2) = true /\ poisoned s.2 = false
    /\ map payload (dropped ++ log_of (segs_of old act)) = hist /\ pending_cursor s.2 = base + zlen hist.

Definition v1_fits (s : WalV1.st) (data : list byte) : Prop :=
  zlen data <= MAX_PAYLOAD_LEN /\ SEGMENT_HEADER_LEN + RECORD_FRAMING + zlen data <= segment_size_max (cfg s.2).

#[export] Program Instance wal_v1_laws `{Crc} : WalLaws WalV1.st wal_error := {
  wal_logs := v1_logs;
  wal_fits := v1_fits
}.
Next Obligation. by intros ? s base hist (_ & _ & _ & _ & _ & _ & _ & ?). Qed.
Next Obligation.
  intros ? [d w] base hist data (old & act & dropped & Hinv & Hen & Hpo & Hh & Hp) (Hl & Hf) Hmax. cbn [fst snd wb_append wb_pending_cursor wb_current_ts wal_v1_backend] in *.
  destruct (append_spec d w old act (clock w) data Hinv) as (d' & w' & old' & a' & dr & E & Hinv' & Hlog & Hp' & _ & _ & _ & Hc & Hpo' & _).
  { split; try done. apply (wv_clock _ _ _ _ Hinv). }
  exists (d', w'). split; [exact E|]. split; [|intros x [H1 H2]; unfold v1_fits; cbn [snd] in *; by rewrite Hc].
  exists old', (Some a'), (dropped ++ dr). cbn [fst snd]. rewrite Hc. split; [done|]. split; [done|]. split; [done|].
  rewrite <- app_assoc, Hlog, app_assoc, map_app, Hh. split; [done|]. rewrite zlen_app, zlen_cons, zlen_nil. lia.
Qed.

(** * What the subscriber needs of the log on disk

    [WalReader::open], [oldest_cursor], [read_from] and the replayer's [next], over the directory [D]. *)

Class ReplayBackend (D Ix R RE : Type) := {
  rb_open : D -> option Ix;                   (* [WalReader::open(&dir).ok()] *)
  rb_oldest : Ix -> option Z;
  rb_read_from : Ix -> Z -> result RE R;
  rb_next : R -> D -> D * R * option (result RE (Z * list byte));
  rb_too_old : RE -> option (Z * Z)           (* the fields of [WalError::CursorTooOld] *)
}.

(** [rl_holds d b hist]: the directory holds the payloads [hist] from cursor [b] on.
    [rl_replays d r c hist]: the replayer still has to yield [hist], from cursor [c] on. *)
Class ReplayLaws (D Ix R RE : Type) `{ReplayBackend D Ix R RE} := {
  rl_holds : D -> Z -> list (list byte) -> Prop;
  rl_replays : D -> R -> Z -> list (list byte) -> Prop;
  rl_next : forall d r c hist, rl_replays d r c hist ->
    exists d' r', rb_next r d = (d', r', match hist with [] => None | x :: _ => Some (Ok (c, x)) end)
      /\ forall x h, hist = x :: h -> rl_replays d' r' (c + 1) h;
  rl_read : forall d b hist, rl_holds d b hist ->
    exists ix, rb_open d = Some ix /\ rb_oldest ix = Some b
      /\ (forall c, c < b -> exists e, rb_read_from ix c = Err e /\ rb_too_old e = Some (c, b))
      /\ (forall c, b <= c -> exists r, rb_read_from ix c = Ok r /\ rl_replays d r c (zdrop (c - b) hist))
}.

Section v1_replay.
Context `{Crc}.

Definition path_len (d : disk) (p : Z) : nat :=
  match om_lookup p (files d) with Some f => length (fdata f) | None => 0 end.

(** The replayer's loop goes through each file once, and every record takes a byte. *)
Definition replay_fuel (r : replayer) (d : disk) : nat :=
  3 + list_sum (map (fun p => 2 + path_len d p)%nat (rsegments r))
  + match current r with Some rd => length (file_bytes rd) | None => 0 end.

#[export] Instance v1_replay_backend : ReplayBackend disk (omap Z) replayer wal_error := {
  rb_open d := Some (reader_open d);
  rb_oldest := om_first;
  rb_read_from := reader_read_from;
  rb_next r d :=
    let '(d, r, x) := replay_next (replay_fuel r d) r d in
    (d, r, match x with
           | None => None
           | Some (Ok rec) => Some (Ok (rcursor rec, payload rec))
           | Some (Err e) => Some (Err e)
           end);
  rb_too_old e := match e with CursorTooOld requested oldest => Some (requested, oldest) | _ => None end
}.

Definition v1_replays (d : disk) (r : replayer) (c : Z) (hist : list (list byte)) : Prop :=
  exists rem, replay_repr d r rem /\ consecutive c (List.filter (wanted r) rem)
    /\ map payload (List.filter (wanted r) rem) = hist.

Definition v1_holds (d : disk) (b : Z) (hist : list (list byte)) : Prop :=
  exists segs e, om_keys (files d) = map sfirst segs /\ chain b segs e /\ inner_nonempty segs /\ segs <> []
    /\ Forall seg_ok segs /\ disk_holds d segs /\ map payload (log_of segs) = hist.

Lemma replay_fuel_enough d r rem : replay_repr d r rem -> (replay_measure r rem < replay_fuel r d)%nat.
Proof.
  intros (segs & cur_rs & (_ & Hd & Hs & Hcur) & ->). unfold replay_measure, replay_fuel. rewrite Hs, length_map.
  assert (Hsum : (length (log_of segs) + 2 * length segs <= list_sum (map (fun p => 2 + path_len d p)%nat (map sfirst segs)))%nat).
  { clear Hs Hcur. induction Hd as [|sg segs [s Hk] _ IH]; [done|]. rewrite log_of_cons, length_app. cbn [map list_sum foldr length].
    change (fold_right Nat.add 0%nat) with list_sum. unfold path_len at 1. rewrite Hk. cbn [fdata].
    unfold seg_file. rewrite length_app. pose proof (enc_all_length (srecs sg)). lia. }
  assert (Hc : (length cur_rs <= match current r with Some rd => length (file_bytes rd) | None => 0 end)%nat).
  { destruct (current r) as [rd|]; [|by subst]. destruct Hcur as (_ & _ & _ & pre & -> & _).
    rewrite length_app. pose proof (enc_all_length cur_rs). lia. }
  rewrite length_app. destruct (current r); lia.
Qed.

Lemma consecutive_zdrop c n rs : consecutive c rs -> 0 <= n -> consecutive (c + n) (zdrop n rs).
Proof.
  intros Hc Hn i x Hx. unfold zdrop in Hx. rewrite lookup_drop in Hx. rewrite (Hc _ _ Hx). lia.
Qed.

Lemma map_zdrop {A B} (f : A -> B) n l : map f (zdrop n l) = zdrop n (map f l).
Proof. apply fmap_drop. Qed.

(** The messages logged from cursor [c] on, by the records of the log [rs] that begins at [b]. *)
Lemma logged_from base b c dropped rs hist : map payload (dropped ++ rs) = hist -> base + zlen hist = b + zlen rs -> b <= c ->
  zdrop (c - base) hist = map payload (zdrop (c - b) rs).
Proof.
  intros <- Hb Hc. rewrite map_zdrop. rewrite map_app in *. rewrite zlen_app, !zlen_map in Hb. rewrite zdrop_app_ge by (rewrite zlen_map; lia).
  rewrite zlen_map. f_equal. lia.
Qed.

#[export] Program Instance v1_replay_laws : ReplayLaws disk (omap Z) replayer wal_error := {
  rl_holds := v1_holds;
  rl_replays := v1_replays
}.
Next Obligation.
  intros d r c hist (rem & Hr & Hc & Hh).
  destruct (replay_next_spec _ d r rem Hr (replay_fuel_enough d r rem Hr)) as (r' & rem' & E & Hr' & Hfl & Htl & _).
  cbn [rb_next v1_replay_backend]. rewrite E. exists d, r'.
  assert (Hw : forall rec, wanted r' rec = wanted r rec) by (intros; unfold wanted; by rewrite Hfl).
  destruct (List.filter (wanted r) rem) as [|x xs] eqn:Ef; cbn [map List.tl] in *; subst hist.
  - by split.
  - split; [|intros y h [= <- <-]; exists rem'; rewrite (List.filter_ext _ _ Hw), Htl; split; [done|]].
    + rewrite (Hc O x eq_refl). do 4 f_equal. lia.
    + split; [|done]. intros i y Hy. rewrite (Hc (S i) y Hy). lia.
Qed.
Next Obligation.
  intros d b hist (segs & e & Hk & Hch & Hne & Hnil & Hok & Hd & Hh). exists (reader_open d). split; [done|].
  assert (Hix : reader_open d = index_of segs).
  { unfold reader_open, index_of. rewrite Hk, map_map. done. }
  cbn [rb_oldest rb_read_from rb_too_old v1_replay_backend]. unfold reader_read_from. rewrite Hix.
  assert (Hfirst : om_first (index_of segs) = Some b).
  { destruct segs as [|sg segs']; [done|]. by destruct Hch as [<- _]. }
  split; [done|]. split.
  - intros c Hc. unfold read_from_index. rewrite Hfirst, (proj2 (Z.ltb_lt _ _) Hc). by eexists.
  - intros c Hc. destruct (read_from_index_repr d b segs e c Hch Hne Hnil Hok Hd Hc) as (r & rem & E & Hr & Hf & _).
    exists r. split; [done|]. exists rem. split; [done|]. rewrite Hf. split; [|by rewrite <- Hh, map_zdrop].
    pose proof (consecutive_zdrop b (c - b) _ (chain_consecutive _ _ _ Hch Hok) ltac:(lia)) as Hcc.
    by replace c with (b + (c - b)) at 1 by lia.
Qed.
End v1_replay.
