(* ===== verification/WalFollow.v ===== *)
(** * Replaying a log that goes on

    A subscriber that replays the log does so while the publisher appends to it, starts new segments and drops
    old ones.  [FollowLaws] is what the two logs promise about that, one record at a time; here for the
    log of [WalV1.v], in [WalV2Follow.v] for the lock-free one. *)

From Stdlib Require Import ZArith Lia Strings.Byte.
From stdpp Require Import base option list.
From S2P Require Import Prelude OrdMap Chain Ring Stats Record Disk SegmentReader SegmentWriter Config WalV1 WalRecovery WalApi.

(** The directory of a log, and what it is when there is none. *)
Class LogFiles (W D : Type) := { lf_dir : W -> D; lf_none : D }.

(** [lf_keeps w b new]: the files hold the log from cursor [b] on, what is appended shows in them at once, and
    appending [new] removes none of them.
    [lf_follows w r c hist]: the replayer has [hist] to yield, from cursor [c] on, as the log is. *)
Class FollowLaws (W WE D Ix R RE : Type) `{!WalBackend W WE} `{!WalLaws W WE} `{!ReplayBackend D Ix R RE} `{!LogFiles W D} := {
  lf_keeps : W -> Z -> list (list byte) -> Prop;
  lf_follows : W -> R -> Z -> list (list byte) -> Prop;
  lf_part : forall w b l k, lf_keeps w b (l ++ k) -> lf_keeps w b l /\ lf_keeps w b k;
  lf_open : forall w base hist b c, wal_logs w base hist -> lf_keeps w b [] -> b <= c < wb_pending_cursor w ->
    exists ix r, rb_open (lf_dir w) = Some ix /\ rb_oldest ix = Some b /\ rb_read_from ix c = Ok r
      /\ lf_follows w r c (zdrop (c - base) hist);
  lf_next : forall w r c hist, lf_follows w r c hist ->
    exists r', rb_next r (lf_dir w) = (lf_dir w, r', match hist with [] => None | x :: _ => Some (Ok (c, x)) end)
      /\ forall x h, hist = x :: h -> lf_follows w r' (c + 1) h;
  lf_append : forall w w' base hist b data rest, wal_logs w base hist -> wal_fits w data -> wb_pending_cursor w + 1 < two64 ->
    lf_keeps w b (data :: rest) -> wb_append (wb_pending_cursor w) (wb_current_ts w) data w = (w', Ok tt) ->
    lf_keeps w' b rest /\ forall r c h, lf_follows w r c h ->
      lf_follows w' r c h \/ (c + zlen h = wb_pending_cursor w /\ lf_follows w' r c (h ++ [data]))
}.

(** What records cost together. *)
Definition total_cost (cost : list byte -> Z) (new : list (list byte)) : Z := foldr Z.add 0 (map cost new).

Lemma total_cost_app cost l k : total_cost cost (l ++ k) = total_cost cost l + total_cost cost k.
Proof. unfold total_cost. induction l as [|x l IH]; cbn in *; lia. Qed.

Lemma total_cost_nonneg cost l : (forall x, 0 <= cost x) -> 0 <= total_cost cost l.
Proof. intros Hc. unfold total_cost. induction l as [|x l IH]; cbn in *; [lia|]. specialize (Hc x). lia. Qed.

(** ** The v1 log *)

Section v1_follow.
Context `{Crc}.

#[export] Instance wal_v1_files : LogFiles WalV1.st disk := { lf_dir := fst; lf_none := Disk [] [] }.

(** Nothing waits in the writer's buffer. *)
Definition all_flushed (w : wal) : Prop := match writer w with Some sw => wbuf sw = [] | None => True end.

(** What a record may add to the files. *)
Definition v1_cost (data : list byte) : Z := SEGMENT_HEADER_LEN + RECORD_FRAMING + zlen data.

Lemma v1_cost_nonneg data : 0 <= v1_cost data.
Proof. unfold v1_cost, SEGMENT_HEADER_LEN, RECORD_FRAMING. pose proof (zlen_nonneg data). lia. Qed.

Definition v1_keeps (s : WalV1.st) (b : Z) (new : list (list byte)) : Prop :=
  policy (cfg s.2) = Each /\ all_flushed s.2 /\ match om_first (segments s.2) with Some o => o = b | None => pending_cursor s.2 = b end
  /\ retained_bytes s.2 + active_bytes s.2 + total_cost v1_cost new <= retention_bytes (cfg s.2).

(** The segments [l] still to open are some of the log's, and as long as they go on to its end, so does what
    the replayer yields. *)
Definition v1_follows (s : WalV1.st) (r : replayer) (c : Z) (hist : list (list byte)) : Prop :=
  exists old act pre l post cur_rs, wal_inv s.1 s.2 old act /\ segs_of old act = pre ++ l ++ post /\ replay_at s.1 r l cur_rs
    /\ cursor_floor r <= c /\ consecutive c (List.filter (wanted r) (cur_rs ++ log_of l))
    /\ map payload (List.filter (wanted r) (cur_rs ++ log_of l)) = hist
    /\ (post = [] -> l <> [] -> c + zlen hist = pending_cursor s.2).

Lemma enc_all_nil_inv rs : enc_all rs = [] -> rs = [].
Proof. destruct rs as [|r rs]; [done|]. intros E. pose proof (enc_all_length (r :: rs)) as Hl. rewrite E in Hl. cbn in Hl. lia. Qed.

(** The files hold the whole log. *)
Lemma flushed_disk d w old act : wal_inv d w old act -> all_flushed w ->
  segments w = index_of (segs_of old act) /\ inner_nonempty (segs_of old act) /\ Forall seg_ok (segs_of old act) /\ disk_holds d (segs_of old act)
  /\ exists b, 0 <= b /\ chain b (segs_of old act) (pending_cursor w).
Proof.
  intros Hinv Hfl. destruct act as [a|].
  - pose proof (wv_act _ _ _ _ Hinv) as (Hw & (_ & [_ Hbuf]) & _). unfold all_flushed in Hfl. rewrite Hw, Hbuf in Hfl. apply enc_all_nil_inv in Hfl.
    destruct (wal_inv_flushed _ _ _ _ Hinv) as (H1 & H2 & H3 & H4 & b & Hb & _ & Hch).
    assert (Hseg : flushed_seg a = aseg a) by (unfold flushed_seg, aseg; by rewrite Hfl, app_nil_r). rewrite Hseg in *.
    do 4 (split; [done|]). by exists b.
  - pose proof (inner_nonempty_segs_of old None (wv_nonempty _ _ _ _ Hinv)) as Hin. rewrite segs_of_none in *.
    destruct Hinv as [_ _ _ Hok Hne Hdisk Hidx _ _ (b & Hb & Hch) _ _ _ _]. rewrite segs_of_none in *.
    do 3 (split; [done|]). split; [|by exists b]. eapply Forall_impl; [exact Hdisk|]. intros sg Hsg. eexists; exact Hsg.
Qed.

Lemma v1_open_follows s base hist b c : v1_logs s base hist -> v1_keeps s b [] -> b <= c < pending_cursor s.2 ->
  exists r, om_first (reader_open s.1) = Some b /\ reader_read_from (reader_open s.1) c = Ok r /\ v1_follows s r c (zdrop (c - base) hist).
Proof.
  destruct s as [d w]. intros (old & act & dropped & Hinv & _ & _ & Hh & Hp) (_ & Hfl & Hb & _) Hc. cbn [fst snd] in *.
  destruct (flushed_disk _ _ _ _ Hinv Hfl) as (Hsegs & Hne & Hok & Hd & b' & Hb' & Hch). rewrite Hsegs in Hb. set (segs := segs_of old act) in *.
  assert (b' = b) as -> by exact (begins_chain b segs _ _ Hb Hch). clear Hb.
  assert (Hix : reader_open d = index_of segs) by (unfold reader_open, index_of; rewrite (wal_inv_keys_of _ _ _ _ Hinv); by rewrite map_map).
  rewrite Hix in *. assert (Hnil : segs <> []) by (intros E; rewrite E in Hch; cbn in Hch; lia).
  pose proof (index_first _ _ _ Hch Hnil) as Hfirst. destruct Hc as [Hcb Hc].
  unfold reader_read_from, read_from_index. rewrite Hfirst.
  destruct (index_from _ _ _ _ Hch Hne Hnil Hok Hcb) as (l1 & l2 & E & _ & Hv & Hfi). destruct (Z.ltb_spec c b); [lia|]. cbv zeta. rewrite Hv.
  pose proof (consecutive_zdrop b (c - b) _ (chain_consecutive _ _ _ Hch Hok) ltac:(lia)) as Hcc. replace (b + (c - b)) with c in Hcc by lia.
  eexists. split; [done|]. split; [reflexivity|]. exists old, act, l1, l2, [], []. cbn [fst snd app]. rewrite app_nil_r. fold segs. rewrite E in Hok, Hd.
  apply Forall_app in Hok as [_ Hok2]. apply Forall_app in Hd as [_ Hd2].
  assert (Hw : List.filter (wanted (Replayer (map sfirst l2) c None)) (log_of l2) = zdrop (c - b) (log_of segs)) by exact Hfi.
  rewrite Hw. pose proof (chain_length _ _ _ Hch) as Hlen.
  assert (Hhist : zdrop (c - base) hist = map payload (zdrop (c - b) (log_of segs))).
  { eapply logged_from; [exact Hh|lia|lia]. }
  do 5 (split; [done|]).
  split; [by rewrite Hhist|]. intros _ _. rewrite Hhist, zlen_map, zlen_zdrop by lia. lia.
Qed.

Lemma v1_next_follows s r c hist : v1_follows s r c hist ->
  exists r', rb_next r s.1 = (s.1, r', match hist with [] => None | x :: _ => Some (Ok (c, x)) end)
    /\ forall x h, hist = x :: h -> v1_follows s r' (c + 1) h.
Proof.
  destruct s as [d w]. intros (old & act & pre & l & post & cur_rs & Hinv & E & Hr & Hfl & Hc & Hh & Hend). cbn [fst snd] in *.
  assert (Hrepr : replay_repr d r (cur_rs ++ log_of l)) by by eexists _, _.
  destruct (replay_next_at _ d r l cur_rs Hr (replay_fuel_enough _ _ _ Hrepr)) as (r' & k & rs' & En & Hr' & Hfl' & Htl & _). cbv zeta in *.
  cbn [rb_next v1_replay_backend]. rewrite En. exists r'.
  assert (Hw : forall rec, wanted r' rec = wanted r rec) by (intros; unfold wanted; by rewrite Hfl').
  destruct (List.filter (wanted r) (cur_rs ++ log_of l)) as [|x xs] eqn:Ef; cbn [map List.tl] in *; subst hist; [by split|].
  split.
  { rewrite (Hc O x eq_refl). do 4 f_equal. lia. }
  intros y h [= <- <-]. exists old, act, (pre ++ take k l), (drop k l), post, rs'. cbn [fst snd]. rewrite (List.filter_ext _ _ Hw), Htl, Hfl'.
  split; [done|]. split; [by rewrite E, <- app_assoc, (app_assoc (take k l)), take_drop|]. split; [done|]. split; [lia|]. split.
  - intros i z Hz. rewrite (Hc (S i) z Hz). lia.
  - split; [done|]. intros Hpost Hl. rewrite zlen_cons in Hend. assert (Hl' : l <> []) by (intros ->; by destruct k). specialize (Hend Hpost Hl'). lia.
Qed.

Lemma v1_append_follows s s' base hist b data rest : v1_logs s base hist -> v1_fits s data -> pending_cursor s.2 + 1 < two64 ->
  v1_keeps s b (data :: rest) -> append (pending_cursor s.2) (clock s.2) data s = (s', Ok tt) ->
  v1_keeps s' b rest /\ forall r c h, v1_follows s r c h ->
    v1_follows s' r c h \/ (c + zlen h = pending_cursor s.2 /\ v1_follows s' r c (h ++ [data])).
Proof.
  destruct s as [d w]. intros Hlogs [Hl1 Hl2] Hmax (Hea & Hflu & Hbeg & Hby) E. cbn [fst snd] in *. change (total_cost v1_cost (data :: rest)) with (v1_cost data + total_cost v1_cost rest) in Hby.
  set (rec := Record_ (pending_cursor w) (clock w) data).
  pose proof (total_cost_nonneg v1_cost rest v1_cost_nonneg) as Hrest.
  assert (Hstep : forall old act, wal_inv d w old act -> exists old' a', wal_inv s'.1 s'.2 old' (Some a') /\ grown rec (segs_of old act) (segs_of old' (Some a'))
    /\ pending_cursor s'.2 = pending_cursor w + 1 /\ v1_keeps s' b rest).
  { intros old act Hinv. destruct Hlogs as (_ & _ & _ & _ & Hen & Hpo & _). cbn [snd] in *.
    destruct (append_spec d w old act (clock w) data Hinv) as (d' & w' & old' & a' & dr & E' & Hinv' & _ & Hp' & _ & _ & _ & Hc & _ & _ & Hbu & segs & _ & Hg & Hdr).
    { split; try done. apply (wv_clock _ _ _ _ Hinv). }
    rewrite E' in E. injection E as <-. pose proof (grown_total _ _ _ Hg) as Ht. rewrite <- (wal_inv_bytes _ _ _ _ Hinv) in Ht.
    unfold v1_cost at 1 in Hby. unfold encoded_len in Ht. cbn [payload] in Ht. rewrite Hdr in Hg, Ht by lia. cbn [app] in Hg, Ht.
    exists old', a'. cbn [fst snd]. do 3 (split; [done|]). unfold v1_keeps, all_flushed. cbn [snd].
    rewrite Hc, (wal_inv_bytes _ _ _ _ Hinv'). split; [done|]. split; [|split; [|lia]].
    - destruct (wv_act _ _ _ _ Hinv') as (-> & (_ & [_ ->]) & _). by rewrite Hbu.
    - destruct (wv_chain _ _ _ _ Hinv) as (b1 & _ & Hch1). destruct (wv_chain _ _ _ _ Hinv') as (b2 & _ & Hch2).
      rewrite (wv_index _ _ _ _ Hinv) in Hbeg. rewrite (wv_index _ _ _ _ Hinv'). rewrite Hp' in *. by apply (grown_begins _ b _ _ _ b1 b2 Hg). }
  split.
  { destruct Hlogs as (old & act & _ & Hinv & _). by destruct (Hstep _ _ Hinv) as (? & ? & _ & _ & _ & ?). }
  intros r c h (old & act & pre & l & post & cur_rs & Hinv & Es & (Hok & Hd & Hs & Hcur) & Hfl & Hc & Hh & Hend). cbn [fst snd] in *.
  destruct (Hstep _ _ Hinv) as (old' & a' & Hinv' & Hg & Hp' & (_ & Hflu' & _ & _)). destruct s' as [d' w']. cbn [fst snd] in *.
  destruct (flushed_disk _ _ _ _ Hinv' Hflu') as (_ & _ & Hok' & Hd' & _). rewrite Es in Hg.
  destruct (grown_listed _ _ _ _ _ Hg) as [(pre' & post' & Es' & Hlast)|(l0 & sg & sg' & -> & -> & Es' & Hf & Hrs)]; rewrite Es' in Hok', Hd'.
  - left. exists old', (Some a'), pre', l, post', cur_rs. cbn [fst snd]. apply Forall_app in Hok' as [_ Hok']. apply Forall_app in Hok' as [Hok' _].
    apply Forall_app in Hd' as [_ Hd']. apply Forall_app in Hd' as [Hd' _]. do 6 (split; [done|]). intros Hpo Hl. by specialize (Hlast Hpo).
  - right. assert (Hend' : c + zlen h = pending_cursor w) by (apply Hend; [done|by destruct l0]). split; [done|].
    exists old', (Some a'), pre, (l0 ++ [sg']), [], cur_rs. cbn [fst snd]. rewrite app_nil_r. apply Forall_app in Hok' as [_ Hok']. apply Forall_app in Hd' as [_ Hd'].
    assert (Hlog : log_of (l0 ++ [sg']) = log_of (l0 ++ [sg]) ++ [rec]) by (apply grown_log; left; by exists l0, sg, sg').
    assert (Hwant : List.filter (wanted r) (cur_rs ++ log_of (l0 ++ [sg'])) = List.filter (wanted r) (cur_rs ++ log_of (l0 ++ [sg])) ++ [rec]).
    { rewrite Hlog, app_assoc, List.filter_app. f_equal. cbn [List.filter]. unfold wanted. cbn [rcursor rec].
      pose proof (zlen_nonneg h). destruct (Z.ltb_spec (pending_cursor w) (cursor_floor r)); [lia|done]. }
    rewrite Hwant. do 2 (split; [done|]). split; [split; [done|]; split; [done|]; rewrite map_app in *; cbn [map] in *; by rewrite Hf|]. split; [done|]. split.
    + apply consecutive_app. split; [done|]. rewrite <- Hh, zlen_map in Hend'. intros [|i] z Hz; [|done]. injection Hz as <-. cbn [rcursor rec]. lia.
    + rewrite map_app, Hh. split; [done|]. intros _ _. rewrite zlen_app, zlen_cons, zlen_nil. lia.
Qed.

#[export] Program Instance v1_follow_laws : FollowLaws WalV1.st wal_error disk (omap Z) replayer wal_error := {
  lf_keeps := v1_keeps;
  lf_follows := v1_follows
}.
Next Obligation.
  intros s b l k (H1 & H2 & H3 & H4). rewrite total_cost_app in H4.
  pose proof (total_cost_nonneg v1_cost l v1_cost_nonneg). pose proof (total_cost_nonneg v1_cost k v1_cost_nonneg).
  split; (do 3 (split; [done|])); lia.
Qed.
Next Obligation.
  intros s base hist b c Hl Hk Hc. exists (reader_open s.1). destruct (v1_open_follows s base hist b c Hl Hk Hc) as (r & Ho & E & Hf). by exists r.
Qed.
Next Obligation. intros s r c hist Hf. by apply v1_next_follows. Qed.
Next Obligation. intros s s' base hist b data rest Hl Hf Hp Hk E. exact (v1_append_follows s s' base hist b data rest Hl Hf Hp Hk E). Qed.
End v1_follow.
