(* ===== verification/SegmentV2.v ===== *)
(** * Memory-mapped segments ([crates/mmbus/src/wal/v2/mmap_segment_writer.rs],
      [crates/mmbus/src/wal/v2/mmap_segment_reader.rs])

    A v2 segment is a pre-allocated file that writer and readers map.  A record is published in single
    stores: the tail is moved, the length field is written with its in-flight bit, then the body and the
    checksum, then the clean length.  The theorems: an append is the list append it stands for, and at no
    point between two stores does a reader see anything but committed records. *)

From Stdlib Require Import ZArith Lia Strings.Byte.
From stdpp Require Import base option gmap list.
From S2P Require Import Prelude Disk Record.

Definition SEGMENT_VERSION_V2 : Z := 2.
Definition WRITING_BIT_U32 : Z := Z.shiftl 1 31.
Definition TAIL_OFFSET : Z := 24.
Definition SKIP_TO_END_SENTINEL : Z := two32 - 1.

(** [(unpadded + 7) & !7] *)
Definition align_record_len (unpadded : Z) : Z := Z.land (unpadded + 7) (Z.lnot 7).

Inductive append_outcome := Appended (byte_offset next_cursor : Z) | SegmentFull.

Inductive mmap_reader_error :=
  | ReaderIo (e : io_error)
  | Header2 (e : header_error)
  | LegacyV1Segment
  | OversizeRecord2 (record_len offset : Z)
  | UndersizeRecord (record_len offset : Z)
  | CrcMismatch2 (offset stored computed : Z).

Inductive read_outcome :=
  | GotRecord (r : record)
  | AwaitMore
  | EndOfSegment
  | ReadErr (e : mmap_reader_error)
  | BadLoad (offset : Z).   (* of the model: [record_len_atomic] makes a load that it may not make *)

(** ** The mapped bytes *)

Definition get_u32 (m : list byte) (off : Z) : Z := from_le (zslice off (off + 4) m).
Definition get_u64 (m : list byte) (off : Z) : Z := from_le (zslice off (off + 8) m).
Definition put_u32 (off v : Z) (m : list byte) : list byte := zsplice off (to_le 4 v) m.
Definition put_u64 (off v : Z) (m : list byte) : list byte := zsplice off (to_le 8 v) m.

Definition seg_tail (m : list byte) : Z := get_u64 m TAIL_OFFSET.

Section segment_v2.
Context `{Crc}.

(** ** Writer *)

(** What [create] leaves in a file of [segment_size] zero bytes. *)
Definition create_bytes (segment_size first_cursor : Z) : list byte :=
  let m := zrep segment_size Byte.x00 in
  let m := put_u64 0 SEGMENT_MAGIC m in
  let m := put_u32 8 SEGMENT_VERSION_V2 m in
  let m := put_u64 16 first_cursor m in
  put_u64 TAIL_OFFSET SEGMENT_HEADER_LEN m.

Definition segment_too_small (segment_size : Z) : bool := segment_size <? SEGMENT_HEADER_LEN + RECORD_FRAMING.

(** The stores of [append] once the tail's compare-and-swap is due, in program order. *)
Definition append_stores (offset cursor ts : Z) (payload : list byte) : list (list byte -> list byte) :=
  let aligned := align_record_len (RECORD_FRAMING + zlen payload) in
  [ put_u64 TAIL_OFFSET (offset + aligned);
    put_u32 offset (Z.lor aligned WRITING_BIT_U32);
    put_u64 (offset + 4) cursor;
    put_u64 (offset + 12) ts;
    put_u32 (offset + 20) (zlen payload);
    zsplice (offset + 24) payload;
    (fun m => put_u32 (offset + aligned - 4) (crc32c (zslice (offset + 4) (offset + (aligned - 4)) m)) m);
    put_u32 offset aligned ].

Definition run_stores (l : list (list byte -> list byte)) (m : list byte) : list byte := foldl (fun m f => f m) m l.

(** [append]; [None] is [PayloadTooLarge]. *)
Definition append (segment_size cursor ts : Z) (payload : list byte) (m : list byte) :
    list byte * option append_outcome :=
  if MAX_PAYLOAD_LEN <? zlen payload then (m, None)
  else
    let aligned := align_record_len (RECORD_FRAMING + zlen payload) in
    let current := seg_tail m in
    if segment_size <? current + aligned then (m, Some SegmentFull)
    else (run_stores (append_stores current cursor ts payload) m, Some (Appended current (wrap64 (cursor + 1)))).

Definition write_skip_to_end (segment_size : Z) (m : list byte) : list byte * bool :=
  let current := seg_tail m in
  if segment_size <? current + 4 then (m, false)
  else (put_u32 current SKIP_TO_END_SENTINEL (put_u64 TAIL_OFFSET (current + 4) m), true).

(** ** Reader *)

Record mmap_reader := MmapReader { rd_size : Z; rd_first : Z; rd_pos : Z }.

Definition open_bytes (m : list byte) : result mmap_reader_error mmap_reader :=
  if zlen m <? SEGMENT_HEADER_LEN then Err (Header2 (Truncated (zlen m)))
  else
    let magic := get_u64 m 0 in
    if negb (magic =? SEGMENT_MAGIC) then Err (Header2 (BadMagic magic))
    else
      let version := get_u32 m 8 in
      if version =? 1 then Err LegacyV1Segment
      else if negb (version =? SEGMENT_VERSION_V2) then Err (Header2 (UnsupportedVersion version))
      else Ok (MmapReader (zlen m) (get_u64 m 16) SEGMENT_HEADER_LEN).

Definition at_pos (p : Z) (r : mmap_reader) : mmap_reader := MmapReader (rd_size r) (rd_first r) p.

Definition rewind (r : mmap_reader) : mmap_reader := at_pos SEGMENT_HEADER_LEN r.

(** What [record_len_atomic] takes for granted: the load of four bytes is aligned and inside the mapping. *)
Definition load_ok (pos size : Z) : bool := (pos mod 4 =? 0) && (pos + 4 <=? size).

(** [next_record] on the bytes the mapping shows at the time of the call. *)
Definition next_record (m : list byte) (r : mmap_reader) : mmap_reader * read_outcome :=
  let pos := rd_pos r in
  let size := rd_size r in
  if size <=? pos then (r, EndOfSegment)
  else if seg_tail m <=? pos then (r, AwaitMore)
  else if negb (load_ok pos size) then (r, BadLoad pos)
  else
    let raw := get_u32 m pos in
    if raw =? 0 then (r, AwaitMore)
    else if raw =? SKIP_TO_END_SENTINEL then (at_pos size r, EndOfSegment)
    else if negb (Z.land raw WRITING_BIT_U32 =? 0) then (r, AwaitMore)
    else if MAX_RECORD_LEN <? raw then (at_pos size r, ReadErr (OversizeRecord2 raw pos))
    else if raw <? RECORD_FRAMING then (at_pos size r, ReadErr (UndersizeRecord raw pos))
    else if size <? pos + raw then (at_pos size r, ReadErr (OversizeRecord2 raw pos))
    else
      let body := zslice pos (pos + raw) m in
      let cursor := from_le (zslice 4 12 body) in
      let ts := from_le (zslice 12 20 body) in
      let payload_len := from_le (zslice 20 24 body) in
      if raw <? 24 + payload_len + 4
      then (at_pos (pos + align_record_len raw) r, ReadErr (OversizeRecord2 raw pos))
      else
        let stored_crc := from_le (zslice (raw - 4) raw body) in
        let computed_crc := crc32c (zslice 4 (raw - 4) body) in
        if negb (stored_crc =? computed_crc)
        then (at_pos (pos + raw) r, ReadErr (CrcMismatch2 pos stored_crc computed_crc))
        else (at_pos (pos + raw) r, GotRecord (Record_ cursor ts (zslice 24 (24 + payload_len) body))).

(** Reading until something other than a record comes. *)
Fixpoint read_all (fuel : nat) (m : list byte) (r : mmap_reader) : list record * mmap_reader * option read_outcome :=
  match fuel with
  | O => ([], r, None)
  | S fuel =>
      match next_record m r with
      | (r, GotRecord rec) => let '(rs, r, x) := read_all fuel m r in (rec :: rs, r, x)
      | (r, x) => ([], r, Some x)
      end
  end.

(** ** What the bytes of a segment stand for *)

Lemma align_record_len_spec n :
  n <= align_record_len n < n + 8 /\ align_record_len n mod 8 = 0.
Proof. exact (align_up_spec 3 n ltac:(lia)). Qed.

Definition rec_len (r : record) : Z := align_record_len (RECORD_FRAMING + zlen (payload r)).

Definition padded_body (r : record) : list byte :=
  record_body (rcursor r) (ts_unix_nanos r) (payload r)
  ++ zrep (rec_len r - RECORD_FRAMING - zlen (payload r)) Byte.x00.

(** A committed record. *)
Definition enc2 (r : record) : list byte :=
  to_le 4 (rec_len r) ++ padded_body r ++ to_le 4 (crc32c (padded_body r)).

Definition enc2_all (rs : list record) : list byte := concat (map enc2 rs).

Definition seg_header (first : Z) : list byte :=
  to_le 8 SEGMENT_MAGIC ++ to_le 4 SEGMENT_VERSION_V2 ++ to_le 4 0 ++ to_le 8 first.

(** The mapping: header, tail, and the area records go to. *)
Definition seg_bytes (first tail : Z) (area : list byte) : list byte :=
  seg_header first ++ to_le 8 tail ++ area.

Lemma rec_len_bounds r : zlen (payload r) <= MAX_PAYLOAD_LEN ->
  RECORD_FRAMING + zlen (payload r) <= rec_len r < RECORD_FRAMING + zlen (payload r) + 8
  /\ rec_len r <= MAX_RECORD_LEN.
Proof.
  intros Hp. unfold rec_len. destruct (align_record_len_spec (RECORD_FRAMING + zlen (payload r))) as [Hb Hm].
  split; [done|]. unfold MAX_PAYLOAD_LEN, MAX_RECORD_LEN, RECORD_FRAMING in *.
  remember (align_record_len _) as a. apply Z.mod_divide in Hm as [q ->]; lia.
Qed.

Lemma rec_len_pos r : 28 <= rec_len r.
Proof.
  unfold rec_len. destruct (align_record_len_spec (RECORD_FRAMING + zlen (payload r))) as [Hb _].
  pose proof (zlen_nonneg (payload r)). unfold RECORD_FRAMING in *. lia.
Qed.

Lemma zlen_padded_body r : zlen (padded_body r) = rec_len r - 8.
Proof.
  unfold padded_body. rewrite zlen_app, zlen_record_body. unfold rec_len.
  destruct (align_record_len_spec (RECORD_FRAMING + zlen (payload r))) as [Hb _].
  rewrite zlen_zrep by lia. unfold RECORD_FRAMING. lia.
Qed.

Lemma zlen_enc2 r : zlen (enc2 r) = rec_len r.
Proof. unfold enc2. rewrite !zlen_app, !zlen_to_le, zlen_padded_body. lia. Qed.

Lemma enc2_all_app rs rs' : enc2_all (rs ++ rs') = enc2_all rs ++ enc2_all rs'.
Proof. unfold enc2_all. by rewrite map_app, concat_app. Qed.

Lemma enc2_all_cons r rs : enc2_all (r :: rs) = enc2 r ++ enc2_all rs.
Proof. done. Qed.

Lemma enc2_all_length rs : (length rs <= length (enc2_all rs))%nat.
Proof.
  induction rs as [|r rs IH]; [done|]. rewrite enc2_all_cons, length_app. cbn [length].
  pose proof (zlen_enc2 r). pose proof (rec_len_pos r). unfold zlen in *. lia.
Qed.

Lemma zlen_seg_header first : zlen (seg_header first) = 24.
Proof. done. Qed.

Lemma zlen_seg_bytes first t area : zlen (seg_bytes first t area) = SEGMENT_HEADER_LEN + zlen area.
Proof. unfold seg_bytes. rewrite !zlen_app, zlen_seg_header, zlen_to_le. unfold SEGMENT_HEADER_LEN. lia. Qed.

(** ** Stores and loads *)

Lemma zsplice_mid {A} (pre slot post bs : list A) off j :
  off = zlen pre + j -> 0 <= j -> j + zlen bs <= zlen slot ->
  zsplice off bs (pre ++ slot ++ post) = pre ++ zsplice j bs slot ++ post.
Proof.
  intros -> Hj Hb. unfold zsplice. rewrite ztake_app_ge by lia. pose proof (zlen_nonneg bs).
  rewrite zdrop_app_ge by lia. replace (zlen pre + j - zlen pre) with j by lia.
  replace (zlen pre + j + zlen bs - zlen pre) with (j + zlen bs) by lia.
  rewrite ztake_app_le, zdrop_app_le by lia. by rewrite <- !app_assoc.
Qed.

Lemma zsplice_exact {A} (pre slot post bs : list A) off :
  off = zlen pre -> zlen bs = zlen slot -> zsplice off bs (pre ++ slot ++ post) = pre ++ bs ++ post.
Proof.
  intros -> Hb. unfold zsplice. rewrite ztake_app_exact by done. f_equal. f_equal.
  rewrite app_assoc. apply zdrop_app_exact. rewrite zlen_app. lia.
Qed.

Lemma zsplice_head {A} (slot post bs : list A) :
  zlen bs = zlen slot -> zsplice 0 bs (slot ++ post) = bs ++ post.
Proof. by apply (zsplice_exact []). Qed.

Lemma zrep_split {A} n k (x : A) : 0 <= k <= n -> zrep n x = zrep k x ++ zrep (n - k) x.
Proof.
  intros. unfold zrep. rewrite <- replicate_add. f_equal. lia.
Qed.

(** Writing the next field into an area of zeros. *)
Lemma zsplice_zeros {A} (pre bs : list A) off n x :
  off = zlen pre -> zlen bs <= n -> zsplice off bs (pre ++ zrep n x) = pre ++ bs ++ zrep (n - zlen bs) x.
Proof.
  intros Hoff Hn. pose proof (zlen_nonneg bs). rewrite (zrep_split n (zlen bs)) by lia.
  apply zsplice_exact; [done|]. rewrite zlen_zrep; lia.
Qed.

Lemma seg_tail_bytes first t area : is_u64 t -> seg_tail (seg_bytes first t area) = t.
Proof.
  intros Ht. unfold seg_tail, get_u64, seg_bytes, TAIL_OFFSET. rewrite zslice_app_r by done.
  rewrite zlen_seg_header. rewrite zslice_exact by done. by apply from_to_le_small.
Qed.

Lemma put_tail first t t' area : put_u64 TAIL_OFFSET t' (seg_bytes first t area) = seg_bytes first t' area.
Proof. by apply zsplice_exact. Qed.

Lemma seg_bytes_assoc first t area : seg_bytes first t area = (seg_header first ++ to_le 8 t) ++ area.
Proof. unfold seg_bytes. by rewrite app_assoc. Qed.

Lemma zlen_seg_prefix first t : zlen (seg_header first ++ to_le 8 t) = SEGMENT_HEADER_LEN.
Proof. done. Qed.

(** A load in the record area. *)
Lemma zslice_area first t area lo hi :
  SEGMENT_HEADER_LEN <= lo ->
  zslice lo hi (seg_bytes first t area) = zslice (lo - SEGMENT_HEADER_LEN) (hi - SEGMENT_HEADER_LEN) area.
Proof. intros. rewrite seg_bytes_assoc, zslice_app_r; rewrite zlen_seg_prefix; done. Qed.

(** A store into the slot that follows the first [pos] bytes of the area. *)
Lemma zsplice_area first t pre slot post bs off j :
  off = SEGMENT_HEADER_LEN + zlen pre + j -> 0 <= j -> j + zlen bs <= zlen slot ->
  zsplice off bs (seg_bytes first t (pre ++ slot ++ post)) = seg_bytes first t (pre ++ zsplice j bs slot ++ post).
Proof.
  intros -> Hj Hb. rewrite !seg_bytes_assoc, !app_assoc, <- (app_assoc _ slot), <- (app_assoc _ (zsplice j bs slot)).
  apply zsplice_mid; [|done|done]. rewrite zlen_app, zlen_seg_prefix. lia.
Qed.

(** ** Publishing a record, store by store *)

(** The slot after the first [k] stores of an append. *)
Definition slot_after (k : nat) (r : record) : list byte :=
  let n := rec_len r in
  let len_word := to_le 4 (Z.lor n WRITING_BIT_U32) in
  let cursor := to_le 8 (rcursor r) in
  let ts := to_le 8 (ts_unix_nanos r) in
  let plen := to_le 4 (zlen (payload r)) in
  match k with
  | 0 | 1 => zrep n Byte.x00
  | 2 => len_word ++ zrep (n - 4) Byte.x00
  | 3 => len_word ++ cursor ++ zrep (n - 12) Byte.x00
  | 4 => len_word ++ cursor ++ ts ++ zrep (n - 20) Byte.x00
  | 5 => len_word ++ cursor ++ ts ++ plen ++ zrep (n - 24) Byte.x00
  | 6 => len_word ++ cursor ++ ts ++ plen ++ payload r ++ zrep (n - 24 - zlen (payload r)) Byte.x00
  | 7 => len_word ++ padded_body r ++ to_le 4 (crc32c (padded_body r))
  | _ => enc2 r
  end%nat.

Lemma zlen_slot_after k r : zlen (slot_after k r) = rec_len r.
Proof.
  pose proof (rec_len_pos r). pose proof (zlen_nonneg (payload r)).
  destruct (align_record_len_spec (RECORD_FRAMING + zlen (payload r))) as [Hb _].
  fold (rec_len r) in Hb. unfold RECORD_FRAMING in Hb.
  do 8 (destruct k as [|k]; [cbn [slot_after]; rewrite ?zlen_app, ?zlen_to_le, ?zlen_padded_body, ?zlen_zrep by lia; lia|]).
  apply zlen_enc2.
Qed.

(** The padding and the checksum field of a slot whose body is written. *)
Lemma body_zeros r :
  record_body (rcursor r) (ts_unix_nanos r) (payload r) ++ zrep (rec_len r - 24 - zlen (payload r)) Byte.x00
  = padded_body r ++ zrep 4 Byte.x00.
Proof.
  unfold padded_body. rewrite <- app_assoc. f_equal.
  destruct (align_record_len_spec (RECORD_FRAMING + zlen (payload r))) as [Hb _]. fold (rec_len r) in Hb.
  unfold RECORD_FRAMING in *. rewrite (zrep_split _ (rec_len r - 28 - zlen (payload r))) by lia.
  f_equal. f_equal. lia.
Qed.

Section stores.
Context (first : Z) (pre post : list byte) (r : record).
Let t := SEGMENT_HEADER_LEN + zlen pre.
Let mem (t : Z) (k : nat) := seg_bytes first t (pre ++ slot_after k r ++ post).

(** A store of [bs] at byte [j] of the slot. *)
Lemma slot_store t' k k' bs j off :
  off = t + j -> 0 <= j -> j + zlen bs <= rec_len r -> zsplice j bs (slot_after k r) = slot_after k' r ->
  zsplice off bs (mem t' k) = mem t' k'.
Proof.
  intros -> Hj Hb E. unfold mem. rewrite (zsplice_area first t' pre _ post bs _ j); [by rewrite E|unfold t; lia|done|].
  by rewrite zlen_slot_after.
Qed.

Lemma store_len : put_u32 t (Z.lor (rec_len r) WRITING_BIT_U32) (mem (t + rec_len r) 1) = mem (t + rec_len r) 2.
Proof.
  pose proof (rec_len_pos r). apply (slot_store _ 1 2 _ 0); [lia|lia|rewrite zlen_to_le; lia|].
  apply (zsplice_zeros [] (to_le 4 (Z.lor (rec_len r) WRITING_BIT_U32))); [done|rewrite zlen_to_le; lia].
Qed.

Lemma store_cursor : put_u64 (t + 4) (rcursor r) (mem (t + rec_len r) 2) = mem (t + rec_len r) 3.
Proof.
  pose proof (rec_len_pos r). apply (slot_store _ 2 3 _ 4); [lia|lia|rewrite zlen_to_le; lia|].
  cbn [slot_after]. rewrite zsplice_zeros by (rewrite ?zlen_to_le; lia || done). do 3 f_equal. rewrite zlen_to_le. lia.
Qed.

Lemma store_ts : put_u64 (t + 12) (ts_unix_nanos r) (mem (t + rec_len r) 3) = mem (t + rec_len r) 4.
Proof.
  pose proof (rec_len_pos r). apply (slot_store _ 3 4 _ 12); [lia|lia|rewrite zlen_to_le; lia|].
  cbn [slot_after]. rewrite (app_assoc _ (to_le 8 (rcursor r))), zsplice_zeros by (rewrite ?zlen_app, ?zlen_to_le; lia || done).
  rewrite <- app_assoc. do 4 f_equal. rewrite zlen_to_le. lia.
Qed.

Lemma store_payload_len : put_u32 (t + 20) (zlen (payload r)) (mem (t + rec_len r) 4) = mem (t + rec_len r) 5.
Proof.
  pose proof (rec_len_pos r). apply (slot_store _ 4 5 _ 20); [lia|lia|rewrite zlen_to_le; lia|].
  cbn [slot_after]. rewrite (app_assoc _ (to_le 8 (rcursor r))), (app_assoc _ (to_le 8 (ts_unix_nanos r))),
    zsplice_zeros by (rewrite ?zlen_app, ?zlen_to_le; lia || done).
  rewrite <- !app_assoc. do 5 f_equal. rewrite zlen_to_le. lia.
Qed.

Lemma store_payload : zsplice (t + 24) (payload r) (mem (t + rec_len r) 5) = mem (t + rec_len r) 6.
Proof.
  destruct (align_record_len_spec (RECORD_FRAMING + zlen (payload r))) as [Hb _].
  fold (rec_len r) in Hb. unfold RECORD_FRAMING in Hb. pose proof (zlen_nonneg (payload r)).
  apply (slot_store _ 5 6 _ 24); [lia|lia|lia|]. cbn [slot_after].
  rewrite (app_assoc _ (to_le 8 (rcursor r))), (app_assoc _ (to_le 8 (ts_unix_nanos r))), (app_assoc _ (to_le 4 (zlen _))),
    zsplice_zeros by (rewrite ?zlen_app, ?zlen_to_le; lia || done).
  by rewrite <- !app_assoc.
Qed.

Lemma slot_6 : slot_after 6 r = to_le 4 (Z.lor (rec_len r) WRITING_BIT_U32) ++ padded_body r ++ zrep 4 Byte.x00.
Proof. cbn [slot_after]. rewrite <- body_zeros. unfold record_body. by rewrite <- !app_assoc. Qed.

Lemma store_crc :
  put_u32 (t + rec_len r - 4) (crc32c (zslice (t + 4) (t + (rec_len r - 4)) (mem (t + rec_len r) 6))) (mem (t + rec_len r) 6)
  = mem (t + rec_len r) 7.
Proof.
  pose proof (rec_len_pos r).
  assert (Hc : zslice (t + 4) (t + (rec_len r - 4)) (mem (t + rec_len r) 6) = padded_body r).
  { pose proof (zlen_nonneg pre). unfold mem, t. rewrite zslice_area, slot_6 by lia. rewrite zslice_app_r by lia.
    rewrite <- app_assoc, zslice_app_r by (rewrite zlen_to_le; lia). rewrite <- app_assoc.
    replace (_ - _ - zlen pre - zlen _) with 0 by (rewrite zlen_to_le; lia).
    apply zslice_exact. rewrite zlen_to_le, zlen_padded_body. lia. }
  rewrite Hc. apply (slot_store _ 6 7 _ (rec_len r - 4)); [lia|lia|rewrite zlen_to_le; lia|].
  rewrite slot_6. cbn [slot_after].
  rewrite (app_assoc _ (padded_body r)), zsplice_zeros by (rewrite ?zlen_app, ?zlen_to_le, ?zlen_padded_body; lia).
  rewrite zlen_to_le. change (zrep (4 - Z.of_nat 4) Byte.x00) with (@nil byte). by rewrite app_nil_r, <- app_assoc.
Qed.

Lemma store_commit : put_u32 t (rec_len r) (mem (t + rec_len r) 7) = mem (t + rec_len r) 8.
Proof.
  pose proof (rec_len_pos r). apply (slot_store _ 7 8 _ 0); [lia|lia|rewrite zlen_to_le; lia|].
  exact (zsplice_exact [] _ _ (to_le 4 (rec_len r)) 0 eq_refl eq_refl).
Qed.

Lemma run_append_stores k : (k <= 8)%nat ->
  run_stores (take k (append_stores t (rcursor r) (ts_unix_nanos r) (payload r))) (mem t 0)
  = mem (if k then t else t + rec_len r) k.
Proof.
  intros Hk. unfold append_stores. cbv zeta. change (align_record_len (RECORD_FRAMING + zlen (payload r))) with (rec_len r).
  assert (H1 : put_u64 TAIL_OFFSET (t + rec_len r) (mem t 0) = mem (t + rec_len r) 1) by apply put_tail.
  destruct k as [|k]; [done|]. unfold run_stores. cbn [take foldl]. rewrite H1.
  destruct k as [|k]; [done|]. cbn [take foldl]. rewrite store_len.
  destruct k as [|k]; [done|]. cbn [take foldl]. rewrite store_cursor.
  destruct k as [|k]; [done|]. cbn [take foldl]. rewrite store_ts.
  destruct k as [|k]; [done|]. cbn [take foldl]. rewrite store_payload_len.
  destruct k as [|k]; [done|]. cbn [take foldl]. rewrite store_payload.
  destruct k as [|k]; [done|]. cbn [take foldl]. rewrite store_crc.
  destruct k as [|k]; [done|]. cbn [take foldl]. rewrite store_commit.
  destruct k as [|k]; [done|lia].
Qed.
End stores.

(** ** Loading a record *)

Lemma lor_writing n : 0 <= n <= MAX_RECORD_LEN ->
  Z.lor n WRITING_BIT_U32 = n + 2 ^ 31 /\ Z.land (Z.lor n WRITING_BIT_U32) WRITING_BIT_U32 <> 0
  /\ Z.land n WRITING_BIT_U32 = 0.
Proof.
  intros Hn. unfold MAX_RECORD_LEN in Hn. change WRITING_BIT_U32 with (2 ^ 31).
  assert (Hl : Z.land n (2 ^ 31) = 0).
  { apply Z.bits_inj'. intros i Hi. rewrite Z.land_spec, Z.bits_0, Z.pow2_bits_eqb by lia.
    destruct (Z.eqb_spec 31 i) as [<-|]; [|by rewrite andb_false_r]. rewrite andb_true_r.
    apply Z.testbit_false; [lia|]. rewrite Z.div_small by lia. done. }
  split; [|split; [|done]].
  - pose proof (Z.add_lor_land n (2 ^ 31)) as H1. rewrite Hl in H1. lia.
  - rewrite Z.land_lor_distr_l, Hl, Z.lor_0_l, Z.land_diag. done.
Qed.

Lemma get_word first t pre w rest :
  0 <= w < two32 ->
  get_u32 (seg_bytes first t (pre ++ to_le 4 w ++ rest)) (SEGMENT_HEADER_LEN + zlen pre) = w.
Proof.
  intros Hw. unfold get_u32. pose proof (zlen_nonneg pre). rewrite zslice_area by lia.
  rewrite zslice_app_r by lia. replace (_ - _ - zlen pre) with 0 by lia.
  rewrite zslice_exact by (rewrite zlen_to_le; lia). by apply from_to_le_small.
Qed.

(** The fields of a committed record. *)
Lemma enc2_fields r : zlen (payload r) <= MAX_PAYLOAD_LEN ->
  (is_u64 (rcursor r) -> from_le (zslice 4 12 (enc2 r)) = rcursor r)
  /\ (is_u64 (ts_unix_nanos r) -> from_le (zslice 12 20 (enc2 r)) = ts_unix_nanos r)
  /\ from_le (zslice 20 24 (enc2 r)) = zlen (payload r)
  /\ from_le (zslice (rec_len r - 4) (rec_len r) (enc2 r)) = crc32c (padded_body r)
  /\ crc32c (zslice 4 (rec_len r - 4) (enc2 r)) = crc32c (padded_body r)
  /\ zslice 24 (24 + zlen (payload r)) (enc2 r) = payload r.
Proof.
  intros Hp. destruct (rec_len_bounds r Hp) as [Hb _]. pose proof (rec_len_pos r). pose proof (zlen_nonneg (payload r)) as Hpl.
  unfold MAX_PAYLOAD_LEN, MAX_RECORD_LEN, RECORD_FRAMING in *.
  assert (Hf : forall lo hi, 4 <= lo -> zslice lo hi (enc2 r) = zslice (lo - 4) (hi - 4) (padded_body r ++ to_le 4 (crc32c (padded_body r)))).
  { intros lo hi Hlo. unfold enc2. by rewrite zslice_app_r, zlen_to_le by (rewrite zlen_to_le; lia). }
  assert (Hg : forall lo hi, 0 <= lo -> lo <= hi -> hi <= rec_len r - 8 ->
    zslice lo hi (padded_body r ++ to_le 4 (crc32c (padded_body r))) = zslice lo hi (padded_body r)).
  { intros. apply zslice_app_l; rewrite ?zlen_padded_body; lia. }
  rewrite !Hf by lia. rewrite (Hg (4 - 4)), (Hg (12 - 4)), (Hg (20 - 4)), (Hg (24 - 4)) by lia.
  rewrite (zslice_app_r (rec_len r - 4 - 4)) by (rewrite zlen_padded_body; lia).
  assert (Hpb : exists pad, padded_body r
    = to_le 8 (rcursor r) ++ to_le 8 (ts_unix_nanos r) ++ to_le 4 (zlen (payload r)) ++ payload r ++ pad).
  { eexists. unfold padded_body, record_body. by rewrite <- !app_assoc. }
  destruct Hpb as [pad Hpb]. split; [|split; [|split; [|split; [|split]]]].
  - intros Hc. rewrite Hpb, zslice_exact by done. by apply from_to_le_small.
  - intros Hts. rewrite Hpb, zslice_app_r, zslice_exact by done. by apply from_to_le_small.
  - rewrite Hpb, !(zslice_app_r (20 - 4)) by (rewrite ?zlen_to_le; done).
    rewrite (zslice_app_r (20 - 4 - _)), zslice_exact by done.
    apply from_to_le_small. change (2 ^ (8 * Z.of_nat 4)) with 4294967296. lia.
  - rewrite zlen_padded_body. replace (rec_len r - 4 - 4 - (rec_len r - 8)) with 0 by lia.
    rewrite zslice_full by (rewrite zlen_to_le; lia). apply from_to_le_small, crc32c_u32.
  - rewrite zslice_exact by (rewrite zlen_padded_body; lia). done.
  - rewrite Hpb. rewrite (zslice_app_r (24 - 4)) by (rewrite ?zlen_to_le; lia).
    rewrite (zslice_app_r (24 - 4 - _)) by (rewrite ?zlen_to_le; lia).
    rewrite (zslice_app_r (24 - 4 - _ - _)) by (rewrite ?zlen_to_le; lia). rewrite !zlen_to_le.
    apply zslice_exact. lia.
Qed.

Lemma load_ok_lt pos size : load_ok pos size = true -> pos < size.
Proof. unfold load_ok. intros [_ ?%Z.leb_le]%andb_prop. lia. Qed.

(** Records are of aligned lengths, and so every position between them is aligned. *)
Lemma area_load_ok n size : n mod 4 = 0 -> SEGMENT_HEADER_LEN + n + 4 <= size -> load_ok (SEGMENT_HEADER_LEN + n) size = true.
Proof.
  intros Hn Hs. unfold load_ok. rewrite <- Zplus_mod_idemp_r, Hn. by apply Z.leb_le in Hs as ->.
Qed.

Lemma enc2_all_aligned rs : zlen (enc2_all rs) mod 4 = 0.
Proof.
  induction rs as [|r rs IH]; [done|]. rewrite enc2_all_cons, zlen_app, zlen_enc2, <- Zplus_mod_idemp_r, IH, Z.add_0_r.
  destruct (align_record_len_spec (RECORD_FRAMING + zlen (payload r))) as [_ H8]. unfold rec_len.
  apply Z.mod_divide; [done|]. apply Z.mod_divide in H8; [|done]. apply (Z.divide_trans 4 8); [by exists 2|done].
Qed.

(** A position below the tail whose length word says that a writer is at work. *)
Lemma next_record_in_flight first t pre w rest size :
  is_u64 t -> SEGMENT_HEADER_LEN + zlen pre < t -> load_ok (SEGMENT_HEADER_LEN + zlen pre) size = true ->
  w = 0 \/ (exists n, 0 <= n <= MAX_RECORD_LEN /\ w = Z.lor n WRITING_BIT_U32) ->
  let rd := MmapReader size first (SEGMENT_HEADER_LEN + zlen pre) in
  next_record (seg_bytes first t (pre ++ to_le 4 w ++ rest)) rd = (rd, AwaitMore).
Proof.
  intros Ht Hlt Hld Hw rd. pose proof (load_ok_lt _ _ Hld) as Hsz. unfold next_record. cbn [rd rd_pos rd_size]. rewrite seg_tail_bytes by done.
  destruct (Z.leb_spec size (SEGMENT_HEADER_LEN + zlen pre)); [lia|].
  destruct (Z.leb_spec t (SEGMENT_HEADER_LEN + zlen pre)); [lia|]. rewrite Hld. cbn [negb].
  destruct Hw as [->|(n & Hn & ->)].
  - rewrite get_word by (rewrite two32_eq; lia). done.
  - destruct (lor_writing n Hn) as (E & Hbit & _). unfold MAX_RECORD_LEN in Hn.
    rewrite get_word by (rewrite E, two32_eq; lia). unfold SKIP_TO_END_SENTINEL.
    destruct (Z.eqb_spec (Z.lor n WRITING_BIT_U32) 0); [lia|].
    destruct (Z.eqb_spec (Z.lor n WRITING_BIT_U32) (two32 - 1)); [rewrite two32_eq in *; lia|].
    by destruct (Z.eqb_spec (Z.land (Z.lor n WRITING_BIT_U32) WRITING_BIT_U32) 0).
Qed.

Lemma next_record_at_tail first t area size pos :
  is_u64 t -> t <= pos ->
  let rd := MmapReader size first pos in
  next_record (seg_bytes first t area) rd = (rd, if size <=? pos then EndOfSegment else AwaitMore).
Proof.
  intros Ht Hle rd. unfold next_record. cbn [rd rd_pos rd_size]. rewrite seg_tail_bytes by done.
  destruct (size <=? pos); [done|]. by rewrite (proj2 (Z.leb_le _ _) Hle).
Qed.

Lemma next_record_skip first t pre rest size :
  is_u64 t -> SEGMENT_HEADER_LEN + zlen pre < t -> load_ok (SEGMENT_HEADER_LEN + zlen pre) size = true ->
  next_record (seg_bytes first t (pre ++ to_le 4 SKIP_TO_END_SENTINEL ++ rest)) (MmapReader size first (SEGMENT_HEADER_LEN + zlen pre))
  = (MmapReader size first size, EndOfSegment).
Proof.
  intros Ht Hlt Hld. pose proof (load_ok_lt _ _ Hld) as Hsz. unfold next_record. cbn [rd_pos rd_size]. rewrite seg_tail_bytes by done.
  destruct (Z.leb_spec size (SEGMENT_HEADER_LEN + zlen pre)); [lia|].
  destruct (Z.leb_spec t (SEGMENT_HEADER_LEN + zlen pre)); [lia|]. rewrite Hld. cbn [negb].
  rewrite get_word by (unfold SKIP_TO_END_SENTINEL; rewrite two32_eq; lia). done.
Qed.

Lemma next_record_committed first t pre r rest size :
  is_u64 t -> record_ok r -> SEGMENT_HEADER_LEN + zlen pre < t -> zlen pre mod 4 = 0 ->
  SEGMENT_HEADER_LEN + zlen pre + rec_len r <= size ->
  next_record (seg_bytes first t (pre ++ enc2 r ++ rest)) (MmapReader size first (SEGMENT_HEADER_LEN + zlen pre))
  = (MmapReader size first (SEGMENT_HEADER_LEN + zlen pre + rec_len r), GotRecord r).
Proof.
  intros Ht (Hc & Hts & Hp) Hlt Hal Hsz. destruct (rec_len_bounds r Hp) as [Hb Hm]. pose proof (rec_len_pos r) as H28.
  pose proof (zlen_nonneg pre) as Hpre. pose proof (zlen_nonneg (payload r)) as Hpl.
  unfold next_record. cbn [rd_pos rd_size]. rewrite seg_tail_bytes by done.
  destruct (Z.leb_spec size (SEGMENT_HEADER_LEN + zlen pre)); [lia|].
  destruct (Z.leb_spec t (SEGMENT_HEADER_LEN + zlen pre)); [lia|]. rewrite area_load_ok by (done || lia). cbn [negb].
  assert (Hbody : zslice (SEGMENT_HEADER_LEN + zlen pre) (SEGMENT_HEADER_LEN + zlen pre + rec_len r)
    (seg_bytes first t (pre ++ enc2 r ++ rest)) = enc2 r).
  { rewrite zslice_area by lia. rewrite zslice_app_r by lia. replace (_ - _ - zlen pre) with 0 by lia.
    apply zslice_exact. rewrite zlen_enc2. lia. }
  assert (Hraw : get_u32 (seg_bytes first t (pre ++ enc2 r ++ rest)) (SEGMENT_HEADER_LEN + zlen pre) = rec_len r).
  { unfold enc2. rewrite <- !app_assoc. apply get_word. unfold MAX_RECORD_LEN in Hm. rewrite two32_eq. lia. }
  rewrite Hraw. destruct (lor_writing (rec_len r) ltac:(lia)) as (_ & _ & Hbit). rewrite Hbit.
  unfold MAX_RECORD_LEN, MAX_PAYLOAD_LEN, RECORD_FRAMING, SKIP_TO_END_SENTINEL in *.
  destruct (Z.eqb_spec (rec_len r) 0); [lia|].
  destruct (Z.eqb_spec (rec_len r) (two32 - 1)); [rewrite two32_eq in *; lia|]. cbn [negb Z.eqb].
  destruct (Z.ltb_spec (16 * 1024 * 1024) (rec_len r)); [lia|]. destruct (Z.ltb_spec (rec_len r) 28); [lia|].
  destruct (Z.ltb_spec size (SEGMENT_HEADER_LEN + zlen pre + rec_len r)); [lia|]. cbv zeta. rewrite Hbody.
  destruct (enc2_fields r ltac:(unfold MAX_PAYLOAD_LEN, MAX_RECORD_LEN, RECORD_FRAMING; lia)) as (E1 & E2 & E3 & E4 & E5 & E6).
  rewrite E3. destruct (Z.ltb_spec (rec_len r) (24 + zlen (payload r) + 4)); [lia|].
  rewrite E4, E5, Z.eqb_refl. cbn [negb]. rewrite E1, E2, E6 by done. by destruct r.
Qed.

(** ** Segments as lists of records *)

(** What may follow the committed records: the tail, a record on its way, the closing mark, or the end. *)
Definition ends (size t p : Z) (rest : list byte) : Prop :=
  t = p \/ p = size
  \/ exists w rest', rest = to_le 4 w ++ rest' /\ p < t /\ p + 4 <= size
       /\ (w = 0 \/ w = SKIP_TO_END_SENTINEL \/ exists n, 0 <= n <= MAX_RECORD_LEN /\ w = Z.lor n WRITING_BIT_U32).

(** The mapping shows the records [rs] and then an end. *)
Record holds (size first : Z) (rs : list record) (m : list byte) : Prop := {
  h_size : zlen m = size;
  h_first : is_u64 first;
  h_ok : Forall record_ok rs;
  h_bytes : exists t rest, m = seg_bytes first t (enc2_all rs ++ rest) /\ is_u64 t
    /\ SEGMENT_HEADER_LEN + zlen (enc2_all rs) <= t
    /\ ends size t (SEGMENT_HEADER_LEN + zlen (enc2_all rs)) rest
}.

(** A segment that takes appends: zeros from the tail on. *)
Definition live_bytes (size first : Z) (rs : list record) : list byte :=
  let t := SEGMENT_HEADER_LEN + zlen (enc2_all rs) in
  seg_bytes first t (enc2_all rs ++ zrep (size - t) Byte.x00).

Record live (size first : Z) (rs : list record) (m : list byte) : Prop := {
  l_bytes : m = live_bytes size first rs;
  l_fits : SEGMENT_HEADER_LEN + zlen (enc2_all rs) <= size;
  l_size : size < two63;
  l_first : is_u64 first;
  l_ok : Forall record_ok rs
}.

Lemma zlen_live_bytes size first rs :
  SEGMENT_HEADER_LEN + zlen (enc2_all rs) <= size -> zlen (live_bytes size first rs) = size.
Proof. intros. unfold live_bytes. rewrite zlen_seg_bytes, zlen_app, zlen_zrep by lia. lia. Qed.

Lemma live_holds size first rs m : live size first rs m -> holds size first rs m.
Proof.
  intros [-> Hf Hs Hfi Hok]. pose proof (zlen_nonneg (enc2_all rs)). constructor; [by apply zlen_live_bytes|done|done|].
  unfold live_bytes. eexists _, _. split; [reflexivity|]. unfold SEGMENT_HEADER_LEN in *. split; [ulia|]. split; [lia|by left].
Qed.

Lemma create_live size first :
  segment_too_small size = false -> size < two63 -> is_u64 first -> live size first [] (create_bytes size first).
Proof.
  unfold segment_too_small, SEGMENT_HEADER_LEN, RECORD_FRAMING. intros Hs Hmax Hf. apply Z.ltb_ge in Hs.
  constructor; try done; [|change (32 + 0 <= size); lia].
  unfold create_bytes, live_bytes, put_u64, put_u32.
  change (SEGMENT_HEADER_LEN + zlen (enc2_all [])) with 32. change SEGMENT_HEADER_LEN with 32. cbn [enc2_all map concat app].
  rewrite (zrep_split size 32) by lia. unfold seg_bytes, seg_header, TAIL_OFFSET. rewrite <- !app_assoc.
  set (z := zrep (size - 32) Byte.x00). change (zrep 32 Byte.x00) with (zrep 8 Byte.x00 ++ zrep 4 Byte.x00 ++ to_le 4 0 ++ zrep 8 Byte.x00 ++ zrep 8 Byte.x00).
  rewrite <- !app_assoc. rewrite (zsplice_head (zrep 8 Byte.x00)) by done.
  rewrite (zsplice_exact (to_le 8 SEGMENT_MAGIC) (zrep 4 Byte.x00)) by done.
  rewrite (app_assoc (to_le 8 SEGMENT_MAGIC)), (app_assoc _ (to_le 4 0)).
  rewrite (zsplice_exact _ (zrep 8 Byte.x00)) by done.
  rewrite (app_assoc _ (to_le 8 first)). rewrite (zsplice_exact _ (zrep 8 Byte.x00)) by done.
  by rewrite <- !app_assoc.
Qed.

(** The reader that has gone past [pre]. *)
Definition reader_past (size first : Z) (pre : list record) : mmap_reader :=
  MmapReader size first (SEGMENT_HEADER_LEN + zlen (enc2_all pre)).

Lemma holds_next size first pre suf m :
  holds size first (pre ++ suf) m ->
  match suf with
  | r :: _ => next_record m (reader_past size first pre) = (reader_past size first (pre ++ [r]), GotRecord r)
  | [] => exists rd x, next_record m (reader_past size first pre) = (rd, x) /\ (x = AwaitMore \/ x = EndOfSegment)
  end.
Proof.
  intros [Hsz Hf Hok (t & rest & -> & Ht & Hle & He)]. unfold reader_past. destruct suf as [|r suf].
  - rewrite app_nil_r in *. set (p := SEGMENT_HEADER_LEN + zlen (enc2_all pre)) in *.
    destruct He as [->|[Hp|(w & rest' & -> & Hlt & Hlt2 & Hw)]].
    + rewrite next_record_at_tail by done. eexists _, _. split; [reflexivity|]. destruct (_ <=? _); auto.
    + unfold next_record. cbn [rd_pos rd_size]. rewrite (proj2 (Z.leb_le size p)) by lia. eauto.
    + pose proof (area_load_ok _ size (enc2_all_aligned pre) Hlt2) as Hld. destruct Hw as [->|[->|Hw]].
      * rewrite next_record_in_flight by auto. eauto.
      * rewrite next_record_skip by done. eauto.
      * rewrite next_record_in_flight by auto. eauto.
  - apply Forall_app in Hok as [_ Hok]. apply Forall_cons in Hok as [Hr _].
    rewrite !enc2_all_app, enc2_all_cons, <- !app_assoc in *. rewrite zlen_seg_bytes, !zlen_app in Hsz.
    rewrite !zlen_app, zlen_enc2 in *. pose proof (zlen_nonneg rest). pose proof (zlen_nonneg (enc2_all suf)).
    pose proof (rec_len_pos r). rewrite next_record_committed by (done || lia || apply enc2_all_aligned).
    cbn [enc2_all map concat]. rewrite app_nil_r, zlen_enc2. do 2 f_equal. lia.
Qed.

Lemma holds_read_all size first pre suf m fuel :
  holds size first (pre ++ suf) m -> (length suf < fuel)%nat ->
  exists rd x, read_all fuel m (reader_past size first pre) = (suf, rd, Some x) /\ (x = AwaitMore \/ x = EndOfSegment).
Proof.
  revert pre fuel. induction suf as [|r suf IH]; intros pre fuel Hh Hf; (destruct fuel as [|fuel]; [cbn in Hf; lia|]);
    cbn [read_all]; pose proof (holds_next _ _ _ _ _ Hh) as Hn.
  - destruct Hn as (rd & x & -> & Hx). exists rd, x. destruct Hx as [->| ->]; auto.
  - rewrite Hn. replace (pre ++ r :: suf) with ((pre ++ [r]) ++ suf) in Hh by (by rewrite <- app_assoc).
    destruct (IH _ fuel Hh ltac:(cbn in Hf; lia)) as (rd & x & -> & Hx). by exists rd, x.
Qed.

Lemma open_seg_bytes size first t area :
  zlen (seg_bytes first t area) = size -> is_u64 first -> open_bytes (seg_bytes first t area) = Ok (reader_past size first []).
Proof.
  intros Hsz Hf. unfold open_bytes. rewrite Hsz. rewrite zlen_seg_bytes in Hsz. pose proof (zlen_nonneg area).
  destruct (Z.ltb_spec size SEGMENT_HEADER_LEN); [lia|].
  unfold get_u64, get_u32, seg_bytes, seg_header. rewrite <- !app_assoc.
  rewrite zslice_exact by done. change (from_le (to_le 8 SEGMENT_MAGIC) =? SEGMENT_MAGIC) with true. cbn [negb].
  rewrite (zslice_app_r 8) by done. rewrite (zslice_exact (8 + 4 - _)) by done.
  change (from_le (to_le 4 SEGMENT_VERSION_V2)) with SEGMENT_VERSION_V2. cbn [Z.eqb SEGMENT_VERSION_V2 negb].
  rewrite (zslice_app_r 16) by done. rewrite (zslice_app_r (16 - _)) by done. rewrite (zslice_app_r (16 - _ - _)) by done.
  rewrite (zslice_exact (16 + 8 - _ - _ - _)) by done. rewrite from_to_le_small by done. done.
Qed.

Lemma holds_open size first rs m : holds size first rs m -> open_bytes m = Ok (reader_past size first []).
Proof. intros [Hsz Hf _ (t & rest & -> & _)]. by apply open_seg_bytes. Qed.

(** ** Appending *)

Lemma enc2_all_snoc rs r : enc2_all (rs ++ [r]) = enc2_all rs ++ enc2 r.
Proof. rewrite enc2_all_app. cbn. by rewrite app_nil_r. Qed.

(** The free area of a live segment, split at the end of the slot that the next record takes. *)
Lemma live_slot size first rs r :
  let t := SEGMENT_HEADER_LEN + zlen (enc2_all rs) in
  t + rec_len r <= size ->
  live_bytes size first rs = seg_bytes first t (enc2_all rs ++ slot_after 0 r ++ zrep (size - t - rec_len r) Byte.x00).
Proof.
  intros t Hs. pose proof (rec_len_pos r). unfold live_bytes. fold t. cbn [slot_after].
  by rewrite (zrep_split (size - t) (rec_len r)) by lia.
Qed.

Lemma slot_8 r : slot_after 8 r = enc2 r.
Proof. done. Qed.

Lemma live_run_stores size first rs r k :
  let t := SEGMENT_HEADER_LEN + zlen (enc2_all rs) in
  t + rec_len r <= size -> (k <= 8)%nat ->
  run_stores (take k (append_stores t (rcursor r) (ts_unix_nanos r) (payload r))) (live_bytes size first rs)
  = seg_bytes first (if k then t else t + rec_len r) (enc2_all rs ++ slot_after k r ++ zrep (size - t - rec_len r) Byte.x00).
Proof. intros t Hs Hk. rewrite (live_slot size first rs r Hs). by apply run_append_stores. Qed.

Lemma live_snoc size first rs r :
  let t := SEGMENT_HEADER_LEN + zlen (enc2_all rs) in
  t + rec_len r <= size ->
  seg_bytes first (t + rec_len r) (enc2_all rs ++ enc2 r ++ zrep (size - t - rec_len r) Byte.x00)
  = live_bytes size first (rs ++ [r]).
Proof.
  intros t Hs. unfold live_bytes. rewrite enc2_all_snoc, zlen_app, zlen_enc2. fold t.
  replace (SEGMENT_HEADER_LEN + (zlen (enc2_all rs) + rec_len r)) with (t + rec_len r) by (unfold t; lia).
  rewrite <- app_assoc. do 4 f_equal. lia.
Qed.

Lemma append_live size first rs m cursor ts p :
  live size first rs m -> is_u64 cursor -> is_u64 ts ->
  let t := SEGMENT_HEADER_LEN + zlen (enc2_all rs) in
  let r := Record_ cursor ts p in
  append size cursor ts p m
  = (if MAX_PAYLOAD_LEN <? zlen p then (m, None)
     else if size <? t + rec_len r then (m, Some SegmentFull)
     else (live_bytes size first (rs ++ [r]), Some (Appended t (wrap64 (cursor + 1)))))
  /\ (zlen p <= MAX_PAYLOAD_LEN -> t + rec_len r <= size -> live size first (rs ++ [r]) (live_bytes size first (rs ++ [r]))).
Proof.
  intros [-> Hf Hsz Hfi Hok] Hc Hts t r. pose proof (zlen_nonneg (enc2_all rs)).
  assert (Ht : seg_tail (live_bytes size first rs) = t).
  { unfold live_bytes. apply seg_tail_bytes. unfold SEGMENT_HEADER_LEN in *. ulia. }
  split.
  - unfold append. destruct (MAX_PAYLOAD_LEN <? zlen p); [done|]. cbv zeta. rewrite Ht.
    change (align_record_len (RECORD_FRAMING + zlen p)) with (rec_len r).
    destruct (Z.ltb_spec size (t + rec_len r)); [done|]. f_equal.
    rewrite <- (live_snoc size first rs r) by done. exact (live_run_stores size first rs r 8 ltac:(done) ltac:(lia)).
  - intros Hp Hs. constructor; try done.
    + rewrite enc2_all_snoc, zlen_app, zlen_enc2. fold t. unfold t in Hs. lia.
    + apply Forall_app. split; [done|]. by constructor.
Qed.

(** Between any two stores of an append, the mapping shows the records committed so far. *)
Lemma append_prefix_holds size first rs m r k :
  live size first rs m -> record_ok r -> SEGMENT_HEADER_LEN + zlen (enc2_all rs) + rec_len r <= size -> (k <= 8)%nat ->
  holds size first (if (k <? 8)%nat then rs else rs ++ [r])
    (run_stores (take k (append_stores (SEGMENT_HEADER_LEN + zlen (enc2_all rs)) (rcursor r) (ts_unix_nanos r) (payload r))) m).
Proof.
  intros Hl Hr Hs Hk. pose proof (live_holds _ _ _ _ Hl) as Hh. destruct Hl as [-> Hf Hsz Hfi Hok].
  set (t := SEGMENT_HEADER_LEN + zlen (enc2_all rs)) in *. pose proof (rec_len_pos r). pose proof (zlen_nonneg (enc2_all rs)).
  assert (Ht : is_u64 (t + rec_len r)) by (unfold t, SEGMENT_HEADER_LEN in *; ulia).
  destruct (Nat.ltb_spec k 8).
  - pose proof (live_run_stores size first rs r k Hs Hk) as E. cbv zeta in E. fold t in E. rewrite E. destruct k as [|k].
    { pose proof (live_slot size first rs r Hs) as E0. cbv zeta in E0. fold t in E0. rewrite <- E0. exact Hh. }
    constructor; try done.
    + rewrite zlen_seg_bytes, !zlen_app, zlen_slot_after, zlen_zrep by (fold t; lia). unfold t. lia.
    + eexists _, _. split; [reflexivity|]. split; [done|]. fold t. split; [lia|]. right. right.
      assert (Hw : exists w rest', slot_after (S k) r = to_le 4 w ++ rest' /\ (w = 0 \/ w = Z.lor (rec_len r) WRITING_BIT_U32)).
      { destruct k as [|k].
        - exists 0, (zrep (rec_len r - 4) Byte.x00). split; [|by left]. cbn [slot_after]. by rewrite (zrep_split (rec_len r) 4) by lia.
        - do 6 (destruct k as [|k]; [eexists _, _; split; [cbn [slot_after]; reflexivity|by right]|]). lia. }
      destruct Hw as (w & rest' & -> & Hw). eexists w, _. rewrite <- app_assoc. split; [reflexivity|].
      split; [lia|]. split; [lia|]. destruct Hw as [->| ->]; [by left|]. right. right. exists (rec_len r).
      split; [|done]. destruct (rec_len_bounds r (proj2 (proj2 Hr))). lia.
  - assert (k = 8%nat) as -> by lia. pose proof (append_live size first rs _ (rcursor r) (ts_unix_nanos r) (payload r)
      (Build_live _ _ _ _ eq_refl Hf Hsz Hfi Hok) (proj1 Hr) (proj1 (proj2 Hr))) as [_ Hl].
    pose proof (live_run_stores size first rs r 8 Hs ltac:(lia)) as E. cbv zeta in E. fold t in E. rewrite E. cbn [slot_after].
    fold t. unfold t. rewrite live_snoc by done. apply live_holds. destruct r. apply Hl; [apply Hr|done].
Qed.

(** C25: a mapped segment shows committed records only.  At whatever point between the single stores of an
    append a reader looks (or the publisher dies), it reads the records committed before, each intact,
    and then that there is no more for now; after the last store it reads the new record too. *)
Theorem in_flight_record_is_invisible size first rs m cursor ts p k fuel :
  live size first rs m -> is_u64 cursor -> is_u64 ts -> zlen p <= MAX_PAYLOAD_LEN ->
  let r := Record_ cursor ts p in
  let t := SEGMENT_HEADER_LEN + zlen (enc2_all rs) in
  t + rec_len r <= size -> (k <= 8)%nat -> (length rs + 1 < fuel)%nat ->
  let m' := run_stores (take k (append_stores t cursor ts p)) m in
  append size cursor ts p m = (run_stores (append_stores t cursor ts p) m, Some (Appended t (wrap64 (cursor + 1))))
  /\ exists rd0 rd x, open_bytes m' = Ok rd0
       /\ read_all fuel m' rd0 = (if (k <? 8)%nat then rs else rs ++ [r], rd, Some x) /\ (x = AwaitMore \/ x = EndOfSegment).
Proof.
  intros Hl Hc Hts Hp r t Hs Hk Hfu m'. split.
  - destruct (append_live size first rs m cursor ts p Hl Hc Hts) as [E _]. rewrite E.
    destruct (Z.ltb_spec MAX_PAYLOAD_LEN (zlen p)); [lia|]. fold r t. destruct (Z.ltb_spec size (t + rec_len r)); [lia|].
    f_equal. rewrite (l_bytes _ _ _ _ Hl), <- live_snoc by done. symmetry.
    exact (live_run_stores size first rs r 8 Hs ltac:(lia)).
  - pose proof (append_prefix_holds size first rs m r k Hl ltac:(done) Hs Hk) as Hh. fold t in Hh.
    change (holds size first (if (k <? 8)%nat then rs else rs ++ [r]) m') in Hh.
    exists (reader_past size first []). rewrite (holds_open _ _ _ _ Hh).
    destruct (holds_read_all size first [] _ m' fuel Hh) as (rd & x & E & Hx).
    { destruct (k <? 8)%nat; rewrite ?length_app; cbn; lia. }
    exists rd, x. done.
Qed.

(** ** Closing *)

Lemma skip_to_end_holds size first rs m :
  live size first rs m -> holds size first rs (write_skip_to_end size m).1.
Proof.
  intros Hl. pose proof (live_holds _ _ _ _ Hl) as Hh. destruct Hl as [-> Hf Hsz Hfi Hok].
  pose proof (zlen_nonneg (enc2_all rs)). unfold write_skip_to_end.
  set (t := SEGMENT_HEADER_LEN + zlen (enc2_all rs)) in *.
  assert (Ht : seg_tail (live_bytes size first rs) = t).
  { unfold live_bytes. apply seg_tail_bytes. unfold t, SEGMENT_HEADER_LEN in *. ulia. }
  rewrite Ht. destruct (Z.ltb_spec size (t + 4)); [exact Hh|]. cbn [fst].
  assert (E : put_u32 t SKIP_TO_END_SENTINEL (put_u64 TAIL_OFFSET (t + 4) (live_bytes size first rs))
    = seg_bytes first (t + 4) (enc2_all rs ++ to_le 4 SKIP_TO_END_SENTINEL ++ zrep (size - t - 4) Byte.x00)).
  { unfold live_bytes. fold t. rewrite put_tail. rewrite (zrep_split (size - t) 4) by lia.
    unfold put_u32. rewrite (zsplice_area first (t + 4) (enc2_all rs) (zrep 4 Byte.x00) _ _ t 0); [done|unfold t; lia|lia|done]. }
  rewrite E. constructor; try done.
  - rewrite zlen_seg_bytes, !zlen_app, zlen_to_le, zlen_zrep by lia. unfold t. lia.
  - eexists _, _. split; [reflexivity|]. unfold t, SEGMENT_HEADER_LEN in *. split; [ulia|]. split; [lia|].
    right. right. eexists _, _. split; [reflexivity|]. split; [lia|]. split; [lia|]. auto.
Qed.

(** ** Power cuts *)

(** What a power cut may leave of a segment whose first [n] bytes had reached stable storage: those bytes,
    except that the tail field, alone in its sector with the header, may be any later one, and then
    anything at all. *)
Record power_cut (n : Z) (synced torn : list byte) : Prop := {
  pc_size : zlen torn = zlen synced;
  pc_header : ztake TAIL_OFFSET torn = ztake TAIL_OFFSET synced;
  pc_tail : seg_tail synced <= seg_tail torn;
  pc_body : zslice SEGMENT_HEADER_LEN n torn = zslice SEGMENT_HEADER_LEN n synced
}.

Lemma read_all_prefix size first t pre suf rest fuel :
  is_u64 t -> Forall record_ok suf -> SEGMENT_HEADER_LEN + zlen (enc2_all pre) + zlen (enc2_all suf) <= t ->
  SEGMENT_HEADER_LEN + zlen (enc2_all pre) + zlen (enc2_all suf) <= size -> (length suf < fuel)%nat ->
  exists more rd x, read_all fuel (seg_bytes first t (enc2_all pre ++ enc2_all suf ++ rest)) (reader_past size first pre)
    = (suf ++ more, rd, x).
Proof.
  revert pre fuel. induction suf as [|r suf IH]; intros pre fuel Ht Hok Hle Hsz Hf.
  { destruct (read_all fuel _ _) as [[more rd] x]. by exists more, rd, x. }
  destruct fuel as [|fuel]; [cbn in Hf; lia|]. cbn [read_all]. apply Forall_cons in Hok as [Hr Hok].
  rewrite enc2_all_cons, zlen_app, zlen_enc2 in Hle, Hsz. pose proof (zlen_nonneg (enc2_all suf)). pose proof (rec_len_pos r).
  unfold reader_past. rewrite enc2_all_cons, <- app_assoc, next_record_committed by (done || lia || apply enc2_all_aligned).
  destruct (IH (pre ++ [r]) fuel) as (more & rd & x & E); [done|done| | |cbn in Hf; lia|].
  { rewrite enc2_all_snoc, zlen_app, zlen_enc2. lia. }
  { rewrite enc2_all_snoc, zlen_app, zlen_enc2. lia. }
  rewrite enc2_all_snoc, <- app_assoc in E. unfold reader_past in E. rewrite enc2_all_snoc, zlen_app, zlen_enc2, Z.add_assoc in E.
  rewrite E. by exists more, rd, x.
Qed.

Lemma seg_bytes_split m first t area :
  ztake TAIL_OFFSET m = ztake TAIL_OFFSET (seg_bytes first t area) -> SEGMENT_HEADER_LEN <= zlen m ->
  m = seg_bytes first (seg_tail m) (zdrop SEGMENT_HEADER_LEN m).
Proof.
  intros Hh Hlen. unfold SEGMENT_HEADER_LEN in *. unfold seg_bytes in *. rewrite (ztake_app_exact TAIL_OFFSET (seg_header first)) in Hh by done.
  rewrite <- (ztake_zdrop TAIL_OFFSET m) at 1. rewrite Hh. f_equal. unfold seg_tail, get_u64, TAIL_OFFSET.
  rewrite to_from_le_zlen by (rewrite zlen_zslice; lia). unfold zslice. rewrite <- (ztake_zdrop 8 (zdrop 24 m)) at 1.
  by rewrite zdrop_zdrop by lia.
Qed.

(** What was synced survives.  Let a segment with the records [rs] have been flushed to stable storage;
    whatever was appended afterwards and whatever a power cut makes of the pages that were not flushed,
    the segment still opens, and a reader gets [rs] first, intact and in order. *)
Theorem synced_records_survive_a_power_cut size first rs m torn fuel :
  live size first rs m -> power_cut (seg_tail m) m torn -> is_u64 (seg_tail torn) -> (length rs < fuel)%nat ->
  exists rd0 more rd x, open_bytes torn = Ok rd0 /\ read_all fuel torn rd0 = (rs ++ more, rd, x).
Proof.
  intros [-> Hfit Hsz Hfi Hok] [Hlen Hhead Htail Hbody] Ht Hfu. pose proof (zlen_nonneg (enc2_all rs)) as Hnn.
  rewrite zlen_live_bytes in Hlen by done.
  assert (Hst : seg_tail (live_bytes size first rs) = SEGMENT_HEADER_LEN + zlen (enc2_all rs)).
  { unfold live_bytes. apply seg_tail_bytes. unfold SEGMENT_HEADER_LEN in *. ulia. }
  rewrite Hst in *. unfold live_bytes in Hhead.
  assert (Hm : torn = seg_bytes first (seg_tail torn) (enc2_all rs ++ zdrop (SEGMENT_HEADER_LEN + zlen (enc2_all rs)) torn)).
  { rewrite (seg_bytes_split torn first _ _ Hhead) at 1 by lia. f_equal.
    rewrite <- (ztake_zdrop (zlen (enc2_all rs)) (zdrop SEGMENT_HEADER_LEN torn)).
    rewrite zdrop_zdrop by (unfold SEGMENT_HEADER_LEN; lia). f_equal.
    unfold live_bytes in Hbody. rewrite zslice_area in Hbody by lia.
    replace (SEGMENT_HEADER_LEN - SEGMENT_HEADER_LEN) with 0 in Hbody by lia.
    rewrite zslice_exact in Hbody by lia. etrans; [|exact Hbody]. unfold zslice. f_equal. lia. }
  pose proof (read_all_prefix size first (seg_tail torn) [] rs (zdrop (SEGMENT_HEADER_LEN + zlen (enc2_all rs)) torn) fuel Ht Hok) as Hr.
  cbn [enc2_all map concat app] in Hr. change (zlen (@nil byte)) with 0 in Hr. rewrite Z.add_0_r in Hr.
  destruct (Hr Htail Hfit Hfu) as (more & rd & x & E). exists (reader_past size first []), more, rd, x.
  rewrite <- Hm in E. split; [|exact E]. rewrite Hm, (open_seg_bytes size) by (done || (rewrite <- Hm; done) || lia). done.
Qed.
End segment_v2.

(** ** A concrete segment *)

Section demo.
#[local] Existing Instance sum_crc.

Definition demo_rec : record := Record_ 5 100 [Byte.x61; Byte.x62; Byte.x63].

Lemma demo_live : live 160 5 [demo_rec] (live_bytes 160 5 [demo_rec]).
Proof.
  constructor; [reflexivity|vm_compute; congruence|reflexivity|split; vm_compute; congruence|].
  repeat constructor; vm_compute; congruence.
Qed.

Example demo_two_records :
  let m := (append 160 6 101 [Byte.x64] (create_bytes 160 6)).1 in
  let '(rs, _, x) := read_all 5 m (MmapReader 160 6 32) in
  rs = [Record_ 6 101 [Byte.x64]] /\ x = Some AwaitMore.
Proof. vm_compute. done. Qed.

Lemma in_flight_record_is_invisible_witness :
  let m' := run_stores (take 5 (append_stores 64 6 101 [Byte.x64])) (live_bytes 160 5 [demo_rec]) in
  append 160 6 101 [Byte.x64] (live_bytes 160 5 [demo_rec])
  = (run_stores (append_stores 64 6 101 [Byte.x64]) (live_bytes 160 5 [demo_rec]), Some (Appended 64 7))
  /\ exists rd0 rd x, open_bytes m' = Ok rd0 /\ read_all 9 m' rd0 = ([demo_rec], rd, Some x) /\ (x = AwaitMore \/ x = EndOfSegment).
Proof.
  apply (in_flight_record_is_invisible 160 5 [demo_rec] _ 6 101 [Byte.x64] 5 9 demo_live).
  - split; vm_compute; congruence.
  - split; vm_compute; congruence.
  - vm_compute. congruence.
  - vm_compute. congruence.
  - lia.
  - cbn. lia.
Defined.

(** The page that was not flushed comes back as noise. *)
Definition demo_torn : list byte :=
  zsplice 64 [Byte.x1c; Byte.x00; Byte.x00; Byte.x00; Byte.xff] (put_u64 TAIL_OFFSET 96 (live_bytes 160 5 [demo_rec])).

Lemma synced_records_survive_a_power_cut_witness :
  exists rd0 more rd x, open_bytes demo_torn = Ok rd0 /\ read_all 9 demo_torn rd0 = ([demo_rec] ++ more, rd, x).
Proof.
  apply (synced_records_survive_a_power_cut 160 5 [demo_rec] _ demo_torn 9 demo_live).
  - constructor; vm_compute; congruence.
  - split; vm_compute; congruence.
  - cbn. lia.
Defined.
End demo.
