(* ===== verification/Mmap.v ===== *)
(** * Mapped files ([std::fs], [memmap2], [crates/mmbus/src/wal/v2/durability.rs],
      [crates/mmbus/src/wal/v2/active.rs])

    The directory of a v2 log.  A file has the bytes its mappings show and the bytes that have been
    flushed to stable storage; a file that was unlinked stays mapped.  A segment's name is its first
    cursor.  [mfate] says which of the coming system calls fail. *)

From Stdlib Require Import ZArith Lia Strings.Byte.
From stdpp Require Import base option gmap list.
From S2P Require Import Prelude OrdMap Disk.

Record mfile := MFile {
  mbytes : list byte;
  mstable : list byte;
  linked : bool
}.

Record mdisk := MDisk {
  mfiles : omap mfile;
  coord : Z * Z;          (* [active.dat]: first cursor, generation *)
  mfate : list bool
}.

Definition set_mfiles (m : omap mfile) (d : mdisk) : mdisk := MDisk m (coord d) (mfate d).

(** The outcome of the next call. *)
Definition mcall : M mdisk io_error unit := fun d =>
  match mfate d with
  | [] => (d, Ok tt)
  | f :: fs => (MDisk (mfiles d) (coord d) fs, if f then Err OtherIo else Ok tt)
  end.

Definition linked_at (k : Z) (d : mdisk) : bool :=
  match om_lookup k (mfiles d) with Some f => linked f | None => false end.

(** The names [read_dir] lists. *)
Definition mdir (d : mdisk) : list Z := map fst (List.filter (fun kf => linked kf.2) (mfiles d)).

(** The bytes behind a mapping. *)
Definition mem (d : mdisk) (k : Z) : list byte :=
  match om_lookup k (mfiles d) with Some f => mbytes f | None => [] end.

Definition set_mem (k : Z) (bs : list byte) (d : mdisk) : mdisk :=
  match om_lookup k (mfiles d) with
  | Some f => set_mfiles (om_insert k (MFile bs (mstable f) (linked f)) (mfiles d)) d
  | None => d
  end.

(** [create_new], [set_len] and the mapping, for a file of [size] zero bytes. *)
Definition create_mapped (k size : Z) : M mdisk io_error unit := fun d =>
  if linked_at k d then (d, Err AlreadyExists)
  else
    (do! mcall in
     do! modify (fun d => set_mfiles (om_insert k (MFile [] [] true) (mfiles d)) d) in
     do! mcall in
     do! modify (set_mem k (zrep size Byte.x00)) in
     mcall) d.

(** [flush_sync]: [msync(MS_SYNC)], then [fdatasync]. *)
Definition flush_sync (k : Z) : M mdisk io_error unit :=
  do! mcall in
  do! mcall in
  modify (fun d => match om_lookup k (mfiles d) with
                   | Some f => set_mfiles (om_insert k (MFile (mbytes f) (mbytes f) (linked f)) (mfiles d)) d
                   | None => d
                   end).

(** [flush_async] schedules a write-back: nothing is on stable storage when it returns. *)
Definition flush_async : M mdisk io_error unit := mcall.

Definition unlink (k : Z) (d : mdisk) : mdisk :=
  match om_lookup k (mfiles d) with
  | Some f => set_mfiles (om_insert k (MFile (mbytes f) (mstable f) false) (mfiles d)) d
  | None => d
  end.

(** [let _ = fs::remove_file(..)]: a failure leaves the name. *)
Definition remove_file (k : Z) (d : mdisk) : mdisk :=
  match mcall d with (d, Ok _) => unlink k d | (d, Err _) => d end.

(** [ActiveCoord::store_active] *)
Definition store_active (first : Z) : M mdisk io_error unit :=
  do! modify (fun d => MDisk (mfiles d) (first, wrap64 ((coord d).2 + 1)) (mfate d)) in
  flush_async.

(** [ActiveCoord::open_or_create]: open, size and map. *)
Definition open_coord : M mdisk io_error unit := do! mcall in do! mcall in mcall.

Definition load_first_cursor (d : mdisk) : Z := (coord d).1.
Definition load_generation (d : mdisk) : Z := (coord d).2.

(** ** Lemmas *)

Lemma mcall_ok d : mfate d = [] -> mcall d = (d, Ok tt).
Proof. unfold mcall. by intros ->. Qed.

Lemma remove_file_ok k d : mfate d = [] -> remove_file k d = unlink k d.
Proof. intros Hf. unfold remove_file. by rewrite mcall_ok. Qed.

Lemma set_mem_lookup k bs d f : om_lookup k (mfiles d) = Some f ->
  set_mem k bs d = set_mfiles (om_insert k (MFile bs (mstable f) (linked f)) (mfiles d)) d.
Proof. unfold set_mem. by intros ->. Qed.

Lemma mem_lookup k d f : om_lookup k (mfiles d) = Some f -> mem d k = mbytes f.
Proof. unfold mem. by intros ->. Qed.

Lemma create_mapped_ok k size d :
  mfate d = [] -> linked_at k d = false ->
  create_mapped k size d = (set_mfiles (om_insert k (MFile (zrep size Byte.x00) [] true) (mfiles d)) d, Ok tt).
Proof.
  intros Hf Hl. unfold create_mapped. rewrite Hl. step_ok (mcall_ok d Hf). unfold bind at 1, modify at 1.
  rewrite (bind_ok _ _ _ _ tt (mcall_ok (set_mfiles (om_insert k (MFile [] [] true) (mfiles d)) d) Hf)).
  unfold bind, modify. rewrite (set_mem_lookup _ _ _ (MFile [] [] true)) by apply om_lookup_insert.
  cbn [mfiles set_mfiles mstable linked coord mfate]. rewrite om_insert_insert. by apply mcall_ok.
Qed.

Lemma flush_sync_ok k d f : mfate d = [] -> om_lookup k (mfiles d) = Some f ->
  flush_sync k d = (set_mfiles (om_insert k (MFile (mbytes f) (mbytes f) (linked f)) (mfiles d)) d, Ok tt).
Proof.
  intros Hf Hk. unfold flush_sync. step_ok (mcall_ok d Hf). step_ok (mcall_ok d Hf). unfold modify. by rewrite Hk.
Qed.

Lemma store_active_ok first d : mfate d = [] ->
  store_active first d = (MDisk (mfiles d) (first, wrap64 ((coord d).2 + 1)) [], Ok tt).
Proof.
  intros Hf. unfold store_active, flush_async, bind, modify. rewrite mcall_ok by done. by rewrite Hf.
Qed.

Lemma linked_at_dir k d : om_sorted (mfiles d) -> linked_at k d = true <-> k ∈ mdir d.
Proof.
  intros Hs. unfold linked_at, mdir. split.
  - destruct (om_lookup k (mfiles d)) as [f|] eqn:E; [|done]. intros Hl. apply om_lookup_in in E.
    apply list_elem_of_fmap. exists (k, f). split; [done|]. apply list_elem_of_In, List.filter_In. split; [by apply list_elem_of_In|done].
  - intros Hin. apply list_elem_of_fmap in Hin as ([k' f] & -> & Hin). apply list_elem_of_In, List.filter_In in Hin as [Hin Hl].
    apply list_elem_of_In in Hin. cbn [fst snd] in *. by rewrite (om_in_lookup _ _ _ Hs Hin).
Qed.
