(* ===== verification/WalV2.v ===== *)
(** * The lock-free write-ahead log ([crates/mmbus/src/wal/v2/wal.rs],
      [crates/mmbus/src/wal/v2/rotation.rs], [crates/mmbus/src/wal/v2/reader.rs])

    The aggregator over mapped segments: opening, appending with rotation and retention, syncing, the
    flusher's turns, and the replayer.  Calls of one publisher run one after the other; the flusher's
    turn is cut where appends may come in between.  A path in [dir/wal/] is the cursor its name spells. *)

From Stdlib Require Import ZArith Lia Strings.Byte.
From stdpp Require Import base option strings gmap list.
From S2P Require Import Prelude OrdMap Chain Disk Record Config Stats Mmap SegmentV2.

Inductive writer_error2 :=
  | PayloadTooLarge2 (payload_len : Z)
  | SegmentTooSmall (segment_size min : Z)
  | WriterIo (e : io_error).

Inductive rotate_error := RotWriter (e : writer_error2) | RotIo (e : io_error).

Inductive wal_error2 :=
  | EIo2 (e : io_error)
  | EWriter2 (e : writer_error2)
  | EReader2 (e : mmap_reader_error)
  | ERotation (e : rotate_error)
  | CursorTooOld2 (requested oldest : Z)
  | Poisoned2
  | EPayloadTooLarge2 (payload_len : Z)
  | ExpectPanic   (* the panic of [load_full().expect(..)] *)
  | UndefinedLoad (offset : Z).   (* of the model: after [BadLoad] the code has no defined behaviour *)

(** [MmapSegmentWriter]: the file it maps is the one its first cursor names. *)
Record writer2 := Writer2 { wsize : Z; wfirst : Z }.

Record counters := Counters { appends_total : Z; append_bytes_total : Z; flushes_total : Z }.

Record wal2 := Wal2 {
  cfg : wal_config;
  writer : option writer2;
  segments : omap Z;
  segment_sizes : omap Z;
  durable_cursor : Z;
  pending_cursor : Z;
  active_bytes : Z;
  retained_bytes : Z;
  cached_ts : Z;
  clock : Z;              (* [wall_base_nanos] plus the time since *)
  counts : counters;
  poisoned : bool
}.

Definition st : Type := mdisk * wal2.

Definition with_writer (x : option writer2) (w : wal2) : wal2 :=
  Wal2 (cfg w) x (segments w) (segment_sizes w) (durable_cursor w) (pending_cursor w) (active_bytes w)
    (retained_bytes w) (cached_ts w) (clock w) (counts w) (poisoned w).
Definition with_segments (x : omap Z) (w : wal2) : wal2 :=
  Wal2 (cfg w) (writer w) x (segment_sizes w) (durable_cursor w) (pending_cursor w) (active_bytes w)
    (retained_bytes w) (cached_ts w) (clock w) (counts w) (poisoned w).
Definition with_sizes (x : omap Z) (r : Z) (w : wal2) : wal2 :=
  Wal2 (cfg w) (writer w) (segments w) x (durable_cursor w) (pending_cursor w) (active_bytes w)
    r (cached_ts w) (clock w) (counts w) (poisoned w).
Definition with_durable (x : Z) (w : wal2) : wal2 :=
  Wal2 (cfg w) (writer w) (segments w) (segment_sizes w) x (pending_cursor w) (active_bytes w)
    (retained_bytes w) (cached_ts w) (clock w) (counts w) (poisoned w).
Definition with_pending (x : Z) (w : wal2) : wal2 :=
  Wal2 (cfg w) (writer w) (segments w) (segment_sizes w) (durable_cursor w) x (active_bytes w)
    (retained_bytes w) (cached_ts w) (clock w) (counts w) (poisoned w).
Definition with_active_bytes (x : Z) (w : wal2) : wal2 :=
  Wal2 (cfg w) (writer w) (segments w) (segment_sizes w) (durable_cursor w) (pending_cursor w) x
    (retained_bytes w) (cached_ts w) (clock w) (counts w) (poisoned w).
Definition with_cached_ts (x : Z) (w : wal2) : wal2 :=
  Wal2 (cfg w) (writer w) (segments w) (segment_sizes w) (durable_cursor w) (pending_cursor w) (active_bytes w)
    (retained_bytes w) x (clock w) (counts w) (poisoned w).
Definition with_counts (x : counters) (w : wal2) : wal2 :=
  Wal2 (cfg w) (writer w) (segments w) (segment_sizes w) (durable_cursor w) (pending_cursor w) (active_bytes w)
    (retained_bytes w) (cached_ts w) (clock w) x (poisoned w).
Definition with_poisoned (x : bool) (w : wal2) : wal2 :=
  Wal2 (cfg w) (writer w) (segments w) (segment_sizes w) (durable_cursor w) (pending_cursor w) (active_bytes w)
    (retained_bytes w) (cached_ts w) (clock w) (counts w) x.

Definition count_append (n : Z) (w : wal2) : wal2 :=
  with_counts (Counters (appends_total (counts w) + 1) (append_bytes_total (counts w) + n) (flushes_total (counts w))) w.
Definition count_flush (w : wal2) : wal2 :=
  with_counts (Counters (appends_total (counts w)) (append_bytes_total (counts w)) (flushes_total (counts w) + 1)) w.

(** A call on the directory, its error wrapped; a change of the log's fields. *)
Definition on_disk {E A} (f : E -> wal_error2) (m : M mdisk E A) : M st wal_error2 A := fun '(d, w) =>
  let '(d, r) := m d in ((d, w), map_err f r).
Definition on_wal (f : wal2 -> wal2) : M st wal_error2 unit := modify (fun '(d, w) => (d, f w)).

Section wal_v2.
Context `{Crc}.

(** [MmapSegmentWriter::create] *)
Definition create_segment (size first : Z) : M mdisk writer_error2 writer2 := fun d =>
  if segment_too_small size then (d, Err (SegmentTooSmall size (SEGMENT_HEADER_LEN + RECORD_FRAMING)))
  else match create_mapped first size d with
       | (d, Err e) => (d, Err (WriterIo e))
       | (d, Ok _) => (set_mem first (create_bytes size first) d, Ok (Writer2 size first))
       end.

Definition current_tail (d : mdisk) (wr : writer2) : Z := seg_tail (mem d (wfirst wr)).

(** [MmapSegmentWriter::append] on the mapping. *)
Definition writer_append (wr : writer2) (cursor ts : Z) (payload : list byte) : M mdisk writer_error2 append_outcome := fun d =>
  match append (wsize wr) cursor ts payload (mem d (wfirst wr)) with
  | (m, Some out) => (set_mem (wfirst wr) m d, Ok out)
  | (_, None) => (d, Err (PayloadTooLarge2 (zlen payload)))
  end.

(** [rotation::rotate] *)
Definition rotate (old : writer2) (new_first segment_size : Z) : M mdisk rotate_error writer2 := fun d =>
  let d := set_mem (wfirst old) (write_skip_to_end (wsize old) (mem d (wfirst old))).1 d in
  let d := (flush_async d).1 in
  match create_segment segment_size new_first d with
  | (d, Err e) => (d, Err (RotWriter e))
  | (d, Ok wr) =>
      match store_active new_first d with
      | (d, Err e) => (d, Err (RotIo e))
      | (d, Ok _) => (d, Ok wr)
      end
  end.

(** ** Opening *)

(** [while let ReadOutcome::Record(r) = reader.next_record()]; an error is the offset of a [BadLoad]. *)
Fixpoint scan_last (fuel : nat) (m : list byte) (r : mmap_reader) (last : option Z) : result Z (option Z) :=
  match fuel with
  | O => Ok last
  | S fuel =>
      match next_record m r with
      | (r, GotRecord rec) => scan_last fuel m r (Some (rcursor rec))
      | (_, BadLoad offset) => Err offset
      | _ => Ok last
      end
  end.

(** Every record takes at least a byte of the file. *)
Definition scan_fuel (m : list byte) : nat := S (length m).

Definition last_committed (m : list byte) : result Z (option Z) :=
  match open_bytes m with Ok r => scan_last (scan_fuel m) m r None | Err _ => Ok None end.

Definition sum_values (m : omap Z) : Z := foldr Z.add 0 (om_values m).

Definition opened (c : wal_config) (segs sizes : omap Z) (wr : option writer2) (pending ab now : Z) : wal2 :=
  let sizes := if 0 <? ab then match om_last segs with Some (k, _) => om_remove k sizes | None => sizes end else sizes in
  Wal2 c wr segs sizes pending pending ab (sum_values sizes) now now (Counters 0 0 0) false.

Definition open (c : wal_config) (now : Z) : M mdisk wal_error2 wal2 := fun d =>
  let segs := map (fun k => (k, k)) (mdir d) in
  let sizes := map (fun k => (k, zlen (mem d k))) (mdir d) in
  match open_coord d with
  | (d, Err e) => (d, Err (EIo2 e))
  | (d, Ok _) =>
      match om_last segs with
      | None => (d, Ok (opened c segs sizes None 0 0 now))
      | Some (last_first, _) =>
          match last_committed (mem d last_first) with
          | Err offset => (d, Err (UndefinedLoad offset))
          | Ok last =>
              let next := match last with Some cur => wrap64 (cur + 1) | None => last_first end in
              if next =? last_first then
                match store_active last_first d with
                | (d, Err e) => (d, Err (EIo2 e))
                | (d, Ok _) => (d, Ok (opened c segs sizes None last_first 0 now))
                end
              else
                match create_segment (segment_size_max c) next d with
                | (d, Err e) => (d, Err (EWriter2 e))
                | (d, Ok wr) =>
                    let bytes := current_tail d wr in
                    match store_active next d with
                    | (d, Err e) => (d, Err (EIo2 e))
                    | (d, Ok _) =>
                        (d, Ok (opened c (om_insert next next segs) (om_insert next bytes sizes) (Some wr) next bytes now))
                    end
                end
          end
      end
  end.

Definition current_ts (w : wal2) : Z :=
  match policy (cfg w) with Batched => cached_ts w | NoFsync | Each => clock w end.

(** ** Rotation and retention *)

Definition rotate_locked (new_first : Z) : M st wal_error2 unit := fun '(d, w) =>
  match writer w with
  | Some old =>
      let w := with_writer None w in
      let final_bytes := current_tail d old in
      match rotate old new_first (segment_size_max (cfg w)) d with
      | (d, Err e) => ((d, w), Err (ERotation e))
      | (d, Ok wr) =>
          let w := with_sizes (om_insert (wfirst old) final_bytes (segment_sizes w)) (retained_bytes w + final_bytes) w in
          let w := with_segments (om_insert new_first new_first (segments w)) w in
          let w := with_active_bytes (current_tail d wr) w in
          ((d, with_writer (Some wr) w), Ok tt)
      end
  | None =>
      match create_segment (segment_size_max (cfg w)) new_first d with
      | (d, Err e) => ((d, w), Err (EWriter2 e))
      | (d, Ok wr) =>
          let w := with_segments (om_insert new_first new_first (segments w)) w in
          let w := with_writer (Some wr) (with_active_bytes (current_tail d wr) w) in
          on_disk EIo2 (store_active new_first) (d, w)
      end
  end.

(** One turn of [enforce_retention_locked]'s loop; [None] when it returns. *)
Definition retention_turn (s : st) : option st :=
  let '(d, w) := s in
  if retained_bytes w + active_bytes w <=? retention_bytes (cfg w) then None
  else
    let active_first := match writer w with Some wr => wfirst wr | None => u64_MAX end in
    match List.find (fun k => negb (k =? active_first)) (om_keys (segments w)) with
    | None => None
    | Some k =>
        let d := remove_file k d in
        let pruned := default 0 (om_lookup k (segment_sizes w)) in
        let w := with_segments (om_remove k (segments w)) w in
        Some (d, with_sizes (om_remove k (segment_sizes w))
                   (if 0 <? pruned then retained_bytes w - pruned else retained_bytes w) w)
    end.

Fixpoint enforce_retention (fuel : nat) (s : st) : st :=
  match fuel with
  | O => s
  | S fuel => match retention_turn s with None => s | Some s => enforce_retention fuel s end
  end.

(** Every turn removes a segment from the index. *)
Definition enforce_retention_locked (s : st) : st := enforce_retention (S (length (segments s.2))) s.

(** ** Appending *)

(** The writer the record goes to: the active one when the record fits, else the slow path. *)
Definition ensure_writer (cursor record_bytes : Z) : M st wal_error2 writer2 := fun '(d, w) =>
  let fits := active_bytes w + record_bytes <=? segment_size_max (cfg w) in
  match writer w with
  | Some wr =>
      if fits then ((d, w), Ok wr)
      else
        (do! rotate_locked cursor in
         fun '(d, w) => match writer w with Some wr => ((d, w), Ok wr) | None => ((d, w), Err ExpectPanic) end) (d, w)
  | None =>
      match create_segment (segment_size_max (cfg w)) cursor d with
      | (d, Err e) => ((d, w), Err (EWriter2 e))
      | (d, Ok wr) =>
          let w := with_segments (om_insert cursor cursor (segments w)) w in
          let w := with_writer (Some wr) (with_active_bytes (current_tail d wr) w) in
          (do! on_disk EIo2 (store_active cursor) in ret wr) (d, w)
      end
  end.

(** The append on [wr], retried once on a fresh segment when it is full. *)
Definition append_or_rotate (wr : writer2) (cursor ts : Z) (payload : list byte) : M st wal_error2 Z :=
  let! out := on_disk EWriter2 (writer_append wr cursor ts payload) in
  match out with
  | Appended _ next => ret next
  | SegmentFull =>
      do! rotate_locked cursor in
      fun '(d, w) =>
        match writer w with
        | None => ((d, w), Err ExpectPanic)
        | Some wr2 =>
            (let! out := on_disk EWriter2 (writer_append wr2 cursor ts payload) in
             match out with
             | Appended _ next => ret next
             | SegmentFull => fail (EPayloadTooLarge2 (zlen payload))
             end) (d, w)
        end
  end.

Definition wal_append (cursor ts : Z) (payload : list byte) : M st wal_error2 unit := fun s =>
  let w := s.2 in
  if negb (enabled (cfg w)) then (s, Ok tt)
  else if MAX_PAYLOAD_LEN <? zlen payload then (s, Err (EPayloadTooLarge2 (zlen payload)))
  else if poisoned w then (s, Err Poisoned2)
  else
    (let! wr := ensure_writer cursor (align_record_len (RECORD_FRAMING + zlen payload)) in
     let! next := append_or_rotate wr cursor ts payload in
     do! modify (fun '(d, w) =>
       (d, count_append (zlen payload) (with_active_bytes (current_tail d wr) (with_pending next w)))) in
     do! modify (fun s =>
       if retention_bytes (cfg s.2) <? retained_bytes s.2 + active_bytes s.2 then enforce_retention_locked s else s) in
     fun s =>
       match policy (cfg s.2) with
       | Each =>
           (do! on_disk EIo2 (flush_sync (wfirst wr)) in
            on_wal (fun w => count_flush (with_durable next w))) s
       | _ => (s, Ok tt)
       end) s.

(** ** Other operations *)

Definition fsync : M st wal_error2 unit := fun '(d, w) =>
  (do! match writer w with
       | Some wr => do! on_disk EIo2 (flush_sync (wfirst wr)) in on_wal count_flush
       | None => ret tt
       end in
   on_wal (fun w => with_durable (pending_cursor w) w)) (d, w).

Definition bump_generation : M st wal_error2 unit := fun s =>
  match writer s.2 with Some _ => rotate_locked (pending_cursor s.2) s | None => (s, Ok tt) end.

Definition oldest_cursor (w : wal2) : Z := default 0 (om_first (segments w)).

Definition stats (w : wal2) : wal_stats :=
  WalStats (pending_cursor w) (durable_cursor w) (oldest_cursor w) (active_bytes w)
    (retained_bytes w + active_bytes w) (zlen (segments w)) (appends_total (counts w))
    (append_bytes_total (counts w)) (flushes_total (counts w)).

(** [Drop] *)
Definition drop_wal (s : st) : mdisk := if enabled (cfg s.2) then (fsync s).1.1 else s.1.

(** The flusher's turn: the timestamp and the snapshot; the flush of the writer it then finds; and what it
    does with the outcome. *)
Definition flusher_begin (now : Z) (s : st) : st * Z :=
  ((s.1, with_cached_ts now s.2), pending_cursor s.2).

Definition flusher_flush (s : st) : st * result io_error unit :=
  match writer s.2 with
  | Some wr => let '(d, r) := flush_sync (wfirst wr) s.1 in ((d, s.2), r)
  | None => (s, Ok tt)
  end.

Definition flusher_end (snapshot : Z) (r : result io_error unit) (s : st) : st :=
  (s.1, match r with
        | Ok _ => count_flush (with_durable snapshot s.2)
        | Err _ => with_poisoned true s.2
        end).

(** ** Replay *)

Record replayer := Replayer {
  rsegments : list Z;
  cursor_floor : Z;
  current : option (Z * mmap_reader)   (* the mapped segment and the reader on it *)
}.

(** [MmapSegmentReader::open] *)
Definition open_reader (k : Z) (d : mdisk) : result mmap_reader_error mmap_reader :=
  if linked_at k d then open_bytes (mem d k) else Err (ReaderIo NotFound).

Fixpoint replay_next (fuel : nat) (r : replayer) (d : mdisk) : replayer * option (result wal_error2 record) :=
  match fuel with
  | O => (r, None)
  | S fuel =>
      match current r with
      | None =>
          match rsegments r with
          | [] => (r, None)
          | k :: rest =>
              match open_reader k d with
              | Ok rd => replay_next fuel (Replayer rest (cursor_floor r) (Some (k, rd))) d
              | Err e => (Replayer rest (cursor_floor r) None, Some (Err (EReader2 e)))
              end
          end
      | Some (k, rd) =>
          match next_record (mem d k) rd with
          | (rd, GotRecord rec) =>
              let r := Replayer (rsegments r) (cursor_floor r) (Some (k, rd)) in
              if rcursor rec <? cursor_floor r then replay_next fuel r d else (r, Some (Ok rec))
          | (rd, ReadErr e) => (Replayer (rsegments r) (cursor_floor r) (Some (k, rd)), Some (Err (EReader2 e)))
          | (_, BadLoad offset) => (Replayer [] (cursor_floor r) None, Some (Err (UndefinedLoad offset)))
          | (_, AwaitMore) | (_, EndOfSegment) => replay_next fuel (Replayer (rsegments r) (cursor_floor r) None) d
          end
      end
  end.

Definition read_from_index (segs : omap Z) (cursor : Z) : result wal_error2 replayer :=
  match om_first segs with
  | None => Ok (Replayer [] cursor None)
  | Some oldest =>
      if cursor <? oldest then Err (CursorTooOld2 cursor oldest)
      else
        let containing_first := default oldest (om_floor cursor segs) in
        Ok (Replayer (om_values (om_from containing_first segs)) cursor None)
  end.

Definition read_from (w : wal2) (cursor : Z) : result wal_error2 replayer := read_from_index (segments w) cursor.

(** [WalReader] *)
Definition reader_open (d : mdisk) : omap Z := map (fun k => (k, k)) (mdir d).
Definition reader_oldest (segs : omap Z) : option Z := om_first segs.
Definition reader_read_from (segs : omap Z) (cursor : Z) : result wal_error2 replayer := read_from_index segs cursor.
End wal_v2.
