(* ===== verification/WalV2Spec.v ===== *)
(** * What the lock-free log does ([WalV2.v] against a list of records)

    The invariant that ties the directory, the index and the active mapping to a chain of segments; every
    operation keeps it and has the effect of a list operation on the log; restarting, and replaying. *)

From Stdlib Require Import ZArith Lia Strings.Byte.
From stdpp Require Import base option sorting strings gmap list.
From S2P Require Import Prelude OrdMap Chain Disk Record Config Stats Mmap SegmentV2 WalV2.

(** ** The directory *)

Definition upd (k : Z) (f : mfile) (d : mdisk) : mdisk := set_mfiles (om_insert k f (mfiles d)) d.

Lemma mdir_nil_above k m : om_sorted m -> Forall (fun x => x < k) (map fst (List.filter (fun kf : Z * mfile => linked kf.2) m)) ->
  Forall (fun x => k <= x) (om_keys m) -> List.filter (fun kf : Z * mfile => linked kf.2) m = [].
Proof.
  intros _ Hl Hk. induction m as [|[k' f] m IH]; [done|]. cbn in *. apply Forall_cons in Hk as [Hk' Hk].
  destruct (linked f); cbn in *; [|by apply IH]. apply Forall_cons in Hl as [Hl _]. lia.
Qed.

Lemma mdir_insert_last k f d :
  om_sorted (mfiles d) -> linked f = true -> Forall (fun x => x < k) (mdir d) -> mdir (upd k f d) = mdir d ++ [k].
Proof.
  unfold mdir, upd. cbn [mfiles set_mfiles]. intros Hs Hl. induction (mfiles d) as [|[k' f'] m IH]; intros Hk.
  { cbn. by rewrite Hl. }
  pose proof Hs as Hs0. apply StronglySorted_inv in Hs as [Hs Hk']. cbn [om_insert].
  assert (Hgt : k <= k' -> Forall (fun x => k <= x) (om_keys m)).
  { intros ?. rewrite Forall_forall in Hk' |- *. intros x Hx. specialize (Hk' x Hx). cbn in Hk'. lia. }
  assert (Htl : Forall (fun x => x < k) (map fst (List.filter (fun kf : Z * mfile => linked kf.2) m))).
  { cbn in Hk. destruct (linked f'); [by apply Forall_cons in Hk as [_ ?]|done]. }
  assert (Hun : k <= k' -> linked f' = false).
  { intros ?. cbn in Hk. destruct (linked f'); [|done]. apply Forall_cons in Hk as [Hk _]. cbn in Hk. lia. }
  destruct (Z.ltb_spec k k') as [Hlt|Hge]; [|destruct (Z.eqb_spec k k') as [->|Hne]].
  - cbn. rewrite Hl, Hun by lia. rewrite (mdir_nil_above k m) by (done || apply Hgt; lia). done.
  - cbn. rewrite Hl, Hun by lia. rewrite (mdir_nil_above k' m) by (done || apply Hgt; lia). done.
  - cbn. destruct (linked f'); cbn; by rewrite IH.
Qed.

Lemma mdir_insert_same k f f' d :
  om_sorted (mfiles d) -> om_lookup k (mfiles d) = Some f -> linked f' = linked f -> mdir (upd k f' d) = mdir d.
Proof.
  unfold mdir, upd. cbn [mfiles set_mfiles]. intros Hs Hk Hl. induction (mfiles d) as [|[k2 f2] m IH]; [done|].
  apply StronglySorted_inv in Hs as [Hs Hk2]. cbn [om_lookup om_insert] in *. destruct (Z.eqb_spec k k2) as [->|Hne].
  - injection Hk as ->. rewrite Z.ltb_irrefl. cbn. rewrite Hl. by destruct (linked f).
  - destruct (Z.ltb_spec k k2).
    + exfalso. apply om_lookup_in in Hk. rewrite Forall_forall in Hk2.
      specialize (Hk2 k ltac:(apply list_elem_of_fmap; by exists (k, f))). cbn in Hk2. lia.
    + cbn. destruct (linked f2); cbn; by rewrite IH.
Qed.

Lemma mdir_sorted d : om_sorted (mfiles d) -> StronglySorted Z.lt (mdir d).
Proof.
  unfold mdir, om_sorted, om_keys. induction (mfiles d) as [|[k f] m IH]; intros Hs; [constructor|].
  apply StronglySorted_inv in Hs as [Hs Hk]. cbn. destruct (linked f); [|by apply IH]. cbn. constructor; [by apply IH|].
  rewrite Forall_forall in Hk |- *. intros x Hx. apply Hk. apply list_elem_of_fmap in Hx as (y & -> & Hy).
  apply list_elem_of_In, List.filter_In in Hy as [Hy _]. apply list_elem_of_fmap. exists y. split; [done|]. by apply list_elem_of_In.
Qed.

(** Removing the name that comes first. *)
Lemma mdir_unlink_first k l d : om_sorted (mfiles d) -> mdir d = k :: l -> mdir (unlink k d) = l.
Proof.
  unfold unlink, mdir. intros Hs Hd.
  destruct (om_lookup k (mfiles d)) as [f|] eqn:Ek.
  2:{ exfalso. assert (Hin : k ∈ map fst (List.filter (fun kf => linked kf.2) (mfiles d))) by (rewrite Hd; by left).
      apply list_elem_of_fmap in Hin as ([k' f] & -> & Hin). apply list_elem_of_In, List.filter_In in Hin as [Hin _].
      apply list_elem_of_In, (om_in_lookup _ _ _ Hs) in Hin. cbn in Ek. by rewrite Hin in Ek. }
  cbn [mfiles set_mfiles]. revert Hd Hs Ek. induction (mfiles d) as [|[k2 f2] m IH]; intros Hd Hs Ek; [done|].
  apply StronglySorted_inv in Hs as [Hs Hk2]. cbn [om_insert om_lookup] in *.
  destruct (Z.eqb_spec k k2) as [->|Hne].
  - rewrite Z.ltb_irrefl. injection Ek as ->. cbn in *. destruct (linked f) eqn:El; cbn in *; [by injection Hd|].
    exfalso. assert (Hin : k2 ∈ map fst (List.filter (fun kf => linked kf.2) m)) by (rewrite Hd; by left).
    apply list_elem_of_fmap in Hin as (y & -> & Hy). apply list_elem_of_In, List.filter_In in Hy as [Hy _].
    rewrite Forall_forall in Hk2. specialize (Hk2 y.1 ltac:(apply list_elem_of_fmap; exists y; split; [done|by apply list_elem_of_In])).
    cbn in Hk2. lia.
  - destruct (Z.ltb_spec k k2).
    + exfalso. apply om_lookup_in in Ek. rewrite Forall_forall in Hk2.
      specialize (Hk2 k ltac:(apply list_elem_of_fmap; by exists (k, f))). cbn in Hk2. lia.
    + cbn in *. destruct (linked f2); cbn in *; [|by apply IH]. injection Hd as <- _. lia.
Qed.

Section spec.
Context `{Crc}.

(** ** Invariant *)

(** A segment of the directory, as its mappings show it. *)
Definition holds_at (d : mdisk) (sg : seg) : Prop :=
  exists f size, om_lookup (sfirst sg) (mfiles d) = Some f /\ linked f = true /\ holds size (sfirst sg) (srecs sg) (mbytes f).

(** [old] are the retired segments, oldest first; [act] is the one that takes appends. *)
Definition segs_of (old : list seg) (act : option seg) : list seg :=
  old ++ match act with Some a => [a] | None => [] end.

Definition active_ok (d : mdisk) (w : wal2) (old : list seg) (act : option seg) : Prop :=
  match act with
  | None => writer w = None /\ old = [] /\ active_bytes w = 0
  | Some a =>
      let size := segment_size_max (cfg w) in
      writer w = Some (Writer2 size (sfirst a)) /\ active_bytes w = SEGMENT_HEADER_LEN + zlen (enc2_all (srecs a))
      /\ exists f, om_lookup (sfirst a) (mfiles d) = Some f /\ linked f = true /\ live size (sfirst a) (srecs a) (mbytes f)
  end.

Record wal2_inv (d : mdisk) (w : wal2) (old : list seg) (act : option seg) : Prop := {
  v_sorted : om_sorted (mfiles d);
  v_fate : mfate d = [];
  v_dir : mdir d = map sfirst (segs_of old act);
  v_index : segments w = index_of (segs_of old act);
  v_ok : Forall seg_ok (segs_of old act);
  v_full : Forall (fun sg => srecs sg <> []) old;
  v_old : Forall (holds_at d) old;
  v_act : active_ok d w old act;
  v_chain : exists b, 0 <= b /\ chain b (segs_of old act) (pending_cursor w);
  v_pending : pending_cursor w < two64;
  v_size : segment_size_max (cfg w) < two63;
  v_ts : is_u64 (cached_ts w) /\ is_u64 (clock w)
}.

Lemma lookup_upd k f d : om_lookup k (mfiles (upd k f d)) = Some f.
Proof. apply om_lookup_insert. Qed.

Lemma lookup_upd_ne k k' f d : k' <> k -> om_lookup k' (mfiles (upd k f d)) = om_lookup k' (mfiles d).
Proof. intros. by apply om_lookup_insert_ne. Qed.

Lemma upd_sorted k f d : om_sorted (mfiles d) -> om_sorted (mfiles (upd k f d)).
Proof. apply om_insert_sorted. Qed.

Lemma upd_upd k f f' d : upd k f (upd k f' d) = upd k f d.
Proof. unfold upd, set_mfiles. cbn. by rewrite om_insert_insert. Qed.

Lemma mem_upd k f d : mem (upd k f d) k = mbytes f.
Proof. unfold mem. by rewrite lookup_upd. Qed.

Lemma holds_at_upd k f d sg : sfirst sg <> k -> holds_at d sg -> holds_at (upd k f d) sg.
Proof. intros Hne (g & size & Hg & Hl & Hh). exists g, size. by rewrite lookup_upd_ne. Qed.

Lemma old_upd k f d old : k ∉ map sfirst old -> Forall (holds_at d) old -> Forall (holds_at (upd k f d)) old.
Proof.
  intros Hk Ho. rewrite Forall_forall in Ho |- *. intros sg Hsg. apply holds_at_upd; [|by apply Ho].
  intros <-. apply Hk, list_elem_of_fmap. eauto.
Qed.

(** The mappings of the names [ks] keep their sizes. *)
Definition same_sizes (ks : list Z) (d d' : mdisk) : Prop := Forall (fun k => zlen (mem d' k) = zlen (mem d k)) ks.

Lemma same_sizes_refl ks d : same_sizes ks d d.
Proof. by apply Forall_true. Qed.

Lemma same_sizes_trans ks d1 d2 d3 : same_sizes ks d1 d2 -> same_sizes ks d2 d3 -> same_sizes ks d1 d3.
Proof. unfold same_sizes. rewrite !Forall_forall. intros H1 H2 k Hk. by rewrite H2, H1. Qed.

Lemma same_sizes_files ks d d' : mfiles d' = mfiles d -> same_sizes ks d d'.
Proof. intros E. apply Forall_true. intros k. unfold mem. by rewrite E. Qed.

Lemma mem_upd_ne k k' f d : k' <> k -> mem (upd k f d) k' = mem d k'.
Proof. intros. unfold mem. by rewrite lookup_upd_ne. Qed.

Lemma same_sizes_upd ks k f d : k ∉ ks \/ zlen (mbytes f) = zlen (mem d k) -> same_sizes ks d (upd k f d).
Proof.
  intros Hk. apply Forall_forall. intros x Hx. destruct (decide (x = k)) as [->|]; [|by rewrite mem_upd_ne].
  rewrite mem_upd. by destruct Hk.
Qed.

Lemma inner_nonempty_segs old act : Forall (fun sg => srecs sg <> []) old -> inner_nonempty (segs_of old act).
Proof.
  intros Ho. unfold segs_of. induction Ho as [|sg l Hsg Hl IH]; [by destruct act|].
  cbn [app]. destruct (l ++ _) as [|x l'] eqn:E; [done|]. split; [done|exact IH].
Qed.

(** The retired segments lie below the active one. *)
Lemma old_below d w old act : wal2_inv d w old act ->
  Forall (fun k => k < match act with Some a => sfirst a | None => pending_cursor w end) (map sfirst old).
Proof.
  intros Hinv. destruct (v_chain _ _ _ _ Hinv) as (b & _ & Hch). unfold segs_of in Hch.
  apply chain_app in Hch as (m & Hold & Hact). pose proof (chain_fresh _ _ _ Hold (v_full _ _ _ _ Hinv)) as Hf.
  destruct act as [a|]; [by destruct Hact as [-> _]|]. cbn in Hact. by rewrite <- Hact.
Qed.

Lemma not_in_below k l : Forall (fun x => x < k) l -> k ∉ l.
Proof. intros Hl Hin. rewrite Forall_forall in Hl. specialize (Hl _ Hin). lia. Qed.

(** No file has the name the next segment will get. *)
Lemma fresh_name d w old act : wal2_inv d w old act ->
  match act with Some a => srecs a <> [] | None => True end ->
  Forall (fun k => k < pending_cursor w) (mdir d) /\ linked_at (pending_cursor w) d = false.
Proof.
  intros Hinv Hne. destruct (v_chain _ _ _ _ Hinv) as (b & _ & Hch).
  assert (Hall : Forall (fun sg => srecs sg <> []) (segs_of old act)).
  { unfold segs_of. apply Forall_app. split; [apply (v_full _ _ _ _ Hinv)|]. destruct act; by repeat constructor. }
  pose proof (chain_fresh _ _ _ Hch Hall) as Hf. rewrite <- (v_dir _ _ _ _ Hinv) in Hf. split; [done|].
  destruct (linked_at (pending_cursor w) d) eqn:E; [|done]. apply linked_at_dir in E; [|apply (v_sorted _ _ _ _ Hinv)].
  by apply not_in_below in Hf.
Qed.

(** ** Making and closing segments *)

Lemma create_segment_ok size first d :
  mfate d = [] -> linked_at first d = false -> segment_too_small size = false ->
  create_segment size first d
  = (upd first (MFile (create_bytes size first) [] true) d, Ok (Writer2 size first)).
Proof.
  intros Hf Hl Hs. unfold create_segment. rewrite Hs, create_mapped_ok by done.
  rewrite (set_mem_lookup _ _ _ (MFile (zrep size Byte.x00) [] true)) by apply lookup_upd.
  by rewrite <- (upd_upd first _ (MFile (zrep size Byte.x00) [] true) d).
Qed.

Lemma skip_mem d k f size first rs :
  om_lookup k (mfiles d) = Some f -> live size first rs (mbytes f) ->
  exists f', set_mem k (write_skip_to_end size (mem d k)).1 d = upd k f' d /\ linked f' = linked f
    /\ holds size first rs (mbytes f').
Proof.
  intros Hk Hl. rewrite (mem_lookup _ _ _ Hk), (set_mem_lookup _ _ _ f Hk). eexists. split; [reflexivity|].
  split; [done|]. by apply skip_to_end_holds.
Qed.

(** The directory and [active.dat] change, nothing else. *)
Definition coord_only (d d' : mdisk) : Prop := mfiles d' = mfiles d /\ mfate d' = mfate d.

Lemma store_active_coord first d : mfate d = [] ->
  exists d', store_active first d = (d', Ok tt) /\ coord_only d d'.
Proof. intros Hf. rewrite store_active_ok by done. eexists. split; [done|]. split; [done|]. by rewrite Hf. Qed.

Lemma coord_only_mdir d d' : coord_only d d' -> mdir d' = mdir d.
Proof. unfold mdir. by intros [-> _]. Qed.

Lemma coord_only_holds d d' old : coord_only d d' -> Forall (holds_at d) old -> Forall (holds_at d') old.
Proof. intros [Hm _] Ho. eapply Forall_impl; [exact Ho|]. intros sg. unfold holds_at. by rewrite Hm. Qed.

Lemma rec_len_le_size r size : SEGMENT_HEADER_LEN + rec_len r <= size -> segment_too_small size = false.
Proof.
  pose proof (rec_len_pos r). unfold segment_too_small, SEGMENT_HEADER_LEN, RECORD_FRAMING. intros.
  apply Z.ltb_ge. lia.
Qed.

(** A chain of non-empty segments in the directory. *)
Record settled (d : mdisk) (segs : list seg) (b e : Z) : Prop := {
  se_sorted : om_sorted (mfiles d);
  se_fate : mfate d = [];
  se_dir : mdir d = map sfirst segs;
  se_ok : Forall seg_ok segs;
  se_full : Forall (fun sg => srecs sg <> []) segs;
  se_holds : Forall (holds_at d) segs;
  se_chain : 0 <= b /\ chain b segs e;
  se_end : e < two64
}.

Lemma settled_fresh d segs b e : settled d segs b e -> Forall (fun k => k < e) (mdir d) /\ linked_at e d = false.
Proof.
  intros [Hs _ Hd _ Hf _ [_ Hch] _]. pose proof (chain_fresh _ _ _ Hch Hf) as Hlt. rewrite <- Hd in Hlt.
  split; [done|]. destruct (linked_at e d) eqn:E; [|done]. apply linked_at_dir in E; [|done]. by apply not_in_below in Hlt.
Qed.

Lemma settled_coord d d' segs b e : coord_only d d' -> settled d segs b e -> settled d' segs b e.
Proof.
  intros Hc [Hs Hf Hd Hok Hfu Hh Hch He]. constructor; try done.
  - by destruct Hc as [-> _].
  - by destruct Hc as [_ ->].
  - by rewrite (coord_only_mdir _ _ Hc).
  - by eapply coord_only_holds.
Qed.

(** A new, empty segment becomes the active one. *)
Lemma start_segment d segs b e d' w size :
  settled d segs b e -> segment_too_small size = false ->
  coord_only (upd e (MFile (create_bytes size e) [] true) d) d' ->
  writer w = Some (Writer2 size e) -> segments w = index_of (segs ++ [Seg e 0 []]) ->
  active_bytes w = SEGMENT_HEADER_LEN -> segment_size_max (cfg w) = size -> size < two63 -> pending_cursor w = e ->
  is_u64 (cached_ts w) /\ is_u64 (clock w) ->
  wal2_inv d' w segs (Some (Seg e 0 [])).
Proof.
  intros Hse Hsm Hc Hw Hix Hab Hsz Hmax Hpe Hts. destruct (settled_fresh _ _ _ _ Hse) as [Hlt Hl].
  destruct Hse as [Hs Hf Hd Hok Hfu Hh [Hb Hch] He]. pose proof (chain_mono _ _ _ Hch).
  assert (He64 : is_u64 e) by (split; [lia|done]).
  set (d1 := upd e _ d) in *. pose proof Hc as [Hm Hfa].
  constructor; try done.
  - rewrite Hm. by apply upd_sorted.
  - rewrite Hfa. done.
  - rewrite (coord_only_mdir _ _ Hc). unfold d1. rewrite mdir_insert_last by done. rewrite Hd.
    unfold segs_of. by rewrite map_app.
  - unfold segs_of. apply Forall_app. split; [done|]. constructor; [|done]. split; [done|]. split; [split; vm_compute; congruence|].
    split; [done|]. intros i r Hi. by destruct i.
  - eapply coord_only_holds; [exact Hc|]. apply old_upd; [|done]. rewrite <- Hd. by apply not_in_below.
  - cbn [active_ok sfirst srecs]. rewrite Hsz, Hw. split; [done|]. split; [rewrite Hab; change (enc2_all []) with (@nil byte); rewrite zlen_nil; lia|].
    eexists. rewrite Hm. split; [apply lookup_upd|]. split; [done|]. cbn [mbytes]. by apply create_live.
  - exists b. split; [done|]. unfold segs_of. apply chain_app. exists e. split; [done|]. split; [done|]. cbn [chain srecs].
    rewrite zlen_nil. lia.
  - by rewrite Hpe.
  - by rewrite Hsz.
Qed.

(** Retiring the active segment. *)
Lemma retire d w old a :
  wal2_inv d w old (Some a) -> srecs a <> [] ->
  let size := segment_size_max (cfg w) in
  let d1 := set_mem (sfirst a) (write_skip_to_end size (mem d (sfirst a))).1 d in
  exists b, settled d1 (old ++ [a]) b (pending_cursor w) /\ forall ks, same_sizes ks d d1.
Proof.
  intros Hinv Hne size d1. pose proof (old_below _ _ _ _ Hinv) as Hbel. cbn in Hbel.
  destruct Hinv as [Hs Hf Hd Hix Hok Hfu Hold (Hw & Hab & f & Hk & Hlk & Hlive) (b & Hb & Hch) Hp Hsz Hts].
  unfold segs_of in *. destruct (skip_mem d _ f _ _ _ Hk Hlive) as (f' & E & Hl' & Hh'). fold size in E.
  unfold d1. rewrite E. exists b. split.
  2:{ intros ks. apply same_sizes_upd. right. rewrite (mem_lookup _ _ _ Hk), (h_size _ _ _ _ Hh'). symmetry. apply (h_size _ _ _ _ (live_holds _ _ _ _ Hlive)). }
  constructor; try done.
  - by apply upd_sorted.
  - by rewrite (mdir_insert_same _ f) by done.
  - apply Forall_app. split; [done|]. by constructor.
  - apply Forall_app. split; [apply old_upd; [by apply not_in_below|done]|]. constructor; [|done].
    exists f', size. split; [apply lookup_upd|]. split; [by rewrite Hl'|done].
Qed.

(** What creating, rotating and pruning segments leave alone. *)
Record same_core (w w' : wal2) : Prop := {
  sc_cfg : cfg w' = cfg w;
  sc_pending : pending_cursor w' = pending_cursor w;
  sc_durable : durable_cursor w' = durable_cursor w;
  sc_poisoned : poisoned w' = poisoned w;
  sc_ts : cached_ts w' = cached_ts w;
  sc_clock : clock w' = clock w
}.

Lemma same_core_refl w : same_core w w.
Proof. done. Qed.

Lemma same_core_trans w1 w2 w3 : same_core w1 w2 -> same_core w2 w3 -> same_core w1 w3.
Proof. intros [] []. constructor; congruence. Qed.

Lemma live_tail size first rs m : live size first rs m -> seg_tail m = SEGMENT_HEADER_LEN + zlen (enc2_all rs).
Proof.
  intros [-> Hf Hs _ _]. pose proof (zlen_nonneg (enc2_all rs)). unfold live_bytes. apply seg_tail_bytes.
  unfold SEGMENT_HEADER_LEN in *. ulia.
Qed.

Lemma current_tail_created size e d :
  segment_too_small size = false -> size < two63 -> is_u64 e ->
  current_tail (upd e (MFile (create_bytes size e) [] true) d) (Writer2 size e) = SEGMENT_HEADER_LEN.
Proof.
  intros Hs Hm He. unfold current_tail. cbn [wfirst]. rewrite mem_upd. cbn [mbytes].
  rewrite (l_bytes _ _ _ _ (create_live size e Hs Hm He)). unfold live_bytes. apply seg_tail_bytes.
  split; vm_compute; congruence.
Qed.

Lemma rotate_locked_ok d w old a :
  wal2_inv d w old (Some a) -> srecs a <> [] -> segment_too_small (segment_size_max (cfg w)) = false ->
  exists d' w', rotate_locked (pending_cursor w) (d, w) = ((d', w'), Ok tt) /\ same_core w w'
    /\ wal2_inv d' w' (old ++ [a]) (Some (Seg (pending_cursor w) 0 []))
    /\ retained_bytes w' + active_bytes w' = retained_bytes w + active_bytes w + SEGMENT_HEADER_LEN
    /\ same_sizes (map sfirst (segs_of old (Some a))) d d'.
Proof.
  intros Hinv Hne Hsm. destruct (retire _ _ _ _ Hinv Hne) as (b & Hse & Hsame). cbv zeta in Hse, Hsame.
  destruct (v_act _ _ _ _ Hinv) as (Hw & Hab & f & Hk & _ & Hlive). pose proof (v_size _ _ _ _ Hinv) as Hmax.
  destruct (settled_fresh _ _ _ _ Hse) as [Hlt Hl]. pose proof (se_chain _ _ _ _ Hse) as [Hb Hch].
  pose proof (chain_mono _ _ _ Hch). pose proof (v_pending _ _ _ _ Hinv) as Hp.
  set (size := segment_size_max (cfg w)) in *. set (e := pending_cursor w) in *.
  assert (Hfinal : current_tail d (Writer2 size (sfirst a)) = active_bytes w).
  { unfold current_tail. cbn [wfirst]. rewrite (mem_lookup _ _ _ Hk), Hab. by apply (live_tail size (sfirst a)). }
  unfold rotate_locked. rewrite Hw. cbv zeta. unfold rotate. cbn [wfirst wsize].
  set (d1 := set_mem (sfirst a) (write_skip_to_end size (mem d (sfirst a))).1 d) in *. cbn [cfg with_writer].
  fold size. unfold flush_async. rewrite (mcall_ok d1) by apply Hse. cbn [fst].
  rewrite (create_segment_ok size e d1) by (done || apply Hse).
  set (d2 := upd e _ d1). destruct (store_active_coord e d2) as (d3 & Ed & Hc); [apply Hse|]. rewrite Ed.
  eexists _, _. split; [reflexivity|]. split; [done|].
  assert (Htail : current_tail d3 (Writer2 size e) = SEGMENT_HEADER_LEN).
  { unfold current_tail, mem. destruct Hc as [-> _]. apply (current_tail_created size e d1); [done|done|split; [lia|done]]. }
  split; [|split; [cbn [retained_bytes active_bytes with_writer with_active_bytes with_segments with_sizes]; rewrite Htail, Hfinal; lia|]].
  2:{ apply (same_sizes_trans _ d d1); [apply Hsame|]. apply (same_sizes_trans _ d1 d2); [|apply same_sizes_files, Hc].
      apply same_sizes_upd. left. rewrite (se_dir _ _ _ _ Hse) in Hlt. by apply not_in_below. }
  eapply (start_segment d1 (old ++ [a]) b e d3 _ size); try done.
  - cbn [segments with_writer with_active_bytes with_segments with_sizes]. rewrite (v_index _ _ _ _ Hinv).
    change (index_of (segs_of old (Some a))) with (index_of (old ++ [a])).
    apply (index_insert_last (old ++ [a]) (Seg e 0 [])). cbn [sfirst]. rewrite <- (se_dir _ _ _ _ Hse). exact Hlt.
  - exact (v_ts _ _ _ _ Hinv).
Qed.

(** The writer a record that fits in an empty segment goes to. *)
Lemma ensure_writer_ok d w old act r :
  wal2_inv d w old act -> SEGMENT_HEADER_LEN + rec_len r <= segment_size_max (cfg w) ->
  exists d' w' old' a',
    ensure_writer (pending_cursor w) (rec_len r) (d, w) = ((d', w'), Ok (Writer2 (segment_size_max (cfg w)) (sfirst a')))
    /\ same_core w w' /\ wal2_inv d' w' old' (Some a')
    /\ SEGMENT_HEADER_LEN + zlen (enc2_all (srecs a')) + rec_len r <= segment_size_max (cfg w)
    /\ (segs_of old' (Some a') = segs_of old act \/ segs_of old' (Some a') = segs_of old act ++ [a'] /\ srecs a' = [])
    /\ retained_bytes w' + active_bytes w' <= retained_bytes w + active_bytes w + SEGMENT_HEADER_LEN
    /\ same_sizes (map sfirst (segs_of old act)) d d'.
Proof.
  intros Hinv Hfit. pose proof (rec_len_le_size _ _ Hfit) as Hsm. set (size := segment_size_max (cfg w)) in *.
  unfold ensure_writer. fold size. destruct act as [a|].
  - pose proof (v_act _ _ _ _ Hinv) as (Hw & Hab & _). cbv zeta in Hw. fold size in Hw. rewrite Hw. cbv zeta.
    destruct (Z.leb_spec (active_bytes w + rec_len r) size) as [Hle|Hgt].
    + exists d, w, old, a. split; [done|]. split; [done|]. split; [done|]. rewrite <- Hab. split; [lia|]. split; [by left|].
      split; [unfold SEGMENT_HEADER_LEN; lia|apply same_sizes_refl].
    + assert (Hne : srecs a <> []).
      { intros E. rewrite Hab, E in Hgt. change (enc2_all []) with (@nil byte) in Hgt. rewrite zlen_nil in Hgt. lia. }
      destruct (rotate_locked_ok d w old a Hinv Hne Hsm) as (d' & w' & E & Hsc & Hinv' & Hby & Hsame).
      step_ok E. pose proof (v_act _ _ _ _ Hinv') as (Hw' & _). rewrite (sc_cfg _ _ Hsc) in Hw'. cbn [sfirst] in Hw'.
      rewrite Hw'. exists d', w', (old ++ [a]), (Seg (pending_cursor w) 0 []). split; [done|]. split; [done|]. split; [done|].
      cbn [srecs]. change (enc2_all []) with (@nil byte). rewrite zlen_nil. split; [lia|]. split; [by right|]. split; [lia|done].
  - pose proof (v_act _ _ _ _ Hinv) as (Hw & -> & Hab). rewrite Hw.
    destruct (v_chain _ _ _ _ Hinv) as (b & Hb & Hch).
    assert (Hse : settled d [] b (pending_cursor w)).
    { destruct Hinv. constructor; try done. }
    destruct (settled_fresh _ _ _ _ Hse) as [Hlt Hl]. pose proof (v_size _ _ _ _ Hinv) as Hmax.
    pose proof (v_pending _ _ _ _ Hinv) as Hp. pose proof (chain_mono _ _ _ Hch). set (e := pending_cursor w) in *.
    rewrite (create_segment_ok size e d) by (done || apply Hse). cbv zeta.
    set (d2 := upd e _ d). destruct (store_active_coord e d2) as (d3 & Ed & Hc); [apply Hse|].
    unfold bind, on_disk. rewrite Ed. cbn [map_err].
    eexists d3, _, [], (Seg e 0 []). split; [reflexivity|]. split; [done|].
    assert (Htail : current_tail d2 (Writer2 size e) = SEGMENT_HEADER_LEN).
    { apply (current_tail_created size e d); [done|done|split; [lia|done]]. }
    split; [|split; [cbn [srecs]; change (enc2_all []) with (@nil byte); rewrite zlen_nil; lia|split; [by right|]]].
    2:{ cbn [retained_bytes active_bytes with_writer with_active_bytes with_segments]. rewrite Hab, Htail. split; [lia|constructor]. }
    eapply (start_segment d [] b e d3 _ size); try done.
    + cbn [segments with_writer with_active_bytes with_segments]. by rewrite (v_index _ _ _ _ Hinv).
    + exact (v_ts _ _ _ _ Hinv).
Qed.

(** ** One record *)

(** The active segment with one more record, after its file was overwritten in place. *)
Lemma grow_active d w old a r f f' w' :
  wal2_inv d w old (Some a) -> om_lookup (sfirst a) (mfiles d) = Some f -> linked f' = linked f ->
  live (segment_size_max (cfg w)) (sfirst a) (srecs a ++ [r]) (mbytes f') -> rcursor r = pending_cursor w -> record_ok r ->
  pending_cursor w + 1 < two64 ->
  cfg w' = cfg w -> writer w' = writer w -> segments w' = segments w -> pending_cursor w' = pending_cursor w + 1 ->
  active_bytes w' = SEGMENT_HEADER_LEN + zlen (enc2_all (srecs a ++ [r])) -> cached_ts w' = cached_ts w -> clock w' = clock w ->
  wal2_inv (upd (sfirst a) f' d) w' old (Some (Seg (sfirst a) 0 (srecs a ++ [r]))).
Proof.
  intros Hinv Hk Hl' Hlive Hcur Hr Hmax Hcf Hwr Hsg Hpe Hab Hct Hcl. pose proof (old_below _ _ _ _ Hinv) as Hbel. cbn in Hbel.
  destruct Hinv as [Hs Hf Hd Hix Hok Hfu Hold (Hw & _ & f0 & Hk0 & Hlk & _) (b & Hb & Hch) Hp Hsz Hts].
  rewrite Hk in Hk0. injection Hk0 as <-. unfold segs_of in *. apply Forall_app in Hok as [Hok1 Hok2].
  apply Forall_cons in Hok2 as [(Ha1 & _ & Ha3 & Ha4) _]. apply chain_app in Hch as (m & Hch1 & Hch2).
  cbn [chain] in Hch2. destruct Hch2 as [<- Hpen].
  constructor; rewrite ?Hcf, ?Hsg, ?Hpe, ?Hct, ?Hcl; try done.
  - by apply upd_sorted.
  - rewrite (mdir_insert_same _ f) by done. rewrite Hd. unfold segs_of. by rewrite !map_app.
  - rewrite Hix. unfold index_of, segs_of. by rewrite !map_app.
  - unfold segs_of. apply Forall_app. split; [done|]. constructor; [|done]. split; [done|]. split; [split; vm_compute; congruence|].
    cbn [srecs sfirst]. split; [apply Forall_app; split; [done|by constructor]|].
    apply consecutive_app. split; [done|]. intros [|i] x Hx; [injection Hx as <-; lia|done].
  - apply old_upd; [by apply not_in_below|done].
  - cbn [active_ok sfirst srecs]. rewrite Hwr, Hcf, Hw. split; [done|]. split; [done|].
    exists f'. split; [apply lookup_upd|]. split; [by rewrite Hl'|done].
  - exists b. split; [done|]. unfold segs_of. apply chain_app. exists (sfirst a). split; [done|]. cbn [chain sfirst srecs].
    split; [done|]. rewrite zlen_app, zlen_cons, zlen_nil. lia.
Qed.

Lemma append_active_ok d w old a ts p :
  wal2_inv d w old (Some a) -> is_u64 ts -> zlen p <= MAX_PAYLOAD_LEN -> pending_cursor w + 1 < two64 ->
  let r := Record_ (pending_cursor w) ts p in
  let wr := Writer2 (segment_size_max (cfg w)) (sfirst a) in
  SEGMENT_HEADER_LEN + zlen (enc2_all (srecs a)) + rec_len r <= segment_size_max (cfg w) ->
  exists d', append_or_rotate wr (pending_cursor w) ts p (d, w) = ((d', w), Ok (pending_cursor w + 1))
    /\ wal2_inv d' (count_append (zlen p) (with_active_bytes (current_tail d' wr) (with_pending (pending_cursor w + 1) w)))
         old (Some (Seg (sfirst a) 0 (srecs a ++ [r])))
    /\ forall ks, same_sizes ks d d'.
Proof.
  intros Hinv Hts Hp Hmax r wr Hfit. destruct (v_act _ _ _ _ Hinv) as (Hw & Hab & f & Hk & Hlk & Hlive).
  set (size := segment_size_max (cfg w)) in *. destruct (v_chain _ _ _ _ Hinv) as (b & Hb & Hch). pose proof (chain_mono _ _ _ Hch).
  assert (Hc : is_u64 (pending_cursor w)) by (split; [lia|apply (v_pending _ _ _ _ Hinv)]).
  destruct (append_live size (sfirst a) (srecs a) (mbytes f) (pending_cursor w) ts p Hlive Hc Hts) as [E Hl'].
  fold r in E, Hl'. destruct (Z.ltb_spec MAX_PAYLOAD_LEN (zlen p)); [lia|].
  destruct (Z.ltb_spec size (SEGMENT_HEADER_LEN + zlen (enc2_all (srecs a)) + rec_len r)); [lia|].
  specialize (Hl' Hp Hfit). set (f' := MFile (live_bytes size (sfirst a) (srecs a ++ [r])) (mstable f) (linked f)).
  exists (upd (sfirst a) f' d). split; [|split].
  - unfold append_or_rotate, bind, on_disk, writer_append, wr. cbn [wfirst wsize]. rewrite (mem_lookup _ _ _ Hk), E.
    rewrite (set_mem_lookup _ _ _ f Hk). cbn [map_err]. rewrite wrap64_small by ulia. done.
  - eapply (grow_active d w old a r f f'); try done.
    cbn [active_bytes count_append with_counts with_active_bytes]. unfold current_tail, wr. cbn [wfirst].
    rewrite mem_upd. by apply (live_tail size (sfirst a)).
  - intros ks. apply same_sizes_upd. right. rewrite (mem_lookup _ _ _ Hk). destruct Hl' as [E1 E2 _ _ _], Hlive as [E3 E4 _ _ _].
    rewrite E3, zlen_live_bytes by done. by apply zlen_live_bytes.
Qed.

(** ** Retention *)

Lemma retention_drops fuel d w old a :
  wal2_inv d w old (Some a) ->
  exists dropped kept d' w', old = dropped ++ kept /\ enforce_retention fuel (d, w) = (d', w')
    /\ wal2_inv d' w' kept (Some a) /\ same_core w w'.
Proof.
  revert d w old. induction fuel as [|fuel IH]; intros d w old Hinv; [by exists [], old, d, w|].
  cbn [enforce_retention]. unfold retention_turn. destruct (_ <=? _); [by exists [], old, d, w|].
  pose proof (v_act _ _ _ _ Hinv) as (Hw & _). rewrite Hw. cbn [wfirst]. rewrite (v_index _ _ _ _ Hinv), om_keys_index.
  destruct old as [|sg old].
  { cbn. rewrite Z.eqb_refl. cbn. by exists [], [], d, w. }
  pose proof (old_below _ _ _ _ Hinv) as Hbel. cbn in Hbel. apply Forall_cons in Hbel as [Hlt Hbel].
  cbn [segs_of app map List.find]. destruct (Z.eqb_spec (sfirst sg) (sfirst a)); [lia|]. cbn [negb].
  rewrite remove_file_ok by apply (v_fate _ _ _ _ Hinv).
  set (w1 := with_sizes _ _ _).
  assert (Hinv1 : wal2_inv (unlink (sfirst sg) d) w1 old (Some a)).
  { pose proof (v_dir _ _ _ _ Hinv) as Hd. cbn [segs_of app map] in Hd.
    destruct Hinv as [Hs Hf _ Hix Hok Hfu Hold Hact (b & Hb & Hch) Hp Hsz Hts].
    apply Forall_cons in Hold as [(f & size & Hk & Hlk & Hh) Hold]. apply Forall_cons in Hfu as [Hne Hfu].
    cbn [segs_of app] in *. apply Forall_cons in Hok as [_ Hok]. destruct Hch as [Hb' Hch].
    pose proof (mdir_unlink_first _ _ _ Hs Hd) as Hd1.
    assert (Hu : unlink (sfirst sg) d = upd (sfirst sg) (MFile (mbytes f) (mstable f) false) d) by (unfold unlink; by rewrite Hk).
    rewrite Hu in *. apply chain_app in Hch as (m & Hch1 & Hch2).
    assert (Hni : sfirst sg ∉ map sfirst old).
    { intros Hin. apply list_elem_of_fmap in Hin as (x & E & Hx). pose proof (chain_firsts _ _ _ _ Hch1 Hx).
      destruct (srecs sg); [done|]. rewrite zlen_cons in *. pose proof (zlen_nonneg l). lia. }
    constructor; try done.
    - by apply upd_sorted.
    - cbn [segments w1 with_sizes with_segments]. unfold index_of. cbn [map om_remove]. by rewrite Z.eqb_refl.
    - by apply old_upd.
    - destruct Hact as (Hw' & Hab & g & Hg & Hlg & Hlive). split; [done|]. split; [done|]. exists g.
      rewrite lookup_upd_ne by (intros E; lia). done.
    - exists (b + zlen (srecs sg)). split; [pose proof (zlen_nonneg (srecs sg)); lia|]. apply chain_app. by exists m. }
  destruct (IH _ _ _ Hinv1) as (dropped & kept & d' & w' & -> & E & Hinv' & Hsc).
  exists (sg :: dropped), kept, d', w'. split; [done|]. split; [|split; [done|]].
  - unfold index_of in E |- *. cbn [segs_of app map] in *. exact E.
  - destruct Hsc. constructor; done.
Qed.

(** ** Syncing *)

(** The active file's bytes are written back; fields of the log the invariant does not look at change. *)
Lemma flush_active_ok d w old a :
  wal2_inv d w old (Some a) ->
  exists d', flush_sync (sfirst a) d = (d', Ok tt)
    /\ (exists f, om_lookup (sfirst a) (mfiles d') = Some f /\ mstable f = mbytes f)
    /\ (forall ks, same_sizes ks d d')
    /\ forall w', same_core w w' \/ (exists x, same_core (with_durable x w) w') -> writer w' = writer w -> segments w' = segments w ->
         active_bytes w' = active_bytes w -> wal2_inv d' w' old (Some a).
Proof.
  intros Hinv. pose proof (old_below _ _ _ _ Hinv) as Hbel. cbn in Hbel.
  destruct (v_act _ _ _ _ Hinv) as (Hw & Hab & f & Hk & Hlk & Hlive).
  rewrite (flush_sync_ok _ d f) by (done || apply (v_fate _ _ _ _ Hinv)).
  fold (upd (sfirst a) (MFile (mbytes f) (mbytes f) (linked f)) d). eexists. split; [reflexivity|].
  split; [eexists; split; [apply lookup_upd|done]|].
  split; [intros ks; apply same_sizes_upd; right; by rewrite (mem_lookup _ _ _ Hk)|]. intros w' Hsc Hwr Hsg Hab'.
  assert (Hcore : cfg w' = cfg w /\ pending_cursor w' = pending_cursor w /\ cached_ts w' = cached_ts w /\ clock w' = clock w).
  { destruct Hsc as [[]|(x & [])]; done. }
  destruct Hcore as (Hcf & Hpe & Hct & Hcl). destruct Hinv as [Hs Hf Hd Hix Hok Hfu Hold _ Hch Hp Hsz Hts].
  constructor; rewrite ?Hcf, ?Hsg, ?Hpe, ?Hct, ?Hcl; try done.
  - by apply upd_sorted.
  - by rewrite (mdir_insert_same _ f).
  - apply old_upd; [by apply not_in_below|done].
  - cbn [active_ok]. rewrite Hwr, Hcf, Hab'. split; [done|]. split; [done|]. eexists. split; [apply lookup_upd|]. done.
Qed.

Definition fits (r : record) (w : wal2) : Prop :=
  zlen (payload r) <= MAX_PAYLOAD_LEN /\ SEGMENT_HEADER_LEN + rec_len r <= segment_size_max (cfg w).

Lemma wal_append_ok d w old act ts p :
  wal2_inv d w old act -> enabled (cfg w) = true -> poisoned w = false -> is_u64 ts -> pending_cursor w + 1 < two64 ->
  let r := Record_ (pending_cursor w) ts p in
  fits r w ->
  exists d' w' old' a' dropped, wal_append (pending_cursor w) ts p (d, w) = ((d', w'), Ok tt)
    /\ wal2_inv d' w' old' (Some a') /\ log_of (segs_of old act) ++ [r] = dropped ++ log_of (segs_of old' (Some a'))
    /\ pending_cursor w' = pending_cursor w + 1 /\ cfg w' = cfg w /\ poisoned w' = false
    /\ durable_cursor w' = (if policy (cfg w) is Each then pending_cursor w + 1 else durable_cursor w)
    /\ srecs a' <> []
    /\ (policy (cfg w) = Each -> exists f, om_lookup (sfirst a') (mfiles d') = Some f /\ mstable f = mbytes f)
    /\ exists dr, dropped = log_of dr /\ grown r (segs_of old act) (dr ++ segs_of old' (Some a'))
         /\ (retained_bytes w + active_bytes w + SEGMENT_HEADER_LEN + rec_len r <= retention_bytes (cfg w) ->
              dr = [] /\ retained_bytes w' + active_bytes w' <= retained_bytes w + active_bytes w + SEGMENT_HEADER_LEN + rec_len r
              /\ same_sizes (map sfirst (segs_of old act)) d d').
Proof.
  intros Hinv Hen Hpo Hts Hmax r [Hp Hfit]. unfold wal_append. cbn [snd]. rewrite Hen, Hpo. cbn [negb].
  cbn [payload r] in Hp. destruct (Z.ltb_spec MAX_PAYLOAD_LEN (zlen p)); [lia|].
  destruct (ensure_writer_ok d w old act r Hinv Hfit) as (d1 & w1 & old1 & a1 & E1 & Hsc1 & Hinv1 & Hroom & Hseg1 & Hby1 & Hsame1).
  change (align_record_len (RECORD_FRAMING + zlen p)) with (rec_len r). step_ok E1.
  pose proof (sc_cfg _ _ Hsc1) as Hcf1. pose proof (sc_pending _ _ Hsc1) as Hpe1.
  destruct (append_active_ok d1 w1 old1 a1 ts p Hinv1 Hts Hp) as (d2 & E2 & Hinv2 & Hsame2); [by rewrite Hpe1|by rewrite Hpe1, Hcf1|].
  rewrite Hpe1, Hcf1 in E2. step_ok E2. rewrite Hpe1, Hcf1 in Hinv2. fold r in Hinv2.
  unfold bind at 1, modify at 1.
  set (w2 := count_append _ _) in *. set (a2 := Seg (sfirst a1) 0 (srecs a1 ++ [r])) in *.
  assert (Hret : exists dropped kept d3 w3, old1 = dropped ++ kept
    /\ (if retention_bytes (cfg w2) <? retained_bytes w2 + active_bytes w2 then enforce_retention_locked (d2, w2) else (d2, w2)) = (d3, w3)
    /\ wal2_inv d3 w3 kept (Some a2) /\ same_core w2 w3
    /\ (retained_bytes w2 + active_bytes w2 <= retention_bytes (cfg w2) -> dropped = [] /\ w3 = w2 /\ d3 = d2)).
  { destruct (Z.ltb_spec (retention_bytes (cfg w2)) (retained_bytes w2 + active_bytes w2)); [|by exists [], old1, d2, w2].
    destruct (retention_drops (S (length (segments w2))) _ _ _ _ Hinv2) as (dr & kept & d3 & w3 & ? & ? & ? & ?).
    exists dr, kept, d3, w3. repeat (split; [done|]). lia. }
  destruct Hret as (dropped & kept & d3 & w3 & -> & E3 & Hinv3 & Hsc3 & Hfew).
  unfold bind at 1, modify at 1. cbn [snd].
  match goal with |- context [policy (cfg (snd ?x))] => assert (Ex : x = (d3, w3)) by exact E3 end.
  rewrite !Ex. cbn [fst snd].
  assert (Hgr : grown r (segs_of old act) (dropped ++ segs_of kept (Some a2))).
  { unfold segs_of at 2. rewrite app_assoc. destruct Hseg1 as [<-|[Eseg Enil]].
    - left. by exists (dropped ++ kept), a1, a2.
    - right. exists a2. unfold segs_of at 1 in Eseg. apply app_inj_tail in Eseg as [-> _]. split; [done|]. unfold a2. cbn [srecs]. by rewrite Enil. }
  assert (Hlog : log_of (segs_of old act) ++ [r] = log_of dropped ++ log_of (segs_of kept (Some a2))).
  { rewrite <- (grown_log _ _ _ Hgr). apply log_of_app. }
  assert (Hby : retained_bytes w + active_bytes w + SEGMENT_HEADER_LEN + rec_len r <= retention_bytes (cfg w) ->
    dropped = [] /\ retained_bytes w3 + active_bytes w3 <= retained_bytes w + active_bytes w + SEGMENT_HEADER_LEN + rec_len r
    /\ same_sizes (map sfirst (segs_of old act)) d d3).
  { pose proof (v_act _ _ _ _ Hinv1) as (_ & Hab1 & _). pose proof (v_act _ _ _ _ Hinv2) as (_ & Hab2 & _). cbn [srecs a2] in Hab2.
    rewrite enc2_all_app, zlen_app in Hab2. change (zlen (enc2_all [r])) with (zlen (enc2 r ++ [])) in Hab2. rewrite app_nil_r, zlen_enc2 in Hab2.
    change (retained_bytes w2) with (retained_bytes w1) in Hfew. change (cfg w2) with (cfg w1) in Hfew. rewrite Hcf1 in Hfew. intros Hle.
    destruct Hfew as (-> & -> & ->); [lia|]. split; [done|]. change (retained_bytes w2) with (retained_bytes w1). split; [lia|].
    by apply (same_sizes_trans _ d d1). }
  destruct Hsc3 as [Hcf3 Hpe3 Hdu3 Hpo3 _ _]. cbn [w2 cfg count_append with_counts with_active_bytes with_pending] in Hcf3.
  cbn [w2 pending_cursor durable_cursor poisoned count_append with_counts with_active_bytes with_pending] in Hpe3, Hdu3, Hpo3.
  cbn [snd]. rewrite Hcf3, Hcf1.
  assert (Hrest : pending_cursor w3 = pending_cursor w + 1 /\ cfg w3 = cfg w /\ poisoned w3 = false
    /\ durable_cursor w3 = durable_cursor w).
  { rewrite Hpe3, Hcf3, Hpo3, Hdu3, Hcf1, (sc_poisoned _ _ Hsc1), (sc_durable _ _ Hsc1). done. }
  destruct Hrest as (R1 & R2 & R3 & R4).
  assert (Hne : srecs a2 <> []) by (by destruct (srecs a1)).
  destruct (policy (cfg w)) eqn:Epol;
    [exists d3, w3, kept, a2, (log_of dropped); repeat (split; [done|]); by exists dropped..|].
  destruct (flush_active_ok d3 w3 kept a2 Hinv3) as (d4 & E4 & Hst & Hsame4 & Hinv4). cbn [sfirst a2] in E4.
  unfold bind, on_disk. cbn [wfirst]. rewrite E4. cbn [map_err]. unfold on_wal, modify.
  eexists d4, _, kept, a2, (log_of dropped). split; [reflexivity|]. split; [|split; [done|]].
  - apply Hinv4; try done. right. by exists (pending_cursor w + 1).
  - repeat (split; [done|]). exists dropped. split; [done|]. split; [done|]. intros Hle. destruct (Hby Hle) as (H1 & H2 & H3).
    split; [done|]. split; [exact H2|]. by apply (same_sizes_trans _ d d3).
Qed.

(** ** Replay *)

(** The segment a replayer reads, with the records it still has of it, and those it has yet to open. *)
Definition part : Type := option (seg * list record).
Definition left_of (cur : part) (segs : list seg) : list record := (match cur with Some (_, todo) => todo | None => [] end) ++ log_of segs.
Definition segs_from (cur : part) (segs : list seg) : list seg := match cur with Some (sg, _) => sg :: segs | None => segs end.

Definition replay_at (d : mdisk) (r : replayer) (cur : part) (segs : list seg) : Prop :=
  Forall (holds_at d) segs /\ rsegments r = map sfirst segs
  /\ match current r, cur with
     | Some (k, rd), Some (sg, todo) => exists size done, sfirst sg = k /\ srecs sg = done ++ todo
         /\ holds size k (srecs sg) (mem d k) /\ rd = reader_past size k done
     | None, None => True
     | _, _ => False
     end.

(** A replayer that still has the records [rem] to go through. *)
Definition replay_repr (d : mdisk) (r : replayer) (rem : list record) : Prop :=
  exists cur segs, replay_at d r cur segs /\ rem = left_of cur segs.

Definition replay_measure (r : replayer) (rem : list record) : nat :=
  length rem + 2 * length (rsegments r) + (if current r then 1 else 0).

Definition wanted (r : replayer) (rec : record) : bool := negb (rcursor rec <? cursor_floor r).

Lemma open_reader_ok d sg : holds_at d sg ->
  exists size, open_reader (sfirst sg) d = Ok (reader_past size (sfirst sg) []) /\ holds size (sfirst sg) (srecs sg) (mem d (sfirst sg)).
Proof.
  intros (f & size & Hk & Hl & Hh). exists size. unfold open_reader, linked_at. rewrite Hk, Hl, (mem_lookup _ _ _ Hk).
  split; [by apply (holds_open _ _ (srecs sg))|done].
Qed.

Lemma replay_next2_at fuel d r cur segs :
  replay_at d r cur segs -> (replay_measure r (left_of cur segs) < fuel)%nat ->
  exists r' cur' segs' k, let rem := List.filter (wanted r) (left_of cur segs) in
    replay_next fuel r d = (r', match rem with [] => None | x :: _ => Some (Ok x) end)
    /\ replay_at d r' cur' segs' /\ segs_from cur' segs' = drop k (segs_from cur segs) /\ cursor_floor r' = cursor_floor r
    /\ List.filter (wanted r) (left_of cur' segs') = List.tl rem.
Proof.
  revert r cur segs. induction fuel as [|fuel IH]; intros r cur segs Hr Hf; [lia|]. cbn [replay_next].
  destruct Hr as (Hd & Hs & Hcur). unfold replay_measure in *.
  destruct (current r) as [[k rd]|] eqn:Ec, cur as [[sg todo]|]; try done.
  - destruct Hcur as (size & pre & Hk & Hrs & Hh & ->). pose proof Hh as Hh'. rewrite Hrs in Hh'. pose proof (holds_next _ _ _ _ _ Hh') as Hn.
    destruct todo as [|x rs].
    + destruct Hn as (rd' & o & -> & Ho).
      destruct (IH (Replayer (rsegments r) (cursor_floor r) None) None segs) as (r' & cur' & segs' & j & E & H1 & H2 & H3); [done|cbn in *; lia|].
      exists r', cur', segs', (S j). cbv zeta. destruct Ho as [-> | ->]; (split; [exact E|]); done.
    + rewrite Hn. cbn [left_of app List.filter]. change (wanted r x) with (negb (rcursor x <? cursor_floor r)).
      set (r1 := Replayer (rsegments r) (cursor_floor r) (Some (k, reader_past size k (pre ++ [x])))).
      assert (Hrepr : replay_at d r1 (Some (sg, rs)) segs).
      { split; [done|]. split; [done|]. cbn [current r1]. exists size, (pre ++ [x]). by rewrite <- app_assoc. }
      change (cursor_floor r1) with (cursor_floor r). destruct (rcursor x <? cursor_floor r) eqn:Ex; cbn [negb].
      * destruct (IH r1 _ _ Hrepr) as (r' & cur' & segs' & j & E & H1 & H2 & H3); [cbn in *; lia|]. by exists r', cur', segs', j.
      * exists r1, (Some (sg, rs)), segs, 0%nat. done.
  - destruct segs as [|sg segs]; rewrite Hs; cbn [map].
    + exists r, None, [], 0%nat. split; [done|]. split; [by unfold replay_at; rewrite Ec|]. done.
    + apply Forall_cons in Hd as [Hsg Hd]. destruct (open_reader_ok d sg Hsg) as (size & -> & Hh).
      destruct (IH (Replayer (map sfirst segs) (cursor_floor r) (Some (sfirst sg, reader_past size (sfirst sg) []))) (Some (sg, srecs sg)) segs)
        as (r' & cur' & segs' & j & E & H1 & H2 & H3).
      { split; [done|]. split; [done|]. cbn [current]. by exists size, []. }
      { rewrite Hs in Hf. unfold left_of in *. rewrite log_of_cons in Hf. cbn in *. lia. }
      exists r', cur', segs', j. split; [exact E|]. done.
Qed.

Lemma replay_next2_spec fuel d r rem :
  replay_repr d r rem -> (replay_measure r rem < fuel)%nat ->
  exists r' rem',
    replay_next fuel r d = (r', match List.filter (wanted r) rem with [] => None | x :: _ => Some (Ok x) end)
    /\ replay_repr d r' rem' /\ cursor_floor r' = cursor_floor r
    /\ List.filter (wanted r) rem' = List.tl (List.filter (wanted r) rem).
Proof.
  intros (cur & segs & Hr & ->) Hf. destruct (replay_next2_at fuel d r cur segs Hr Hf) as (r' & cur' & segs' & k & E & H1 & _ & H2 & H3).
  exists r', (left_of cur' segs'). split; [exact E|]. split; [by eexists _, _|]. done.
Qed.

(** [read_from]: the index of a gapless run of segments, read from cursor [c]. *)
Lemma read_from_index_repr2 d b segs e c :
  chain b segs e -> inner_nonempty segs -> segs <> [] -> Forall seg_ok segs -> Forall (holds_at d) segs -> b <= c ->
  exists r rem, read_from_index (index_of segs) c = Ok r /\ replay_repr d r rem
    /\ List.filter (wanted r) rem = zdrop (c - b) (log_of segs).
Proof.
  intros Hch Hne Hnil Hok Hd Hc. destruct (index_from _ _ _ _ Hch Hne Hnil Hok Hc) as (l1 & l2 & -> & Hfirst & Hv & Hfi).
  unfold read_from_index. rewrite Hfirst. destruct (Z.ltb_spec c b); [lia|]. cbv zeta. rewrite Hv.
  apply Forall_app in Hd as [_ Hd]. exists (Replayer (map sfirst l2) c None), (log_of l2).
  split; [done|]. split; [by exists None, l2|]. exact Hfi.
Qed.

(** ** Opening *)

Lemma scan_last_ok size first pre suf m fuel z :
  holds size first (pre ++ suf) m -> (length suf < fuel)%nat ->
  scan_last fuel m (reader_past size first pre) z
  = Ok (match last suf with Some r => Some (rcursor r) | None => z end).
Proof.
  revert pre fuel z. induction suf as [|r suf IH]; intros pre fuel z Hh Hf; (destruct fuel as [|fuel]; [cbn in Hf; lia|]);
    cbn [scan_last]; pose proof (holds_next _ _ _ _ _ Hh) as Hn.
  - destruct Hn as (rd & x & -> & [-> | ->]); done.
  - rewrite Hn. replace (pre ++ r :: suf) with ((pre ++ [r]) ++ suf) in Hh by (by rewrite <- app_assoc).
    rewrite (IH _ fuel (Some (rcursor r)) Hh) by (cbn in Hf; lia). destruct suf as [|x suf]; [done|]. rewrite last_cons_cons.
    destruct (last (x :: suf)) eqn:E; [done|]. by apply last_None in E.
Qed.

Lemma last_committed_ok d sg rs x :
  holds_at d sg -> srecs sg = rs ++ [x] -> last_committed (mem d (sfirst sg)) = Ok (Some (rcursor x)).
Proof.
  intros Hh Hrs. destruct (open_reader_ok d sg Hh) as (size & Ho & Hm). unfold open_reader in Ho.
  destruct (linked_at _ _); [|done]. unfold last_committed. rewrite Ho.
  rewrite (scan_last_ok size (sfirst sg) [] (srecs sg)); [by rewrite Hrs, last_snoc|done|].
  destruct Hm as [Hsz _ _ (t & rest & Hb & _)]. unfold scan_fuel. rewrite Hb. unfold seg_bytes. rewrite !length_app.
  pose proof (enc2_all_length (srecs sg)). lia.
Qed.

(** A chain of non-empty segments reopens with a fresh segment at its end. *)
Lemma open_settled2 c now d segs b e :
  settled d segs b e -> segs <> [] -> segment_too_small (segment_size_max c) = false -> segment_size_max c < two63 ->
  is_u64 now ->
  exists d' w, open c now d = (d', Ok w) /\ wal2_inv d' w segs (Some (Seg e 0 [])) /\ pending_cursor w = e
    /\ cfg w = c /\ poisoned w = false.
Proof.
  intros Hse Hne Hsm Hmax Hnow. set (size := segment_size_max c) in *. pose proof Hse as [Hs Hf Hd Hok Hfu Hh [Hb Hch] He].
  unfold open, open_coord. step_ok (mcall_ok d Hf). step_ok (mcall_ok d Hf). rewrite mcall_ok by done. cbn [fst snd].
  destruct (destruct_list_end segs) as [->|(old & sg & ->)]; [done|].
  assert (Hix : map (fun k => (k, k)) (mdir d) = index_of (old ++ [sg])).
  { rewrite Hd. unfold index_of. by rewrite map_map. }
  rewrite Hix, om_last_index. apply Forall_app in Hh as [_ Hsg]. apply Forall_cons in Hsg as [Hsg _].
  apply Forall_app in Hfu as [_ Hfsg]. apply Forall_cons in Hfsg as [Hfsg _].
  destruct (destruct_list_end (srecs sg)) as [E|(rs & x & Hrs)]; [done|].
  rewrite (last_committed_ok d sg rs x Hsg Hrs).
  assert (Hx : rcursor x + 1 = e).
  { apply chain_app in Hch as (m & _ & Hm). cbn [chain] in Hm. destruct Hm as [Hfi Hm]. apply Forall_app in Hok as [_ Hok].
    apply Forall_cons in Hok as [(_ & _ & _ & Hc) _]. rewrite Hrs in *.
    rewrite (Hc (length rs) x) by (by apply list_lookup_middle). rewrite zlen_app, zlen_cons, zlen_nil in Hm. unfold zlen in *. lia. }
  destruct (settled_fresh _ _ _ _ Hse) as [Hlt Hl]. pose proof (chain_mono _ _ _ Hch).
  rewrite wrap64_small by ulia. rewrite Hx.
  assert (Hlast : sfirst sg < e).
  { rewrite Hd, map_app in Hlt. apply Forall_app in Hlt as [_ Hlt]. by apply Forall_cons in Hlt as [Hlt _]. }
  destruct (Z.eqb_spec e (sfirst sg)); [lia|]. fold size. rewrite (create_segment_ok size e d) by done. cbv zeta.
  set (d2 := upd e _ d). destruct (store_active_coord e d2) as (d3 & Ed & Hc); [done|]. rewrite Ed.
  eexists _, _. split; [reflexivity|].
  assert (Htail : current_tail d2 (Writer2 size e) = SEGMENT_HEADER_LEN).
  { apply (current_tail_created size e d); [done|done|split; [lia|done]]. }
  split; [|done]. eapply (start_segment d (old ++ [sg]) b e d3 _ size); try done.
  cbn [segments opened]. apply (index_insert_last (old ++ [sg]) (Seg e 0 [])). cbn [sfirst]. by rewrite <- Hd.
Qed.
End spec.
