(* ===== verification/WalV2Api.v ===== *)
(** * The lock-free log behind the interfaces of [WalApi.v]

    [wal/mod.rs] re-exports either log under the same names; with these instances every theorem of the
    publisher and the subscriber stated over [WalLaws] and [ReplayLaws] holds for the lock-free log too. *)

From Stdlib Require Import ZArith Lia.
From stdpp Require Import base option list.
From S2P Require Import Prelude OrdMap Chain Stats Record Config Mmap SegmentV2 WalApi WalV2 WalV2Spec.

Section backend.
Context `{Crc}.

#[export] Instance wal_v2_backend : WalBackend st wal_error2 := {
  wb_append := wal_append;
  wb_pending_cursor s := pending_cursor s.2;
  wb_current_ts s := current_ts s.2;
  wb_stats s := stats s.2
}.

Definition v2_logs (s : st) (base : Z) (hist : list (list byte)) : Prop :=
  exists old act dropped, wal2_inv s.1 s.2 old act /\ enabled (cfg s.2) = true /\ poisoned s.2 = false
    /\ map payload (dropped ++ log_of (segs_of old act)) = hist /\ pending_cursor s.2 = base + zlen hist.

Definition v2_fits (s : st) (data : list byte) : Prop :=
  zlen data <= MAX_PAYLOAD_LEN
  /\ SEGMENT_HEADER_LEN + align_record_len (RECORD_FRAMING + zlen data) <= segment_size_max (cfg s.2).

#[export] Program Instance wal_v2_laws : WalLaws st wal_error2 := {
  wal_logs := v2_logs;
  wal_fits := v2_fits
}.
Next Obligation. by intros s base hist (_ & _ & _ & _ & _ & _ & _ & ?). Qed.
Next Obligation.
  intros [d w] base hist data (old & act & dropped & Hinv & Hen & Hpo & Hh & Hp) (Hl & Hf) Hmax.
  cbn [fst snd wb_append wb_pending_cursor wb_current_ts wal_v2_backend] in *.
  assert (Hts : is_u64 (current_ts w)).
  { pose proof (v_ts _ _ _ _ Hinv) as [? ?]. unfold current_ts. by destruct (policy (cfg w)). }
  destruct (wal_append_ok d w old act (current_ts w) data Hinv Hen Hpo Hts Hmax (conj Hl Hf))
    as (d' & w' & old' & a' & dr & E & Hinv' & Hlog & Hp' & Hc & Hpo' & _).
  exists (d', w'). split; [exact E|]. split; [|intros x [H1 H2]; unfold v2_fits; cbn [snd] in *; by rewrite Hc].
  exists old', (Some a'), (dropped ++ dr). cbn [fst snd]. rewrite Hc. split; [done|]. split; [done|]. split; [done|].
  rewrite <- app_assoc, <- Hlog, app_assoc, map_app, Hh. split; [done|]. rewrite zlen_app, zlen_cons, zlen_nil. lia.
Qed.

(** ** Replay *)

(** The replayer's loop maps each file once, and every record takes a byte. *)
Definition replay_fuel (r : replayer) (d : mdisk) : nat :=
  3 + list_sum (map (fun k => 2 + length (mem d k))%nat (rsegments r))
  + match current r with Some (k, _) => length (mem d k) | None => 0 end.

#[export] Instance v2_replay_backend : ReplayBackend mdisk (omap Z) replayer wal_error2 := {
  rb_open d := Some (reader_open d);
  rb_oldest := reader_oldest;
  rb_read_from := reader_read_from;
  rb_next r d :=
    let '(r, x) := replay_next (replay_fuel r d) r d in
    (d, r, match x with
           | None => None
           | Some (Ok rec) => Some (Ok (rcursor rec, payload rec))
           | Some (Err e) => Some (Err e)
           end);
  rb_too_old e := match e with CursorTooOld2 requested oldest => Some (requested, oldest) | _ => None end
}.

Definition v2_replays (d : mdisk) (r : replayer) (c : Z) (hist : list (list byte)) : Prop :=
  exists rem, replay_repr d r rem /\ consecutive c (List.filter (wanted r) rem)
    /\ map payload (List.filter (wanted r) rem) = hist.

Definition v2_holds (d : mdisk) (b : Z) (hist : list (list byte)) : Prop :=
  exists segs e, mdir d = map sfirst segs /\ chain b segs e /\ inner_nonempty segs /\ segs <> []
    /\ Forall seg_ok segs /\ Forall (holds_at d) segs /\ map payload (log_of segs) = hist.

Lemma holds_length size first rs m : holds size first rs m -> (length rs <= length m)%nat.
Proof.
  intros [_ _ _ (t & rest & -> & _)]. unfold seg_bytes. rewrite !length_app. pose proof (enc2_all_length rs). lia.
Qed.

Lemma replay_fuel2_enough d r rem : replay_repr d r rem -> (replay_measure r rem < replay_fuel r d)%nat.
Proof.
  intros (cur & segs & (Hd & Hs & Hcur) & ->). unfold replay_measure, replay_fuel, left_of. rewrite Hs, length_map.
  assert (Hsum : (length (log_of segs) + 2 * length segs <= list_sum (map (fun k => 2 + length (mem d k))%nat (map sfirst segs)))%nat).
  { clear Hs Hcur. induction Hd as [|sg segs (f & size & Hk & _ & Hh) _ IH]; [done|].
    rewrite log_of_cons, length_app. cbn [map list_sum foldr length]. change (fold_right Nat.add 0%nat) with list_sum.
    rewrite (mem_lookup _ _ _ Hk). pose proof (holds_length _ _ _ _ Hh). lia. }
  rewrite length_app. destruct (current r) as [[k rd]|], cur as [[sg todo]|]; try done; [|cbn [length]; lia].
  destruct Hcur as (size & pre & _ & Hrs & Hh & _). pose proof (holds_length _ _ _ _ Hh) as Hl. rewrite Hrs, length_app in Hl. lia.
Qed.

#[export] Program Instance v2_replay_laws : ReplayLaws mdisk (omap Z) replayer wal_error2 := {
  rl_holds := v2_holds;
  rl_replays := v2_replays
}.
Next Obligation.
  intros d r c hist (rem & Hr & Hc & Hh).
  destruct (replay_next2_spec _ d r rem Hr (replay_fuel2_enough d r rem Hr)) as (r' & rem' & E & Hr' & Hfl & Htl).
  cbn [rb_next v2_replay_backend]. rewrite E. exists d, r'.
  assert (Hw : forall rec, wanted r' rec = wanted r rec) by (intros; unfold wanted; by rewrite Hfl).
  destruct (List.filter (wanted r) rem) as [|x xs] eqn:Ef; cbn [map List.tl] in *; subst hist.
  - by split.
  - split; [|intros y h [= <- <-]; exists rem'; rewrite (List.filter_ext _ _ Hw), Htl; split; [done|]].
    + rewrite (Hc O x eq_refl). do 4 f_equal. lia.
    + split; [|done]. intros i y Hy. rewrite (Hc (S i) y Hy). lia.
Qed.
Next Obligation.
  intros d b hist (segs & e & Hk & Hch & Hne & Hnil & Hok & Hd & Hh). exists (reader_open d). split; [done|].
  assert (Hix : reader_open d = index_of segs) by (unfold reader_open, index_of; by rewrite Hk, map_map).
  cbn [rb_oldest rb_read_from rb_too_old v2_replay_backend]. unfold reader_read_from, reader_oldest.
  rewrite Hix, (index_first _ _ _ Hch Hnil). split; [done|]. split.
  - intros c Hc. unfold read_from_index. rewrite (index_first _ _ _ Hch Hnil), (proj2 (Z.ltb_lt _ _) Hc). by eexists.
  - intros c Hc. destruct (read_from_index_repr2 d b segs e c Hch Hne Hnil Hok Hd Hc) as (r & rem & E & Hr & Hf).
    exists r. split; [done|]. exists rem. split; [done|]. rewrite Hf. split; [|by rewrite <- Hh, map_zdrop].
    pose proof (consecutive_zdrop b (c - b) _ (chain_consecutive _ _ _ Hch Hok) ltac:(lia)) as Hcc.
    by replace c with (b + (c - b)) at 1 by lia.
Qed.
End backend.
