(* ===== verification/WalV2Follow.v ===== *)
(** * Replaying the lock-free log while it goes on

    [FollowLaws] of [WalFollow.v] for the log of [WalV2.v], whatever its sync policy: what is appended shows in every
    mapping of the segment at once, also in one a replayer has open. *)

From Stdlib Require Import ZArith Lia.
From stdpp Require Import base option list.
From S2P Require Import Prelude OrdMap Chain Stats Record Config Mmap SegmentV2 WalApi WalFollow WalV2 WalV2Spec WalV2Api.

Section v2_follow.
Context `{Crc}.

#[export] Instance wal_v2_files : LogFiles st mdisk := { lf_dir := fst; lf_none := MDisk [] (0, 0) [] }.

Definition v2_cost (data : list byte) : Z := SEGMENT_HEADER_LEN + align_record_len (RECORD_FRAMING + zlen data).

Lemma v2_cost_nonneg data : 0 <= v2_cost data.
Proof. unfold v2_cost, SEGMENT_HEADER_LEN, RECORD_FRAMING. pose proof (zlen_nonneg data). pose proof (align_record_len_spec (28 + zlen data)). lia. Qed.

Definition v2_keeps (s : st) (b : Z) (new : list (list byte)) : Prop :=
  match om_first (segments s.2) with Some o => o = b | None => pending_cursor s.2 = b end
  /\ retained_bytes s.2 + active_bytes s.2 + total_cost v2_cost new <= retention_bytes (cfg s.2).

(** The segment a replayer reads and those it has yet to open are some of the log's, and as long as they go on
    to its end, so does what the replayer yields. *)
Definition v2_follows (s : st) (r : replayer) (c : Z) (hist : list (list byte)) : Prop :=
  exists old act pre cur segs post, wal2_inv s.1 s.2 old act /\ segs_of old act = pre ++ segs_from cur segs ++ post /\ replay_at s.1 r cur segs
    /\ cursor_floor r <= c /\ consecutive c (List.filter (wanted r) (left_of cur segs))
    /\ map payload (List.filter (wanted r) (left_of cur segs)) = hist
    /\ (post = [] -> segs_from cur segs <> [] -> c + zlen hist = pending_cursor s.2).

Lemma all_hold d w old act : wal2_inv d w old act -> Forall (holds_at d) (segs_of old act).
Proof.
  intros Hinv. unfold segs_of. apply Forall_app. split; [apply (v_old _ _ _ _ Hinv)|]. destruct act as [a|]; [|done].
  destruct (v_act _ _ _ _ Hinv) as (_ & _ & f & Hk & Hl & Hlive). constructor; [|done]. exists f, (segment_size_max (cfg w)).
  split; [done|]. split; [done|]. by apply live_holds.
Qed.

(** *** A replayer when the directory changes *)

Lemma holds_same_size d d' k size sg : sfirst sg = k -> holds size k (srecs sg) (mem d k) -> forall sg', sfirst sg' = k -> holds_at d' sg' ->
  zlen (mem d' k) = zlen (mem d k) -> holds size k (srecs sg') (mem d' k).
Proof.
  intros <- Hh sg' Hk (f & size' & Hf & _ & Hh') Hz. rewrite Hk in *. rewrite (mem_lookup _ _ _ Hf) in *.
  pose proof (h_size _ _ _ _ Hh) as E. pose proof (h_size _ _ _ _ Hh') as E'. by replace size with size' by lia.
Qed.

Lemma replay_stays d d' r cur segs : replay_at d r cur segs -> Forall (holds_at d') (segs_from cur segs) ->
  same_sizes (map sfirst (segs_from cur segs)) d d' -> replay_at d' r cur segs.
Proof.
  intros (Hd & Hs & Hcur) Hd' Hz. split; [by destruct cur as [[sg todo]|]; [apply Forall_cons in Hd' as [_ ?]|]|]. split; [done|].
  destruct (current r) as [[k rd]|], cur as [[sg todo]|]; try done. destruct Hcur as (size & pre & Hk & Hrs & Hh & Hrd). exists size, pre.
  apply Forall_cons in Hd' as [Hsg _]. apply Forall_cons in Hz as [Hz _]. rewrite Hk in Hz. do 2 (split; [done|]). split; [|done].
  by eapply holds_same_size.
Qed.

Lemma replay_grows d d' r cur segs l0 sg sg' rec : replay_at d r cur segs -> segs_from cur segs = l0 ++ [sg] ->
  sfirst sg' = sfirst sg -> srecs sg' = srecs sg ++ [rec] -> Forall (holds_at d') (l0 ++ [sg']) -> same_sizes (map sfirst (l0 ++ [sg])) d d' ->
  exists cur' segs', replay_at d' r cur' segs' /\ segs_from cur' segs' = l0 ++ [sg'] /\ left_of cur' segs' = left_of cur segs ++ [rec].
Proof.
  intros (Hd & Hs & Hcur) E Hf Hr Hd' Hz. destruct (destruct_list_end segs) as [->|(segs0 & x & ->)].
  - destruct cur as [[x todo]|]; [|by destruct l0]. assert (l0 = [] /\ x = sg) as [-> ->] by (destruct l0 as [|? []]; cbn in E; by injection E as ->).
    destruct (current r) as [[k rd]|] eqn:Ec; [|done]. destruct Hcur as (size & pre & Hk & Hrs & Hh & Hrd). exists (Some (sg', todo ++ [rec])), [].
    split; [|split; [done|unfold left_of; cbn; by rewrite !app_nil_r]]. split; [done|]. split; [done|]. rewrite Ec. exists size, pre.
    split; [congruence|]. split; [by rewrite Hr, Hrs, <- app_assoc|]. split; [|done]. apply Forall_cons in Hd' as [Hsg _]. apply Forall_cons in Hz as [Hz _]. rewrite Hk in Hz.
    by apply (holds_same_size d d' k size sg Hk Hh sg' ltac:(congruence)).
  - assert (Hx : x = sg /\ segs_from cur segs0 = l0).
    { destruct cur as [[y todo]|]; cbn [segs_from] in *; [rewrite app_comm_cons in E|]; by apply app_inj_tail in E as [<- <-]. }
    destruct Hx as [-> <-]. exists cur, (segs0 ++ [sg']). unfold replay_at.
    assert (Hsegs : segs_from cur (segs0 ++ [sg']) = segs_from cur segs0 ++ [sg']) by by destruct cur as [[]|].
    split; [|split; [done|unfold left_of; rewrite !log_of_app, <- !app_assoc; do 2 f_equal; unfold log_of; cbn; by rewrite Hr, !app_nil_r]].
    rewrite <- Hsegs in Hd'. split; [by destruct cur as [[]|]; [apply Forall_cons in Hd' as [_ ?]|]|].
    split; [by rewrite Hs, !map_app; cbn; rewrite Hf|]. destruct (current r) as [[k rd]|], cur as [[y todo]|]; try done.
    destruct Hcur as (size & pre & Hk & Hrs & Hh & Hrd). exists size, pre. apply Forall_cons in Hd' as [Hy _]. apply Forall_cons in Hz as [Hz _]. rewrite Hk in Hz.
    do 2 (split; [done|]). split; [|done]. by apply (holds_same_size d d' k size y Hk Hh y Hk).
Qed.

(** *** The laws *)

Lemma v2_open_follows s base hist b c : v2_logs s base hist -> v2_keeps s b [] -> b <= c < pending_cursor s.2 ->
  exists r, om_first (reader_open s.1) = Some b /\ reader_read_from (reader_open s.1) c = Ok r /\ v2_follows s r c (zdrop (c - base) hist).
Proof.
  destruct s as [d w]. intros (old & act & dropped & Hinv & _ & _ & Hh & Hp) (Hb & _) Hc. cbn [fst snd] in *.
  pose proof (all_hold _ _ _ _ Hinv) as Hd. pose proof (inner_nonempty_segs old act (v_full _ _ _ _ Hinv)) as Hne.
  pose proof (v_ok _ _ _ _ Hinv) as Hok. destruct (v_chain _ _ _ _ Hinv) as (b' & _ & Hch). rewrite (v_index _ _ _ _ Hinv) in Hb.
  set (segs := segs_of old act) in *. assert (b' = b) as -> by exact (begins_chain b segs _ _ Hb Hch). clear Hb.
  assert (Hix : reader_open d = index_of segs) by (unfold reader_open, index_of; rewrite (v_dir _ _ _ _ Hinv); by rewrite map_map).
  rewrite Hix in *. assert (Hnil : segs <> []) by (intros E; rewrite E in Hch; cbn in Hch; lia).
  pose proof (index_first _ _ _ Hch Hnil) as Hfirst. destruct Hc as [Hcb Hc].
  unfold reader_read_from, read_from_index. rewrite Hfirst.
  destruct (index_from _ _ _ _ Hch Hne Hnil Hok Hcb) as (l1 & l2 & E & _ & Hv & Hfi). destruct (Z.ltb_spec c b); [lia|]. cbv zeta. rewrite Hv.
  pose proof (consecutive_zdrop b (c - b) _ (chain_consecutive _ _ _ Hch Hok) ltac:(lia)) as Hcc. replace (b + (c - b)) with c in Hcc by lia.
  eexists. split; [done|]. split; [reflexivity|]. exists old, act, l1, None, l2, []. cbn [fst snd segs_from]. rewrite app_nil_r. fold segs. rewrite E in Hd.
  apply Forall_app in Hd as [_ Hd2].
  assert (Hw : List.filter (wanted (Replayer (map sfirst l2) c None)) (left_of None l2) = zdrop (c - b) (log_of segs)) by exact Hfi.
  rewrite Hw. pose proof (chain_length _ _ _ Hch) as Hlen.
  assert (Hhist : zdrop (c - base) hist = map payload (zdrop (c - b) (log_of segs))) by (eapply logged_from; [exact Hh|lia|lia]).
  do 5 (split; [done|]). split; [by rewrite Hhist|]. intros _ _. rewrite Hhist, zlen_map, zlen_zdrop by lia. lia.
Qed.

Lemma v2_next_follows s r c hist : v2_follows s r c hist ->
  exists r', rb_next r s.1 = (s.1, r', match hist with [] => None | x :: _ => Some (Ok (c, x)) end)
    /\ forall x h, hist = x :: h -> v2_follows s r' (c + 1) h.
Proof.
  destruct s as [d w]. intros (old & act & pre & cur & segs & post & Hinv & E & Hr & Hfl & Hc & Hh & Hend). cbn [fst snd] in *.
  assert (Hrepr : replay_repr d r (left_of cur segs)) by by eexists _, _.
  destruct (replay_next2_at _ d r cur segs Hr (replay_fuel2_enough _ _ _ Hrepr)) as (r' & cur' & segs' & k & En & Hr' & Hsub & Hfl' & Htl). cbv zeta in *.
  cbn [rb_next v2_replay_backend]. rewrite En. exists r'.
  assert (Hw : forall rec, wanted r' rec = wanted r rec) by (intros; unfold wanted; by rewrite Hfl').
  destruct (List.filter (wanted r) (left_of cur segs)) as [|x xs] eqn:Ef; cbn [map List.tl] in *; subst hist; [by split|].
  split; [rewrite (Hc O x eq_refl); do 4 f_equal; lia|].
  intros y h [= <- <-]. exists old, act, (pre ++ take k (segs_from cur segs)), cur', segs', post. cbn [fst snd]. rewrite (List.filter_ext _ _ Hw), Htl, Hfl', Hsub.
  split; [done|]. split; [by rewrite E, <- app_assoc, (app_assoc (take k _)), take_drop|]. split; [done|]. split; [lia|]. split.
  - intros i z Hz. rewrite (Hc (S i) z Hz). lia.
  - split; [done|]. intros Hpost Hl. rewrite zlen_cons in Hend. specialize (Hend Hpost). enough (segs_from cur segs <> []) by (specialize (Hend H0); lia).
    intros En'. rewrite En' in Hl. by destruct k.
Qed.

Lemma v2_append_follows s s' base hist b data rest : v2_logs s base hist -> v2_fits s data -> pending_cursor s.2 + 1 < two64 ->
  v2_keeps s b (data :: rest) -> wal_append (pending_cursor s.2) (current_ts s.2) data s = (s', Ok tt) ->
  v2_keeps s' b rest /\ forall r c h, v2_follows s r c h ->
    v2_follows s' r c h \/ (c + zlen h = pending_cursor s.2 /\ v2_follows s' r c (h ++ [data])).
Proof.
  destruct s as [d w]. intros Hlogs Hfits Hmax (Hbeg & Hby) E. cbn [fst snd] in *. change (total_cost v2_cost (data :: rest)) with (v2_cost data + total_cost v2_cost rest) in Hby.
  set (rec := Record_ (pending_cursor w) (current_ts w) data).
  pose proof (total_cost_nonneg v2_cost rest v2_cost_nonneg) as Hrest.
  assert (Hstep : forall old act, wal2_inv d w old act -> exists old' a', wal2_inv s'.1 s'.2 old' (Some a') /\ grown rec (segs_of old act) (segs_of old' (Some a'))
    /\ pending_cursor s'.2 = pending_cursor w + 1 /\ v2_keeps s' b rest /\ same_sizes (map sfirst (segs_of old act)) d s'.1).
  { intros old act Hinv. destruct Hlogs as (_ & _ & _ & _ & Hen & Hpo & _). cbn [snd] in *.
    assert (Hts : is_u64 (current_ts w)) by (pose proof (v_ts _ _ _ _ Hinv) as [? ?]; unfold current_ts; by destruct (policy (cfg w))).
    destruct (wal_append_ok d w old act (current_ts w) data Hinv Hen Hpo Hts Hmax Hfits)
      as (d' & w' & old' & a' & dr & E' & Hinv' & _ & Hp' & Hc & _ & _ & _ & _ & segs & _ & Hg & Hdr).
    rewrite E' in E. injection E as <-. unfold v2_cost at 1 in Hby. unfold rec_len in Hdr. cbn [payload] in Hdr.
    destruct Hdr as (-> & Hby' & Hz); [lia|]. exists old', a'. cbn [fst snd app] in *. do 3 (split; [done|]). split; [|done].
    destruct (v_chain _ _ _ _ Hinv) as (b1 & _ & Hch1). destruct (v_chain _ _ _ _ Hinv') as (b2 & _ & Hch2).
    rewrite (v_index _ _ _ _ Hinv) in Hbeg. unfold v2_keeps. cbn [snd]. rewrite Hc, (v_index _ _ _ _ Hinv'), Hp' in *.
    split; [|lia]. by apply (grown_begins _ b _ _ _ b1 b2 Hg). }
  split.
  { destruct Hlogs as (old & act & _ & Hinv & _). by destruct (Hstep _ _ Hinv) as (? & ? & _ & _ & _ & ? & _). }
  intros r c h (old & act & pre & cur & segs & post & Hinv & Es & Hr & Hfl & Hc & Hh & Hend). cbn [fst snd] in *.
  destruct (Hstep _ _ Hinv) as (old' & a' & Hinv' & Hg & Hp' & _ & Hz). destruct s' as [d' w']. cbn [fst snd] in *.
  pose proof (all_hold _ _ _ _ Hinv') as Hd'. rewrite Es in Hg, Hz. rewrite !map_app in Hz. apply Forall_app in Hz as [_ Hz]. apply Forall_app in Hz as [Hz _].
  destruct (grown_listed _ _ _ _ _ Hg) as [(pre' & post' & Es' & Hlast)|(l0 & sg & sg' & -> & El & Es' & Hf & Hrs)]; rewrite Es' in Hd'.
  - left. exists old', (Some a'), pre', cur, segs, post'. cbn [fst snd]. apply Forall_app in Hd' as [_ Hd']. apply Forall_app in Hd' as [Hd' _].
    do 2 (split; [done|]). split; [by eapply replay_stays|]. do 3 (split; [done|]). intros Hpo Hl. by specialize (Hlast Hpo).
  - right. assert (Hend' : c + zlen h = pending_cursor w) by (apply Hend; [done|rewrite El; by destruct l0]). split; [done|].
    apply Forall_app in Hd' as [_ Hd']. rewrite El in Hz.
    destruct (replay_grows d d' r cur segs l0 sg sg' rec Hr El Hf Hrs Hd' Hz) as (cur' & segs' & Hr' & El' & Hleft).
    exists old', (Some a'), pre, cur', segs', []. cbn [fst snd]. rewrite app_nil_r, Hleft.
    assert (Hwant : List.filter (wanted r) (left_of cur segs ++ [rec]) = List.filter (wanted r) (left_of cur segs) ++ [rec]).
    { rewrite List.filter_app. f_equal. cbn [List.filter]. unfold wanted. cbn [rcursor rec].
      pose proof (zlen_nonneg h). destruct (Z.ltb_spec (pending_cursor w) (cursor_floor r)); [lia|done]. }
    rewrite Hwant, El'. do 4 (split; [done|]). split.
    + apply consecutive_app. split; [done|]. rewrite <- Hh, zlen_map in Hend'. intros [|i] z Hiz; [|done]. injection Hiz as <-. cbn [rcursor rec]. lia.
    + rewrite map_app, Hh. split; [done|]. intros _ _. rewrite zlen_app, zlen_cons, zlen_nil. lia.
Qed.

#[export] Program Instance v2_follow_laws : FollowLaws st wal_error2 mdisk (omap Z) replayer wal_error2 := {
  lf_keeps := v2_keeps;
  lf_follows := v2_follows
}.
Next Obligation.
  intros s b l k [Hb Hk]. rewrite total_cost_app in Hk.
  pose proof (total_cost_nonneg v2_cost l v2_cost_nonneg). pose proof (total_cost_nonneg v2_cost k v2_cost_nonneg).
  split; (split; [done|]); lia.
Qed.
Next Obligation.
  intros s base hist b c Hl Hk Hc. exists (reader_open s.1). destruct (v2_open_follows s base hist b c Hl Hk Hc) as (r & Ho & E & Hf). by exists r.
Qed.
Next Obligation. intros s r c hist Hf. by apply v2_next_follows. Qed.
Next Obligation. intros s s' base hist b data rest Hl Hf Hp Hk E. exact (v2_append_follows s s' base hist b data rest Hl Hf Hp Hk E). Qed.
End v2_follow.
