(* ===== verification/WalV2Calls.v ===== *)
(** * The lock-free log over sequences of calls

    Appends, syncs, forced rotations and the phases of the flusher in any order, and what a replay then
    yields. *)

From Stdlib Require Import ZArith Lia Strings.Byte.
From stdpp Require Import base option strings gmap list.
From S2P Require Import Prelude OrdMap Chain Disk Record Config Stats Mmap SegmentV2 WalV2 WalV2Spec WalV2Api.

(** Where the flusher thread is in its turn. *)
Inductive phase :=
  | Idle
  | Snapshot (cursor : Z)
  | Flushed (cursor : Z) (r : result io_error unit).

Inductive call :=
  | CAppend (ts : Z) (payload : list byte)
  | CFsync
  | CBump
  | CFlusher (now : Z).   (* the next phase of the flusher's turn *)

Section calls.
Context `{Crc}.

Definition flusher_step (now : Z) (s : st) (ph : phase) : st * phase :=
  match ph with
  | Idle => let '(s, c) := flusher_begin now s in (s, Snapshot c)
  | Snapshot c => let '(s, r) := flusher_flush s in (s, Flushed c r)
  | Flushed c r => (flusher_end c r s, Idle)
  end.

Definition run_call (c : call) : M (st * phase) wal_error2 unit := fun '(s, ph) =>
  match c with
  | CAppend ts p => let '(s, r) := wal_append (pending_cursor s.2) ts p s in ((s, ph), r)
  | CFsync => let '(s, r) := fsync s in ((s, ph), r)
  | CBump => let '(s, r) := bump_generation s in ((s, ph), r)
  | CFlusher now => (flusher_step now s ph, Ok tt)
  end.

Fixpoint run_calls (cs : list call) : M (st * phase) wal_error2 unit :=
  match cs with
  | [] => ret tt
  | c :: cs => do! run_call c in run_calls cs
  end.

(** The records the calls append, numbered from [c]. *)
Fixpoint appended (c : Z) (cs : list call) : list record :=
  match cs with
  | [] => []
  | CAppend ts p :: cs => Record_ c ts p :: appended (c + 1) cs
  | _ :: cs => appended c cs
  end.

(** Every record fits in a segment, and a forced rotation is asked for only when the active segment has a
    record ([fresh]: it may have none). *)
Fixpoint calls_ok (w : wal2) (fresh : bool) (cs : list call) : Prop :=
  match cs with
  | [] => True
  | CAppend ts p :: cs => is_u64 ts /\ fits (Record_ 0 ts p) w /\ calls_ok w false cs
  | CBump :: cs => fresh = false /\ calls_ok w true cs
  | CFsync :: cs => calls_ok w fresh cs
  | CFlusher now :: cs => is_u64 now /\ calls_ok w fresh cs
  end.

Definition maybe_empty (act : option seg) : bool :=
  match act with Some a => match srecs a with [] => true | _ => false end | None => false end.

Lemma calls_ok_cfg w w' fresh cs : cfg w' = cfg w -> calls_ok w fresh cs -> calls_ok w' fresh cs.
Proof.
  intros Hc. revert fresh. induction cs as [|[] cs IH]; intros fresh; cbn; [done|unfold fits; rewrite Hc|..]; naive_solver.
Qed.

Lemma calls_ok_false w b cs : calls_ok w b cs -> calls_ok w false cs.
Proof. revert b. induction cs as [|[] cs IH]; intros b; cbn; naive_solver. Qed.

Lemma inv_holds d w old act : wal2_inv d w old act -> Forall (holds_at d) (segs_of old act).
Proof.
  intros Hinv. apply Forall_app. split; [apply (v_old _ _ _ _ Hinv)|]. pose proof (v_act _ _ _ _ Hinv) as Ha.
  destruct act as [a|]; [|done]. constructor; [|done]. destruct Ha as (_ & _ & f & Hk & Hl & Hlive).
  exists f, (segment_size_max (cfg w)). split; [done|]. split; [done|]. by apply live_holds.
Qed.

(** Fields the invariant does not look at. *)
Lemma wal2_inv_frame d w w' old act :
  wal2_inv d w old act -> cfg w' = cfg w -> writer w' = writer w -> segments w' = segments w ->
  pending_cursor w' = pending_cursor w -> active_bytes w' = active_bytes w -> is_u64 (cached_ts w') -> clock w' = clock w ->
  wal2_inv d w' old act.
Proof.
  intros [Hs Hf Hd Hix Hok Hfu Hold Hact Hch Hp Hsz Hts] Hcf Hwr Hsg Hpe Hab Hct Hcl.
  constructor; rewrite ?Hcf, ?Hsg, ?Hpe, ?Hcl; try done; [|by split; [|apply Hts]].
  unfold active_ok in *. destruct act; by rewrite ?Hwr, ?Hcf, ?Hab.
Qed.

(** What a call that appends nothing leaves. *)
Record same_log (w w' : wal2) : Prop := {
  sl_cfg : cfg w' = cfg w;
  sl_pending : pending_cursor w' = pending_cursor w;
  sl_poisoned : poisoned w' = poisoned w
}.

Lemma fsync_ok d w old act :
  wal2_inv d w old act ->
  exists d' w', fsync (d, w) = ((d', w'), Ok tt) /\ wal2_inv d' w' old act /\ same_log w w'
    /\ durable_cursor w' = pending_cursor w.
Proof.
  intros Hinv. unfold fsync. destruct act as [a|].
  - destruct (v_act _ _ _ _ Hinv) as (Hw & _). rewrite Hw. destruct (flush_active_ok _ _ _ _ Hinv) as (d' & E & _ & _ & Hk).
    unfold bind, on_disk, on_wal, modify. cbn [wfirst]. rewrite E. cbn [map_err]. eexists _, _. split; [reflexivity|].
    split; [|done]. apply Hk; try done. right. by eexists.
  - destruct (v_act _ _ _ _ Hinv) as (Hw & _). rewrite Hw. eexists _, _. split; [reflexivity|]. split; [|done].
    eapply wal2_inv_frame; try done. apply (v_ts _ _ _ _ Hinv).
Qed.

Lemma bump_ok d w old act :
  wal2_inv d w old act -> maybe_empty act = false -> segment_too_small (segment_size_max (cfg w)) = false ->
  exists d' w' old' act', bump_generation (d, w) = ((d', w'), Ok tt) /\ wal2_inv d' w' old' act' /\ same_log w w'
    /\ log_of (segs_of old' act') = log_of (segs_of old act) /\ durable_cursor w' = durable_cursor w.
Proof.
  intros Hinv He Hsm. unfold bump_generation. cbn [snd]. destruct act as [a|].
  - destruct (v_act _ _ _ _ Hinv) as (Hw & _). rewrite Hw.
    destruct (rotate_locked_ok d w old a Hinv) as (d' & w' & E & Hsc & Hinv' & _); [by intros E; cbn in He; rewrite E in He|done|].
    exists d', w', (old ++ [a]), (Some (Seg (pending_cursor w) 0 [])). split; [exact E|]. split; [done|].
    split; [by destruct Hsc|]. split; [|apply Hsc]. unfold segs_of. rewrite (log_of_app (old ++ [a])). cbn. by rewrite app_nil_r.
  - destruct (v_act _ _ _ _ Hinv) as (Hw & _). rewrite Hw. by exists d, w, old, None.
Qed.

Lemma flusher_step_ok d w old act now ph :
  wal2_inv d w old act -> is_u64 now -> (forall c r, ph = Flushed c r -> r = Ok tt) ->
  exists d' w' ph', flusher_step now (d, w) ph = ((d', w'), ph') /\ wal2_inv d' w' old act /\ same_log w w'
    /\ (forall c r, ph' = Flushed c r -> r = Ok tt).
Proof.
  intros Hinv Hnow Hph. pose proof (v_ts _ _ _ _ Hinv) as [Hts _]. destruct ph as [|c|c r].
  - eexists _, _, _. split; [reflexivity|]. split; [|done]. by eapply wal2_inv_frame.
  - unfold flusher_step, flusher_flush. cbn [fst snd]. destruct act as [a|].
    + destruct (v_act _ _ _ _ Hinv) as (Hw & _). rewrite Hw. destruct (flush_active_ok _ _ _ _ Hinv) as (d' & E & _ & _ & Hk).
      cbn [wfirst]. rewrite E. exists d', w, (Flushed c (Ok tt)). split; [done|]. split; [|split; [done|by intros ? ? [= _ <-]]].
      apply Hk; try done. by left.
    + destruct (v_act _ _ _ _ Hinv) as (Hw & _). rewrite Hw. exists d, w, (Flushed c (Ok tt)).
      split; [done|]. split; [done|]. split; [done|]. by intros ? ? [= _ <-].
  - rewrite (Hph c r eq_refl). eexists _, _, _. split; [reflexivity|]. split; [|done]. by eapply wal2_inv_frame.
Qed.

Lemma appended_length c cs : (length (appended c cs) <= length cs)%nat.
Proof. revert c. induction cs as [|[] cs IH]; intros c; cbn; [lia|..];
  first [pose proof (IH (c + 1)); lia|pose proof (IH c); lia]. Qed.

(** A property of the log that every call keeps, from cursor [p] on. *)
Definition call_keeps (p : Z) (Q : st -> Prop) : Prop :=
  forall c s ph, p <= pending_cursor s.2 -> Q s -> Q (run_call c (s, ph)).1.1.

Lemma call_keeps_le p p' Q : p <= p' -> call_keeps p Q -> call_keeps p' Q.
Proof. intros Hp HQ c s ph Hc. apply HQ. lia. Qed.

Definition seg_size_ok (w : wal2) : Prop := segment_too_small (segment_size_max (cfg w)) = false.

Lemma appended_cons_append c ts p cs : zlen (appended c (CAppend ts p :: cs)) = 1 + zlen (appended (c + 1) cs).
Proof. cbn [appended]. by rewrite zlen_cons. Qed.

Lemma run_calls_ok cs d w old act ph :
  wal2_inv d w old act -> enabled (cfg w) = true -> poisoned w = false -> seg_size_ok w ->
  calls_ok w (maybe_empty act) cs -> (forall c r, ph = Flushed c r -> r = Ok tt) ->
  pending_cursor w + zlen (appended (pending_cursor w) cs) < two64 ->
  exists d' w' ph' old' act' dropped, run_calls cs (d, w, ph) = ((d', w', ph'), Ok tt)
    /\ wal2_inv d' w' old' act' /\ cfg w' = cfg w /\ poisoned w' = false
    /\ pending_cursor w' = pending_cursor w + zlen (appended (pending_cursor w) cs)
    /\ log_of (segs_of old act) ++ appended (pending_cursor w) cs = dropped ++ log_of (segs_of old' act')
    /\ forall Q, call_keeps (pending_cursor w) Q -> Q (d, w) -> Q (d', w').
Proof.
  revert d w old act ph. induction cs as [|c cs IH]; intros d w old act ph Hinv Hen Hpo Hsz Hok Hph Hmax.
  { exists d, w, ph, old, act, []. cbn [appended]. rewrite zlen_nil, app_nil_r, Z.add_0_r. do 6 (split; [done|]). auto. }
  cbn [run_calls]. assert (Hgo : forall d1 w1 ph1 old1 act1, wal2_inv d1 w1 old1 act1 -> same_log w w1 ->
      log_of (segs_of old1 act1) = log_of (segs_of old act) -> calls_ok w1 (maybe_empty act1) cs ->
      (forall c r, ph1 = Flushed c r -> r = Ok tt) -> appended (pending_cursor w) (c :: cs) = appended (pending_cursor w) cs ->
      run_call c (d, w, ph) = ((d1, w1, ph1), Ok tt) ->
      exists d' w' ph' old' act' dropped, (do! run_call c in run_calls cs) (d, w, ph) = ((d', w', ph'), Ok tt)
        /\ wal2_inv d' w' old' act' /\ cfg w' = cfg w /\ poisoned w' = false
        /\ pending_cursor w' = pending_cursor w + zlen (appended (pending_cursor w) (c :: cs))
        /\ log_of (segs_of old act) ++ appended (pending_cursor w) (c :: cs) = dropped ++ log_of (segs_of old' act')
        /\ forall Q, call_keeps (pending_cursor w) Q -> Q (d, w) -> Q (d', w')).
  { intros d1 w1 ph1 old1 act1 Hinv1 [Hc1 Hp1 Ho1] Hl1 Hok1 Hph1 Hap E. rewrite Hap in *. rewrite <- Hp1 in Hmax |- *.
    rewrite <- Hl1, <- Hc1. step_ok E.
    destruct (IH d1 w1 old1 act1 ph1 Hinv1) as (d' & w' & ph' & old' & act' & dr & R1 & R2 & R3 & R4 & R5 & R6 & R7);
      [by rewrite Hc1|by rewrite Ho1|unfold seg_size_ok; by rewrite Hc1|done..|].
    exists d', w', ph', old', act', dr. do 6 (split; [done|]). intros Q HQ HQd. apply R7; [done|].
    pose proof (HQ c (d, w) ph ltac:(cbn; lia) HQd) as HQ1. by rewrite E in HQ1. }
  destruct c as [ts p| | |now].
  - destruct Hok as (Hts & [Hfit1 Hfit2] & Hok). rewrite appended_cons_append in Hmax |- *.
    pose proof (zlen_nonneg (appended (pending_cursor w + 1) cs)).
    destruct (wal_append_ok d w old act ts p Hinv Hen Hpo Hts ltac:(lia) (conj Hfit1 Hfit2))
      as (d1 & w1 & old1 & a1 & dr1 & E & Hinv1 & Hl1 & Hp1 & Hc1 & Ho1 & _ & Hne & _).
    assert (E' : run_call (CAppend ts p) (d, w, ph) = ((d1, w1, ph), Ok tt)) by (cbn; by rewrite E).
    step_ok E'. destruct (IH d1 w1 old1 (Some a1) ph Hinv1) as (d' & w' & ph' & old' & act' & dr & E2 & Hinv' & Hc' & Ho' & Hp' & Hl' & HQ');
      [by rewrite Hc1|done|unfold seg_size_ok; by rewrite Hc1| |done|by rewrite Hp1; lia|].
    { apply (calls_ok_cfg w); [done|]. unfold maybe_empty. by destruct (srecs a1). }
    rewrite Hp1 in *. exists d', w', ph', old', act', (dr1 ++ dr). split; [exact E2|]. split; [done|].
    split; [congruence|]. split; [done|]. split; [lia|].
    split; [cbn [appended]; by rewrite <- app_assoc, <- Hl', app_assoc, <- Hl1, <- app_assoc|].
    intros Q HQ HQd. apply HQ'; [apply (call_keeps_le (pending_cursor w)); [lia|done]|].
    pose proof (HQ (CAppend ts p) (d, w) ph ltac:(cbn; lia) HQd) as HQ1. by rewrite E' in HQ1.
  - destruct (fsync_ok d w old act Hinv) as (d1 & w1 & E & Hinv1 & Hsl & _).
    eapply Hgo; try done. { by eapply calls_ok_cfg; [apply Hsl|]. } unfold run_call. by rewrite E.
  - destruct Hok as [He Hok]. destruct (bump_ok d w old act Hinv He Hsz) as (d1 & w1 & old1 & act1 & E & Hinv1 & Hsl & Hl & _).
    eapply Hgo; try done. { eapply calls_ok_cfg; [apply Hsl|]. destruct (maybe_empty act1); [done|by eapply calls_ok_false]. }
    unfold run_call. by rewrite E.
  - destruct Hok as [Hnow Hok]. destruct (flusher_step_ok d w old act now ph Hinv Hnow Hph) as (d1 & w1 & ph1 & E & Hinv1 & Hsl & Hph1).
    eapply Hgo; try done. { by eapply calls_ok_cfg; [apply Hsl|]. } unfold run_call. by rewrite E.
Qed.

(** ** Replaying *)

(** A replayer iterated to its end: the records, and whether it ended without an error. *)
Fixpoint replay_all (n : nat) (d : mdisk) (r : replayer) : list record * bool :=
  match n with
  | O => ([], false)
  | S n =>
      match replay_next (replay_fuel r d) r d with
      | (r, Some (Ok rec)) => let '(recs, ok) := replay_all n d r in (rec :: recs, ok)
      | (_, Some (Err _)) => ([], false)
      | (_, None) => ([], true)
      end
  end.

Lemma replay_all_ok n d r rem :
  replay_repr d r rem -> (length (List.filter (wanted r) rem) < n)%nat ->
  replay_all n d r = (List.filter (wanted r) rem, true).
Proof.
  revert r rem. induction n as [|n IH]; intros r rem Hr Hn; [lia|]. cbn [replay_all].
  destruct (replay_next2_spec _ d r rem Hr (replay_fuel2_enough d r rem Hr)) as (r' & rem' & E & Hr' & Hfl & Htl).
  rewrite E. assert (Hw : forall x, wanted r' x = wanted r x) by (intros; unfold wanted; by rewrite Hfl).
  destruct (List.filter (wanted r) rem) as [|x xs]; [done|]. cbn [List.tl length] in *.
  rewrite (IH r' rem' Hr'); rewrite (List.filter_ext _ _ Hw), Htl; [done|lia].
Qed.

(** Reading the log of the invariant from any cursor. *)
Lemma read_from_ok d w old act c n :
  wal2_inv d w old act -> (length (log_of (segs_of old act)) < n)%nat ->
  (oldest_cursor w <= c ->
    exists r, read_from w c = Ok r /\ replay_all n d r = (zdrop (c - oldest_cursor w) (log_of (segs_of old act)), true))
  /\ (segments w <> [] -> c < oldest_cursor w -> read_from w c = Err (CursorTooOld2 c (oldest_cursor w))).
Proof.
  intros Hinv Hn. destruct (v_chain _ _ _ _ Hinv) as (b & _ & Hch). unfold read_from, oldest_cursor.
  rewrite (v_index _ _ _ _ Hinv). destruct (decide (segs_of old act = [])) as [E|Hne].
  { rewrite E. split; [|done]. intros _. eexists. split; [reflexivity|]. destruct n; [lia|].
    change (log_of []) with (@nil record). unfold zdrop. by rewrite drop_nil. }
  rewrite (index_first _ _ _ Hch Hne). change (default 0 (Some b)) with b. split.
  - intros Hc. destruct (read_from_index_repr2 d b _ _ c Hch (inner_nonempty_segs _ _ (v_full _ _ _ _ Hinv)) Hne (v_ok _ _ _ _ Hinv))
      as (r & rem & E & Hr & Hf); [by apply inv_holds in Hinv|done|].
    exists r. split; [exact E|]. rewrite (replay_all_ok n d r rem Hr); rewrite Hf; [done|]. unfold zdrop. rewrite length_drop. lia.
  - intros _ Hc. unfold read_from_index. rewrite (index_first _ _ _ Hch Hne). by rewrite (proj2 (Z.ltb_lt _ _) Hc).
Qed.
End calls.
