(* ===== verification/WalV2Restart.v ===== *)
(** * What the lock-free log promises, and what it does not

    Sequences of calls and their replay; restarting after the publisher died between two stores of an
    append; a segment without records. *)

From Stdlib Require Import ZArith Lia Strings.Byte.
From stdpp Require Import base option strings gmap list.
From S2P Require Import Prelude OrdMap Chain Disk Record Config Stats Mmap SegmentV2 WalV2 WalV2Spec WalV2Api WalV2Calls.

Section restart.
Context `{Crc}.

(** C8: the lock-free log is the list of what was appended.  After any sequence of appends of records that fit
    a segment, syncs, flusher phases and rotations forced while the active segment has a record (with none the log stops:
    [segment_without_records_stops_the_log]), through rotation and retention, on disks that do not fail, no call has failed; what the segments
    hold is a suffix of the old records and the new ones, numbered on from the pending cursor; and a
    replay from any retained cursor yields exactly the records from there on, to a clean end, while a
    cursor below the oldest is refused. *)
Theorem calls_are_logged_and_replayed cs d w old act ph n :
  wal2_inv d w old act -> enabled (cfg w) = true -> poisoned w = false -> seg_size_ok w ->
  calls_ok w (maybe_empty act) cs -> (forall c r, ph = Flushed c r -> r = Ok tt) ->
  pending_cursor w + zlen (appended (pending_cursor w) cs) < two64 ->
  exists d' w' ph' dropped kept, run_calls cs (d, w, ph) = ((d', w', ph'), Ok tt)
    /\ log_of (segs_of old act) ++ appended (pending_cursor w) cs = dropped ++ kept
    /\ pending_cursor w' = pending_cursor w + zlen (appended (pending_cursor w) cs)
    /\ ((length kept < n)%nat -> forall c, oldest_cursor w' <= c ->
          exists r, read_from w' c = Ok r /\ replay_all n d' r = (zdrop (c - oldest_cursor w') kept, true))
    /\ (segments w' <> [] -> forall c, c < oldest_cursor w' -> read_from w' c = Err (CursorTooOld2 c (oldest_cursor w'))).
Proof.
  intros Hinv Hen Hpo Hsz Hok Hph Hmax.
  destruct (run_calls_ok cs d w old act ph Hinv Hen Hpo Hsz Hok Hph Hmax)
    as (d' & w' & ph' & old' & act' & dropped & E & Hinv' & _ & _ & Hp & Hl & _).
  exists d', w', ph', dropped, (log_of (segs_of old' act')). split; [done|]. split; [done|]. split; [done|]. split.
  - intros Hn c Hc. by apply (read_from_ok d' w' old' act' c n Hinv' Hn).
  - intros Hs c Hc. exact (proj2 (read_from_ok d' w' old' act' c _ Hinv' (Nat.lt_succ_diag_r _)) Hs Hc).
Qed.

(** ** Dying in the middle of an append *)

(** The directory after the publisher died when it had made [k] of the stores of an append. *)
Definition died_mid_append (d : mdisk) (w : wal2) (a : seg) (ts : Z) (p : list byte) (k : nat) : mdisk :=
  set_mem (sfirst a)
    (run_stores (take k (append_stores (current_tail d (Writer2 (segment_size_max (cfg w)) (sfirst a))) (pending_cursor w) ts p))
       (mem d (sfirst a))) d.

Definition committed (k : nat) (r : record) : list record := if (k <? 8)%nat then [] else [r].

(** The chain a death leaves. *)
Lemma died_mid_append_chain d w old a ts p k :
  wal2_inv d w old (Some a) -> is_u64 ts -> zlen p <= MAX_PAYLOAD_LEN -> (k <= 8)%nat -> pending_cursor w + 1 < two64 ->
  let r := Record_ (pending_cursor w) ts p in
  SEGMENT_HEADER_LEN + zlen (enc2_all (srecs a)) + rec_len r <= segment_size_max (cfg w) ->
  let d' := died_mid_append d w a ts p k in
  let a' := Seg (sfirst a) 0 (srecs a ++ committed k r) in
  om_sorted (mfiles d') /\ mfate d' = [] /\ mdir d' = map sfirst (old ++ [a']) /\ Forall seg_ok (old ++ [a'])
  /\ Forall (holds_at d') (old ++ [a'])
  /\ exists b, 0 <= b /\ chain b (old ++ [a']) (pending_cursor w + zlen (committed k r)) /\ oldest_cursor w = b.
Proof.
  intros Hinv Hts Hp Hk Hmax r Hfit d' a'. pose proof (old_below _ _ _ _ Hinv) as Hbel. cbn in Hbel.
  destruct Hinv as [Hs Hf Hd Hix Hok Hfu Hold (Hw & Hab & f & Hkk & Hlk & Hlive) (b & Hb & Hch) Hpe Hsz Hcl].
  pose proof (chain_mono _ _ _ Hch). assert (Hr : record_ok r) by (split; [split; [cbn; lia|done]|done]).
  set (size := segment_size_max (cfg w)) in *.
  pose proof (append_prefix_holds size (sfirst a) (srecs a) (mbytes f) r k Hlive Hr Hfit Hk) as Hh.
  assert (Ed : d' = upd (sfirst a) (MFile (run_stores (take k (append_stores (SEGMENT_HEADER_LEN + zlen (enc2_all (srecs a))) (rcursor r) (ts_unix_nanos r) (payload r))) (mbytes f)) (mstable f) (linked f)) d).
  { unfold d', died_mid_append, current_tail. cbn [wfirst]. rewrite !(mem_lookup _ _ _ Hkk), (live_tail _ _ _ _ Hlive).
    by rewrite (set_mem_lookup _ _ _ f Hkk). }
  set (f' := MFile _ _ _) in Ed. rewrite Ed. clear Ed. unfold segs_of in *.
  apply Forall_app in Hok as [Hok1 Hok2]. apply Forall_cons in Hok2 as [(Ha1 & _ & Ha3 & Ha4) _].
  apply chain_app in Hch as (m & Hch1 & Hch2). cbn [chain] in Hch2. destruct Hch2 as [<- Hpen].
  assert (Hrs : srecs a ++ committed k r = if (k <? 8)%nat then srecs a else srecs a ++ [r]).
  { unfold committed. destruct (k <? 8)%nat; [by rewrite app_nil_r|done]. }
  split; [by apply upd_sorted|]. split; [done|]. split; [rewrite (mdir_insert_same _ f) by done; rewrite Hd, !map_app; done|].
  split; [|split].
  - apply Forall_app. split; [done|]. constructor; [|done]. split; [done|]. split; [split; vm_compute; congruence|].
    unfold a'. cbn [srecs sfirst]. split.
    + apply Forall_app. split; [done|]. unfold committed. destruct (k <? 8)%nat; [done|by constructor].
    + apply consecutive_app. split; [done|]. unfold committed. destruct (k <? 8)%nat; [by intros [|i]|].
      intros [|i] x Hx; [injection Hx as <-; cbn; lia|done].
  - apply Forall_app. split; [apply old_upd; [by apply not_in_below|done]|]. constructor; [|done].
    exists f', size. unfold a'. cbn [sfirst srecs]. rewrite lookup_upd. split; [done|]. split; [done|]. by rewrite Hrs.
  - exists b. split; [done|]. split.
    + apply chain_app. exists (sfirst a). split; [done|]. cbn [chain sfirst srecs a']. split; [done|]. rewrite zlen_app. lia.
    + unfold oldest_cursor. rewrite Hix. rewrite (index_first b (old ++ [a]) (pending_cursor w)); [done| |by destruct old].
      apply chain_app. by exists (sfirst a).
Qed.

(** C9: a publisher that dies between two stores of an append leaves a log that goes on.  Provided the
    active segment has a record, [open] succeeds on what is left; the pending cursor is past the last
    record committed, the one being appended included once its last store was made; a replay yields every
    committed record and nothing else; and the next record that fits is appended. *)
Theorem restart_after_a_death_mid_append c now d w old a ts p k n :
  wal2_inv d w old (Some a) -> is_u64 ts -> zlen p <= MAX_PAYLOAD_LEN -> (k <= 8)%nat -> pending_cursor w + 2 < two64 ->
  let r := Record_ (pending_cursor w) ts p in
  SEGMENT_HEADER_LEN + zlen (enc2_all (srecs a)) + rec_len r <= segment_size_max (cfg w) ->
  srecs a <> [] \/ k = 8%nat ->
  segment_too_small (segment_size_max c) = false -> segment_size_max c < two63 -> is_u64 now -> enabled c = true ->
  let log := log_of (segs_of old (Some a)) ++ committed k r in
  (length log < n)%nat ->
  exists d' w', open c now (died_mid_append d w a ts p k) = (d', Ok w')
    /\ pending_cursor w' = pending_cursor w + zlen (committed k r)
    /\ (forall cu, oldest_cursor w <= cu ->
          exists rp, read_from w' cu = Ok rp /\ replay_all n d' rp = (zdrop (cu - oldest_cursor w) log, true))
    /\ forall ts' p', is_u64 ts' -> fits (Record_ (pending_cursor w') ts' p') w' ->
          exists s, wal_append (pending_cursor w') ts' p' (d', w') = (s, Ok tt).
Proof.
  intros Hinv Hts Hp Hk Hmax r Hfit Hne Hsm Hsz Hnow Hen log Hn.
  destruct (died_mid_append_chain d w old a ts p k Hinv Hts Hp Hk ltac:(lia) Hfit) as (Hs & Hf & Hd & Hok & Hh & b & Hb & Hch & Hold).
  set (d1 := died_mid_append d w a ts p k) in *. set (a' := Seg (sfirst a) 0 (srecs a ++ committed k r)) in *.
  assert (Hz : zlen (committed k r) <= 1) by (unfold committed; destruct (k <? 8)%nat; vm_compute; congruence).
  assert (Ha' : srecs a' <> []).
  { cbn [a' srecs]. destruct Hne as [Hne| ->]; [by destruct (srecs a)|]. unfold committed. cbn. by destruct (srecs a). }
  assert (Hse : settled d1 (old ++ [a']) b (pending_cursor w + zlen (committed k r))).
  { constructor; try done; [|lia]. apply Forall_app. split; [apply (v_full _ _ _ _ Hinv)|by constructor]. }
  destruct (open_settled2 c now d1 _ _ _ Hse) as (d' & w' & E & Hinv' & Hp' & Hc' & Hpo'); [by destruct old|done..|].
  assert (Hlog : log_of (segs_of (old ++ [a']) (Some (Seg (pending_cursor w + zlen (committed k r)) 0 []))) = log).
  { unfold segs_of, log, segs_of. rewrite !log_of_app, !log_of_cons. change (log_of []) with (@nil record).
    cbn [srecs a']. by rewrite !app_nil_r, <- app_assoc. }
  exists d', w'. split; [done|]. split; [done|]. split.
  - intros cu Hcu. destruct (read_from_ok d' w' _ _ cu n Hinv') as [Hr _]; [by rewrite Hlog|]. rewrite Hlog in Hr.
    assert (Ho : oldest_cursor w' = oldest_cursor w).
    { unfold oldest_cursor at 1. rewrite (v_index _ _ _ _ Hinv'), Hold.
      destruct old as [|x old]; destruct Hch as [<- _]; done. }
    rewrite Ho in Hr. by apply Hr.
  - intros ts' p' Hts' Hfits. destruct (wal_append_ok d' w' _ _ ts' p' Hinv') as (d2 & w2 & ? & ? & ? & E2 & _);
      [by rewrite Hc'|done|done|rewrite Hp'; lia|done|]. by exists (d2, w2).
Qed.

(** ** Segments without records *)

(** Without a writer, and with a file of the pending cursor's name, an append changes nothing and fails. *)
Lemma append_to_taken_name d w ts p :
  writer w = None -> linked_at (pending_cursor w) d = true -> enabled (cfg w) = true -> poisoned w = false ->
  zlen p <= MAX_PAYLOAD_LEN -> seg_size_ok w ->
  wal_append (pending_cursor w) ts p (d, w) = ((d, w), Err (EWriter2 (WriterIo AlreadyExists))).
Proof.
  intros Hw Hl Hen Hpo Hp Hsz. unfold wal_append. cbn [snd]. rewrite Hen, Hpo. cbn [negb].
  destruct (Z.ltb_spec MAX_PAYLOAD_LEN (zlen p)); [lia|]. unfold bind at 1, ensure_writer. rewrite Hw.
  unfold create_segment, create_mapped. rewrite Hsz, Hl. done.
Qed.

(** An active segment without a record stops the log.  If the publisher dies before its first record
    in a new segment is committed, [open] succeeds and leaves the segment in place; if a rotation is forced
    while the active segment has no record, it fails.  In both cases the log has no writer from then on,
    and every append fails with [AlreadyExists] and changes nothing, so the next one does too. *)
Theorem segment_without_records_stops_the_log c now d w old a :
  wal2_inv d w old (Some a) -> srecs a = [] -> enabled (cfg w) = true -> poisoned w = false -> seg_size_ok w ->
  segment_too_small (segment_size_max c) = false -> enabled c = true ->
  (forall ts p k, is_u64 ts -> zlen p <= MAX_PAYLOAD_LEN -> (k < 8)%nat -> pending_cursor w + 1 < two64 ->
     SEGMENT_HEADER_LEN + rec_len (Record_ (pending_cursor w) ts p) <= segment_size_max (cfg w) ->
     exists d' w', open c now (died_mid_append d w a ts p k) = (d', Ok w') /\ pending_cursor w' = pending_cursor w
       /\ forall ts' p', zlen p' <= MAX_PAYLOAD_LEN ->
            wal_append (pending_cursor w') ts' p' (d', w') = ((d', w'), Err (EWriter2 (WriterIo AlreadyExists))))
  /\ exists d' w', bump_generation (d, w) = ((d', w'), Err (ERotation (RotWriter (WriterIo AlreadyExists))))
       /\ forall ts' p', zlen p' <= MAX_PAYLOAD_LEN ->
            wal_append (pending_cursor w') ts' p' (d', w') = ((d', w'), Err (EWriter2 (WriterIo AlreadyExists))).
Proof.
  intros Hinv Hne Hen Hpo Hsz Hszc Henc.
  assert (Hpa : sfirst a = pending_cursor w).
  { destruct (v_chain _ _ _ _ Hinv) as (b & _ & Hch). apply chain_app in Hch as (m & _ & Hm). cbn in Hm.
    rewrite Hne, zlen_nil in Hm. lia. }
  split.
  - intros ts p k Hts Hp Hk Hmax Hfit.
    destruct (died_mid_append_chain d w old a ts p k Hinv Hts Hp ltac:(lia) Hmax) as (Hs & Hf & Hd & _ & Hh & _).
    { rewrite Hne. change (enc2_all []) with (@nil byte). rewrite zlen_nil. lia. }
    unfold committed in Hd, Hh. rewrite (proj2 (Nat.ltb_lt _ _) Hk), Hne in Hd, Hh. cbn [app] in Hd, Hh.
    set (d1 := died_mid_append d w a ts p k) in *. apply Forall_app in Hh as [_ Hh]. apply Forall_cons in Hh as [Hh _].
    unfold open, open_coord. step_ok (mcall_ok d1 Hf). step_ok (mcall_ok d1 Hf). rewrite mcall_ok by done. cbn [fst snd].
    replace (map (fun k => (k, k)) (mdir d1)) with (index_of (old ++ [Seg (sfirst a) 0 []])) by (rewrite Hd; unfold index_of; by rewrite map_map).
    rewrite om_last_index. cbn [sfirst].
    assert (Hlc : last_committed (mem d1 (sfirst a)) = Ok None).
    { destruct (open_reader_ok d1 _ Hh) as (size & Ho & Hm). unfold open_reader in Ho. cbn [sfirst srecs] in *.
      destruct (linked_at _ _); [|done]. unfold last_committed. rewrite Ho.
      by rewrite (scan_last_ok size (sfirst a) [] []) by (done || (unfold scan_fuel; cbn; lia)). }
    rewrite Hlc. cbv zeta. rewrite Z.eqb_refl. destruct (store_active_coord (sfirst a) d1 Hf) as (d' & E & Hc). rewrite E.
    eexists _, _. split; [reflexivity|]. split; [exact Hpa|]. intros ts' p' Hp'. apply append_to_taken_name; try done.
    cbn [pending_cursor opened]. unfold linked_at. destruct Hc as [-> _]. destruct Hh as (f & size & Hk' & Hl & _).
    cbn [sfirst] in Hk'. by rewrite Hk'.
  - destruct (v_act _ _ _ _ Hinv) as (Hw & _ & f & Hk & Hl & Hlive).
    destruct (skip_mem d _ f _ _ _ Hk Hlive) as (f' & E & Hl' & _).
    unfold bump_generation. cbn [snd]. rewrite Hw. unfold rotate_locked. rewrite Hw. cbv zeta. unfold rotate. cbn [wfirst wsize].
    rewrite E. unfold flush_async. rewrite mcall_ok by apply (v_fate _ _ _ _ Hinv). cbn [fst].
    assert (Hlk : linked_at (pending_cursor w) (upd (sfirst a) f' d) = true).
    { unfold linked_at. rewrite <- Hpa, lookup_upd. by rewrite Hl'. }
    unfold create_segment, create_mapped. cbn [cfg with_writer]. rewrite Hsz, Hlk.
    eexists _, _. split; [reflexivity|]. intros ts' p' Hp'. by apply append_to_taken_name.
Qed.
End restart.
