(* ===== verification/WalV2Sync.v ===== *)
(** * What syncing the lock-free log leaves out

    [fsync] and the flusher write back the segment that is active when they run.  A segment that was
    rotated away is never written back again, yet the durable cursor moves past its records. *)

From Stdlib Require Import ZArith Lia Strings.Byte.
From stdpp Require Import base option strings gmap list.
From S2P Require Import Prelude OrdMap Chain Disk Record Config Stats Mmap SegmentV2 WalV2 WalV2Spec WalV2Calls.

(** The bytes of a file on stable storage. *)
Definition stable_at (k : Z) (d : mdisk) : list byte :=
  match om_lookup k (mfiles d) with Some f => mstable f | None => [] end.

(** Whatever the outcome of [m], it keeps [P]; when it succeeds its result satisfies [R]. *)
Definition keeps {S E A} (P : S -> Prop) (m : M S E A) (R : A -> Prop) : Prop :=
  forall s, P s -> match m s with (s', Ok a) => P s' /\ R a | (s', Err _) => P s' end.

Lemma keeps_bind {S E A B} (P : S -> Prop) (m : M S E A) (k : A -> M S E B) R R' :
  keeps P m R -> (forall a, R a -> keeps P (k a) R') -> keeps P (bind m k) R'.
Proof.
  intros Hm Hk s Hs. specialize (Hm s Hs). unfold bind. destruct (m s) as [s' [a|e]]; [|done].
  destruct Hm as [Hs' Ha]. by apply Hk.
Qed.

Lemma keeps_ret {S E A} (P : S -> Prop) (a : A) (R : A -> Prop) : R a -> keeps P (@ret S E A a) R.
Proof. by intros ? s. Qed.

Lemma keeps_fail {S E A} (P : S -> Prop) (e : E) (R : A -> Prop) : keeps P (@fail S E A e) R.
Proof. by intros s. Qed.

Lemma keeps_modify {S E} (P : S -> Prop) (f : S -> S) : (forall s, P s -> P (f s)) -> keeps P (@modify S E f) (fun _ => True).
Proof. intros Hf s Hs. split; [by apply Hf|done]. Qed.

(** ** The file [k] *)

Section file.
Context `{Crc} (k : Z) (bs : list byte).

Definition untouched (d : mdisk) : Prop := stable_at k d = bs.

Lemma untouched_insert j f d : (j = k -> mstable f = bs) -> untouched d -> untouched (set_mfiles (om_insert j f (mfiles d)) d).
Proof.
  unfold untouched, stable_at. cbn [mfiles set_mfiles]. intros Hf Hd. destruct (decide (j = k)) as [->|Hne].
  - rewrite om_lookup_insert. by apply Hf.
  - by rewrite om_lookup_insert_ne.
Qed.

Lemma untouched_set_mem j b d : untouched d -> untouched (set_mem j b d).
Proof.
  intros Hd. unfold set_mem. destruct (om_lookup j (mfiles d)) as [f|] eqn:E; [|done]. apply untouched_insert; [|done].
  intros ->. unfold untouched, stable_at in Hd. by rewrite E in Hd.
Qed.

Lemma untouched_mcall : keeps untouched mcall (fun _ => True).
Proof. intros d Hd. unfold mcall. destruct (mfate d) as [|[] fs]; done. Qed.

Lemma untouched_remove j d : untouched d -> untouched (remove_file j d).
Proof.
  intros Hd. unfold remove_file. pose proof (untouched_mcall d Hd) as Hm. destruct (mcall d) as [d1 [[]|e]]; [|done].
  destruct Hm as [Hm _]. unfold unlink. destruct (om_lookup j (mfiles d1)) as [f|] eqn:E; [|done].
  apply untouched_insert; [|done]. intros ->. unfold untouched, stable_at in Hm. by rewrite E in Hm.
Qed.

Lemma untouched_flush j : j <> k -> keeps untouched (flush_sync j) (fun _ => True).
Proof.
  intros Hj. unfold flush_sync. eapply keeps_bind; [apply untouched_mcall|intros _ _].
  eapply keeps_bind; [apply untouched_mcall|intros _ _]. apply keeps_modify. intros d Hd.
  destruct (om_lookup j (mfiles d)) as [f|] eqn:E; [|done]. by apply untouched_insert.
Qed.

Lemma untouched_store_active j : keeps untouched (store_active j) (fun _ => True).
Proof. unfold store_active. eapply keeps_bind; [by apply keeps_modify|intros _ _]. apply untouched_mcall. Qed.

Lemma untouched_create_mapped j size : j <> k -> keeps untouched (create_mapped j size) (fun _ => True).
Proof.
  intros Hj d Hd. unfold create_mapped. destruct (linked_at j d); [done|].
  match goal with |- context [bind ?m ?f d] => assert (Hm : keeps untouched (bind m f) (fun _ => True)); [|exact (Hm d Hd)] end.
  eapply keeps_bind; [apply untouched_mcall|intros _ _].
  eapply keeps_bind; [apply keeps_modify; intros d1 Hd1; by apply untouched_insert|intros _ _].
  eapply keeps_bind; [apply untouched_mcall|intros _ _].
  eapply keeps_bind; [apply keeps_modify; intros d1 Hd1; by apply untouched_set_mem|intros _ _]. apply untouched_mcall.
Qed.

Lemma untouched_create_segment size j : j <> k -> keeps untouched (create_segment size j) (fun wr => wfirst wr = j).
Proof.
  intros Hj d Hd. unfold create_segment. destruct (segment_too_small size); [done|].
  pose proof (untouched_create_mapped j size Hj d Hd) as Hm. destruct (create_mapped j size d) as [d1 [[]|e]]; [|done].
  destruct Hm as [Hm _]. split; [by apply untouched_set_mem|done].
Qed.

(** ** The log *)

(** The file is as it was, and the active segment is a later one. *)
Definition retired (s : st) : Prop :=
  untouched s.1 /\ match writer s.2 with Some wr => k < wfirst wr | None => True end.

(** Rotation makes it so, whatever was active. *)
Lemma rotate_locked_retires c s :
  k < c -> untouched s.1 ->
  match rotate_locked c s with (s', Ok _) => retired s' | (s', Err _) => retired s' end.
Proof.
  intros Hc Hd. destruct s as [d w]. cbn [fst] in Hd. unfold rotate_locked. destruct (writer w) as [old|] eqn:Ew.
  - cbv zeta. unfold rotate. set (d1 := set_mem _ _ d). assert (Hd1 : untouched (flush_async d1).1).
    { pose proof (untouched_mcall d1 (untouched_set_mem _ _ _ Hd)) as Hm. unfold flush_async.
      destruct (mcall d1) as [d2 [[]|e]]; [by destruct Hm|done]. }
    pose proof (untouched_create_segment (segment_size_max (cfg (with_writer None w))) c ltac:(lia) _ Hd1) as Hm.
    destruct (create_segment _ c _) as [d2 [wr|e]]; [|by split]. destruct Hm as [Hm Hwr].
    pose proof (untouched_store_active c d2 Hm) as Hs. destruct (store_active c d2) as [d3 [[]|e]]; [|by split].
    destruct Hs as [Hs _]. split; [done|]. cbn. by rewrite Hwr.
  - pose proof (untouched_create_segment (segment_size_max (cfg w)) c ltac:(lia) d Hd) as Hm.
    destruct (create_segment _ c d) as [d2 [wr|e]]; [|split; [done|cbn; by rewrite Ew]]. destruct Hm as [Hm Hwr].
    unfold on_disk. pose proof (untouched_store_active c d2 Hm) as Hs. destruct (store_active c d2) as [d3 [[]|e]]; cbn [map_err];
      (split; [by (apply Hs || destruct Hs)|cbn; by rewrite Hwr]).
Qed.

Lemma retired_rotate c : k < c -> keeps retired (rotate_locked c) (fun _ => True).
Proof.
  intros Hc s [Hd _]. pose proof (rotate_locked_retires c s Hc Hd) as Hr. by destruct (rotate_locked c s) as [s' [[]|e]].
Qed.

Lemma retired_ensure c n : k < c -> keeps retired (ensure_writer c n) (fun wr => k < wfirst wr).
Proof.
  intros Hc [d w] [Hd Hw]. unfold ensure_writer. cbn [fst snd] in *. destruct (writer w) as [wr|] eqn:Ew.
  - destruct (_ <=? _); [split; [split; [done|cbn; by rewrite Ew]|done]|]. pose proof (rotate_locked_retires c (d, w) Hc Hd) as Hr.
    unfold bind. destruct (rotate_locked c (d, w)) as [[d1 w1] [[]|e]]; [|done]. destruct (writer w1) as [wr1|] eqn:E1; [|done].
    split; [done|]. destruct Hr as [_ Hr]. cbn in Hr. by rewrite E1 in Hr.
  - pose proof (untouched_create_segment (segment_size_max (cfg w)) c ltac:(lia) d Hd) as Hm.
    destruct (create_segment _ c d) as [d2 [wr|e]]; [|split; [done|cbn; by rewrite Ew]]. destruct Hm as [Hm Hwr].
    unfold bind, on_disk. pose proof (untouched_store_active c d2 Hm) as Hs. destruct (store_active c d2) as [d3 [[]|e]]; cbn [map_err].
    + destruct Hs as [Hs _]. split; [split; [done|cbn; by rewrite Hwr]|by rewrite Hwr].
    + split; [done|cbn; by rewrite Hwr].
Qed.

(** A record that does not fit retires the active segment itself. *)
Lemma full_ensure c n d w wr : k < c -> untouched d -> writer w = Some wr -> segment_size_max (cfg w) < active_bytes w + n ->
  match ensure_writer c n (d, w) with (s', Ok wr) => retired s' /\ k < wfirst wr | (s', Err _) => retired s' end.
Proof.
  intros Hc Hd Hw Hfull. unfold ensure_writer. rewrite Hw. destruct (Z.leb_spec (active_bytes w + n) (segment_size_max (cfg w))); [lia|].
  pose proof (rotate_locked_retires c (d, w) Hc Hd) as Hr. unfold bind.
  destruct (rotate_locked c (d, w)) as [[d1 w1] [[]|e]]; [|done]. destruct (writer w1) as [wr1|] eqn:E1; [|done].
  split; [done|]. destruct Hr as [_ Hr]. cbn in Hr. by rewrite E1 in Hr.
Qed.

Lemma retired_writer_append wr c ts p : keeps retired (on_disk EWriter2 (writer_append wr c ts p)) (fun _ => True).
Proof.
  intros [d w] [Hd Hw]. unfold on_disk, writer_append. destruct (append _ _ _ _ _) as [m [out|]]; [|done].
  split; [|done]. split; [by apply untouched_set_mem|done].
Qed.

Lemma retired_append_or_rotate wr c ts p : k < c -> keeps retired (append_or_rotate wr c ts p) (fun _ => True).
Proof.
  intros Hc. unfold append_or_rotate. eapply keeps_bind; [apply retired_writer_append|intros [start next|] _; [by apply keeps_ret|]].
  eapply keeps_bind; [by apply retired_rotate|intros _ _]. intros [d w] Hr. destruct (writer w) as [wr2|] eqn:E; [|done].
  match goal with |- context [bind ?m ?f (d, w)] => assert (Hm : keeps retired (bind m f) (fun _ => True)); [|exact (Hm _ Hr)] end.
  eapply keeps_bind; [apply retired_writer_append|intros [start next|] _; [by apply keeps_ret|apply keeps_fail]].
Qed.

Lemma retired_retention fuel s : retired s -> retired (enforce_retention fuel s).
Proof.
  revert s. induction fuel as [|fuel IH]; intros [d w] Hr; [done|]. cbn [enforce_retention]. unfold retention_turn.
  destruct (_ <=? _); [done|]. destruct (List.find _ _) as [j|]; [|done]. apply IH. destruct Hr as [Hd Hw].
  split; [by apply untouched_remove|done].
Qed.

Lemma retired_flush wr : k < wfirst wr -> keeps retired (on_disk EIo2 (flush_sync (wfirst wr))) (fun _ => True).
Proof.
  intros Hk [d w] [Hd Hw]. unfold on_disk. pose proof (untouched_flush (wfirst wr) ltac:(lia) d Hd) as Hm.
  destruct (flush_sync _ d) as [d1 [[]|e]]; cbn [map_err]; [split; [|done]|]; by (split; [by (apply Hm || destruct Hm)|]).
Qed.

(** What follows the choice of the writer in [append]. *)
Lemma retired_append_tail wr c ts p : k < c -> k < wfirst wr ->
  keeps retired
    (let! next := append_or_rotate wr c ts p in
     do! modify (fun '(d, w) =>
       (d, count_append (zlen p) (with_active_bytes (current_tail d wr) (with_pending next w)))) in
     do! modify (fun s =>
       if retention_bytes (cfg s.2) <? retained_bytes s.2 + active_bytes s.2 then enforce_retention_locked s else s) in
     fun s =>
       match policy (cfg s.2) with
       | Each =>
           (do! on_disk EIo2 (flush_sync (wfirst wr)) in
            on_wal (fun w => count_flush (with_durable next w))) s
       | _ => (s, Ok tt)
       end) (fun _ => True).
Proof.
  intros Hc Hk. eapply keeps_bind; [by apply retired_append_or_rotate|intros next _].
  eapply keeps_bind; [apply keeps_modify; by intros [d w]|intros _ _].
  eapply keeps_bind; [apply keeps_modify; intros s Hs; destruct (_ <? _); [by apply retired_retention|done]|intros _ _].
  intros s Hs. destruct (policy (cfg s.2)); [done..|].
  match goal with |- context [bind ?m ?f s] => assert (Hm : keeps retired (bind m f) (fun _ => True)); [|exact (Hm _ Hs)] end.
  eapply keeps_bind; [by apply retired_flush|intros _ _]. apply keeps_modify. by intros [d w].
Qed.

Lemma retired_append c ts p : k < c -> keeps retired (wal_append c ts p) (fun _ => True).
Proof.
  intros Hc s Hs. unfold wal_append. destruct (negb _); [done|]. destruct (_ <? _); [done|]. destruct (poisoned s.2); [done|].
  match goal with |- context [bind ?m ?f s] => assert (Hm : keeps retired (bind m f) (fun _ => True)); [|exact (Hm _ Hs)] end.
  eapply keeps_bind; [by apply retired_ensure|intros wr Hwr]. by apply retired_append_tail.
Qed.

(** An append that does not fit the active segment, which may be the file [k] itself. *)
Lemma rotating_append_retires c ts p d w wr :
  k < c -> untouched d -> writer w = Some wr ->
  segment_size_max (cfg w) < active_bytes w + align_record_len (RECORD_FRAMING + zlen p) -> enabled (cfg w) = true ->
  zlen p <= MAX_PAYLOAD_LEN -> poisoned w = false -> retired (wal_append c ts p (d, w)).1.
Proof.
  intros Hc Hd Hw Hfull Hen Hp Hpo. unfold wal_append. cbn [snd]. rewrite Hen, Hpo. cbn [negb].
  destruct (Z.ltb_spec MAX_PAYLOAD_LEN (zlen p)); [lia|]. unfold bind at 1.
  pose proof (full_ensure c _ d w wr Hc Hd Hw Hfull) as He.
  destruct (ensure_writer _ _ _) as [s1 [wr1|e]]; [|exact He]. destruct He as [Hr Hwr].
  pose proof (retired_append_tail wr1 c ts p Hc Hwr s1 Hr) as Ht. cbv beta in Ht.
  match goal with |- retired (fst ?x) => set (y := x) in *; destruct y as [s' [[]|e]] end; [by destruct Ht|done].
Qed.

Lemma retired_fsync : keeps retired fsync (fun _ => True).
Proof.
  intros [d w] Hs. unfold fsync.
  match goal with |- context [bind ?m ?f (d, w)] => assert (Hm : keeps retired (bind m f) (fun _ => True)); [|exact (Hm _ Hs)] end.
  eapply (keeps_bind _ _ _ (fun _ => True)); [|intros _ _; apply keeps_modify; by intros [d1 w1]].
  pose proof Hs as [_ Hw]. cbn [snd] in Hw. destruct (writer w) as [wr|]; [|by apply keeps_ret].
  eapply keeps_bind; [by apply retired_flush|intros _ _]. apply keeps_modify. by intros [d1 w1].
Qed.

Lemma retired_flusher now s ph : retired s -> retired (flusher_step now s ph).1.
Proof.
  intros Hs. destruct ph as [|c|c r]; [destruct s; exact Hs| |].
  - unfold flusher_step, flusher_flush. destruct s as [d w]. destruct Hs as [Hd Hw]. cbn [fst snd] in *.
    destruct (writer w) as [wr|] eqn:E; [|split; [done|cbn; by rewrite E]].
    pose proof (untouched_flush (wfirst wr) ltac:(lia) d Hd) as Hm. destruct (flush_sync _ d) as [d1 [[]|e]];
      (split; [by (apply Hm || destruct Hm)|cbn; by rewrite E]).
  - destruct s as [d w]. destruct Hs as [Hd Hw]. split; [done|]. by destruct r.
Qed.

Lemma retired_calls p : k < p -> call_keeps p retired.
Proof.
  intros Hk c [d w] ph Hp Hs. cbn [snd] in Hp. unfold run_call. destruct c as [ts q| | |now]; cbn [snd].
  - pose proof (retired_append (pending_cursor w) ts q ltac:(lia) _ Hs) as Hr.
    destruct (wal_append _ _ _ _) as [s' [[]|e]]; [by destruct Hr|done].
  - pose proof (retired_fsync _ Hs) as Hr. destruct (fsync _) as [s' [[]|e]]; [by destruct Hr|done].
  - unfold bump_generation. cbn [snd]. destruct (writer w) as [wr|] eqn:E; [|done].
    pose proof (retired_rotate (pending_cursor w) ltac:(lia) _ Hs) as Hr.
    destruct (rotate_locked _ _) as [s' [[]|e]]; [by destruct Hr|done].
  - pose proof (retired_flusher now (d, w) ph Hs) as Hr. exact Hr.
Qed.
End file.

(** What is unsynced when a segment fills up stays unsynced.  Let an append not fit the active segment;
    then the file it leaves has on stable storage, whatever calls follow (other appends, explicit syncs,
    rotations, turns of the flusher) and however many, exactly the bytes it had before, while a final
    [fsync] succeeds and declares every record durable, those of that segment included. *)
Theorem rotated_segment_is_never_synced `{Crc} ts p cs d w old a ph :
  wal2_inv d w old (Some a) -> enabled (cfg w) = true -> poisoned w = false -> seg_size_ok w ->
  calls_ok w (maybe_empty (Some a)) (CAppend ts p :: cs) -> (forall c r, ph = Flushed c r -> r = Ok tt) ->
  pending_cursor w + 1 + zlen (appended (pending_cursor w + 1) cs) < two64 ->
  segment_size_max (cfg w) < active_bytes w + align_record_len (RECORD_FRAMING + zlen p) ->
  exists d1 w1 ph1 d2 w2, run_calls (CAppend ts p :: cs) (d, w, ph) = ((d1, w1, ph1), Ok tt)
    /\ fsync (d1, w1) = ((d2, w2), Ok tt)
    /\ durable_cursor w2 = pending_cursor w2 /\ sfirst a + zlen (srecs a) < durable_cursor w2
    /\ stable_at (sfirst a) d2 = stable_at (sfirst a) d.
Proof.
  intros Hinv Hen Hpo Hsz Hok Hph Hmax Hfull. set (k := sfirst a). set (bs := stable_at k d).
  pose proof (zlen_nonneg (appended (pending_cursor w + 1) cs)).
  assert (Hend : sfirst a + zlen (srecs a) = pending_cursor w).
  { destruct (v_chain _ _ _ _ Hinv) as (b & _ & Hch). apply chain_app in Hch as (m & _ & Hm). cbn in Hm. lia. }
  assert (Hne : srecs a <> []).
  { intros E. destruct (v_act _ _ _ _ Hinv) as (_ & Hab & _). rewrite E in Hab. change (enc2_all []) with (@nil byte) in Hab.
    rewrite zlen_nil in Hab. destruct Hok as (_ & [_ Hf] & _). unfold rec_len in Hf. cbn [payload] in Hf. lia. }
  destruct (v_act _ _ _ _ Hinv) as (Hw & _). pose proof (zlen_nonneg (srecs a)).
  assert (Hlt : k < pending_cursor w) by (unfold k; destruct (srecs a); [done|]; rewrite zlen_cons in Hend; pose proof (zlen_nonneg l); lia).
  destruct Hok as (Hts & [Hf1 Hf2] & Hok).
  destruct (wal_append_ok d w old (Some a) ts p Hinv Hen Hpo Hts ltac:(lia) (conj Hf1 Hf2))
    as (d1 & w1 & old1 & a1 & dr1 & E & Hinv1 & _ & Hp1 & Hc1 & Ho1 & _ & Hne1 & _).
  assert (E' : run_call (CAppend ts p) (d, w, ph) = ((d1, w1, ph), Ok tt)) by (unfold run_call; cbn [snd]; by rewrite E).
  pose proof (rotating_append_retires k bs (pending_cursor w) ts p d w _ Hlt eq_refl Hw Hfull Hen Hf1 Hpo) as Hret.
  rewrite E in Hret. cbn [fst] in Hret.
  destruct (run_calls_ok cs d1 w1 old1 (Some a1) ph Hinv1) as (d2 & w2 & ph2 & old2 & act2 & dr & E2 & Hinv2 & _ & _ & Hp2 & _ & HQ);
    [by rewrite Hc1|done|unfold seg_size_ok; by rewrite Hc1| |done|by rewrite Hp1; lia|].
  { apply (calls_ok_cfg w); [done|]. unfold maybe_empty. by destruct (srecs a1). }
  pose proof (HQ _ (retired_calls k bs (pending_cursor w1) ltac:(lia)) Hret) as Hret2.
  destruct (fsync_ok d2 w2 old2 act2 Hinv2) as (d3 & w3 & E3 & _ & Hsl & Hdu).
  pose proof (retired_fsync k bs _ Hret2) as Hret3. rewrite E3 in Hret3. destruct Hret3 as [[Hu _] _].
  exists d2, w2, ph2, d3, w3. split; [cbn [run_calls]; by step_ok E'|]. split; [done|].
  split; [by rewrite Hdu, (sl_pending _ _ Hsl)|]. split; [|exact Hu]. rewrite Hdu, Hp2, Hp1.
  fold k in Hend |- *. lia.
Qed.
