(* ===== verification/WalV2Demo.v ===== *)
(** * The theorems on the lock-free log at concrete inputs

    A log whose 96-byte segments take two records of three bytes each, opened on an empty directory. *)

From Stdlib Require Import ZArith Lia Strings.Byte.
From stdpp Require Import base option strings gmap list.
From S2P Require Import Prelude OrdMap Chain Disk Record Config Stats Mmap SegmentV2 WalV2 WalV2Spec WalV2Calls WalV2Restart WalV2Sync.

#[local] Existing Instance sum_crc.

Definition demo_cfg : wal_config := WalConfig true Batched 5 1000 96 400.

Definition abc : list byte := [Byte.x61; Byte.x62; Byte.x63].

(** An empty directory, opened. *)
Definition new_log : st :=
  match open demo_cfg 9 (MDisk [] (0, 0) []) with (d, Ok w) => (d, w) | (d, Err _) => (d, opened demo_cfg [] [] None 0 0 9) end.

Lemma new_log_inv : wal2_inv new_log.1 new_log.2 [] None.
Proof.
  constructor.
  - vm_compute. constructor.
  - vm_compute. reflexivity.
  - vm_compute. reflexivity.
  - vm_compute. reflexivity.
  - constructor.
  - constructor.
  - constructor.
  - split; [vm_compute; reflexivity|]. split; [reflexivity|vm_compute; reflexivity].
  - exists 0. split; [lia|vm_compute; reflexivity].
  - vm_compute. reflexivity.
  - vm_compute. reflexivity.
  - split; (split; [vm_compute; congruence|vm_compute; reflexivity]).
Qed.

Definition run_from_new (cs : list call) : st := (run_calls cs (new_log, Idle)).1.1.

(** The first record is in, nothing of it on stable storage. *)
Definition one_record : st := run_from_new [CAppend 9 abc].

Definition one_seg : seg := Seg 0 0 [Record_ 0 9 abc].

Lemma one_seg_ok : seg_ok one_seg.
Proof.
  split; [split; [vm_compute; congruence|vm_compute; reflexivity]|].
  split; [split; [vm_compute; congruence|vm_compute; reflexivity]|]. split.
  - constructor; [|constructor]. split; [split; [vm_compute; congruence|vm_compute; reflexivity]|].
    split; [split; [vm_compute; congruence|vm_compute; reflexivity]|vm_compute; congruence].
  - intros [|i] x Hx; [injection Hx as <-; reflexivity|done].
Qed.

Lemma one_record_inv : wal2_inv one_record.1 one_record.2 [] (Some one_seg).
Proof.
  constructor.
  - vm_compute. repeat constructor.
  - vm_compute. reflexivity.
  - vm_compute. reflexivity.
  - vm_compute. reflexivity.
  - constructor; [exact one_seg_ok|constructor].
  - constructor.
  - constructor.
  - split; [vm_compute; reflexivity|]. split; [vm_compute; reflexivity|].
    eexists. split; [vm_compute; reflexivity|]. split; [reflexivity|]. constructor.
    + vm_compute. reflexivity.
    + vm_compute. congruence.
    + vm_compute. reflexivity.
    + split; [vm_compute; congruence|vm_compute; reflexivity].
    + apply one_seg_ok.
  - exists 0. split; [lia|vm_compute; split; reflexivity].
  - vm_compute. reflexivity.
  - vm_compute. reflexivity.
  - split; (split; [vm_compute; congruence|vm_compute; reflexivity]).
Qed.

Definition five_calls : list call :=
  [CAppend 10 abc; CFlusher 11; CAppend 12 abc; CFlusher 11; CBump; CFsync; CFlusher 11; CAppend 13 abc].

Lemma five_calls_ok b : calls_ok one_record.2 b five_calls.
Proof.
  assert (Hu : forall x, 0 <= x < 100 -> is_u64 x) by (intros x Hx; unfold is_u64, two64; lia).
  cbn [five_calls calls_ok]. assert (Hf : forall ts, fits (Record_ 0 ts abc) one_record.2).
  { intros ts. split; vm_compute; congruence. }
  repeat first [apply Hf | apply Hu; lia | exact I | reflexivity | split].
Qed.

Lemma calls_are_logged_and_replayed_witness :
  exists d' w' ph' dropped kept, run_calls five_calls (one_record.1, one_record.2, Idle) = ((d', w', ph'), Ok tt)
    /\ log_of (segs_of [] (Some one_seg)) ++ appended (pending_cursor one_record.2) five_calls = dropped ++ kept
    /\ pending_cursor w' = 4.
Proof.
  destruct (calls_are_logged_and_replayed five_calls one_record.1 one_record.2 [] (Some one_seg) Idle 5)
    as (d' & w' & ph' & dropped & kept & E1 & E2 & E3 & _).
  - exact one_record_inv.
  - vm_compute. reflexivity.
  - vm_compute. reflexivity.
  - vm_compute. reflexivity.
  - apply five_calls_ok.
  - discriminate.
  - vm_compute. reflexivity.
  - exists d', w', ph', dropped, kept. split; [exact E1|]. split; [exact E2|]. rewrite E3. vm_compute. reflexivity.
Defined.

(** The publisher dies after five of the eight stores of the second record. *)
Lemma restart_after_a_death_mid_append_witness :
  exists d' w', open demo_cfg 20 (died_mid_append one_record.1 one_record.2 one_seg 10 abc 5) = (d', Ok w') /\ pending_cursor w' = 1.
Proof.
  destruct (restart_after_a_death_mid_append demo_cfg 20 one_record.1 one_record.2 [] one_seg 10 abc 5 5) as (d' & w' & E & Hp & _).
  - exact one_record_inv.
  - split; [vm_compute; congruence|vm_compute; reflexivity].
  - vm_compute. congruence.
  - lia.
  - vm_compute. reflexivity.
  - vm_compute. congruence.
  - left. discriminate.
  - vm_compute. reflexivity.
  - vm_compute. reflexivity.
  - split; [vm_compute; congruence|vm_compute; reflexivity].
  - vm_compute. reflexivity.
  - vm_compute. lia.
  - exists d', w'. split; [exact E|]. rewrite Hp. vm_compute. reflexivity.
Defined.

(** A forced rotation leaves an active segment without records. *)
Definition rotated : st := run_from_new [CAppend 9 abc; CBump].

Definition empty_seg : seg := Seg 1 0 [].

Lemma rotated_inv : wal2_inv rotated.1 rotated.2 [one_seg] (Some empty_seg).
Proof.
  constructor.
  - vm_compute. repeat constructor.
  - vm_compute. reflexivity.
  - vm_compute. reflexivity.
  - vm_compute. reflexivity.
  - constructor; [exact one_seg_ok|]. constructor; [|constructor].
    split; [split; [vm_compute; congruence|vm_compute; reflexivity]|].
    split; [split; [vm_compute; congruence|vm_compute; reflexivity]|]. split; [constructor|]. by intros [|i].
  - constructor; [discriminate|constructor].
  - constructor; [|constructor]. eexists _, 96. split; [vm_compute; reflexivity|]. split; [reflexivity|]. constructor.
    + vm_compute. reflexivity.
    + split; [vm_compute; congruence|vm_compute; reflexivity].
    + apply one_seg_ok.
    + exists 68, (to_le 4 SKIP_TO_END_SENTINEL ++ zrep 28 Byte.x00). split; [vm_compute; reflexivity|].
      split; [split; [vm_compute; congruence|vm_compute; reflexivity]|]. split; [vm_compute; congruence|].
      right. right. exists SKIP_TO_END_SENTINEL, (zrep 28 Byte.x00). split; [reflexivity|].
      split; [vm_compute; reflexivity|]. split; [vm_compute; congruence|]. auto.
  - split; [vm_compute; reflexivity|]. split; [vm_compute; reflexivity|].
    eexists. split; [vm_compute; reflexivity|]. split; [reflexivity|]. constructor.
    + vm_compute. reflexivity.
    + vm_compute. congruence.
    + vm_compute. reflexivity.
    + split; [vm_compute; congruence|vm_compute; reflexivity].
    + constructor.
  - exists 0. split; [lia|vm_compute; split; [|split]; reflexivity].
  - vm_compute. reflexivity.
  - vm_compute. reflexivity.
  - split; (split; [vm_compute; congruence|vm_compute; reflexivity]).
Qed.

Lemma segment_without_records_stops_the_log_witness :
  exists d' w', bump_generation (rotated.1, rotated.2) = ((d', w'), Err (ERotation (RotWriter (WriterIo AlreadyExists))))
    /\ wal_append (pending_cursor w') 10 abc (d', w') = ((d', w'), Err (EWriter2 (WriterIo AlreadyExists))).
Proof.
  destruct (segment_without_records_stops_the_log demo_cfg 20 rotated.1 rotated.2 [one_seg] empty_seg) as (_ & d' & w' & E & Happ).
  - exact rotated_inv.
  - reflexivity.
  - vm_compute. reflexivity.
  - vm_compute. reflexivity.
  - vm_compute. reflexivity.
  - vm_compute. reflexivity.
  - vm_compute. reflexivity.
  - exists d', w'. split; [exact E|]. apply Happ. vm_compute. congruence.
Defined.

(** The third record does not fit: the first segment is rotated away with nothing of it synced. *)
Definition full_log : st := run_from_new [CAppend 9 abc; CAppend 10 abc].

Definition full_seg : seg := Seg 0 0 [Record_ 0 9 abc; Record_ 1 10 abc].

Lemma full_log_inv : wal2_inv full_log.1 full_log.2 [] (Some full_seg).
Proof.
  assert (Hr : Forall record_ok (srecs full_seg)).
  { constructor; [apply (Forall_inv (proj1 (proj2 (proj2 one_seg_ok))))|]. constructor; [|constructor].
    split; [split; [vm_compute; congruence|vm_compute; reflexivity]|].
    split; [split; [vm_compute; congruence|vm_compute; reflexivity]|vm_compute; congruence]. }
  constructor.
  - vm_compute. repeat constructor.
  - vm_compute. reflexivity.
  - vm_compute. reflexivity.
  - vm_compute. reflexivity.
  - constructor; [|constructor]. split; [split; [vm_compute; congruence|vm_compute; reflexivity]|].
    split; [split; [vm_compute; congruence|vm_compute; reflexivity]|]. split; [exact Hr|].
    intros [|[|i]] x Hx; [injection Hx as <-; reflexivity..|done].
  - constructor.
  - constructor.
  - split; [vm_compute; reflexivity|]. split; [vm_compute; reflexivity|].
    eexists. split; [vm_compute; reflexivity|]. split; [reflexivity|]. constructor.
    + vm_compute. reflexivity.
    + vm_compute. congruence.
    + vm_compute. reflexivity.
    + split; [vm_compute; congruence|vm_compute; reflexivity].
    + exact Hr.
  - exists 0. split; [lia|vm_compute; split; reflexivity].
  - vm_compute. reflexivity.
  - vm_compute. reflexivity.
  - split; (split; [vm_compute; congruence|vm_compute; reflexivity]).
Qed.

Lemma rotated_segment_is_never_synced_witness :
  exists d1 w1 ph1 d2 w2, run_calls (CAppend 12 abc :: five_calls) (full_log.1, full_log.2, Idle) = ((d1, w1, ph1), Ok tt)
    /\ fsync (d1, w1) = ((d2, w2), Ok tt) /\ 2 < durable_cursor w2 /\ stable_at 0 d2 = [].
Proof.
  destruct (rotated_segment_is_never_synced 12 abc five_calls full_log.1 full_log.2 [] full_seg Idle)
    as (d1 & w1 & ph1 & d2 & w2 & E1 & E2 & _ & Hd & Hs).
  - exact full_log_inv.
  - vm_compute. reflexivity.
  - vm_compute. reflexivity.
  - vm_compute. reflexivity.
  - split; [split; [vm_compute; congruence|vm_compute; reflexivity]|]. split; [split; vm_compute; congruence|]. apply (five_calls_ok false).
  - discriminate.
  - vm_compute. reflexivity.
  - vm_compute. reflexivity.
  - exists d1, w1, ph1, d2, w2. split; [exact E1|]. split; [exact E2|]. split; [exact Hd|]. exact Hs.
Defined.
