(* ===== verification/WalV2Replay.v ===== *)
(** * Replaying whatever is in the directory

    Nothing is assumed of the bytes here: torn, corrupted or hostile segments. *)

From Stdlib Require Import ZArith Lia Strings.Byte.
From stdpp Require Import base option strings gmap list.
From S2P Require Import Prelude OrdMap Chain Disk Record Config Stats Mmap SegmentV2 WalV2.

Section replay.
Context `{Crc}.

(** A record or an error takes the reader forward. *)
Lemma next_record_progress m r r' x :
  next_record m r = (r', x) -> match x with GotRecord _ | ReadErr _ => rd_size r' = rd_size r /\ rd_pos r < rd_pos r' | _ => True end.
Proof.
  unfold next_record. cbv zeta. set (pos := rd_pos r). set (raw := get_u32 m pos).
  destruct (Z.leb_spec (rd_size r) pos); [by intros [= _ <-]|]. destruct (_ <=? _); [by intros [= _ <-]|]. destruct (negb _); [by intros [= _ <-]|].
  destruct (raw =? 0); [by intros [= _ <-]|]. destruct (raw =? _); [by intros [= _ <-]|]. destruct (negb _); [by intros [= _ <-]|].
  destruct (_ <? raw); [intros [= <- <-]; split; [done|cbn; lia]|].
  destruct (Z.ltb_spec raw RECORD_FRAMING); [intros [= <- <-]; split; [done|cbn; lia]|].
  assert (0 < raw) by (unfold RECORD_FRAMING in *; lia). pose proof (align_record_len_spec raw).
  destruct (_ <? _); [intros [= <- <-]; split; [done|cbn; lia]|].
  destruct (_ <? _); [intros [= <- <-]; split; [done|cbn; lia]|].
  destruct (negb _); intros [= <- <-]; (split; [done|cbn; lia]).
Qed.

(** What a replayer can still go through. *)
Definition replay_bound (d : mdisk) (r : replayer) : nat :=
  list_sum (map (fun k => 2 + length (mem d k))%nat (rsegments r))
  + match current r with Some (_, rd) => S (Z.to_nat (rd_size rd - rd_pos rd)) | None => 0 end.

Lemma open_reader_bound k d rd : open_reader k d = Ok rd -> (S (Z.to_nat (rd_size rd - rd_pos rd)) <= 1 + length (mem d k))%nat.
Proof.
  unfold open_reader, open_bytes. destruct (linked_at k d); [|done]. cbv zeta.
  destruct (_ <? _); [done|]. destruct (negb _); [done|]. destruct (_ =? 1); [done|]. destruct (negb _); [done|].
  intros [= <-]. cbn [rd_size rd_pos]. unfold zlen, SEGMENT_HEADER_LEN. lia.
Qed.

Lemma replay_bound_cons d k rest f cur :
  replay_bound d (Replayer (k :: rest) f cur)
  = (2 + length (mem d k) + replay_bound d (Replayer rest f cur))%nat.
Proof. unfold replay_bound. cbn [rsegments current map list_sum foldr]. change (fold_right Nat.add 0%nat) with list_sum. lia. Qed.

Lemma replay_bound_current d segs f k rd :
  replay_bound d (Replayer segs f (Some (k, rd)))
  = (S (Z.to_nat (rd_size rd - rd_pos rd)) + replay_bound d (Replayer segs f None))%nat.
Proof. unfold replay_bound. cbn. lia. Qed.

(** With fuel above the bound the loop of [next] is not cut short, and what it leaves is less. *)
Lemma replay_next_bound d fuel fuel' r :
  (replay_bound d r < fuel)%nat -> (replay_bound d r < fuel')%nat ->
  replay_next fuel r d = replay_next fuel' r d
  /\ forall r' x, replay_next fuel r d = (r', Some x) -> (replay_bound d r' < replay_bound d r)%nat.
Proof.
  revert fuel' r. induction fuel as [|fuel IH]; intros fuel' [segs fl cur] Hf Hf'; [lia|]. destruct fuel' as [|fuel']; [lia|].
  cbn [replay_next rsegments cursor_floor current]. destruct cur as [[k rd]|].
  - rewrite replay_bound_current in *. destruct (next_record (mem d k) rd) as [rd' x] eqn:E.
    assert (Hend : x = AwaitMore \/ x = EndOfSegment ->
      replay_next fuel (Replayer segs fl None) d = replay_next fuel' (Replayer segs fl None) d
      /\ forall r' y, replay_next fuel (Replayer segs fl None) d = (r', Some y) ->
           (replay_bound d r' < S (Z.to_nat (rd_size rd - rd_pos rd)) + replay_bound d (Replayer segs fl None))%nat).
    { intros _. destruct (IH fuel' (Replayer segs fl None)) as [H1 H2]; [lia|lia|]. split; [done|].
      intros r' y Hy. specialize (H2 _ _ Hy). lia. }
    pose proof (next_record_progress _ _ _ _ E) as Hprog.
    destruct x as [rec| | |e|off]; [|by apply Hend; left|by apply Hend; right| |].
    + destruct Hprog as [Hs Hp]. pose proof E as E0.
      assert (Hb : (Z.to_nat (rd_size rd' - rd_pos rd') < S (Z.to_nat (rd_size rd - rd_pos rd)))%nat) by lia.
      assert (Hb' : (replay_bound d (Replayer segs fl (Some (k, rd'))) < S (Z.to_nat (rd_size rd - rd_pos rd)) + replay_bound d (Replayer segs fl None))%nat).
      { rewrite replay_bound_current. assert (rd_pos rd < rd_size rd); [|lia].
        unfold next_record in E0. cbv zeta in E0. destruct (Z.leb_spec (rd_size rd) (rd_pos rd)); [congruence|lia]. }
      destruct (rcursor rec <? fl).
      * destruct (IH fuel' (Replayer segs fl (Some (k, rd')))) as [H1 H2]; [lia|lia|]. split; [done|].
        intros r' y Hy. specialize (H2 _ _ Hy). lia.
      * split; [done|]. by intros r' y [= <- _].
    + destruct Hprog as [Hs Hp]. split; [done|]. intros r' y [= <- _].
      rewrite replay_bound_current. assert (rd_pos rd < rd_size rd); [|lia].
      unfold next_record in E. cbv zeta in E. destruct (Z.leb_spec (rd_size rd) (rd_pos rd)); [congruence|lia].
    + split; [done|]. intros r' y [= <- _]. unfold replay_bound. cbn. lia.
  - destruct segs as [|k rest]; [done|]. rewrite replay_bound_cons in *.
    destruct (open_reader k d) as [rd|e] eqn:E.
    + pose proof (open_reader_bound _ _ _ E).
      destruct (IH fuel' (Replayer rest fl (Some (k, rd)))) as [H1 H2]; [rewrite replay_bound_current; lia..|].
      split; [done|]. intros r' y Hy. specialize (H2 _ _ Hy). rewrite replay_bound_current in H2. lia.
    + split; [done|]. intros r' y [= <- _]. lia.
Qed.

(** The items a replayer yields, errors included, and whether it came to its end. *)
Fixpoint drain (n fuel : nat) (d : mdisk) (r : replayer) : list (result wal_error2 record) * bool :=
  match n with
  | O => ([], false)
  | S n =>
      match replay_next fuel r d with
      | (r, Some x) => let '(xs, fin) := drain n fuel d r in (x :: xs, fin)
      | (_, None) => ([], true)
      end
  end.

Lemma drain_bound d n n' fuel fuel' r :
  (replay_bound d r < fuel)%nat -> (replay_bound d r < fuel')%nat -> (replay_bound d r < n)%nat -> (replay_bound d r < n')%nat ->
  exists items, drain n fuel d r = (items, true) /\ drain n' fuel' d r = (items, true) /\ (length items <= replay_bound d r)%nat.
Proof.
  revert n' r. induction n as [|n IH]; intros n' r Hf Hf' Hn Hn'; [lia|]. destruct n' as [|n']; [lia|]. cbn [drain].
  destruct (replay_next_bound d fuel fuel' r Hf Hf') as [<- Hless].
  destruct (replay_next fuel r d) as [r' [x|]]; [|exists []; split; [done|]; split; [done|cbn; lia]].
  specialize (Hless _ _ eq_refl). destruct (IH n' r') as (items & E1 & E2 & Hl); [lia..|].
  rewrite E1, E2. exists (x :: items). split; [done|]. split; [done|]. cbn. lia.
Qed.

(** The model goes no further than a load that the code may not make. *)
Lemma replay_next_undefined fuel r d r' off :
  replay_next fuel r d = (r', Some (Err (UndefinedLoad off))) -> rsegments r' = [] /\ current r' = None.
Proof.
  revert r. induction fuel as [|fuel IH]; intros [segs fl cur]; [done|]. cbn [replay_next rsegments cursor_floor current].
  destruct cur as [[k rd]|].
  - destruct (next_record (mem d k) rd) as [rd' [rec| | |e|o]]; try apply IH; [|done|by intros [= <- _]].
    destruct (_ <? fl); [apply IH|done].
  - destruct segs as [|k rest]; [done|]. destruct (open_reader k d); [apply IH|done].
Qed.

Lemma drain_undefined_last n fuel d r items i off :
  drain n fuel d r = (items, true) -> items !! i = Some (Err (UndefinedLoad off)) -> length items = S i.
Proof.
  revert r items i. induction n as [|n IH]; intros r items i; cbn [drain]; [done|].
  destruct (replay_next fuel r d) as [r' [x|]] eqn:E; [|by intros [= <-]].
  destruct (drain n fuel d r') as [xs fin] eqn:Ed. intros [= <- ->] Hi. destruct i as [|i].
  - injection Hi as ->. destruct (replay_next_undefined _ _ _ _ _ E) as [Hr Hc]. destruct r' as [segs fl cur]. cbn in Hr, Hc. subst.
    destruct n as [|n]; [done|]. cbn [drain] in Ed. destruct fuel; cbn in Ed; by injection Ed as <-.
  - cbn. f_equal. by apply (IH r' xs i).
Qed.

(** C34: replaying comes to an end whatever the segment files hold, or to a point from which the code has no defined
    behaviour: a record length that is no multiple of four can lead the reader to a position whose length word
    is misaligned or outside the mapping.  From any position a replayer yields at
    most as many items, records or errors, as there are bytes and files left, and then its end; such a load can
    only be the last of them; and giving the loops more turns changes nothing, so none of them was cut short. *)
Theorem replay_of_any_directory_ends d c n fuel :
  match read_from_index (reader_open d) c with
  | Err e => e = CursorTooOld2 c (default 0 (reader_oldest (reader_open d)))
  | Ok r =>
      (replay_bound d r < n)%nat -> (replay_bound d r < fuel)%nat ->
      exists items, drain n fuel d r = (items, true) /\ (length items <= replay_bound d r)%nat
        /\ (forall i off, items !! i = Some (Err (UndefinedLoad off)) -> length items = S i)
        /\ forall n' fuel', (n <= n')%nat -> (fuel <= fuel')%nat -> drain n' fuel' d r = (items, true)
  end.
Proof.
  unfold read_from_index, reader_oldest. set (ix := reader_open d).
  assert (Hd : forall r, (replay_bound d r < n)%nat -> (replay_bound d r < fuel)%nat ->
    exists items, drain n fuel d r = (items, true) /\ (length items <= replay_bound d r)%nat
      /\ (forall i off, items !! i = Some (Err (UndefinedLoad off)) -> length items = S i)
      /\ forall n' fuel', (n <= n')%nat -> (fuel <= fuel')%nat -> drain n' fuel' d r = (items, true)).
  { intros r Hn Hf. destruct (drain_bound d n n fuel fuel r) as (items & E & _ & Hl); [lia..|].
    exists items. split; [done|]. split; [done|]. split; [by intros i off; apply (drain_undefined_last _ _ _ _ _ _ _ E)|]. intros n' fuel' Hn' Hf'.
    destruct (drain_bound d n n' fuel fuel' r) as (items' & E1 & E2 & _); [lia..|]. congruence. }
  destruct (om_first ix) as [o|]; [|apply Hd]. destruct (c <? o); [done|]. cbv zeta. apply Hd.
Qed.
End replay.

(** ** Reading past the mapping

    A record length that is not a multiple of four takes the reader to a position from which the next
    load, of four bytes, is misaligned and not inside the mapping. *)
Definition odd_segment : list byte :=
  put_u32 32 29 (put_u64 TAIL_OFFSET 100 (create_bytes 64 0)).

Example reader_leaves_the_mapping :
  match open_bytes odd_segment with
  | Ok r0 =>
      let r1 := (next_record (H := sum_crc) odd_segment r0).1 in
      rd_pos r1 < rd_size r1 /\ rd_pos r1 < seg_tail odd_segment /\ rd_size r1 < rd_pos r1 + 4
      /\ (next_record (H := sum_crc) odd_segment r1).2 = BadLoad (rd_pos r1)
  | Err _ => False
  end.
Proof. vm_compute. auto. Qed.

(** The bytes of a bad record are passed over and what lies behind them is read on: here the second of two
    records is intact, the first has a flipped payload byte, and a replay yields an error, then the record. *)
Definition flipped : mdisk :=
  let m := live_bytes (H := sum_crc) 96 0 [Record_ 0 9 [Byte.x61]; Record_ 1 9 [Byte.x62]] in
  MDisk [(0, MFile (zsplice 56 [Byte.x7a] m) [] true)] (0, 0) [].

Example replay_goes_on_past_a_bad_record :
  match read_from_index (reader_open flipped) 0 with
  | Ok r =>
      match drain (H := sum_crc) 5 99 flipped r with
      | ([Err _; Ok rec], true) => rec = Record_ 1 9 [Byte.x62]
      | _ => False
      end
  | Err _ => False
  end.
Proof. vm_compute. reflexivity. Qed.

Lemma replay_of_any_directory_ends_witness :
  exists items, drain (H := sum_crc) 200 200 flipped (Replayer [0] 0 None) = (items, true) /\ (length items <= 98)%nat.
Proof.
  pose (r := Replayer [0] 0 None).
  assert (Hd : (replay_bound flipped r < 200)%nat -> (replay_bound flipped r < 200)%nat ->
    exists items, drain (H := sum_crc) 200 200 flipped r = (items, true) /\ (length items <= replay_bound flipped r)%nat
      /\ (forall i off, items !! i = Some (Err (UndefinedLoad off)) -> length items = S i)
      /\ forall n' fuel', (200 <= n')%nat -> (200 <= fuel')%nat -> drain (H := sum_crc) n' fuel' flipped r = (items, true)).
  { exact (replay_of_any_directory_ends (H := sum_crc) flipped 0 200 200). }
  destruct Hd as (items & E & Hl & _); [vm_compute; lia|vm_compute; lia|]. exists items. split; [exact E|]. exact Hl.
Defined.
