(* ===== verification/Publisher.v ===== *)
(** * The publisher ([crates/mmbus/src/publisher.rs])

    [publish], [publish_many], the broadcast of wakeups and the accepting of clients, over a shared world
    (the mapped ring, the subscribers' eventfds, the listener's backlog) and a write-ahead log given by
    its interface [WalBackend].  The wakeup channel is Linux's: a semaphore-mode eventfd. *)

From Stdlib Require Import ZArith Lia Strings.Byte.
From stdpp Require Import base option strings gmap list.
From S2P Require Import Prelude OrdMap Chain Record Disk WalV1 WalRecovery Config Stats WalApi Ring.

(** ** State *)

(** [Client]: the subscriber's slot in the cursor table and its eventfd. *)
Record client := Client { ccursor_idx : nat; cefd : nat }.

(** What the publisher shares with its subscribers.  [backlog] is what [accept] and the handshake of each
    pending connection will give. *)
Record world := World {
  wring : ring;
  efds : gmap nat Z;
  backlog : list (result io_error client)
}.

Record publisher (W : Type) := Publisher_ {
  clients : list client;
  policy : backpressure_policy;
  wal : option W;
  published_total : Z;
  full_rejected_total : Z;
  subscribers_dropped_total : Z;
  wakeups_sent_total : Z
}.
Arguments Publisher_ {W}.
Arguments clients {W}.
Arguments policy {W}.
Arguments wal {W}.
Arguments published_total {W}.
Arguments full_rejected_total {W}.
Arguments subscribers_dropped_total {W}.
Arguments wakeups_sent_total {W}.

Definition with_ring (r : ring) (w : world) : world := World r (efds w) (backlog w).
Definition with_efds (m : gmap nat Z) (w : world) : world := World (wring w) m (backlog w).
Definition with_backlog (l : list (result io_error client)) (w : world) : world := World (wring w) (efds w) l.

(** ** The wakeup primitive *)

(** The largest value an eventfd counter takes. *)
Definition EFD_MAX : Z := u64_MAX - 1.

Definition efd_count (w : world) (fd : nat) : Z := default 0 (efds w !! fd).

(** [eventfd_wake]: adds one; refused when the counter would overflow. *)
Definition wake (c : client) (w : world) : world * bool :=
  let v := efd_count w (cefd c) in
  if v + 1 <=? EFD_MAX then (with_efds (<[cefd c := v + 1]> (efds w)) w, true) else (w, false).

(** [Vec::swap_remove] *)
Definition swap_remove {A} (i : nat) (l : list A) : list A :=
  match last l with
  | Some x => if decide (S i = length l) then removelast l else <[i := x]> (removelast l)
  | None => []
  end.

Section publisher.
Context {W WE : Type} `{!WalBackend W WE}.

Definition st : Type := world * publisher W.

Definition set_clients (l : list client) (p : publisher W) : publisher W :=
  Publisher_ l (policy p) (wal p) (published_total p) (full_rejected_total p)
    (subscribers_dropped_total p) (wakeups_sent_total p).
Definition set_wal (x : W) (p : publisher W) : publisher W :=
  Publisher_ (clients p) (policy p) (Some x) (published_total p) (full_rejected_total p)
    (subscribers_dropped_total p) (wakeups_sent_total p).
Definition add_published (n : Z) (p : publisher W) : publisher W :=
  Publisher_ (clients p) (policy p) (wal p) (published_total p + n) (full_rejected_total p)
    (subscribers_dropped_total p) (wakeups_sent_total p).
Definition add_full_rejected (p : publisher W) : publisher W :=
  Publisher_ (clients p) (policy p) (wal p) (published_total p) (full_rejected_total p + 1)
    (subscribers_dropped_total p) (wakeups_sent_total p).
Definition add_dropped (p : publisher W) : publisher W :=
  Publisher_ (clients p) (policy p) (wal p) (published_total p) (full_rejected_total p)
    (subscribers_dropped_total p + 1) (wakeups_sent_total p).
Definition add_wakeup (p : publisher W) : publisher W :=
  Publisher_ (clients p) (policy p) (wal p) (published_total p) (full_rejected_total p)
    (subscribers_dropped_total p) (wakeups_sent_total p + 1).

(** ** Creating *)

(** The part of [create] after the lock: the ring at [ring.mmap] is reused or made, and its tail follows
    the log. *)
Definition create_ring (f : ring_file) (cfg : bus_config) (w : option W) : ring :=
  let r := create_or_reuse f (bcapacity cfg) (slot_size cfg) (bmax_subscribers cfg) in
  match w with
  | Some w => let next := wb_pending_cursor w in if current_tail r <? next then set_tail next r else r
  | None => r
  end.

Definition create (f : ring_file) (cfg : bus_config) (w : option W) : st :=
  (World (create_ring f cfg w) ∅ [], Publisher_ [] (backpressure cfg) w 0 0 0 0).

(** ** Accepting clients *)

Fixpoint accept_all (l : list (result io_error client)) (cs : list client) :
    list (result io_error client) * list client * result (error WE) unit :=
  match l with
  | [] => ([], cs, Ok tt)
  | Ok c :: l => accept_all l (cs ++ [c])
  | Err e :: l => (l, cs, Err (Io e))
  end.

Definition accept_clients : M st (error WE) unit := fun '(w, p) =>
  let '(l, cs, r) := accept_all (backlog w) (clients p) in
  ((with_backlog l w, set_clients cs p), r).

(** ** Waking subscribers *)

(** The loop from index [i]; every turn advances [i] or shortens the list. *)
Fixpoint broadcast_loop (fuel : nat) (i : nat) (s : st) : st :=
  match fuel with
  | O => s
  | S fuel =>
      let '(w, p) := s in
      match clients p !! i with
      | None => s
      | Some c =>
          let idx := ccursor_idx c in
          if cursor_is_unclaimed (wring w) idx
          then broadcast_loop fuel i (w, add_dropped (set_clients (swap_remove i (clients p)) p))
          else
            let '(r, flag) := take_wakeflag idx (wring w) in
            let w := with_ring r w in
            if negb flag then broadcast_loop fuel (S i) (w, p)
            else
              let p := add_wakeup p in
              match wake c w with
              | (w, true) => broadcast_loop fuel (S i) (w, p)
              | (w, false) => broadcast_loop fuel i (w, add_dropped (set_clients (swap_remove i (clients p)) p))
              end
      end
  end.

Definition broadcast_wakeup (s : st) : st :=
  match clients s.2 with [] => s | _ => broadcast_loop (length (clients s.2)) 0 s end.

(** ** Publishing *)

(** The WAL record that precedes the ring write. *)
Definition append_wal (data : list byte) : M st (error WE) unit := fun '(w, p) =>
  match wal p with
  | None => ((w, p), Ok tt)
  | Some x =>
      let cursor := current_tail (wring w) in
      let ts := wb_current_ts x in
      match wb_append cursor ts data x with
      | (x, Ok _) => ((w, set_wal x p), Ok tt)
      | (x, Err e) => ((w, set_wal x p), Err (WalError e))
      end
  end.

(** The ring write of either policy; the payload length was checked before, so [try_publish]'s
    assertion holds. *)
Definition ring_publish (data : list byte) (s : st) : st * bool :=
  let '(w, p) := s in
  match policy p with
  | ErrorPolicy =>
      match try_publish data (wring w) with
      | Some (r, ok) => ((with_ring r w, p), ok)
      | None => (s, false)
      end
  | DropOldest => let '(r, ok) := publish_drop_oldest data (wring w) in ((with_ring r w, p), ok)
  end.

Definition wal_full_check (s : st) : bool :=
  match wal s.2 with
  | Some _ => match policy s.2 with ErrorPolicy => is_full (wring s.1) | DropOldest => false end
  | None => false
  end.

(** [publish] from the WAL branch on. *)
Definition publish_record (data : list byte) : M st (error WE) unit := fun s =>
  if wal_full_check s then (s, Err Full)
  else
    (do! append_wal data in
     fun s =>
       match ring_publish data s with
       | ((w, p), false) => ((w, add_full_rejected p), Err Full)
       | ((w, p), true) => (broadcast_wakeup (w, add_published 1 p), Ok tt)
       end) s.

Definition publish (data : list byte) : M st (error WE) unit := fun s =>
  let max := slot_payload_size (wring s.1) in
  if max <? zlen data then (s, Err (TooLarge (zlen data) max))
  else (do! accept_clients in publish_record data) s.

(** The loop of [publish_many]: the state, the count, and the error of an early return. *)
Fixpoint publish_items (items : list (list byte)) (count : Z) (s : st) : st * Z * option (error WE) :=
  match items with
  | [] => (s, count, None)
  | data :: items =>
      let max := slot_payload_size (wring s.1) in
      if max <? zlen data
      then ((if 0 <? count then broadcast_wakeup s else s), count, Some (TooLarge (zlen data) max))
      else if wal_full_check s then (s, count, None)
      else
        match append_wal data s with
        | (s, Err e) => ((if 0 <? count then broadcast_wakeup s else s), count, Some e)
        | (s, Ok _) =>
            match ring_publish data s with
            | (s, false) => (s, count, None)
            | (s, true) => publish_items items (count + 1) s
            end
        end
  end.

Definition publish_many (items : list (list byte)) : M st (error WE) Z :=
  do! accept_clients in
  fun s =>
    match publish_items items 0 s with
    | (s, _, Some e) => (s, Err e)
    | ((w, p), count, None) =>
        ((if 0 <? count then broadcast_wakeup (w, add_published count p) else (w, p)), Ok count)
    end.

(** ** Waiting and monitoring *)

(** [wait_for_subscribers]: each turn of its loop starts with the connections that arrived since the
    last one; [false] marks the turn at which the deadline has passed. *)
Fixpoint wait_for_subscribers (min_count : nat) (turns : list (list (result io_error client) * bool)) :
    M st (error WE) unit :=
  match turns with
  | [] => fail (Timeout "waiting for subscribers")
  | (arrived, before_deadline) :: turns => fun '(w, p) =>
      (do! accept_clients in
       fun s =>
         if (min_count <=? length (clients s.2))%nat then (s, Ok tt)
         else if negb before_deadline then (s, Err (Timeout "waiting for subscribers"))
         else wait_for_subscribers min_count turns s) (with_backlog (backlog w ++ arrived) w, p)
  end.

Definition stats (s : st) : topic_stats :=
  let '(w, p) := s in
  TopicStats (Ring.stats (wring w)) (zlen (clients p)) (wb_stats <$> wal p) (published_total p)
    (full_rejected_total p) (subscribers_dropped_total p) (wakeups_sent_total p).

Definition slow_subscribers (threshold : Z) (s : st) : list (nat * Z) :=
  List.filter (fun x => threshold <=? x.2) (lags_with_idx (wring s.1)).

(** ** Waking: every claimed client that announced it sleeps, exactly once *)

Definition claimed (w : world) (c : client) : bool := negb (cursor_is_unclaimed (wring w) (ccursor_idx c)).
Definition waiting (w : world) (c : client) : bool := wakeflag (wring w) (ccursor_idx c) =? WAKEFLAG_WAITING.

Definition live (w : world) (cs : list client) : list client := List.filter (claimed w) cs.
Definition woken (w : world) (cs : list client) : list client := List.filter (waiting w) (live w cs).

(** Clients that share neither a cursor slot nor an eventfd, within the tables. *)
Record clients_ok (w : world) (cs : list client) : Prop := {
  co_idx : NoDup (map ccursor_idx cs);
  co_fd : NoDup (map cefd cs);
  co_bound : Forall (fun c => (ccursor_idx c < length (wakeflags (wring w)))%nat) cs;
  co_room : Forall (fun c => efd_count w (cefd c) + 1 <= EFD_MAX) cs
}.

(** What waking [cs] does to the world. *)
Record wakes (w : world) (cs : list client) (w' : world) : Prop := {
  wk_ring : wring w' = with_wakeflags (wakeflags (wring w')) (wring w);
  wk_len : length (wakeflags (wring w')) = length (wakeflags (wring w));
  wk_backlog : backlog w' = backlog w;
  wk_flag : forall i, wakeflag (wring w') i
              = if decide (i ∈ map ccursor_idx (live w cs)) then 0 else wakeflag (wring w) i;
  wk_efd : forall fd, efd_count w' fd
              = efd_count w fd + (if decide (fd ∈ map cefd (woken w cs)) then 1 else 0)
}.

Lemma swap_remove_mid {A} (P R : list A) c x :
  swap_remove (length P) (P ++ c :: R ++ [x]) = P ++ x :: R.
Proof.
  unfold swap_remove. rewrite app_comm_cons, app_assoc, last_snoc.
  case_decide as Hd; [rewrite !length_app in Hd; cbn in Hd; lia|].
  rewrite removelast_last, insert_app_r_alt by lia. by rewrite Nat.sub_diag.
Qed.

Lemma swap_remove_last {A} (P : list A) c : swap_remove (length P) (P ++ [c]) = P.
Proof.
  unfold swap_remove. rewrite last_snoc. rewrite length_app. cbn.
  case_decide; [|lia]. by rewrite removelast_last.
Qed.

Lemma swap_remove_perm {A} (P R : list A) c :
  exists R', swap_remove (length P) (P ++ c :: R) = P ++ R' /\ R' ≡ₚ R.
Proof.
  destruct R as [|x R _] using rev_ind.
  - exists []. rewrite swap_remove_last, app_nil_r. done.
  - exists (x :: R). rewrite swap_remove_mid. split; [done|]. by rewrite Permutation_cons_append.
Qed.

Lemma filter_perm (f : client -> bool) l k : l ≡ₚ k -> List.filter f l ≡ₚ List.filter f k.
Proof.
  induction 1; cbn; try done.
  - destruct (f x); [by constructor|done].
  - destruct (f x), (f y); try done. apply Permutation_swap.
  - by etrans.
Qed.

Lemma clients_ok_perm w cs cs' : cs ≡ₚ cs' -> clients_ok w cs -> clients_ok w cs'.
Proof.
  intros Hp [H1 H2 H3 H4]. constructor.
  - by rewrite <- Hp.
  - by rewrite <- Hp.
  - by rewrite <- Hp.
  - by rewrite <- Hp.
Qed.

Lemma clients_ok_tail w c cs : clients_ok w (c :: cs) -> clients_ok w cs.
Proof.
  intros [H1 H2 H3 H4]. constructor.
  - by apply NoDup_cons in H1 as [_ ?].
  - by apply NoDup_cons in H2 as [_ ?].
  - by apply Forall_cons in H3 as [_ ?].
  - by apply Forall_cons in H4 as [_ ?].
Qed.

Lemma wakes_perm w cs cs' w' : cs ≡ₚ cs' -> wakes w cs w' -> wakes w cs' w'.
Proof.
  intros Hp [H1 H2 H3 H4 H5].
  assert (Hl : live w cs ≡ₚ live w cs') by by apply filter_perm.
  assert (Hw : woken w cs ≡ₚ woken w cs') by by apply filter_perm.
  constructor; try done.
  - intros i. rewrite H4. apply (Permutation_map ccursor_idx) in Hl. destruct (decide (i ∈ map ccursor_idx (live w cs))) as [Hi|Hi];
      rewrite Hl in Hi; by case_decide.
  - intros fd. rewrite H5. apply (Permutation_map cefd) in Hw. destruct (decide (fd ∈ map cefd (woken w cs))) as [Hi|Hi];
      rewrite Hw in Hi; by case_decide.
Qed.

(** The turn of a claimed client. *)
Definition wake_one (c : client) (w : world) : world :=
  let w1 := with_ring (clear_wakeflag (ccursor_idx c) (wring w)) w in
  if waiting w c then with_efds (<[cefd c := efd_count w (cefd c) + 1]> (efds w)) w1 else w1.

Lemma wakeflag_clear i j r :
  (i < length (wakeflags r))%nat ->
  wakeflag (clear_wakeflag i r) j = if decide (j = i) then 0 else wakeflag r j.
Proof.
  intros Hi. unfold wakeflag, clear_wakeflag. cbn [wakeflags with_wakeflags]. case_decide as Hd.
  - subst. by rewrite list_lookup_insert_eq.
  - by rewrite list_lookup_insert_ne.
Qed.

Lemma wake_one_ring c w : wring (wake_one c w) = clear_wakeflag (ccursor_idx c) (wring w).
Proof. unfold wake_one. by destruct (waiting w c). Qed.

Lemma wake_one_efd c w fd :
  efd_count (wake_one c w) fd = efd_count w fd + (if waiting w c then if decide (fd = cefd c) then 1 else 0 else 0).
Proof.
  unfold wake_one, efd_count. destruct (waiting w c); cbn; [|lia]. case_decide as Hd.
  - subst. rewrite lookup_insert_eq. cbn. lia.
  - rewrite lookup_insert_ne by done. lia.
Qed.

Lemma live_same w w' cs : cursors (wring w') = cursors (wring w) -> live w' cs = live w cs.
Proof.
  intros Hc. apply List.filter_ext. intros c. unfold claimed, cursor_is_unclaimed, cursor_at. by rewrite Hc.
Qed.

Lemma woken_wake_one c w cs :
  clients_ok w (c :: cs) -> woken (wake_one c w) cs = woken w cs.
Proof.
  intros Hok. unfold woken. rewrite (live_same w) by (by rewrite wake_one_ring).
  pose proof (co_idx _ _ Hok) as Hnd. apply NoDup_cons in Hnd as [Hni _].
  pose proof (co_bound _ _ Hok) as Hb. apply Forall_cons in Hb as [Hb _].
  unfold live. induction cs as [|x cs IH]; [done|]. cbn in Hni. apply not_elem_of_cons in Hni as [Hx Hni].
  cbn. assert (Hw : waiting (wake_one c w) x = waiting w x).
  { unfold waiting. rewrite wake_one_ring, wakeflag_clear by done. by case_decide. }
  assert (Hok' : clients_ok w (c :: cs)).
  { apply (clients_ok_perm _ _ (x :: c :: cs)) in Hok; [by apply clients_ok_tail in Hok|apply Permutation_swap]. }
  destruct (claimed w x); cbn; rewrite ?Hw, IH by done; done.
Qed.

Lemma clients_ok_wake_one c w cs : clients_ok w (c :: cs) -> clients_ok (wake_one c w) cs.
Proof.
  intros Hok. pose proof (clients_ok_tail _ _ _ Hok) as [H1 H2 H3 H4]. constructor; try done.
  - rewrite wake_one_ring. unfold clear_wakeflag. cbn. by rewrite length_insert.
  - pose proof (co_fd _ _ Hok) as Hnd. apply NoDup_cons in Hnd as [Hni _].
    rewrite Forall_forall in H4 |- *. intros x Hx. rewrite wake_one_efd.
    rewrite decide_False; [specialize (H4 x Hx); cbn in H4; destruct (waiting w c); lia|].
    intros E. apply Hni. rewrite <- E. apply list_elem_of_fmap. eauto.
Qed.

Lemma wakes_claimed c w cs w' :
  clients_ok w (c :: cs) -> claimed w c = true -> wakes (wake_one c w) cs w' -> wakes w (c :: cs) w'.
Proof.
  intros Hok Hcl [H1 H2 H3 H4 H5].
  assert (Hlive : live w (c :: cs) = c :: live w cs) by (unfold live; cbn; by rewrite Hcl).
  assert (Hwoken : woken w (c :: cs) = if waiting w c then c :: woken w cs else woken w cs).
  { unfold woken. rewrite Hlive. cbn. by destruct (waiting w c). }
  pose proof (co_bound _ _ Hok) as Hb. apply Forall_cons in Hb as [Hb _].
  rewrite wake_one_ring in H1, H2. constructor.
  - rewrite H1 at 1. unfold clear_wakeflag. done.
  - rewrite H2. unfold clear_wakeflag. cbn. apply length_insert.
  - rewrite H3. unfold wake_one. by destruct (waiting w c).
  - intros i. rewrite H4, (live_same w), wake_one_ring, wakeflag_clear by (rewrite ?wake_one_ring; done).
    rewrite Hlive. cbn [map]. destruct (decide (i ∈ map ccursor_idx (live w cs))) as [Hi|Hi].
    + rewrite decide_True; [done|by right].
    + destruct (decide (i = ccursor_idx c)) as [->|Hne]; [rewrite decide_True; [done|by left]|].
      rewrite decide_False; [done|]. by apply not_elem_of_cons.
  - intros fd. rewrite H5, wake_one_efd, woken_wake_one, Hwoken by done.
    pose proof (co_fd _ _ Hok) as Hnd. apply NoDup_cons in Hnd as [Hni _].
    destruct (waiting w c); [|lia]. cbn [map].
    assert (Hin : cefd c ∉ map cefd (woken w cs)).
    { intros Hin. apply Hni. apply list_elem_of_fmap in Hin as (x & -> & Hx). apply list_elem_of_fmap.
      exists x. split; [done|]. unfold woken, live in Hx. apply list_elem_of_In, List.filter_In in Hx as [Hx _].
      apply List.filter_In in Hx as [Hx _]. by apply list_elem_of_In. }
    destruct (decide (fd = cefd c)) as [->|Hne].
    + rewrite (decide_False (P := cefd c ∈ map cefd (woken w cs))) by done. rewrite decide_True by (by left). lia.
    + destruct (decide (fd ∈ map cefd (woken w cs))) as [Hf|Hf].
      * rewrite decide_True by (by right). lia.
      * rewrite decide_False by (by apply not_elem_of_cons). lia.
Qed.

Lemma wakes_unclaimed c w cs w' : claimed w c = false -> wakes w cs w' -> wakes w (c :: cs) w'.
Proof.
  intros Hcl [H1 H2 H3 H4 H5].
  assert (Hlive : live w (c :: cs) = live w cs) by (unfold live; cbn; by rewrite Hcl).
  constructor; try done; unfold woken in *; by rewrite Hlive.
Qed.

(** The publisher's own state after waking [cs], those at the front of the list being [kept]. *)
Record bookkeeping (w : world) (kept cs : list client) (p p' : publisher W) : Prop := {
  bk_clients : exists cs', clients p' = kept ++ cs' /\ cs' ≡ₚ live w cs;
  bk_same : policy p' = policy p /\ wal p' = wal p /\ published_total p' = published_total p
            /\ full_rejected_total p' = full_rejected_total p;
  bk_dropped : subscribers_dropped_total p' = subscribers_dropped_total p + (zlen cs - zlen (live w cs));
  bk_wakeups : wakeups_sent_total p' = wakeups_sent_total p + zlen (woken w cs)
}.

Lemma wake_room c w : efd_count w (cefd c) + 1 <= EFD_MAX ->
  wake c w = (with_efds (<[cefd c := efd_count w (cefd c) + 1]> (efds w)) w, true).
Proof. intros Hr. unfold wake. by rewrite (proj2 (Z.leb_le _ _) Hr). Qed.

Lemma wakes_nil w : wakes w [] w.
Proof.
  constructor; try done; [by destruct w as [[] ? ?]|].
  intros fd. rewrite decide_False; [lia|]. apply not_elem_of_nil.
Qed.

Lemma bookkeeping_nil w kept p : clients p = kept -> bookkeeping w kept [] p p.
Proof.
  intros Hp. constructor; cbn; rewrite ?zlen_nil; try lia; [|done]. exists []. by rewrite app_nil_r.
Qed.

(** A client that is gone is replaced by the last one. *)
Lemma unclaimed_turn w c P R R' w' p p' :
  claimed w c = false -> R' ≡ₚ R -> wakes w R' w' -> bookkeeping w P R' (add_dropped (set_clients (P ++ R') p)) p' ->
  wakes w (c :: R) w' /\ bookkeeping w P (c :: R) p p'.
Proof.
  intros Hcl Hperm Hw [(cs' & Hc & Hpc) Hsame Hd Hk]. split; [apply wakes_unclaimed; [done|by eapply wakes_perm]|].
  assert (Hlive : live w (c :: R) = live w R) by (unfold live; cbn; by rewrite Hcl).
  pose proof (filter_perm (claimed w) _ _ Hperm) as Hpl. change (live w R' ≡ₚ live w R) in Hpl.
  assert (Hwk : woken w (c :: R) = woken w R) by (unfold woken; by rewrite Hlive).
  pose proof (filter_perm (waiting w) _ _ Hpl) as Hpw. change (woken w R' ≡ₚ woken w R) in Hpw.
  apply Permutation_length in Hperm, Hpw. pose proof (Permutation_length Hpl) as Hll.
  constructor; cbn [add_dropped set_clients subscribers_dropped_total wakeups_sent_total] in *.
  - exists cs'. split; [done|]. by rewrite Hlive, Hpc.
  - done.
  - rewrite Hd, Hlive, zlen_cons. unfold zlen. lia.
  - rewrite Hk, Hwk. unfold zlen. lia.
Qed.

Lemma broadcast_loop_spec fuel P R w p :
  clients p = P ++ R -> (length R <= fuel)%nat -> clients_ok w R ->
  exists w' p', broadcast_loop fuel (length P) (w, p) = (w', p') /\ wakes w R w' /\ bookkeeping w P R p p'.
Proof.
  revert P R w p. induction fuel as [|fuel IH]; intros P R w p Hp Hf Hok.
  { destruct R; [|cbn in Hf; lia]. rewrite app_nil_r in Hp. exists w, p. split; [done|].
    split; [apply wakes_nil|by apply bookkeeping_nil]. }
  cbn [broadcast_loop]. rewrite Hp. destruct R as [|c R].
  { rewrite app_nil_r in *. rewrite lookup_ge_None_2 by done. exists w, p. split; [done|].
    split; [apply wakes_nil|by apply bookkeeping_nil]. }
  rewrite list_lookup_middle by done. cbn [length] in Hf. cbv zeta.
  destruct (claimed w c) eqn:Hcl; unfold claimed in Hcl.
  - apply negb_true_iff in Hcl as Hcl'. rewrite Hcl'. cbn [take_wakeflag].
    change (wakeflag (wring w) (ccursor_idx c) =? WAKEFLAG_WAITING) with (waiting w c).
    assert (Hr : efd_count w (cefd c) + 1 <= EFD_MAX) by (apply co_room, Forall_cons in Hok as [? _]; done).
    pose proof (clients_ok_wake_one _ _ _ Hok) as Hok1.
    assert (Hnext : forall p1, clients p1 = P ++ c :: R ->
      exists w' p', broadcast_loop fuel (S (length P)) (wake_one c w, p1) = (w', p')
        /\ wakes w (c :: R) w' /\ exists cs', clients p' = P ++ cs' /\ cs' ≡ₚ live w (c :: R)
        /\ (policy p' = policy p1 /\ wal p' = wal p1 /\ published_total p' = published_total p1
            /\ full_rejected_total p' = full_rejected_total p1)
        /\ subscribers_dropped_total p' = subscribers_dropped_total p1 + (zlen R - zlen (live w R))
        /\ wakeups_sent_total p' = wakeups_sent_total p1 + zlen (woken w R)).
    { intros p1 Hp1. destruct (IH (P ++ [c]) R (wake_one c w) p1) as (w' & p' & E & Hw & [(cs' & Hc & Hperm) Hsame Hd Hk]).
      - rewrite Hp1. by rewrite <- app_assoc.
      - lia.
      - done.
      - rewrite length_app in E. cbn in E. rewrite Nat.add_1_r in E. exists w', p'. split; [done|].
        split; [by apply wakes_claimed|]. exists (c :: cs'). rewrite Hc, <- app_assoc. split; [done|].
        rewrite (live_same w) in Hperm, Hd by (by rewrite wake_one_ring). rewrite woken_wake_one in Hk by done.
        split; [|done]. unfold live in *. cbn. unfold claimed at 1. rewrite Hcl. by constructor. }
    assert (Hlive : zlen (live w (c :: R)) = 1 + zlen (live w R)).
    { unfold live. cbn. unfold claimed at 1. rewrite Hcl. apply zlen_cons. }
    assert (Hwoken : zlen (woken w (c :: R)) = (if waiting w c then 1 else 0) + zlen (woken w R)).
    { unfold woken, live. cbn. unfold claimed at 1. rewrite Hcl. cbn. destruct (waiting w c); [apply zlen_cons|lia]. }
    unfold wake_one in Hnext. destruct (waiting w c) eqn:Hwt; cbn [negb].
    + rewrite wake_room by done. destruct (Hnext (add_wakeup p)) as (w' & p' & E & Hw & cs' & Hc & Hperm & Hs & Hd & Hk); [done|].
      exists w', p'. split; [exact E|]. split; [done|]. constructor; [by exists cs'|done|..];
        rewrite ?Hd, ?Hk, ?zlen_cons, ?Hlive, ?Hwoken; cbn; lia.
    + destruct (Hnext p Hp) as (w' & p' & E & Hw & cs' & Hc & Hperm & Hs & Hd & Hk).
      exists w', p'. split; [exact E|]. split; [done|]. constructor; [by exists cs'|done|..];
        rewrite ?Hd, ?Hk, ?zlen_cons, ?Hlive, ?Hwoken; lia.
  - apply negb_false_iff in Hcl as Hcl'. rewrite Hcl'.
    destruct (swap_remove_perm P R c) as (R' & Hsw & Hperm). rewrite Hsw.
    destruct (IH P R' w (add_dropped (set_clients (P ++ R') p)))
      as (w' & p' & E & Hw & Hb); [done|rewrite Hperm; lia| |].
    + apply (clients_ok_perm _ R); [done|]. by eapply clients_ok_tail.
    + exists w', p'. split; [exact E|]. by apply (unclaimed_turn w c P R R').
Qed.

Lemma broadcast_spec w p :
  clients_ok w (clients p) ->
  exists w' p', broadcast_wakeup (w, p) = (w', p') /\ wakes w (clients p) w'
    /\ bookkeeping w [] (clients p) p p'.
Proof.
  intros Hok. unfold broadcast_wakeup. cbn [snd]. destruct (clients p) as [|c cs] eqn:E.
  - exists w, p. split; [done|]. split; [apply wakes_nil|by apply bookkeeping_nil].
  - rewrite <- E in *. apply (broadcast_loop_spec _ []); [done|done|done].
Qed.

(** C31: the broadcast.  Among connected clients that share neither slot nor eventfd, whose slots are in the tables and whose
    eventfds have room for one more (a slot that two of them share can cost a wakeup:
    [reconnected_subscriber_is_never_woken]), exactly those whose
    cursor is claimed stay connected; every one of them that announced it is about to sleep gets one
    wakeup and its flag is cleared; nobody else is woken, and the ring is otherwise untouched. *)
Theorem broadcast_wakes_each_sleeper_once w p :
  clients_ok w (clients p) ->
  exists w' p', broadcast_wakeup (w, p) = (w', p') /\ wakes w (clients p) w'
    /\ bookkeeping w [] (clients p) p p'.
Proof. apply broadcast_spec. Qed.

(** ** A stale client in front of its successor *)

(** What happens between publishes as far as the flags are concerned: the subscriber in slot [idx]
    announces that it sleeps. *)
Inductive bus_step := BPublish (data : list byte) | BSleep (idx : nat).

Definition bus_apply (o : bus_step) (s : st) : st :=
  match o with
  | BPublish data => (publish data s).1
  | BSleep idx => (with_ring (set_wakeflag idx (wring s.1)) s.1, s.2)
  end.

(** Two clients in one slot: [old]'s subscriber is gone, [new]'s claimed the slot after it. *)
Record shadowed (old new : client) (n : Z) (s : st) : Prop := {
  sh_clients : clients s.2 = [old; new];
  sh_claimed : claimed s.1 old = true;
  sh_bound : (ccursor_idx old < length (wakeflags (wring s.1)))%nat;
  sh_backlog : backlog s.1 = [];
  sh_room : efd_count s.1 (cefd old) + n <= EFD_MAX
}.

Lemma ring_publish_frame data w p :
  let '((w', p'), _) := ring_publish data (w, p) in
  p' = p /\ cursors (wring w') = cursors (wring w) /\ wakeflags (wring w') = wakeflags (wring w)
  /\ efds w' = efds w /\ backlog w' = backlog w.
Proof.
  unfold ring_publish. destruct (policy p).
  - unfold try_publish. destruct (zlen data <=? slot_payload_size (wring w)); [|done].
    destruct (capacity (wring w) <=? _); done.
  - done.
Qed.

Lemma append_wal_frame data w p :
  let '((w', p'), r) := append_wal data (w, p) in
  w' = w /\ clients p' = clients p /\ policy p' = policy p /\ published_total p' = published_total p
  /\ full_rejected_total p' = full_rejected_total p /\ subscribers_dropped_total p' = subscribers_dropped_total p
  /\ wakeups_sent_total p' = wakeups_sent_total p.
Proof. unfold append_wal. destruct (wal p); [|done]. by destruct (wb_append _ _ data w0) as [x [[]|e]]. Qed.

(** The flag is taken for [old], and found clear for [new]. *)
Lemma broadcast_shadowed old new n w p :
  0 <= n -> ccursor_idx new = ccursor_idx old -> shadowed old new (n + 1) (w, p) ->
  let s' := broadcast_wakeup (w, p) in
  shadowed old new n s' /\ efds s'.1 = (if waiting w old then <[cefd old := efd_count w (cefd old) + 1]> (efds w) else efds w).
Proof.
  intros Hn Hidx [Hc Hcl Hb Hbl Hr]. cbn [fst snd] in *. unfold broadcast_wakeup. cbn [snd]. rewrite Hc.
  cbn [length broadcast_loop]. rewrite Hc. cbn [lookup list_lookup]. unfold claimed in Hcl. apply negb_true_iff in Hcl.
  rewrite Hcl. cbn [take_wakeflag]. change (wakeflag (wring w) (ccursor_idx old) =? WAKEFLAG_WAITING) with (waiting w old).
  assert (Hcl2 : cursor_is_unclaimed (clear_wakeflag (ccursor_idx old) (wring w)) (ccursor_idx old) = false) by done.
  assert (Hz : (wakeflag (clear_wakeflag (ccursor_idx old) (wring w)) (ccursor_idx old) =? WAKEFLAG_WAITING) = false)
    by (rewrite wakeflag_clear by done; by rewrite decide_True).
  assert (Hlen : length (wakeflags (clear_wakeflag (ccursor_idx old) (wring w))) = length (wakeflags (wring w)))
    by apply length_insert.
  destruct (waiting w old) eqn:Hw; cbn [negb].
  - rewrite wake_room by (unfold efd_count in *; cbn; lia). cbn [clients add_wakeup]. rewrite Hc.
    cbn [lookup list_lookup]. rewrite Hidx. cbn [with_efds with_ring wring]. rewrite Hcl2. cbn [take_wakeflag wring].
    rewrite Hz. cbn [negb clients add_wakeup]. split; [|done]. constructor; cbn; try done.
    + unfold claimed. cbn. unfold cursor_is_unclaimed, cursor_at in *. cbn. by rewrite Hcl.
    + unfold clear_wakeflag. cbn. rewrite !length_insert. done.
    + unfold efd_count. cbn. rewrite lookup_insert_eq. cbn. unfold efd_count in Hr. lia.
  - cbn [lookup list_lookup]. rewrite Hidx. cbn [with_ring wring].
    rewrite Hcl2. cbn [take_wakeflag wring].
    rewrite Hz. cbn [negb]. split; [|done]. constructor; cbn; try done.
    + unfold claimed. cbn. unfold cursor_is_unclaimed, cursor_at in *. cbn. by rewrite Hcl.
    + unfold clear_wakeflag. cbn. rewrite !length_insert. done.
    + unfold efd_count in *. cbn. lia.
Qed.

Lemma shadowed_le old new n m s : m <= n -> shadowed old new n s -> shadowed old new m s.
Proof. intros Hm [? ? ? ? ?]. constructor; try done. lia. Qed.

Lemma shadowed_frame old new n w p w' p' :
  shadowed old new n (w, p) -> clients p' = clients p -> cursors (wring w') = cursors (wring w) ->
  length (wakeflags (wring w')) = length (wakeflags (wring w)) -> efds w' = efds w -> backlog w' = backlog w ->
  shadowed old new n (w', p').
Proof.
  intros [H1 H2 H3 H4 H5] Hc Hcu Hf He Hb. cbn [fst snd] in *. constructor; cbn [fst snd].
  - by rewrite Hc.
  - unfold claimed, cursor_is_unclaimed, cursor_at in *. by rewrite Hcu.
  - by rewrite Hf.
  - by rewrite Hb.
  - unfold efd_count in *. by rewrite He.
Qed.

Lemma shadowed_step o old new n s :
  0 <= n -> ccursor_idx new = ccursor_idx old -> cefd new <> cefd old -> shadowed old new (n + 1) s ->
  shadowed old new n (bus_apply o s) /\ efd_count (bus_apply o s).1 (cefd new) = efd_count s.1 (cefd new).
Proof.
  destruct s as [w p]. intros Hn Hidx Hfd Hsh. pose proof (shadowed_le old new (n + 1) n _ ltac:(lia) Hsh) as Hsh0.
  destruct o as [data|i]; cbn [bus_apply fst snd].
  2:{ split; [|done]. apply (shadowed_frame _ _ _ w p); try done. cbn. apply length_insert. }
  destruct (publish data (w, p)) as [s' r] eqn:E. cbn [fst].
  enough (Hgoal : shadowed old new n s' /\ efd_count s'.1 (cefd new) = efd_count w (cefd new)) by exact Hgoal.
  unfold publish in E. cbn [fst snd] in E. destruct (_ <? zlen data); [by injection E as <- _|].
  pose proof (sh_backlog _ _ _ _ Hsh) as Hbl. cbn [fst] in Hbl.
  unfold bind at 1, accept_clients, publish_record in E. rewrite Hbl in E. cbn [accept_all fst snd] in E.
  set (w0 := with_backlog [] w) in E. set (p0 := set_clients (clients p) p) in E.
  assert (H0 : shadowed old new (n + 1) (w0, p0)) by by apply (shadowed_frame _ _ _ w p).
  assert (H0' : shadowed old new n (w0, p0)) by (apply (shadowed_le old new (n + 1) n); [lia|exact H0]).
  destruct (wal_full_check (w0, p0)); [by injection E as <- _|].
  unfold bind at 1 in E. pose proof (append_wal_frame data w0 p0) as Haw.
  destruct (append_wal data (w0, p0)) as [[w1 p1] [[]|e]]; destruct Haw as (-> & Hc1 & _).
  2:{ injection E as <- _. split; [|done]. by apply (shadowed_frame _ _ _ w0 p0). }
  pose proof (ring_publish_frame data w0 p1) as Hrp.
  destruct (ring_publish data (w0, p1)) as [[w2 p2] [|]]; destruct Hrp as (-> & Hcu & Hfl & He & Hb).
  2:{ injection E as <- _. split; [|unfold efd_count; cbn [fst]; by rewrite He].
      apply (shadowed_frame _ _ _ w0 p0); try done. by rewrite Hfl. }
  injection E as <- _. assert (H2 : shadowed old new (n + 1) (w2, add_published 1 p1)).
  { apply (shadowed_frame _ _ _ w0 p0); try done. by rewrite Hfl. }
  destruct (broadcast_shadowed old new n _ _ Hn Hidx H2) as [Hs' He']. split; [exact Hs'|].
  unfold efd_count. cbn [fst] in *. rewrite He'. destruct (waiting w2 old); rewrite ?lookup_insert_ne by done; by rewrite He.
Qed.

(** A lost wakeup.  When a subscriber's slot is claimed again before the publisher has noticed that its
    holder is gone, the publisher's list has the dead client in front of the new one.  From then on,
    whatever is published and however often the new subscriber announces that it is about to sleep, its
    eventfd is never written: every wakeup meant for it goes to the dead client. *)
Theorem reconnected_subscriber_is_never_woken old new ops s :
  ccursor_idx new = ccursor_idx old -> cefd new <> cefd old -> shadowed old new (zlen ops) s ->
  efd_count (foldl (fun s o => bus_apply o s) s ops).1 (cefd new) = efd_count s.1 (cefd new).
Proof.
  intros Hidx Hfd. revert s. induction ops as [|o ops IH]; intros s Hsh; [done|]. cbn [foldl].
  rewrite zlen_cons in Hsh. rewrite Z.add_comm in Hsh.
  destruct (shadowed_step o old new (zlen ops) s (zlen_nonneg ops) Hidx Hfd Hsh) as [Hsh' He].
  rewrite IH by done. exact He.
Qed.

(** ** Publishing keeps ring and log in step *)

(** Worlds that differ in wakeup flags, eventfds and backlog only. *)
Definition same_ring (r r' : ring) : Prop :=
  r' = with_wakeflags (wakeflags r') r /\ length (wakeflags r') = length (wakeflags r).

Lemma same_ring_refl r : same_ring r r.
Proof. by destruct r. Qed.

Lemma same_ring_trans r1 r2 r3 : same_ring r1 r2 -> same_ring r2 r3 -> same_ring r1 r3.
Proof. intros [H1 L1] [H2 L2]. split; [|congruence]. rewrite H2, H1. done. Qed.

Lemma same_ring_repr base log r r' : same_ring r r' -> ring_repr base log r -> ring_repr base log r'.
Proof.
  intros [-> Hl] Hr. by apply with_wakeflags_repr.
Qed.

Lemma same_ring_clear i r : same_ring r (clear_wakeflag i r).
Proof. split; [done|]. apply length_insert. Qed.

Lemma broadcast_loop_frame fuel i s :
  let s' := broadcast_loop fuel i s in
  same_ring (wring s.1) (wring s'.1) /\ backlog s'.1 = backlog s.1 /\ wal s'.2 = wal s.2
  /\ policy s'.2 = policy s.2 /\ published_total s'.2 = published_total s.2
  /\ full_rejected_total s'.2 = full_rejected_total s.2.
Proof.
  revert i s. induction fuel as [|fuel IH]; intros i [w p]; [split; [apply same_ring_refl|done]|].
  cbn [broadcast_loop]. destruct (clients p !! i) as [c|]; [|split; [apply same_ring_refl|done]]. cbv zeta.
  destruct (cursor_is_unclaimed (wring w) (ccursor_idx c)).
  { specialize (IH i (w, add_dropped (set_clients (swap_remove i (clients p)) p))). exact IH. }
  cbn [take_wakeflag]. set (w1 := with_ring (clear_wakeflag (ccursor_idx c) (wring w)) w).
  assert (Hw1 : same_ring (wring w) (wring w1)) by apply same_ring_clear.
  destruct (negb _).
  { destruct (IH (S i) (w1, p)) as (Hs & Hrest). split; [by eapply same_ring_trans|exact Hrest]. }
  destruct (wake c w1) as [w2 ok] eqn:E.
  assert (Hw2 : wring w2 = wring w1 /\ backlog w2 = backlog w1).
  { unfold wake in E. by destruct (_ <=? EFD_MAX); injection E as <- _. }
  destruct Hw2 as [Hr2 Hb2]. destruct ok.
  - destruct (IH (S i) (w2, add_wakeup p)) as (Hs & Hb & Hrest). cbn [fst snd] in Hs, Hb.
    rewrite Hr2 in Hs. rewrite Hb2 in Hb. split; [by eapply same_ring_trans|]. by split.
  - destruct (IH i (w2, add_dropped (set_clients (swap_remove i (clients (add_wakeup p))) (add_wakeup p)))) as (Hs & Hb & Hrest).
    cbn [fst snd] in Hs, Hb. rewrite Hr2 in Hs. rewrite Hb2 in Hb. split; [by eapply same_ring_trans|]. by split.
Qed.

Lemma broadcast_frame s :
  let s' := broadcast_wakeup s in
  same_ring (wring s.1) (wring s'.1) /\ backlog s'.1 = backlog s.1 /\ wal s'.2 = wal s.2
  /\ policy s'.2 = policy s.2 /\ published_total s'.2 = published_total s.2
  /\ full_rejected_total s'.2 = full_rejected_total s.2.
Proof.
  unfold broadcast_wakeup. destruct (clients s.2); [|apply broadcast_loop_frame].
  split; [apply same_ring_refl|done].
Qed.

Context `{!WalLaws W WE}.

(** The ring holds [log] from position [base] on, and so does the write-ahead log, which may also hold
    what was logged before this publisher. *)
Definition pub_inv (base : Z) (log : list (list byte)) (s : st) : Prop :=
  ring_repr base log (wring s.1)
  /\ forall x, wal s.2 = Some x -> exists wbase pre, wal_logs x wbase (pre ++ log) /\ wbase + zlen pre = base.

Lemma pub_inv_pending base log s x : pub_inv base log s -> wal s.2 = Some x ->
  wb_pending_cursor x = tail (wring s.1).
Proof.
  intros [Hr Hw] Hx. destruct (Hw x Hx) as (wbase & pre & Hl & Hb).
  rewrite (wal_logs_pending _ _ _ Hl), (repr_tail _ _ _ Hr), zlen_app. lia.
Qed.

Definition data_fits (data : list byte) (s : st) : Prop := forall x, wal s.2 = Some x -> wal_fits x data.

Lemma append_wal_ok base log data s :
  pub_inv base log s -> data_fits data s -> tail (wring s.1) + 1 < two63 ->
  exists p', append_wal data s = ((s.1, p'), Ok tt) /\ policy p' = policy s.2
    /\ (wal p' = None <-> wal s.2 = None)
    /\ (forall x, wal p' = Some x -> exists wbase pre, wal_logs x wbase (pre ++ log ++ [data]) /\ wbase + zlen pre = base)
    /\ (forall d, data_fits d s -> data_fits d (s.1, p'))
    /\ clients p' = clients s.2 /\ published_total p' = published_total s.2
    /\ full_rejected_total p' = full_rejected_total s.2.
Proof.
  destruct s as [w p]. intros Hinv Hfit Hmax. unfold append_wal. cbn [fst snd] in *.
  destruct (wal p) as [x|] eqn:Ex; [|exists p; by rewrite Ex].
  pose proof (pub_inv_pending _ _ _ _ Hinv Ex) as Hpen. cbn [fst] in Hpen.
  destruct Hinv as [_ Hw]. destruct (Hw x Ex) as (wbase & pre & Hl & Hb).
  destruct (wal_append_logs x wbase (pre ++ log) data Hl (Hfit x Ex)) as (x' & E & Hl' & Hf').
  { rewrite Hpen. ulia. }
  unfold current_tail. rewrite <- Hpen, E. exists (set_wal x' p). split; [done|]. split; [done|]. split; [done|].
  split; [|split; [|done]].
  - intros y [= <-]. exists wbase, pre. split; [|done]. by rewrite app_assoc.
  - intros d Hd y [= <-]. apply Hf', Hd. exact Ex.
Qed.

Lemma ring_publish_spec base log data w p :
  ring_repr base log (wring w) -> zlen data <= slot_payload_size (wring w) -> tail (wring w) + 1 < two63 ->
  if match policy p with ErrorPolicy => is_full (wring w) | DropOldest => false end
  then ring_publish data (w, p) = ((w, p), false)
  else exists r, ring_publish data (w, p) = ((with_ring r w, p), true) /\ ring_repr base (log ++ [data]) r
         /\ tail r = tail (wring w) + 1.
Proof.
  intros Hr Hlen Hmax. pose proof (publish_step_repr _ _ _ _ Hr Hlen Hmax) as Hst.
  pose proof (wf_tail _ (repr_wf _ _ _ Hr)). unfold ring_publish. destruct (policy p).
  - rewrite try_publish_is_full by done. destruct (is_full (wring w)); [by destruct w|].
    eexists. split; [done|]. split; [done|]. cbn. apply wrap64_small. ulia.
  - eexists. split; [done|]. split; [done|]. cbn. apply wrap64_small. ulia.
Qed.

(** Whether the next publish is refused. *)
Definition refused (s : st) : bool :=
  match policy s.2 with ErrorPolicy => is_full (wring s.1) | DropOldest => false end.

Lemma publish_record_spec base log data s :
  pub_inv base log s -> data_fits data s -> tail (wring s.1) + 1 < two63 ->
  zlen data <= slot_payload_size (wring s.1) ->
  if refused s
  then exists p', publish_record data s = ((s.1, p'), Err Full) /\ pub_inv base log (s.1, p')
         /\ published_total p' = published_total s.2
         /\ full_rejected_total p' = full_rejected_total s.2 + (if wal s.2 then 0 else 1)
  else exists s', publish_record data s = (s', Ok tt) /\ pub_inv base (log ++ [data]) s'
         /\ (forall d, data_fits d s -> data_fits d s')
         /\ published_total s'.2 = published_total s.2 + 1
         /\ full_rejected_total s'.2 = full_rejected_total s.2 /\ policy s'.2 = policy s.2
         /\ backlog s'.1 = backlog s.1 /\ slot_payload_size (wring s'.1) = slot_payload_size (wring s.1)
         /\ tail (wring s'.1) = tail (wring s.1) + 1.
Proof.
  destruct s as [w p]. intros Hinv Hfit Hmax Hlen. cbn [fst snd] in *.
  destruct (append_wal_ok base log data (w, p) Hinv Hfit Hmax) as (p1 & E1 & Hpo & Hnone & Hlogs & Hfits & _ & Hpt & Hft).
  cbn [fst snd] in *. pose proof (ring_publish_spec base log data w p1 (proj1 Hinv) Hlen Hmax) as Hrp.
  rewrite Hpo in Hrp. unfold publish_record, wal_full_check, refused. cbn [fst snd].
  destruct (match policy p with ErrorPolicy => is_full (wring w) | DropOldest => false end) eqn:Hfull.
  - destruct (wal p) as [x|] eqn:Ex.
    + exists p. split; [done|]. split; [done|]. lia.
    + step_ok E1. rewrite Hrp. exists (add_full_rejected p1). split; [done|].
      assert (wal p1 = None) as Hn by by apply Hnone.
      split; [split; [apply Hinv|cbn; by rewrite Hn]|]. cbn. lia.
  - destruct Hrp as (r & E2 & Hr & Ht).
    assert (Hif : (match wal p with Some _ => false | None => false end) = false) by (by destruct (wal p)).
    rewrite Hif. step_ok E1. rewrite E2.
    pose proof (broadcast_frame (with_ring r w, add_published 1 p1)) as (Hs & Hb & Hw & Hp & Hpub & Hfr).
    eexists. split; [reflexivity|]. set (s' := broadcast_wakeup _) in *. cbn [fst snd with_ring wring backlog add_published wal policy published_total full_rejected_total] in *.
    split; [split; [by eapply same_ring_repr|by rewrite Hw]|].
    split; [intros d Hd x; rewrite Hw; apply Hfits, Hd|]. rewrite Hpub, Hfr, Hp, Hb.
    split; [lia|]. split; [lia|]. split; [done|]. split; [done|]. destruct Hs as [Hs _]. rewrite Hs. cbn.
    split; [|done]. unfold ring_publish in E2.
    destruct (policy p1); [rewrite try_publish_is_full in E2 by done; destruct (is_full (wring w)); [done|]|];
      injection E2 as <-; by rewrite write_slot_eq.
Qed.

Lemma accept_all_ok l cs : Forall (fun x => is_ok x = true) l ->
  exists new, accept_all l cs = ([], cs ++ new, Ok tt) /\ map Ok new = l.
Proof.
  intros Hl. revert cs. induction Hl as [|x l Hx _ IH]; intros cs; [exists []; by rewrite app_nil_r|].
  destruct x as [c|e]; [|done]. destruct (IH (cs ++ [c])) as (new & E & Hm). exists (c :: new). cbn.
  rewrite E, <- app_assoc. by rewrite <- Hm.
Qed.

(** A failed handshake: the clients before it are kept, the connections behind it stay in the backlog. *)
Lemma accept_clients_fails new e rest (s : st) : backlog s.1 = map Ok new ++ Err e :: rest ->
  accept_clients s = ((with_backlog rest s.1, set_clients (clients s.2 ++ new) s.2), Err (Io e)).
Proof.
  destruct s as [w p]. cbn [fst snd]. intros Hb. unfold accept_clients. rewrite Hb.
  assert (E : forall cs, accept_all (map Ok new ++ Err e :: rest) cs = (rest, cs ++ new, Err (Io e))).
  { clear. induction new as [|c new IH]; intros cs; [by rewrite app_nil_r|]. cbn [map app accept_all]. by rewrite IH, <- app_assoc. }
  by rewrite E.
Qed.

Lemma accept_clients_all new (s : st) : backlog s.1 = map Ok new ->
  accept_clients s = ((with_backlog [] s.1, set_clients (clients s.2 ++ new) s.2), Ok tt).
Proof.
  destruct s as [w p]. cbn [fst snd]. intros Hb. unfold accept_clients. rewrite Hb.
  assert (E : forall cs, accept_all (map Ok new) cs = ([], cs ++ new, Ok tt)).
  { clear. induction new as [|c new IH]; intros cs; [by rewrite app_nil_r|]. cbn [map accept_all]. by rewrite IH, <- app_assoc. }
  by rewrite E.
Qed.

(** From the log's answer on. *)
Lemma publish_record_logged base log data w p p1 :
  ring_repr base log (wring w) -> zlen data <= slot_payload_size (wring w) -> tail (wring w) + 1 < two63 ->
  refused (w, p) = false -> append_wal data (w, p) = ((w, p1), Ok tt) -> policy p1 = policy p ->
  exists s', publish_record data (w, p) = (s', Ok tt) /\ wal s'.2 = wal p1 /\ ring_repr base (log ++ [data]) (wring s'.1)
    /\ published_total s'.2 = published_total p1 + 1 /\ full_rejected_total s'.2 = full_rejected_total p1.
Proof.
  intros Hr Hlen Hmax Href E Hpo. pose proof (ring_publish_spec base log data w p1 Hr Hlen Hmax) as Hrp.
  unfold refused in Href. cbn [fst snd] in Href. rewrite Hpo, Href in Hrp. destruct Hrp as (r & E2 & Hr' & _).
  unfold publish_record, wal_full_check. cbn [fst snd]. rewrite Href.
  assert ((match wal p with Some _ => false | None => false end) = false) as -> by (by destruct (wal p)).
  step_ok E. rewrite E2. pose proof (broadcast_frame (with_ring r w, add_published 1 p1)) as (Hs & _ & Hw & _ & Hpub & Hfr).
  eexists. split; [reflexivity|]. split; [by rewrite Hw|]. split; [by eapply same_ring_repr|]. by rewrite Hpub, Hfr.
Qed.

(** C6: [publish] on every branch, on a ring and a log in step.  A message
    larger than a slot is refused and changes nothing at all.  A connection whose handshake fails ends the call: what
    was accepted before it stays connected, and ring, log and counters are as they were.  Under the [Error] policy a full ring
    refuses the message, and neither ring nor log changes; [full_rejected_total] counts that only when there is no
    write-ahead log.  When the log refuses the record, the error is returned, the ring is as it was and nothing is
    counted.  Otherwise the message is appended to the ring, and [published_total] counts it; and if it fits the log, the log takes it,
    under the same cursor, so that they stay in step. *)
Theorem publish_appends_to_ring_and_log base log data s :
  pub_inv base log s -> tail (wring s.1) + 1 < two63 ->
  if slot_payload_size (wring s.1) <? zlen data
  then publish data s = (s, Err (TooLarge (zlen data) (slot_payload_size (wring s.1))))
  else
    (forall new e rest, backlog s.1 = map Ok new ++ Err e :: rest ->
       publish data s = ((with_backlog rest s.1, set_clients (clients s.2 ++ new) s.2), Err (Io e)))
    /\ forall new, backlog s.1 = map Ok new ->
       let w0 := with_backlog [] s.1 in
       let p0 := set_clients (clients s.2 ++ new) s.2 in
       if refused s
       then exists s', publish data s = (s', Err Full) /\ wring s'.1 = wring s.1 /\ pub_inv base log s'
              /\ published_total s'.2 = published_total s.2
              /\ full_rejected_total s'.2 = full_rejected_total s.2 + (if wal s.2 then 0 else 1)
       else
         (forall x x' e, wal s.2 = Some x -> wb_append (tail (wring s.1)) (wb_current_ts x) data x = (x', Err e) ->
            publish data s = ((w0, set_wal x' p0), Err (WalError e)))
         /\ (forall x x', wal s.2 = Some x -> wb_append (tail (wring s.1)) (wb_current_ts x) data x = (x', Ok tt) ->
              exists s', publish data s = (s', Ok tt) /\ wal s'.2 = Some x' /\ ring_repr base (log ++ [data]) (wring s'.1)
                /\ published_total s'.2 = published_total s.2 + 1 /\ full_rejected_total s'.2 = full_rejected_total s.2)
         /\ (data_fits data s ->
              exists s', publish data s = (s', Ok tt) /\ pub_inv base (log ++ [data]) s'
                /\ published_total s'.2 = published_total s.2 + 1 /\ full_rejected_total s'.2 = full_rejected_total s.2).
Proof.
  intros Hinv Hmax. unfold publish.
  destruct (Z.ltb_spec (slot_payload_size (wring s.1)) (zlen data)) as [|Hlen]; [done|]. split.
  { intros new e rest Hb. unfold bind. by rewrite (accept_clients_fails _ _ _ _ Hb). }
  intros new Hb. set (w0 := with_backlog [] s.1). set (p0 := set_clients (clients s.2 ++ new) s.2). cbv zeta.
  assert (E : accept_clients s = ((w0, p0), Ok tt)).
  { apply (accept_clients_all new). exact Hb. }
  rewrite (bind_ok _ _ _ _ _ E).
  assert (Hinv0 : pub_inv base log (w0, p0)) by exact Hinv.
  pose proof (fun Hfit : data_fits data s => publish_record_spec base log data (w0, p0) Hinv0 Hfit Hmax Hlen) as Hspec.
  change (refused (w0, p0)) with (refused s) in Hspec. destruct (refused s) eqn:Href.
  - destruct (wal s.2) as [x|] eqn:Ex.
    + exists (w0, p0). unfold publish_record, wal_full_check. cbn [fst snd]. change (wal p0) with (wal s.2). rewrite Ex.
      unfold refused in Href. change (policy p0) with (policy s.2). change (wring w0) with (wring s.1). rewrite Href.
      split; [done|]. split; [done|]. split; [done|]. split; [done|]. cbn. lia.
    + destruct Hspec as (p' & E2 & Hi & H1 & H2); [intros x; by rewrite Ex|]. rewrite E2. eexists. split; [reflexivity|].
      change (wal (w0, p0).2) with (wal s.2) in H2. rewrite Ex in H2. done.
  - assert (Hnf : wal_full_check (w0, p0) = false).
    { unfold wal_full_check. cbn [fst snd]. change (wal p0) with (wal s.2). destruct (wal s.2); [exact Href|done]. }
    split; [|split].
    + intros x x' e Hx Ea. unfold publish_record. rewrite Hnf. unfold bind, append_wal. change (wal p0) with (wal s.2). rewrite Hx.
      unfold current_tail. change (wring w0) with (wring s.1). by rewrite Ea.
    + intros x x' Hx Ea. destruct (publish_record_logged base log data w0 p0 (set_wal x' p0)) as (s' & E2 & Hw & Hr & H1 & H2); try done.
      * apply Hinv.
      * unfold append_wal. change (wal p0) with (wal s.2). rewrite Hx. unfold current_tail. change (wring w0) with (wring s.1). by rewrite Ea.
      * rewrite E2. by exists s'.
    + intros Hfit. destruct (Hspec Hfit) as (s' & E2 & Hi & _ & H1 & H2 & _). rewrite E2. by exists s'.
Qed.

(** ** Batches *)

(** The reference: publish one by one, until the first refusal or error. *)
Fixpoint publish_each (items : list (list byte)) (s : st) : st * Z * option (error WE) :=
  match items with
  | [] => (s, 0, None)
  | data :: items =>
      match publish data s with
      | (s, Err e) => (s, 0, Some e)
      | (s, Ok _) => let '(s, n, e) := publish_each items s in (s, n + 1, e)
      end
  end.

(** States with the same ring contents, log and policy. *)
Definition sim (s s' : st) : Prop :=
  same_ring (wring s.1) (wring s'.1) /\ wal s'.2 = wal s.2 /\ policy s'.2 = policy s.2.

Lemma sim_refl s : sim s s.
Proof. split; [apply same_ring_refl|done]. Qed.

Lemma sim_trans s1 s2 s3 : sim s1 s2 -> sim s2 s3 -> sim s1 s3.
Proof. intros (H1 & H2 & H3) (K1 & K2 & K3). split; [by eapply same_ring_trans|]. split; congruence. Qed.

Lemma same_ring_sym r r' : same_ring r r' -> same_ring r' r.
Proof. intros [H1 H2]. split; [|done]. rewrite H1. by destruct r. Qed.

Lemma sim_sym s s' : sim s s' -> sim s' s.
Proof. intros (H1 & H2 & H3). split; [by apply same_ring_sym|done]. Qed.

Lemma sim_broadcast s : sim s (broadcast_wakeup s).
Proof. destruct (broadcast_frame s) as (H1 & _ & H2 & H3 & _). done. Qed.

Lemma same_ring_fields r r' : same_ring r r' ->
  tail r' = tail r /\ is_full r' = is_full r /\ slot_payload_size r' = slot_payload_size r.
Proof. intros [-> _]. done. Qed.

Lemma sim_full_check s s' : sim s s' -> wal_full_check s' = wal_full_check s.
Proof.
  intros (Hr & Hw & Hp). unfold wal_full_check. rewrite Hw, Hp. by destruct (same_ring_fields _ _ Hr) as (_ & -> & _).
Qed.

Lemma sim_append_wal data s s' :
  sim s s' -> sim (append_wal data s).1 (append_wal data s').1 /\ (append_wal data s').2 = (append_wal data s).2.
Proof.
  destruct s as [w p], s' as [w' p']. intros (Hr & Hw & Hp). cbn [fst snd] in *. unfold append_wal.
  rewrite Hw. unfold current_tail. destruct (same_ring_fields _ _ Hr) as (-> & _).
  destruct (wal p) as [x|] eqn:Ex; [|split; [split; [done|split; [cbn; congruence|done]]|done]].
  destruct (wb_append (tail (wring w)) (wb_current_ts x) data x) as [x' [[]|e]]; (split; [split; [done|by split]|done]).
Qed.

Lemma sim_ring_publish data s s' :
  sim s s' -> sim (ring_publish data s).1 (ring_publish data s').1 /\ (ring_publish data s').2 = (ring_publish data s).2.
Proof.
  destruct s as [[r ef bl] p], s' as [[r' ef' bl'] p']. intros ([Hr Hl] & Hw & Hp). cbn [fst snd wring] in *.
  generalize dependent (wakeflags r'). intros fl -> Hl. unfold ring_publish. rewrite Hp. cbn [wring].
  assert (Hsim : forall r1, sim (with_ring r1 (World r ef bl), p) (with_ring (with_wakeflags fl r1) (World r ef' bl'), p')
    \/ length (wakeflags r1) <> length (wakeflags r)).
  { intros r1. destruct (decide (length (wakeflags r1) = length (wakeflags r))); [left|by right].
    split; [split; [done|cbn; congruence]|done]. }
  destruct (policy p).
  - unfold try_publish. cbn [slot_payload_size with_wakeflags tail capacity cursors].
    change (min_active_cursor (with_wakeflags fl r)) with (min_active_cursor r).
    destruct (zlen data <=? slot_payload_size r).
    + destruct (capacity r <=? _); (split; [|done]).
      * by destruct (Hsim r).
      * by destruct (Hsim (with_tail (wrap64 (tail r + 1)) (write_slot (tail r) data r))).
    + split; [|done]. by destruct (Hsim r).
  - split; [|done]. by destruct (Hsim (with_tail (wrap64 (tail r + 1)) (write_slot (tail r) data r))).
Qed.

(** One item of a batch is a publish without its wakeup and its counters. *)
Lemma publish_sim data s s' :
  sim s s' -> backlog s'.1 = [] ->
  let max := slot_payload_size (wring s.1) in
  let '(s1, r) := publish data s' in
  backlog s1.1 = [] /\ published_total s1.2 = published_total s'.2 + (if r then 1 else 0)
  /\ if max <? zlen data then r = Err (TooLarge (zlen data) max) /\ sim s s1
     else if wal_full_check s then r = Err Full /\ sim s s1
     else match append_wal data s with
          | (s2, Err e) => r = Err e /\ sim s2 s1
          | (s2, Ok _) => match ring_publish data s2 with
                          | (s3, false) => r = Err Full /\ sim s3 s1
                          | (s3, true) => r = Ok tt /\ sim s3 s1
                          end
          end.
Proof.
  intros Hsim Hbl max. destruct (publish data s') as [s1 r] eqn:E. unfold publish in E.
  destruct (same_ring_fields _ _ (proj1 Hsim)) as (_ & _ & Hsz). rewrite Hsz in E. fold max in E.
  destruct (max <? zlen data); [injection E as <- <-; split; [done|split; [lia|done]]|].
  unfold bind at 1, accept_clients in E. destruct s' as [w' p']. cbn [fst snd] in *. rewrite Hbl in E. cbn [accept_all] in E.
  set (s0 := (with_backlog [] w', set_clients (clients p') p')) in E.
  assert (Hs0 : sim s s0) by done. assert (Hb0 : backlog s0.1 = []) by done.
  change (published_total p') with (published_total s0.2). clearbody s0. clear Hsim Hbl Hsz w' p'.
  unfold publish_record in E. rewrite (sim_full_check _ _ Hs0) in E.
  destruct (wal_full_check s); [injection E as <- <-; split; [done|split; [lia|done]]|].
  unfold bind at 1 in E. destruct (sim_append_wal data _ _ Hs0) as [Hs1 Hr1].
  destruct s0 as [w0 p0]. pose proof (append_wal_frame data w0 p0) as Hf1.
  destruct (append_wal data s) as [s2 r2], (append_wal data (w0, p0)) as [[w2 p2] r2']. cbn [fst snd] in Hs1, Hr1. subst r2'.
  destruct Hf1 as (-> & _ & _ & Hpt & _). destruct r2 as [[]|e]; [|injection E as <- <-; split; [done|split; [cbn; lia|done]]].
  destruct (sim_ring_publish data _ _ Hs1) as [Hs2 Hr2]. pose proof (ring_publish_frame data w0 p2) as Hf2.
  destruct (ring_publish data s2) as [s3 b], (ring_publish data (w0, p2)) as [[w3 p3] b']. cbn [fst snd] in Hs2, Hr2. subst b'.
  destruct Hf2 as (-> & _ & _ & _ & Hb3). cbn [fst snd] in Hb0. destruct b.
  - pose proof (broadcast_frame (w3, add_published 1 p2)) as (_ & Hb4 & _ & _ & Hp4 & _).
    injection E as <- <-. rewrite Hb4, Hp4. cbn. split; [congruence|]. split; [lia|]. split; [done|].
    eapply sim_trans; [exact Hs2|]. apply (sim_broadcast (w3, add_published 1 p2)).
  - injection E as <- <-. cbn. split; [congruence|]. split; [lia|done].
Qed.

Lemma append_wal_err data s s' e : append_wal data s = (s', Err e) -> exists e', e = WalError e'.
Proof.
  destruct s as [w p]. unfold append_wal. destruct (wal p) as [x|]; [|done].
  destruct (wb_append _ _ data x) as [x' [[]|e']]; [done|]. intros [= _ <-]. by eexists.
Qed.

Lemma publish_items_each items count s s' :
  sim s s' -> backlog s'.1 = [] -> 0 <= count ->
  let '(s1, n, e1) := publish_each items s' in
  let '(s2, m, e2) := publish_items items count s in
  m = count + n /\ 0 <= n /\ sim s2 s1 /\ e2 = match e1 with Some Full => None | e => e end
  /\ published_total s2.2 = published_total s.2 /\ published_total s1.2 = published_total s'.2 + n.
Proof.
  revert count s s'. induction items as [|data items IH]; intros count s s' Hsim Hbl Hc; cbn [publish_each publish_items].
  { repeat split; try lia; apply Hsim. }
  pose proof (publish_sim data s s' Hsim Hbl) as Hp. cbv zeta in Hp |- *.
  destruct (publish data s') as [s1 r]. destruct Hp as (Hb1 & Hpt1 & Hp).
  assert (Hq : forall (c : bool) x, sim x s1 -> sim (if c then broadcast_wakeup x else x) s1
                 /\ published_total (if c then broadcast_wakeup x else x).2 = published_total x.2).
  { intros [] x Hx; [|done]. split; [eapply sim_trans; [apply sim_sym, sim_broadcast|done]|]. apply broadcast_frame. }
  destruct (slot_payload_size (wring s.1) <? zlen data).
  { destruct Hp as [-> Hs]. destruct (Hq (0 <? count) s Hs) as [Hs' Hpt]. repeat (split; [lia || done|]). lia. }
  destruct (wal_full_check s); [destruct Hp as [-> Hs]; repeat (split; [lia || done|]); lia|].
  destruct s as [w p]. pose proof (append_wal_frame data w p) as Hf1.
  destruct (append_wal data (w, p)) as [[w2 p2] [[]|e]] eqn:Ea; destruct Hf1 as (-> & _ & _ & Hpt2 & _).
  2:{ apply append_wal_err in Ea as [e' ->]. destruct Hp as [-> Hs]. destruct (Hq (0 <? count) (w, p2) Hs) as [Hs' Hpt].
      cbn [snd] in *. split; [lia|]. split; [lia|]. split; [done|]. split; [done|]. split; [etrans; [exact Hpt|exact Hpt2]|lia]. }
  pose proof (ring_publish_frame data w p2) as Hf2.
  destruct (ring_publish data (w, p2)) as [[w3 p3] [|]]; destruct Hf2 as (-> & _); destruct Hp as [-> Hs].
  - specialize (IH (count + 1) (w3, p2) s1 Hs Hb1 ltac:(lia)).
    destruct (publish_each items s1) as [[s4 n] e1], (publish_items items (count + 1) (w3, p2)) as [[s5 m] e2].
    destruct IH as (-> & Hn & Hs5 & He & H1 & H2). cbn [snd] in *. split; [lia|]. split; [lia|]. split; [done|]. split; [done|].
    split; [congruence|lia].
  - cbn [snd] in *. repeat (split; [lia || done|]). lia.
Qed.

(** C26: [publish_many] is [publish] in a loop.  With no connection waiting, a batch leaves the ring, the log
    and the policy as publishing its messages one by one until the first refusal or error would; it
    reports how many went in, a full ring ends the batch quietly, and any other error is returned.  Only
    [published_total] can tell the two apart: messages that precede an error are not counted. *)
Theorem publish_many_is_publish_each items s :
  backlog s.1 = [] ->
  let '(s1, n, e) := publish_each items s in
  let '(s2, r) := publish_many items s in
  sim s2 s1 /\ published_total s1.2 = published_total s.2 + n
  /\ match e with
     | None | Some Full => r = Ok n /\ published_total s2.2 = published_total s.2 + n
     | Some e => r = Err e /\ published_total s2.2 = published_total s.2
     end.
Proof.
  destruct s as [w p]. intros Hbl. cbn [fst] in Hbl. unfold publish_many, bind at 1, accept_clients. rewrite Hbl.
  cbn [accept_all]. set (s0 := (with_backlog [] w, set_clients (clients p) p)).
  pose proof (publish_items_each items 0 s0 (w, p) ltac:(split; [apply same_ring_refl|done]) Hbl ltac:(lia)) as Hi.
  destruct (publish_each items (w, p)) as [[s1 n] e], (publish_items items 0 s0) as [[[w2 p2] m] e2].
  destruct Hi as (-> & Hn & Hs & -> & H2 & H1).
  assert (Hok : let s2 := if 0 <? 0 + n then broadcast_wakeup (w2, add_published (0 + n) p2) else (w2, p2) in
    sim s2 s1 /\ published_total s2.2 = published_total p + n).
  { cbv zeta. change (published_total s0.2) with (published_total p) in H2. cbn [snd] in H2.
    destruct (Z.ltb_spec 0 (0 + n)); [|split; [done|cbn; lia]].
    destruct (broadcast_frame (w2, add_published (0 + n) p2)) as (_ & _ & _ & _ & -> & _). split; [|cbn; lia].
    eapply sim_trans; [apply sim_sym, sim_broadcast|]. exact Hs. }
  destruct e as [[]|]; (split; [first [exact Hs | apply Hok] | split; [exact H1|]]);
    (split; [done || (f_equal; lia)|first [exact H2 | apply Hok]]).
Qed.

(** ** Starting *)

Lemma create_or_reuse_wf f cap sps subs :
  file_wf f -> 0 < cap < two32 -> 0 <= sps < two32 -> 0 <= subs < two32 ->
  ring_wf (create_or_reuse f cap sps subs) /\ tail (create_or_reuse f cap sps subs) = 0.
Proof.
  intros Hf Hc Hs Hb. pose proof (create_wf cap sps subs Hc Hs Hb) as Hcw.
  unfold create_or_reuse. destruct f as [|m|r]; [done|done|]. cbn [open].
  destruct (_ && _); [|done]. split; [|done]. destruct Hf. constructor; try done; cbn; apply wrap64_u64.
Qed.

(** C30: restarting.  Whatever ring file is found, a publisher starts with its ring and its log in step, the
    next message going to the log's pending cursor in both (to zero without a log). *)
Theorem create_follows_the_log f cf w :
  file_wf f -> 0 < bcapacity cf < two32 -> 0 <= slot_size cf < two32 -> 0 <= bmax_subscribers cf < two32 ->
  (forall x, w = Some x -> exists base hist, wal_logs x base hist /\ 0 <= base /\ base + zlen hist < two63) ->
  pub_inv (match w with Some x => wb_pending_cursor x | None => 0 end) [] (create f cf w).
Proof.
  intros Hf Hc Hs Hb Hw. destruct (create_or_reuse_wf f (bcapacity cf) (slot_size cf) (bmax_subscribers cf) Hf Hc Hs Hb) as [Hwf Ht].
  unfold create, pub_inv, create_ring. cbn [fst snd wring wal]. destruct w as [x|].
  - destruct (Hw x eq_refl) as (base & hist & Hl & Hb0 & Hmax). pose proof (wal_logs_pending _ _ _ Hl) as Hp.
    pose proof (zlen_nonneg hist). split.
    + unfold current_tail. rewrite Ht. destruct (Z.ltb_spec 0 (wb_pending_cursor x)).
      * apply (repr_from_here (set_tail (wb_pending_cursor x) _)); [|cbn; lia]. apply with_tail_wf; [done|ulia].
      * replace (wb_pending_cursor x) with (tail (create_or_reuse f (bcapacity cf) (slot_size cf) (bmax_subscribers cf))) by lia.
        apply repr_from_here; [done|rewrite Ht; ulia].
    + intros y [= <-]. exists base, hist. rewrite app_nil_r. split; [exact Hl|lia].
  - split; [|done]. rewrite <- Ht. apply repr_from_here; [done|rewrite Ht; ulia].
Qed.
End publisher.

(** ** Concrete runs *)

Section demo.
#[local] Existing Instance sum_crc.

Definition demo_bus : bus_config := BusConfig 4 2 default_base_dir 2 DropOldest (demo_cfg NoFsync).

Definition fresh : st (W := WalV1.st) := create NoRingFile demo_bus (Some (Disk [] [], empty_wal NoFsync)).

(** A subscriber claims a slot and connects with eventfd [fd]. *)
Definition connect (fd : nat) (s : st (W := WalV1.st)) : st (W := WalV1.st) :=
  match claim_cursor (tail (wring s.1)) (wring s.1) with
  | (r, Some i) => (with_backlog (backlog s.1 ++ [Ok (Client i fd)]) (with_ring r s.1), s.2)
  | (_, None) => s
  end.

Lemma fresh_logs : v1_logs (Disk [] [], empty_wal NoFsync) 0 [].
Proof. exists [], None, []. split; [apply empty_wal_inv|]. repeat split. Qed.

Lemma create_follows_the_log_witness :
  let next := wb_pending_cursor (Disk [] [], empty_wal NoFsync) in next = 0 /\ pub_inv next [] fresh.
Proof.
  split; [vm_compute; reflexivity|].
  apply (create_follows_the_log NoRingFile demo_bus (Some (Disk [] [], empty_wal NoFsync))).
  - done.
  - split; vm_compute; congruence.
  - split; vm_compute; congruence.
  - split; vm_compute; congruence.
  - intros x [= <-]. exists 0, []. split; [exact fresh_logs|]. split; vm_compute; congruence.
Defined.

Lemma publish_appends_to_ring_and_log_witness :
  exists s', publish [Byte.x01] (connect 7 fresh) = (s', Ok tt) /\ pub_inv 0 [[Byte.x01]] s'
    /\ published_total s'.2 = 1 /\ full_rejected_total s'.2 = 0.
Proof.
  destruct (publish_appends_to_ring_and_log 0 [] [Byte.x01] (connect 7 fresh)) as [_ H].
  - split.
    + change (ring_repr 0 [] (clear_wakeflag 0 (set_cursor 0 0 (Ring.create 2 4 2)))).
      apply (repr_from_here (clear_wakeflag 0 (set_cursor 0 0 (Ring.create 2 4 2)))); [|by vm_compute].
      apply with_wakeflag_wf, set_cursor_wf; [apply create_wf|]; split; vm_compute; congruence.
    + intros x [= <-]. exists 0, []. split; [exact fresh_logs|done].
  - vm_compute. congruence.
  - destruct (H [Client 0 7] eq_refl) as (_ & _ & H3). apply H3. intros x [= <-]. split; vm_compute; congruence.
Defined.

Lemma publish_many_is_publish_each_witness :
  let '(s1, n, e) := publish_each [[Byte.x01]; [Byte.x02]] fresh in
  let '(s2, r) := publish_many [[Byte.x01]; [Byte.x02]] fresh in
  sim s2 s1 /\ published_total s1.2 = published_total (fresh).2 + n
  /\ match e with
     | None | Some Full => r = Ok n /\ published_total s2.2 = published_total (fresh).2 + n
     | Some e => r = Err e /\ published_total s2.2 = published_total (fresh).2
     end.
Proof. apply (publish_many_is_publish_each _ fresh). reflexivity. Defined.

(** Two sleeping clients in two slots. *)
Definition two_asleep : st (W := WalV1.st) :=
  (with_ring (set_wakeflag 1 (set_wakeflag 0 (wring (connect 8 (connect 7 fresh)).1))) (connect 8 (connect 7 fresh)).1,
   set_clients [Client 0 7; Client 1 8] (fresh).2).

Lemma broadcast_wakes_each_sleeper_once_witness :
  exists w' p', broadcast_wakeup two_asleep = (w', p') /\ wakes (two_asleep).1 (clients (two_asleep).2) w'
    /\ bookkeeping (two_asleep).1 [] (clients (two_asleep).2) (two_asleep).2 p'
    /\ efd_count w' 7 = 1 /\ efd_count w' 8 = 1.
Proof.
  assert (Hok : clients_ok (two_asleep).1 (clients (two_asleep).2)).
  { constructor.
    - by apply (bool_decide_unpack _).
    - by apply (bool_decide_unpack _).
    - by apply (bool_decide_unpack _).
    - by apply (bool_decide_unpack _). }
  destruct (broadcast_wakes_each_sleeper_once (two_asleep).1 (two_asleep).2 Hok) as (w' & p' & E & Hw & Hb).
  exists w', p'. split; [exact E|]. split; [exact Hw|]. split; [exact Hb|].
  rewrite !(wk_efd _ _ _ Hw). split; vm_compute; reflexivity.
Defined.

(** [A] connects, reads nothing, and dies after the first message; [B] takes its slot before the publisher
    has looked again. *)
Definition reconnected : st (W := WalV1.st) :=
  let s := (publish [Byte.x01] (connect 7 fresh)).1 in
  let s := (with_ring (release_cursor 0 (wring s.1)) s.1, s.2) in
  (publish [Byte.x02] (connect 8 s)).1.

Lemma reconnected_subscriber_is_never_woken_witness :
  efd_count (foldl (fun s o => bus_apply o s) reconnected
    [BSleep 0; BPublish [Byte.x03]; BSleep 0; BPublish [Byte.x04]]).1 8 = 0.
Proof.
  rewrite (reconnected_subscriber_is_never_woken (Client 0 7) (Client 0 8)).
  - vm_compute. reflexivity.
  - reflexivity.
  - discriminate.
  - constructor; vm_compute; congruence || lia.
Defined.
End demo.
