(* ===== verification/Subscriber.v ===== *)
(** * The subscriber ([crates/mmbus/src/subscriber.rs], [crates/mmbus/src/subscription.rs])

    Connecting, the blocking, timed, polling and slice-target reads, the hand-over from WAL replay to the
    live ring, and the wait for a wakeup, on Linux: an eventfd and the handshake socket.  Calls that block
    take the list of what the rest of the system does while they are asleep, one entry per turn. *)

From Stdlib Require Import ZArith Lia Strings.Byte.
From stdpp Require Import base option strings gmap list.
From S2P Require Import Prelude OrdMap Chain Record Disk WalV1 WalRecovery Config Stats WalApi Ring.

(** What the subscriber shares with the publisher: the mapped ring, the counter of its own eventfd, whether
    the handshake socket reports [POLLHUP] or [POLLERR], and the topic's directory. *)
Record env (D : Type) := Env {
  sring : ring;
  sefd : Z;
  shup : bool;
  sdisk : D
}.
Arguments Env {D}.
Arguments sring {D}.
Arguments sefd {D}.
Arguments shup {D}.
Arguments sdisk {D}.

Record subscriber (R : Type) := Subscriber_ {
  cursor : Z;
  cursor_idx : nat;
  sgeneration : Z;
  wal_replay : option R
}.
Arguments Subscriber_ {R}.
Arguments cursor {R}.
Arguments cursor_idx {R}.
Arguments sgeneration {R}.
Arguments wal_replay {R}.

Inductive start_pos := Now | HistoryBack (n : Z) | Explicit (c : Z).

(** How a blocking call ended: it returned, it is still asleep when the turns are used up, or it is still
    running when the fuel is. *)
Inductive outcome (A : Type) := Done (a : A) | Asleep | Running.
Arguments Done {A} a.
Arguments Asleep {A}.
Arguments Running {A}.

Section subscriber.
Context {D Ix R RE : Type} `{!ReplayBackend D Ix R RE}.

Definition st : Type := env D * subscriber R.

Definition with_sring (r : ring) (e : env D) : env D := Env r (sefd e) (shup e) (sdisk e).
Definition with_sefd (n : Z) (e : env D) : env D := Env (sring e) n (shup e) (sdisk e).
Definition with_sdisk (d : D) (e : env D) : env D := Env (sring e) (sefd e) (shup e) d.

Definition set_pos (c : Z) (s : subscriber R) : subscriber R :=
  Subscriber_ c (cursor_idx s) (sgeneration s) (wal_replay s).
Definition set_replay (r : option R) (s : subscriber R) : subscriber R :=
  Subscriber_ (cursor s) (cursor_idx s) (sgeneration s) r.

(** ** The record source behind every read *)

Definition next_wal_record : M st (error RE) (option (list byte)) := fun '(e, s) =>
  match wal_replay s with
  | None => ((e, s), Ok None)
  | Some r =>
      let '(d, r, x) := rb_next r (sdisk e) in
      let e := with_sdisk d e in
      match x with
      | Some (Ok (c, payload)) =>
          ((e, set_replay (Some r) (set_pos (wrap64 (c + 1)) s)), Ok (Some payload))
      | Some (Err err) => ((e, set_replay None s), Err (WalError err))
      | None => ((with_sring (set_cursor (cursor_idx s) (cursor s) (sring e)) e, set_replay None s), Ok None)
      end
  end.

(** The ring read: the state, the caller's buffer, and whether it was filled. *)
Definition ring_receive (out : list byte) (s : st) : st * list byte * bool :=
  let '(e, s) := s in
  match try_receive (cursor_idx s) (cursor s) out (sring e) with
  | (r, out, Some c) => ((with_sring r e, set_pos c s), out, true)
  | (r, out, None) => ((with_sring r e, s), out, false)
  end.

(** ** Sleeping *)

(** [poll]: [POLLHUP] is looked at before the eventfd's [POLLIN]. *)
Definition poll_ready (e : env D) : option (result io_error unit) :=
  if shup e then Some (Err UnexpectedEof) else if 0 <? sefd e then Some (Ok tt) else None.

(** [poll_wakeup] with the rest of the system's turns; a timed call times out when they are used up. *)
Fixpoint poll_wakeup (forever : bool) (turns : list (env D -> env D)) (e : env D) :
    env D * list (env D -> env D) * outcome (result io_error unit) :=
  match poll_ready e with
  | Some r => (e, turns, Done r)
  | None =>
      match turns with
      | [] => (e, [], if forever then Asleep else Done (Err WouldBlock))
      | turn :: turns => poll_wakeup forever turns (turn e)
      end
  end.

(** A semaphore-mode eventfd: a read takes one unit. *)
Definition eventfd_drain (e : env D) : env D * result io_error Z :=
  if 0 <? sefd e then (with_sefd (sefd e - 1) e, Ok 1) else (e, Err WouldBlock).

Definition wait_wakeup (forever : bool) (turns : list (env D -> env D)) (s : st) :
    st * list (env D -> env D) * outcome (result io_error unit) :=
  let '(e, s) := s in
  match poll_wakeup forever turns e with
  | (e, turns, Done (Ok _)) =>
      match eventfd_drain e with
      | (e, Ok _) =>
          ((e, s), turns, Done (if generation (sring e) =? sgeneration s then Ok tt else Err UnexpectedEof))
      | (e, Err err) => ((e, s), turns, Done (Err err))
      end
  | (e, turns, Done (Err err)) => ((e, s), turns, Done (Err err))
  | (e, turns, x) => ((e, s), turns, x)
  end.

Definition clear_flag (s : st) : st := (with_sring (clear_wakeflag (cursor_idx s.2) (sring s.1)) s.1, s.2).
Definition set_flag (s : st) : st := (with_sring (set_wakeflag (cursor_idx s.2) (sring s.1)) s.1, s.2).

Definition wait_readable (forever : bool) (turns : list (env D -> env D)) (s : st) :
    st * list (env D -> env D) * outcome (result (error RE) bool) :=
  let s := set_flag s in
  if cursor s.2 <? current_tail (sring s.1) then (clear_flag s, turns, Done (Ok true))
  else
    match wait_wakeup forever turns s with
    | (s, turns, Done r) =>
        (clear_flag s, turns,
         Done match r with
              | Ok _ => Ok true
              | Err WouldBlock | Err TimedOut => Ok false
              | Err err => Err (Io err)
              end)
    | (s, turns, Asleep) => (s, turns, Asleep)
    | (s, turns, Running) => (s, turns, Running)
    end.

Definition arm_wakeup (s : st) : st * bool :=
  let s := set_flag s in
  if cursor s.2 <? current_tail (sring s.1) then (clear_flag s, true) else (s, false).

(** ** Blocking reads *)

(** The loop of [receive_into]; [fuel] bounds its iterations. *)
Fixpoint receive_ring (fuel : nat) (turns : list (env D -> env D)) (out : list byte) (s : st) :
    st * list byte * outcome (result (error RE) unit) :=
  match fuel with
  | O => (s, out, Running)
  | S fuel =>
      match ring_receive out s with
      | (s, out, true) => (s, out, Done (Ok tt))
      | (s, out, false) =>
          match wait_readable true turns s with
          | (s, turns, Done (Ok _)) => receive_ring fuel turns out s
          | (s, _, Done (Err err)) => (s, out, Done (Err err))
          | (s, _, Asleep) => (s, out, Asleep)
          | (s, _, Running) => (s, out, Running)
          end
      end
  end.

Definition receive_into (fuel : nat) (turns : list (env D -> env D)) (s : st) :
    st * list byte * outcome (result (error RE) unit) :=
  match next_wal_record s with
  | (s, Err err) => (s, [], Done (Err err))
  | (s, Ok (Some payload)) => (s, payload, Done (Ok tt))
  | (s, Ok None) => receive_ring fuel turns [] s
  end.

Definition receive (fuel : nat) (turns : list (env D -> env D)) (s : st) :
    st * outcome (result (error RE) (list byte)) :=
  match receive_into fuel turns s with
  | (s, out, Done (Ok _)) => (s, Done (Ok out))
  | (s, _, Done (Err err)) => (s, Done (Err err))
  | (s, _, Asleep) => (s, Asleep)
  | (s, _, Running) => (s, Running)
  end.

(** The loop of [receive_timeout_into]: each wait comes with the turns that pass until it ends; no more
    waits means that the deadline has passed. *)
Fixpoint receive_ring_timeout (waits : list (list (env D -> env D))) (out : list byte) (s : st) :
    st * list byte * result (error RE) bool :=
  match ring_receive out s with
  | (s, out, true) => (s, out, Ok true)
  | (s, out, false) =>
      match waits with
      | [] => (s, out, Ok false)
      | turns :: waits =>
          match wait_readable false turns s with
          | (s, _, Done (Ok true)) => receive_ring_timeout waits out s
          | (s, _, Done (Err err)) => (s, out, Err err)
          | (s, _, _) => (s, out, Ok false)
          end
      end
  end.

Definition receive_timeout_into (waits : list (list (env D -> env D))) (s : st) :
    st * list byte * result (error RE) bool :=
  match next_wal_record s with
  | (s, Err err) => (s, [], Err err)
  | (s, Ok (Some payload)) => (s, payload, Ok true)
  | (s, Ok None) => receive_ring_timeout waits [] s
  end.

Definition receive_timeout (waits : list (list (env D -> env D))) (s : st) :
    st * result (error RE) (option (list byte)) :=
  match receive_timeout_into waits s with
  | (s, out, Ok true) => (s, Ok (Some out))
  | (s, _, Ok false) => (s, Ok None)
  | (s, _, Err err) => (s, Err err)
  end.

(** ** Polling reads *)

(** [if let Ok(Some(payload)) = self.next_wal_record()]: an error falls through to the ring. *)
Definition try_receive_into (s : st) : st * list byte * bool :=
  match next_wal_record s with
  | (s, Ok (Some payload)) => (s, payload, true)
  | (s, _) => ring_receive [] s
  end.

Definition try_receive (s : st) : st * option (list byte) :=
  match try_receive_into s with
  | (s, out, true) => (s, Some out)
  | (s, _, false) => (s, None)
  end.

Definition sub_try_receive_into_slice (out : list byte) (s : st) : st * list byte * option slice_len :=
  let '(e, s) := s in
  match try_receive_into_slice (cursor_idx s) (cursor s) out (sring e) with
  | (r, out, Some (c, n)) => ((with_sring r e, set_pos c s), out, Some n)
  | (r, out, None) => ((with_sring r e, s), out, None)
  end.

Definition try_receive_one_into_slice (out : list byte) (s : st) : st * list byte * result (error RE) (option Z) :=
  match next_wal_record s with
  | (s, Err err) => (s, out, Err err)
  | (s, Ok (Some payload)) =>
      if zlen out <? zlen payload then (s, out, Err (TooLarge (zlen payload) (zlen out)))
      else (s, zsplice 0 payload out, Ok (Some (zlen payload)))
  | (s, Ok None) =>
      match sub_try_receive_into_slice out s with
      | (s, out, Some SliceOversize) => (s, out, Err (TooLarge (slot_payload_size (sring s.1)) (zlen out)))
      | (s, out, Some (SliceLen n)) => (s, out, Ok (Some n))
      | (s, out, None) => (s, out, Ok None)
      end
  end.

(** ** Event-loop callbacks *)

Definition try_drain_wakeup (s : st) : st * result io_error bool :=
  match eventfd_drain s.1 with
  | (e, Ok _) => ((e, s.2), Ok true)
  | (e, Err WouldBlock) => ((e, s.2), Ok false)
  | (e, Err err) => ((e, s.2), Err err)
  end.

Definition drain_wakeup : M st (error RE) bool := fun s =>
  let '(s, r) := try_drain_wakeup s in (s, map_err Io r).

Definition poll_recv (s : st) : st * result (error RE) (option (list byte)) :=
  match next_wal_record s with
  | (s, Err err) => (s, Err err)
  | (s, Ok (Some payload)) => (s, Ok (Some payload))
  | (s, Ok None) =>
      match try_drain_wakeup s with
      | (s, Err err) => (s, Err (Io err))
      | (s, Ok false) => (s, Ok None)
      | (s, Ok true) =>
          if negb (generation (sring s.1) =? sgeneration s.2) then (s, Err (Io UnexpectedEof))
          else let '(s, x) := try_receive s in (s, Ok x)
      end
  end.

Definition lag (s : st) : Z := saturating_sub (current_tail (sring s.1)) (cursor s.2).

(** [Subscription::next]: a disconnect ends the iteration. *)
Definition subscription_next (fuel : nat) (turns : list (env D -> env D)) (s : st) :
    st * outcome (option (result (error RE) (list byte))) :=
  match receive fuel turns s with
  | (s, Done (Ok msg)) => (s, Done (Some (Ok msg)))
  | (s, Done (Err (Io UnexpectedEof))) => (s, Done None)
  | (s, Done (Err err)) => (s, Done (Some (Err err)))
  | (s, Asleep) => (s, Asleep)
  | (s, Running) => (s, Running)
  end.

(** ** Connecting *)

(** A retry loop: each attempt comes with its outcome and whether the deadline is still ahead. *)
Fixpoint retry (attempts : list (bool * bool)) : bool :=
  match attempts with
  | [] => false
  | (true, _) :: _ => true
  | (false, before_deadline) :: attempts => if before_deadline then retry attempts else false
  end.

(** Where reading starts, given the tail after the handshake; [None] stands for the early returns of the
    [Explicit] branch. *)
Definition start_cursor (start : start_pos) (tail : Z) (e : env D) : result (error RE) (Z * option R) :=
  match start with
  | Now => Ok (tail, None)
  | HistoryBack n => Ok (saturating_sub tail n, None)
  | Explicit c =>
      let ring_oldest := saturating_sub tail (capacity (sring e)) in
      if ring_oldest <=? c then Ok (c, None)
      else
        let wal_reader :=
          match rb_open (sdisk e) with
          | Some ix => match rb_oldest ix with Some _ => Some ix | None => None end
          | None => None
          end in
        match wal_reader with
        | Some ix =>
            match rb_read_from ix c with
            | Ok r => Ok (c, Some r)
            | Err err =>
                match rb_too_old err with
                | Some (requested, oldest) => Err (CursorTooOld requested oldest)
                | None => Err (WalError err)
                end
            end
        | None => Err (CursorTooOld c ring_oldest)
        end
  end.

Definition release (idx : nat) (e : env D) : env D := with_sring (release_cursor idx (sring e)) e.

(** [connect_with] once the slot [idx] is claimed: eventfd, socket, handshake, and the start position.
    [meanwhile] is what the rest of the system does until the handshake has completed. *)
Definition connect_claimed (name : string) (start : start_pos) (idx : nat) (efd : result io_error unit)
    (sock_attempts : list (bool * bool)) (sent : result io_error unit) (meanwhile : env D -> env D) :
    M (env D) (error RE) (subscriber R) := fun e =>
  match efd with
  | Err err => (release idx e, Err (Io err))
  | Ok _ =>
      let e := with_sefd 0 e in
      if negb (retry sock_attempts) then (release idx e, Err (Timeout name))
      else
        match sent with
        | Err err => (release idx e, Err (Io err))
        | Ok _ =>
            let e := meanwhile e in
            let tail := current_tail (sring e) in
            match start_cursor start tail e with
            | Err err => (release idx e, Err err)
            | Ok (c, replay) =>
                let live_cursor := if replay then tail else c in
                let e := with_sring (set_cursor idx live_cursor (sring e)) e in
                (e, Ok (Subscriber_ c idx (generation (sring e)) replay))
            end
        end
  end.

Definition connect_with (name : string) (start : start_pos) (open_attempts : list (bool * bool))
    (efd : result io_error unit) (sock_attempts : list (bool * bool)) (sent : result io_error unit)
    (meanwhile : env D -> env D) : M (env D) (error RE) (subscriber R) := fun e =>
  if negb (retry open_attempts) then (e, Err (Timeout name))
  else
    match claim_cursor (current_tail (sring e)) (sring e) with
    | (r, None) => (with_sring r e, Err (TooManySubscribers (max_subscribers r)))
    | (r, Some idx) => connect_claimed name start idx efd sock_attempts sent meanwhile (with_sring r e)
    end.

(** [Drop] *)
Definition drop (s : st) : env D := release (cursor_idx s.2) s.1.

(** ** Reading the log: from the replay into the ring *)

Context `{!ReplayLaws D Ix R RE}.

(** [full] is everything ever published, from cursor [wb] on.  The subscriber is fed when its replayer
    still has the messages from its position up to one the ring holds, or, without a replayer, when the
    ring holds its position. *)
Record feeds_at (wb : Z) (full : list (list byte)) (base next : Z) (s : st) : Prop := {
  fd_wb : 0 <= wb <= base /\ base <= wb + zlen full;
  fd_ring : ring_repr base (zdrop (base - wb) full) (sring s.1);
  fd_pos : wb <= cursor s.2 <= tail (sring s.1);
  fd_replay : match wal_replay s.2 with
              | None => next = cursor s.2
              | Some r => exists hist, rl_replays (sdisk s.1) r (cursor s.2) hist
                  /\ hist `prefix_of` zdrop (cursor s.2 - wb) full /\ next = cursor s.2 + zlen hist
              end;
  fd_base : base <= next;
  fd_window : tail (sring s.1) - capacity (sring s.1) <= next
}.

Definition feeds (wb : Z) (full : list (list byte)) (s : st) : Prop :=
  exists base next, feeds_at wb full base next s.

Lemma feeds_tail wb full base next s : feeds_at wb full base next s -> tail (sring s.1) = wb + zlen full.
Proof.
  intros [Hwb Hr _ _ _ _]. rewrite (repr_tail _ _ _ Hr), zlen_zdrop by lia. lia.
Qed.

Lemma log_at_zdrop wb full base p :
  wb <= base -> base <= p -> log_at base (zdrop (base - wb) full) p = log_at wb full p.
Proof.
  intros. unfold log_at. destruct (Z.ltb_spec p base), (Z.ltb_spec p wb); try lia.
  unfold zdrop. rewrite lookup_drop. f_equal. lia.
Qed.

Lemma log_at_zdrop_cons wb full p d : log_at wb full p = Some d -> zdrop (p - wb) full = d :: zdrop (p - wb + 1) full.
Proof.
  unfold log_at. destruct (Z.ltb_spec p wb); [done|]. intros Hd. unfold zdrop.
  replace (Z.to_nat (p - wb + 1)) with (S (Z.to_nat (p - wb))) by lia. by apply drop_S.
Qed.

(** The state after the message at the position has been taken. *)
Definition advanced (wb : Z) (full : list (list byte)) (d : list byte) (s s' : st) : Prop :=
  log_at wb full (cursor s.2) = Some d /\ feeds wb full s' /\ cursor s'.2 = cursor s.2 + 1
  /\ tail (sring s'.1) = tail (sring s.1) /\ sgeneration s'.2 = sgeneration s.2
  /\ generation (sring s'.1) = generation (sring s.1).

(** From the ring. *)
Lemma feeds_ring_receive wb full base out e s :
  feeds_at wb full base (cursor s) (e, s) -> wal_replay s = None ->
  if cursor s <? tail (sring e)
  then exists s' d, ring_receive out (e, s) = (s', d, true) /\ advanced wb full d (e, s) s'
  else ring_receive out (e, s) = ((e, s), out, false).
Proof.
  intros [Hwb Hr Hpos _ Hb Hwin] Hn. cbn [fst snd] in *. unfold ring_receive.
  pose proof (repr_bound _ _ _ Hr). pose proof (repr_base _ _ _ Hr).
  destruct (try_receive_log _ _ _ (cursor_idx s) (cursor s) out Hr Hb) as (Hempty & Hin & _).
  destruct (Z.ltb_spec (cursor s) (tail (sring e))).
  - destruct (Hin ltac:(lia)) as (d & Hd & E). rewrite E. eexists _, d. split; [reflexivity|].
    rewrite log_at_zdrop in Hd by lia. split; [done|]. split; [|done]. exists base, (cursor s + 1).
    constructor; cbn [fst snd sring sdisk cursor set_pos with_sring wal_replay]; try done; try lia.
    + apply set_cursor_repr; [done|ulia].
    + cbn. lia.
    + by rewrite Hn.
    + cbn. lia.
  - rewrite Hempty by lia. by destruct e.
Qed.

(** From the replayer, or by way of its promotion to the ring. *)
Lemma feeds_source wb full s :
  feeds wb full s -> cursor s.2 < tail (sring s.1) ->
  (exists s' d, next_wal_record s = (s', Ok (Some d)) /\ advanced wb full d s s')
  \/ exists s1, next_wal_record s = (s1, Ok None)
       /\ forall out, exists s' d, ring_receive out s1 = (s', d, true) /\ advanced wb full d s s'.
Proof.
  destruct s as [e s]. intros (base & next & Hf) Hlt. cbn [fst snd] in *. unfold next_wal_record.
  pose proof (feeds_tail _ _ _ _ _ Hf) as Ht. cbn [fst snd] in Ht.
  pose proof (repr_bound _ _ _ (fd_ring _ _ _ _ _ Hf)) as Hbd. pose proof (repr_base _ _ _ (fd_ring _ _ _ _ _ Hf)) as Hb0.
  pose proof (fd_replay _ _ _ _ _ Hf) as Hrep. pose proof (fd_pos _ _ _ _ _ Hf) as Hpos. cbn [fst snd] in Hrep, Hpos.
  destruct (wal_replay s) as [r|] eqn:Er.
  2:{ right. exists (e, s). split; [done|]. intros out. subst next.
      pose proof (feeds_ring_receive wb full base out e s Hf Er) as Hrr. by rewrite (proj2 (Z.ltb_lt _ _) Hlt) in Hrr. }
  destruct Hrep as (hist & Hrl & Hpre & ->). destruct (rl_next _ _ _ _ Hrl) as (d' & r' & E & Hnext). rewrite E.
  destruct Hf as [Hwb Hr _ _ Hb Hwin]. cbn [fst snd] in *. destruct hist as [|x h].
  - right. eexists. split; [reflexivity|]. intros out. rewrite zlen_nil, Z.add_0_r in *.
    set (e1 := with_sring (set_cursor (cursor_idx s) (cursor s) (sring e)) (with_sdisk d' e)).
    assert (Hf1 : feeds_at wb full base (cursor (set_replay None s)) (e1, set_replay None s)).
    { constructor; cbn; try done. apply set_cursor_repr; [done|ulia]. }
    pose proof (feeds_ring_receive wb full base out _ _ Hf1 eq_refl) as Hrr.
    change (cursor (set_replay None s) <? tail (sring e1)) with (cursor s <? tail (sring e)) in Hrr.
    by rewrite (proj2 (Z.ltb_lt _ _) Hlt) in Hrr.
  - left. destruct Hpre as [rest Hrest]. rewrite wrap64_small by ulia.
    eexists _, x. split; [reflexivity|]. rewrite zlen_cons in *. pose proof (zlen_nonneg h).
    assert (Hd : zdrop (cursor s + 1 - wb) full = h ++ rest).
    { replace (cursor s + 1 - wb) with (cursor s - wb + 1) by lia.
      rewrite <- zdrop_zdrop by lia. by rewrite Hrest. }
    split; [|split; [|done]].
    + unfold log_at. cbn [fst snd]. destruct (Z.ltb_spec (cursor s) wb); [lia|].
      apply (f_equal (lookup 0%nat)) in Hrest. unfold zdrop in Hrest. rewrite lookup_drop in Hrest.
      etrans; [|exact Hrest]. f_equal. lia.
    + exists base, (cursor s + 1 + zlen h). constructor; cbn [fst snd sring sdisk cursor set_pos set_replay with_sdisk wal_replay]; try done; try lia.
      exists h. split; [by apply (Hnext x)|]. split; [|done]. rewrite Hd. by exists rest.
Qed.

(** [n] polls. *)
Fixpoint take_messages (n : nat) (s : st) : st * list (list byte) :=
  match n with
  | O => (s, [])
  | S n =>
      match try_receive s with
      | (s, Some d) => let '(s, ds) := take_messages n s in (s, d :: ds)
      | (s, None) => (s, [])
      end
  end.

Lemma feeds_try_receive wb full s :
  feeds wb full s -> cursor s.2 < tail (sring s.1) ->
  exists s' d, try_receive s = (s', Some d) /\ advanced wb full d s s'.
Proof.
  intros Hf Hlt. unfold try_receive, try_receive_into.
  destruct (feeds_source wb full s Hf Hlt) as [(s' & d & E & Ha)|(s1 & E & Hr)]; rewrite E; [by exists s', d|].
  destruct (Hr []) as (s' & d & E2 & Ha). rewrite E2. by exists s', d.
Qed.

(** At the tail there is nothing to read, and a replayer that has reached it is let go. *)
Lemma feeds_at_tail wb full s :
  feeds wb full s -> cursor s.2 = tail (sring s.1) ->
  exists s', next_wal_record s = (s', Ok None) /\ feeds wb full s' /\ wal_replay s'.2 = None
    /\ (forall out, ring_receive out s' = (s', out, false)) /\ cursor s'.2 = cursor s.2
    /\ tail (sring s'.1) = tail (sring s.1).
Proof.
  destruct s as [e s]. intros (base & next & Hf) Heq. cbn [fst snd] in *. unfold next_wal_record.
  pose proof (feeds_tail _ _ _ _ _ Hf) as Ht. pose proof (repr_bound _ _ _ (fd_ring _ _ _ _ _ Hf)) as Hbd.
  cbn [fst snd] in Ht, Hbd.
  assert (Hrr : forall e s, feeds_at wb full base (cursor s) (e, s) -> wal_replay s = None -> cursor s = tail (sring e) ->
    forall out, ring_receive out (e, s) = ((e, s), out, false)).
  { intros e1 s1 Hf1 Hn1 He1 out. pose proof (feeds_ring_receive wb full base out e1 s1 Hf1 Hn1) as H.
    by rewrite He1, Z.ltb_irrefl in H. }
  pose proof (fd_replay _ _ _ _ _ Hf) as Hrep. cbn [fst snd] in Hrep.
  destruct (wal_replay s) as [r|] eqn:Er.
  2:{ subst next. exists (e, s). split; [done|]. split; [by exists base, (cursor s)|]. split; [done|].
      split; [by apply Hrr|done]. }
  destruct Hrep as (hist & Hrl & Hpre & ->). destruct (rl_next _ _ _ _ Hrl) as (d' & r' & E & _). rewrite E.
  destruct Hf as [Hwb Hr Hpos _ Hb Hwin]. cbn [fst snd] in *.
  assert (hist = []) as ->.
  { rewrite zdrop_all in Hpre by lia. by apply prefix_nil_inv in Hpre. }
  rewrite zlen_nil, Z.add_0_r in *. eexists. split; [reflexivity|].
  match goal with |- context [feeds wb full ?s1] => assert (Hf1 : feeds_at wb full base (cursor s1.2) s1) end.
  { constructor; cbn; try done. apply set_cursor_repr; [done|ulia]. }
  split; [eexists _, _; exact Hf1|]. split; [done|]. split; [by apply Hrr|done].
Qed.

(** C5: catching up.  A subscriber that is fed reads every message from its position to the tail, each
    once, in order and without a gap, first from the write-ahead log and then from the ring, and then
    finds nothing more. *)
Theorem subscriber_catches_up wb full n s :
  feeds wb full s -> Z.of_nat n = tail (sring s.1) - cursor s.2 ->
  exists s', take_messages n s = (s', zdrop (cursor s.2 - wb) full)
    /\ cursor s'.2 = tail (sring s.1) /\ (try_receive s').2 = None /\ wal_replay (try_receive s').1.2 = None.
Proof.
  revert s. induction n as [|n IH]; intros s Hf Hn.
  - cbn [take_messages]. exists s. assert (Heq : cursor s.2 = tail (sring s.1)) by lia.
    destruct (feeds_at_tail _ _ _ Hf Heq) as (s' & E & _ & Hnone & Hrr & _).
    unfold try_receive, try_receive_into. rewrite E, Hrr. split; [|split; [done|by split]].
    destruct Hf as (base & next & Hf). pose proof (feeds_tail _ _ _ _ _ Hf). rewrite zdrop_all; [done|lia].
  - destruct (feeds_try_receive _ _ _ Hf ltac:(lia)) as (s1 & d & E & Hd & Hf1 & Hc1 & Ht1 & _).
    cbn [take_messages]. rewrite E. destruct (IH s1 Hf1 ltac:(lia)) as (s' & E' & Hc' & Hrest). rewrite E'.
    exists s'. split; [|split; [lia|exact Hrest]]. f_equal. rewrite Hc1. symmetry. apply log_at_zdrop_cons in Hd.
    rewrite Hd. f_equal. f_equal. lia.
Qed.

(** ** Connecting *)

(** A failed connection leaves no trace.  Whatever step of [connect_with] fails (the ring, the claim, the
    eventfd, the socket, the handshake, the start position), the cursor table is as it was, provided that
    nobody else changed it meanwhile. *)
Theorem failed_connect_frees_the_slot name start opens efd socks sent meanwhile e e' err :
  (forall e, cursors (sring (meanwhile e)) = cursors (sring e)) ->
  connect_with name start opens efd socks sent meanwhile e = (e', Err err) ->
  cursors (sring e') = cursors (sring e).
Proof.
  intros Hm. unfold connect_with, claim_cursor. destruct (negb (retry opens)); [by intros [= <- _]|].
  destruct (find_unclaimed (cursors (sring e))) as [i|] eqn:Ei; [|by intros [= <- _]].
  apply find_unclaimed_Some in Ei as [Ei _].
  assert (Hrel : forall v, <[i := CURSOR_UNCLAIMED]> (<[i := v]> (cursors (sring e))) = cursors (sring e)).
  { intros v. rewrite list_insert_insert_eq. by apply list_insert_id. }
  unfold connect_claimed. destruct efd; [|by intros [= <- _]; cbn].
  destruct (negb (retry socks)); [by intros [= <- _]; cbn|].
  destruct sent; [|by intros [= <- _]; cbn]. cbv zeta.
  destruct (start_cursor _ _ _) as [[c replay]|err']; [done|]. intros [= <- _]. cbn. rewrite Hm. cbn. apply Hrel.
Qed.

(** What a start position asks for, on a topic whose ring holds messages from [base] on. *)
Definition start_in_range (wb base : Z) (r : ring) (start : start_pos) : Prop :=
  match start with
  | Now => True
  | HistoryBack n => 0 <= n <= capacity r /\ base <= saturating_sub (tail r) n
  | Explicit c => wb <= c <= tail r /\ (tail r - capacity r <= c -> base <= c)
  end.

(** The log on disk reaches into the ring. *)
Definition log_reaches (wb : Z) (full : list (list byte)) (base : Z) (e : env D) : Prop :=
  exists b hist, rl_holds (sdisk e) b hist /\ wb <= b /\ hist `prefix_of` zdrop (b - wb) full
    /\ base <= b + zlen hist /\ tail (sring e) - capacity (sring e) <= b + zlen hist.

(** A directory without a log, or with an empty one. *)
Definition no_log (e : env D) : bool :=
  match rb_open (sdisk e) with Some ix => match rb_oldest ix with Some _ => false | None => true end | None => true end.

(** A position behind the ring's window is looked for on disk: either there is no log, or it reaches into the ring. *)
Definition disk_in_step (wb : Z) (full : list (list byte)) (base : Z) (e : env D) (start : start_pos) : Prop :=
  forall c, start = Explicit c -> c < tail (sring e) - capacity (sring e) -> no_log e = true \/ log_reaches wb full base e.

Lemma prefix_zdrop {A} n (l k : list A) : l `prefix_of` k -> zdrop n l `prefix_of` zdrop n k.
Proof.
  intros [m ->]. destruct (decide (n <= zlen l)).
  - rewrite zdrop_app_le by done. by eexists.
  - rewrite (zdrop_all n l) by lia. apply prefix_nil.
Qed.

Lemma start_behind_the_ring wb full base c e i g :
  0 <= wb <= base -> base <= wb + zlen full -> ring_repr base (zdrop (base - wb) full) (sring e) ->
  log_reaches wb full base e -> wb <= c < tail (sring e) - capacity (sring e) ->
  match start_cursor (Explicit c) (tail (sring e)) e with
  | Ok (c', replay) => c' = c /\ feeds wb full (e, Subscriber_ c' i g replay)
  | Err err => exists b, c < b /\ err = CursorTooOld c b
  end.
Proof.
  intros Hwb Hb Hr (b & hist & Hh & Hwbb & [rest Hrest] & Hbh & Hwin) Hc.
  pose proof (repr_tail _ _ _ Hr) as Ht. rewrite zlen_zdrop in Ht by lia. pose proof (wf_capacity _ (repr_wf _ _ _ Hr)) as Hcap.
  cbn [start_cursor]. unfold saturating_sub. destruct (Z.leb_spec (Z.max 0 (tail (sring e) - capacity (sring e))) c) as [|_]; [lia|].
  destruct (rl_read _ _ _ Hh) as (ix & -> & -> & Hold & Hok). destruct (Z.lt_ge_cases c b) as [Hlt|Hge].
  - destruct (Hold c Hlt) as (err & -> & ->). by exists b.
  - destruct (Hok c Hge) as (r & -> & Hrl). split; [done|].
    assert (Hlen : b + zlen hist <= wb + zlen full).
    { apply (f_equal zlen) in Hrest. rewrite zlen_app, zlen_zdrop in Hrest by lia. pose proof (zlen_nonneg rest). lia. }
    exists base, (b + zlen hist). constructor; cbn; try done; try lia.
    exists (zdrop (c - b) hist). split; [done|]. split; [|rewrite zlen_zdrop; lia].
    replace (c - wb) with (b - wb + (c - b)) by lia. rewrite <- zdrop_zdrop by lia. apply prefix_zdrop. by exists rest.
Qed.

Lemma start_without_log c (e : env D) : no_log e = true -> 0 <= c < tail (sring e) - capacity (sring e) ->
  start_cursor (Explicit c) (tail (sring e)) e = Err (CursorTooOld c (tail (sring e) - capacity (sring e))).
Proof.
  intros Hno Hc. cbn [start_cursor]. unfold saturating_sub. destruct (Z.leb_spec (Z.max 0 (tail (sring e) - capacity (sring e))) c) as [|_]; [lia|].
  rewrite Z.max_r by lia. unfold no_log in Hno. destruct (rb_open _) as [ix|]; [|done]. by destruct (rb_oldest ix).
Qed.

Definition position_of (tail : Z) (start : start_pos) : Z :=
  match start with Now => tail | HistoryBack n => saturating_sub tail n | Explicit c => c end.

Lemma start_cursor_feeds wb full base start e i g :
  0 <= wb <= base -> base <= wb + zlen full -> ring_repr base (zdrop (base - wb) full) (sring e) ->
  disk_in_step wb full base e start -> start_in_range wb base (sring e) start ->
  match start_cursor start (tail (sring e)) e with
  | Ok (c, replay) => c = position_of (tail (sring e)) start /\ feeds wb full (e, Subscriber_ c i g replay)
  | Err err => exists c b, start = Explicit c /\ c < b /\ err = CursorTooOld c b
  end.
Proof.
  intros Hwb Hb Hr Hd Hin.
  pose proof (wf_capacity _ (repr_wf _ _ _ Hr)) as Hcap. pose proof (repr_bound _ _ _ Hr) as Hbd.
  pose proof (repr_tail _ _ _ Hr) as Ht. rewrite zlen_zdrop in Ht by lia.
  destruct start as [|n|c]; cbn [start_in_range position_of] in *.
  - split; [done|]. exists base, (tail (sring e)). constructor; cbn; try done; lia.
  - cbn [start_cursor]. unfold saturating_sub in *. split; [done|]. exists base, (Z.max 0 (tail (sring e) - n)). constructor; cbn; try done; lia.
  - destruct Hin as [Hc Hc2]. destruct (Z.lt_ge_cases c (tail (sring e) - capacity (sring e))) as [Hlt|Hge].
    + destruct (Hd c eq_refl Hlt) as [Hno|Hlog].
      * rewrite start_without_log by (try done; lia). by eexists _, _.
      * pose proof (start_behind_the_ring wb full base c e i g Hwb Hb Hr Hlog ltac:(lia)) as H.
        destruct (start_cursor _ _ _) as [[]|]; [exact H|]. destruct H as (b & H). by exists c, b.
    + cbn [start_cursor]. unfold saturating_sub. destruct (Z.leb_spec (Z.max 0 (tail (sring e) - capacity (sring e))) c); [|lia].
      split; [done|]. exists base, c. constructor; cbn; try done; lia.
Qed.




(** ** Sleeping and waking *)

Lemma poll_ok forever turns (e e1 : env D) rest :
  poll_wakeup forever turns e = (e1, rest, Done (Ok tt)) -> shup e1 = false /\ 0 < sefd e1.
Proof.
  revert e. induction turns as [|t turns IH]; intros e; cbn [poll_wakeup]; unfold poll_ready.
  - destruct (shup e) eqn:Eh; [done|]. destruct (Z.ltb_spec 0 (sefd e)); [|by destruct forever].
    by intros [= <- _].
  - destruct (shup e) eqn:Eh; [done|]. destruct (Z.ltb_spec 0 (sefd e)); [by intros [= <- _]|]. apply IH.
Qed.

Lemma ring_receive_none out (e : env D) (s : subscriber R) :
  tail (sring e) <= cursor s -> ring_receive out (e, s) = ((e, s), out, false).
Proof.
  intros Hle. unfold ring_receive, Ring.try_receive. rewrite (proj2 (Z.leb_le _ _) Hle). by destruct e.
Qed.

Lemma feeds_frame wb full e e' s :
  feeds wb full (e, s) -> sdisk e' = sdisk e -> (exists fl, sring e' = with_wakeflags fl (sring e) /\ length fl = length (wakeflags (sring e))) ->
  feeds wb full (e', s).
Proof.
  intros (base & next & [Hwb Hr Hpos Hrep Hb Hwin]) Hd (fl & Hfl & Hlen). exists base, next.
  constructor; cbn in *; rewrite ?Hfl, ?Hd; try done. by apply with_wakeflags_repr.
Qed.

(** C24: the blocking read.  A subscriber that has read everything announces that it sleeps, and sleeps.  When,
    after whatever else the system did, its eventfd is written and [poll] reports no hang-up, the subscriber is fed, there is a message at its
    position and the generation of the ring is the one it connected to, [receive] returns exactly that message, with one unit of the eventfd
    consumed and the flag cleared. *)
Theorem receive_returns_the_awaited_message wb full turns rest e s e1 :
  wal_replay s = None -> tail (sring e) <= cursor s ->
  poll_wakeup true turns (set_flag (e, s)).1 = (e1, rest, Done (Ok tt)) ->
  feeds wb full (e1, s) -> cursor s < tail (sring e1) -> generation (sring e1) = sgeneration s ->
  exists s' d, receive 2 turns (e, s) = (s', Done (Ok d)) /\ log_at wb full (cursor s) = Some d
    /\ feeds wb full s' /\ cursor s'.2 = cursor s + 1.
Proof.
  intros Hn Hle Hp Hf Hlt Hg. unfold receive, receive_into, next_wal_record. rewrite Hn. cbn [receive_ring].
  rewrite ring_receive_none by done. unfold wait_readable. cbv zeta.
  assert (Hc : cursor (set_flag (e, s)).2 <? current_tail (sring (set_flag (e, s)).1) = false) by (by apply Z.ltb_ge).
  rewrite Hc. unfold wait_wakeup. destruct (set_flag (e, s)) as [e0 s0] eqn:E0. injection E0 as E0 <-. subst e0.
  cbn [fst] in Hp. rewrite Hp. destruct (poll_ok _ _ _ _ _ Hp) as [_ Hefd]. unfold eventfd_drain.
  rewrite (proj2 (Z.ltb_lt _ _) Hefd). change (generation (sring (with_sefd (sefd e1 - 1) e1))) with (generation (sring e1)).
  rewrite Hg, Z.eqb_refl. unfold clear_flag. cbn [fst snd sring with_sefd].
  set (e2 := with_sring _ _).
  assert (Hf2 : feeds wb full (e2, s)).
  { apply (feeds_frame _ _ e1); [done|done|]. exists (<[cursor_idx s := 0]> (wakeflags (sring e1))). split; [done|].
    apply length_insert. }
  destruct Hf2 as (base & next & Hf2). pose proof (fd_replay _ _ _ _ _ Hf2) as Hrep. cbn [snd] in Hrep. rewrite Hn in Hrep.
  subst next. pose proof (feeds_ring_receive wb full base [] e2 s Hf2 Hn) as Hrr.
  change (tail (sring e2)) with (tail (sring e1)) in Hrr. rewrite (proj2 (Z.ltb_lt _ _) Hlt) in Hrr.
  destruct Hrr as (s' & d & -> & Hd & Hfs & Hcs & _). exists s', d. done.
Qed.

(** ** Disconnects and restarts *)

(** The publisher's last act: it publishes, writes the subscriber's eventfd, and closes its socket. *)
Definition publish_and_exit (data : list byte) (e : env D) : env D :=
  Env (publish_drop_oldest data (sring e)).1 (sefd e + 1) true (sdisk e).

Lemma feeds_publish wb full data e s n b :
  feeds wb full (e, s) -> wal_replay s = None -> zlen data <= slot_payload_size (sring e) ->
  tail (sring e) + 1 < two63 -> tail (sring e) - capacity (sring e) < cursor s ->
  feeds wb (full ++ [data]) (Env (publish_drop_oldest data (sring e)).1 n b (sdisk e), s).
Proof.
  intros (base & next & Hf) Hn Hlen Hmax Hwin. pose proof (feeds_tail _ _ _ _ _ Hf) as Ht.
  destruct Hf as [Hwb Hr Hpos Hrep Hb _]. cbn [fst snd] in *. rewrite Hn in Hrep. subst next.
  pose proof (wf_tail _ (repr_wf _ _ _ Hr)) as Htu.
  pose proof (publish_step_repr _ _ _ _ Hr Hlen Hmax) as Hr'. cbn [publish_drop_oldest fst].
  exists base, (cursor s). rewrite wrap64_small in * by ulia. constructor; cbn [fst snd sring].
  - rewrite zlen_app. pose proof (zlen_nonneg [data]). lia.
  - by rewrite zdrop_app_le by lia.
  - cbn. lia.
  - by rewrite Hn.
  - done.
  - cbn. change (capacity (write_slot _ _ _)) with (capacity (sring e)). lia.
Qed.

(** A message lost to the reader.  When the publisher publishes and exits while a subscriber is asleep, the
    iterator ends, although the message is in the ring: the hang-up is looked at before the wakeup, and
    nobody looks at the ring again. *)
Theorem last_message_is_not_delivered wb full data e s :
  feeds wb full (e, s) -> wal_replay s = None -> cursor s = tail (sring e) -> sefd e = 0 -> shup e = false ->
  zlen data <= slot_payload_size (sring e) -> tail (sring e) + 1 < two63 ->
  exists s', subscription_next 1 [publish_and_exit data] (e, s) = (s', Done None)
    /\ (try_receive s').2 = Some data.
Proof.
  intros Hf Hn Hc He Hh Hlen Hmax. unfold subscription_next, receive, receive_into, next_wal_record.
  rewrite Hn. cbn [receive_ring]. rewrite ring_receive_none by lia. unfold wait_readable. cbv zeta.
  assert (Hlt : cursor (set_flag (e, s)).2 <? current_tail (sring (set_flag (e, s)).1) = false)
    by (apply Z.ltb_ge; cbn; unfold current_tail; cbn; lia).
  rewrite Hlt. unfold wait_wakeup. destruct (set_flag (e, s)) as [e0 s0] eqn:E0. injection E0 as E0 <-. subst e0.
  cbn [poll_wakeup]. unfold poll_ready. cbn [shup sefd with_sring]. rewrite Hh, He. cbn [Z.ltb Z.compare publish_and_exit shup].
  eexists. split; [reflexivity|]. pose proof (feeds_publish wb full data e s (sefd e + 1) true Hf Hn Hlen Hmax) as Hf'.
  specialize (Hf' ltac:(destruct Hf as (base & next & Hf); pose proof (wf_capacity _ (repr_wf _ _ _ (fd_ring _ _ _ _ _ Hf))); cbn in *; lia)).
  assert (Hf2 : feeds wb (full ++ [data]) (clear_flag (publish_and_exit data (with_sring (set_wakeflag (cursor_idx s) (sring e)) e), s))).
  { eapply feeds_frame; [exact Hf'|done|]. eexists. split; [reflexivity|]. cbn. by rewrite !length_insert. }
  destruct (feeds_try_receive _ _ _ Hf2) as (s' & d & E & Hd & _).
  { cbn. rewrite wrap64_small; [lia|]. destruct Hf as (base & next & Hf). pose proof (wf_tail _ (repr_wf _ _ _ (fd_ring _ _ _ _ _ Hf))).
    cbn in *. ulia. }
  rewrite E. cbn. f_equal. destruct Hf as (base & next & Hf). pose proof (feeds_tail _ _ _ _ _ Hf) as Ht.
  pose proof (fd_wb _ _ _ _ _ Hf). cbn [fst snd clear_flag] in *. unfold log_at in Hd.
  destruct (cursor s <? wb); [done|]. rewrite lookup_app_r in Hd by (unfold zlen in *; lia).
  apply list_lookup_singleton_Some in Hd as [_ <-]. done.
Qed.

(** A position below the tail whose slot has never been written. *)
Record unwritten (s : st) : Prop := {
  un_replay : wal_replay s.2 = None;
  un_pos : 0 < cursor s.2 < tail (sring s.1);
  un_slot : seq (slot_at (sring s.1) (slot_index (sring s.1) (cursor s.2))) = 0
}.

Lemma unwritten_receive_loop n i c out r :
  0 < c -> seq (slot_at r (slot_index r c)) = 0 -> receive_loop (S n) i c out r = (r, out, None).
Proof.
  intros Hc Hs. cbn [receive_loop]. cbv zeta. rewrite Hs. change (Z.land 0 SEQ_WRITING_BIT =? 0) with true.
  cbn [negb]. destruct (Z.ltb_spec c 0); [lia|]. by destruct (Z.ltb_spec 0 c); [|lia].
Qed.

Lemma unwritten_try_receive i c out r :
  0 < c < tail r -> seq (slot_at r (slot_index r c)) = 0 -> Ring.try_receive i c out r = (r, out, None).
Proof.
  intros Hc Hs. unfold Ring.try_receive, MAX_RETRIES. destruct (Z.leb_spec (tail r) c); [lia|].
  apply (unwritten_receive_loop 15); [lia|done].
Qed.

Lemma unwritten_spins fuel turns out s : unwritten s -> (receive_ring fuel turns out s).2 = Running.
Proof.
  revert s. induction fuel as [|fuel IH]; intros [e s] [Hn Hc Hs]; [done|]. cbn [fst snd] in *. cbn [receive_ring].
  unfold ring_receive. rewrite unwritten_try_receive by done. unfold wait_readable. cbv zeta.
  assert (Hlt : cursor (set_flag (with_sring (sring e) e, s)).2 <? current_tail (sring (set_flag (with_sring (sring e) e, s)).1) = true)
    by (apply Z.ltb_lt; cbn; unfold current_tail; cbn; lia).
  rewrite Hlt. by apply IH.
Qed.

Lemma unwritten_receive fuel turns s : unwritten s -> (receive fuel turns s).2 = Running.
Proof.
  intros Hun. pose proof (unwritten_spins fuel turns [] s Hun) as Hsp. unfold receive, receive_into.
  destruct s as [e s]. unfold next_wal_record. rewrite (un_replay _ Hun : wal_replay s = None).
  destruct (receive_ring fuel turns [] (e, s)) as [[s' out'] x]. cbn in Hsp. by subst x.
Qed.

(** A subscriber that spins.  When a publisher has restarted over its log with a ring file that had to be
    created anew, a subscriber that asks for the last [n] messages gets a position the ring has never
    held: [receive] neither returns nor sleeps, however long it runs. *)
Theorem history_back_after_restart_spins name cap sps subs t n e :
  sring e = set_tail t (create cap sps subs) -> 0 < n < t -> t < two63 ->
  0 < cap < two32 -> 0 < subs < two32 ->
  exists e' s, connect_with name (HistoryBack n) [(true, true)] (Ok tt) [(true, true)] (Ok tt) (fun e => e) e = (e', Ok s)
    /\ forall fuel turns, (receive fuel turns (e', s)).2 = Running.
Proof.
  intros Hr Hn Ht Hcap Hsubs. unfold connect_with. cbn [retry negb]. rewrite Hr.
  assert (Hcl : claim_cursor (current_tail (set_tail t (create cap sps subs))) (set_tail t (create cap sps subs))
    = (clear_wakeflag 0 (set_cursor 0 t (set_tail t (create cap sps subs))), Some 0%nat)).
  { unfold claim_cursor. cbn [cursors set_tail with_tail create]. unfold zrep.
    destruct (Z.to_nat subs) eqn:E; [lia|]. done. }
  rewrite Hcl. unfold connect_claimed. cbn [retry negb start_cursor]. eexists _, _. split; [reflexivity|].
  intros fuel turns. apply unwritten_receive. constructor; cbn [fst snd wal_replay cursor].
  - done.
  - unfold saturating_sub. cbn. lia.
  - unfold slot_at, slot_index. cbn. unfold zrep at 1. rewrite lookup_replicate_2; [done|].
    pose proof (Z.mod_pos_bound (saturating_sub t n) cap ltac:(lia)). lia.
Qed.
End subscriber.

(** ** Concrete runs *)

Section demo.
#[local] Existing Instance sum_crc.

Definition demo_seg : seg := Seg 0 9 [Record_ 0 100 [Byte.x01]; Record_ 1 101 [Byte.x02; Byte.x02]; Record_ 2 102 [Byte.x03]].
Definition demo_disk : disk := Disk [(0, File (seg_file demo_seg) (zlen (seg_file demo_seg)))] [].
Definition demo_env : env disk := Env demo_ring 0 false demo_disk.

Lemma demo_holds : v1_holds demo_disk 0 demo_msgs.
Proof.
  exists [demo_seg], 3. split; [done|]. split; [done|]. split; [done|]. split; [done|]. split; [|split; [|done]].
  - constructor; [|done]. split; [split; vm_compute; congruence|]. split; [split; vm_compute; congruence|]. split.
    + repeat constructor; vm_compute; congruence.
    + intros [|[|[|i]]] r Hr; cbn in Hr; simplify_eq; done.
  - constructor; [|done]. eexists. reflexivity.
Qed.

Lemma demo_reaches e : sring e = demo_ring -> sdisk e = demo_disk -> log_reaches 0 demo_msgs 0 e.
Proof.
  intros Hr Hd. exists 0, demo_msgs. rewrite Hd, Hr. split; [exact demo_holds|]. split; [done|].
  split; [by exists []|]. split; vm_compute; congruence.
Qed.

(** The oldest message is no longer in the ring. *)
Definition demo_sub : subscriber replayer := Subscriber_ 0 0 1 (Some (Replayer [0] 0 None)).

Lemma demo_feeds : feeds 0 demo_msgs (demo_env, demo_sub).
Proof.
  assert (Hs : start_cursor (Explicit 0) (tail (sring demo_env)) demo_env = Ok (0, Some (Replayer [0] 0 None)))
    by (vm_compute; reflexivity).
  pose proof (start_cursor_feeds 0 demo_msgs 0 (Explicit 0) demo_env 0 1 ltac:(lia) ltac:(by vm_compute) demo_repr
    (fun c _ _ => or_intror (demo_reaches demo_env eq_refl eq_refl))) as Hf.
  rewrite Hs in Hf. apply Hf. split; [split; vm_compute; congruence|]. intros _. lia.
Qed.

Lemma subscriber_catches_up_witness :
  exists s', take_messages 3 (demo_env, demo_sub) = (s', demo_msgs) /\ cursor s'.2 = 3
    /\ (try_receive s').2 = None /\ wal_replay (try_receive s').1.2 = None.
Proof. apply (subscriber_catches_up 0 demo_msgs 3 (demo_env, demo_sub)); [exact demo_feeds|reflexivity]. Defined.

Lemma failed_connect_frees_the_slot_witness :
  cursors (sring (connect_with "t" Now [(true, true)] (Err OtherIo) [] (Ok tt) (fun e => e) demo_env).1) = cursors demo_ring.
Proof.
  apply (failed_connect_frees_the_slot "t" Now [(true, true)] (Err OtherIo) [] (Ok tt) (fun e => e) demo_env _ (Io OtherIo)).
  - reflexivity.
  - vm_compute. reflexivity.
Defined.

Definition demo_claimed : ring := clear_wakeflag 0 (set_cursor 0 3 demo_ring).

Lemma demo_claimed_repr : ring_repr 0 demo_msgs demo_claimed.
Proof.
  apply with_wakeflags_repr; [|reflexivity]. apply set_cursor_repr; [exact demo_repr|split; vm_compute; congruence].
Qed.


(** A subscriber that has read everything. *)
Definition idle_sub : subscriber replayer := Subscriber_ 3 0 1 None.
Definition idle_env : env disk := Env demo_claimed 0 false demo_disk.

Lemma idle_feeds : feeds 0 demo_msgs (idle_env, idle_sub).
Proof.
  exists 0, 3. constructor; try (vm_compute; split_and?; congruence). exact demo_claimed_repr.
Qed.

Definition wakes_up (e : env disk) : env disk :=
  Env (publish_drop_oldest [Byte.x04] (sring e)).1 (sefd e + 1) false (sdisk e).

Lemma receive_returns_the_awaited_message_witness :
  exists s' d, receive 2 [fun e => e; wakes_up] (idle_env, idle_sub) = (s', Done (Ok d))
    /\ log_at 0 (demo_msgs ++ [[Byte.x04]]) 3 = Some d
    /\ feeds 0 (demo_msgs ++ [[Byte.x04]]) s' /\ cursor s'.2 = 4.
Proof.
  apply (receive_returns_the_awaited_message 0 (demo_msgs ++ [[Byte.x04]]) [fun e => e; wakes_up] [] idle_env idle_sub
    (wakes_up (set_flag (idle_env, idle_sub)).1)).
  - reflexivity.
  - vm_compute. congruence.
  - vm_compute. reflexivity.
  - apply (feeds_publish 0 demo_msgs [Byte.x04] (set_flag (idle_env, idle_sub)).1 idle_sub 1 false).
    + apply (feeds_frame 0 demo_msgs idle_env (set_flag (idle_env, idle_sub)).1 idle_sub idle_feeds); [vm_compute; reflexivity|].
      exists (wakeflags (sring (set_flag (idle_env, idle_sub)).1)). split; vm_compute; reflexivity.
    + reflexivity.
    + vm_compute. congruence.
    + vm_compute. reflexivity.
    + vm_compute. reflexivity.
  - vm_compute. reflexivity.
  - vm_compute. reflexivity.
Defined.

Lemma last_message_is_not_delivered_witness :
  exists s', subscription_next 1 [publish_and_exit [Byte.x04]] (idle_env, idle_sub) = (s', Done None)
    /\ (try_receive s').2 = Some [Byte.x04].
Proof.
  apply (last_message_is_not_delivered 0 demo_msgs [Byte.x04] idle_env idle_sub).
  - exact idle_feeds.
  - reflexivity.
  - vm_compute. reflexivity.
  - reflexivity.
  - reflexivity.
  - vm_compute. congruence.
  - vm_compute. reflexivity.
Defined.

Lemma history_back_after_restart_spins_witness :
  exists e' s, connect_with "t" (HistoryBack 1) [(true, true)] (Ok tt) [(true, true)] (Ok tt) (fun e => e)
      (Env (set_tail 5 (create 4 8 2)) 0 false demo_disk) = (e', Ok s)
    /\ forall fuel turns, (receive fuel turns (e', s)).2 = Running.
Proof.
  apply (history_back_after_restart_spins "t" 4 8 2 5 1); [reflexivity|lia|reflexivity|split; reflexivity|split; reflexivity].
Defined.
End demo.
