(* ===== verification/PySubscription.v ===== *)
(** * The Python subscription ([crates/mmbus/src/python/subscription.rs], [exceptions.rs])

    [PySubscription] over the subscriber of [Subscriber.v]: the exceptions, reads into bytes objects, reads
    into a caller's buffer, and the two batch reads.  The interpreter lock has no counterpart: a buffer is
    written only while it is held.  A timeout is the list of the waits that start before it has passed. *)

From Stdlib Require Import ZArith Lia Strings.Byte.
From stdpp Require Import base option strings gmap list.
From S2P Require Import Prelude OrdMap Chain Record Disk SegmentReader WalV1 WalRecovery Config Stats WalApi Ring Subscriber.

(** ** Exceptions *)

Inductive value_fault :=
  | ZeroPayloadSize
  | RowLength (index got payload_size : Z)
  | RowTooLong (index payload_size : Z).

Inductive py_error (RE : Type) :=
  | BusFullError
  | MessageTooLargeError (size max : Z)
  | ConnectTimeoutError (topic : string)
  | TooManySubscribersError (limit : Z)
  | AlreadyPublishingError (topic : string)
  | CursorTooOldError (requested oldest : Z)
  | PyWalError (e : RE)
  | OSError (e : io_error)
  | TypeError
  | ValueError (f : value_fault).
Arguments BusFullError {RE}. Arguments MessageTooLargeError {RE}. Arguments ConnectTimeoutError {RE}.
Arguments TooManySubscribersError {RE}. Arguments AlreadyPublishingError {RE}. Arguments CursorTooOldError {RE}.
Arguments PyWalError {RE}. Arguments OSError {RE}. Arguments TypeError {RE}. Arguments ValueError {RE}.

(** ** Buffers *)

(** An object with the buffer protocol. *)
Record py_buffer := PyBuffer { readonly : bool; c_contiguous : bool; contents : list byte }.

Section subscription.
Context {D Ix R RE : Type} `{!ReplayBackend D Ix R RE}.

#[local] Notation st := (st (D := D) (R := R)).

Definition mmbus_err (e : error RE) : py_error RE :=
  match e with
  | Full => BusFullError
  | TooLarge size max => MessageTooLargeError size max
  | Timeout topic => ConnectTimeoutError topic
  | TooManySubscribers limit => TooManySubscribersError limit
  | AlreadyPublishing topic => AlreadyPublishingError topic
  | CursorTooOld requested oldest => CursorTooOldError requested oldest
  | Io e => OSError e
  | WalError w =>
      match rb_too_old w with
      | Some (requested, oldest) => CursorTooOldError requested oldest
      | None => PyWalError w
      end
  end.

(** [None] is an object that is not a buffer of bytes. *)
Definition writable_view (b : option py_buffer) : result (py_error RE) (list byte) :=
  match b with
  | None => Err TypeError
  | Some b => if readonly b then Err TypeError else if negb (c_contiguous b) then Err TypeError else Ok (contents b)
  end.

(** What the caller's buffer holds. *)
Definition memory (b : option py_buffer) : list byte := match b with Some b => contents b | None => [] end.

Record py_subscription := PySubscription { inner : st; recv_buf : list byte }.

Definition with_inner (s : st) (p : py_subscription) : py_subscription := PySubscription s (recv_buf p).

(** ** Into bytes objects *)

Definition recv (fuel : nat) (turns : list (env D -> env D)) (p : py_subscription) :
    py_subscription * outcome (result (py_error RE) (list byte)) :=
  match receive_into fuel turns (inner p) with
  | (s, out, Done (Ok _)) => (PySubscription s out, Done (Ok out))
  | (s, out, Done (Err err)) => (PySubscription s out, Done (Err (mmbus_err err)))
  | (s, out, Asleep) => (PySubscription s out, Asleep)
  | (s, out, Running) => (PySubscription s out, Running)
  end.

Definition recv_timeout (waits : list (list (env D -> env D))) (p : py_subscription) :
    py_subscription * result (py_error RE) (option (list byte)) :=
  match receive_timeout_into waits (inner p) with
  | (s, out, Ok got) => (PySubscription s out, Ok (if got then Some out else None))
  | (s, out, Err err) => (PySubscription s out, Err (mmbus_err err))
  end.

Definition try_recv (p : py_subscription) : py_subscription * option (list byte) :=
  match try_receive_into (inner p) with
  | (s, out, got) => (PySubscription s out, if got then Some out else None)
  end.

(** [__next__]: a disconnect stops the iteration. *)
Definition py_next (fuel : nat) (turns : list (env D -> env D)) (p : py_subscription) :
    py_subscription * outcome (result (py_error RE) (option (list byte))) :=
  match receive_into fuel turns (inner p) with
  | (s, out, Done (Ok _)) => (PySubscription s out, Done (Ok (Some out)))
  | (s, out, Done (Err (Io UnexpectedEof))) => (PySubscription s out, Done (Ok None))
  | (s, out, Done (Err err)) => (PySubscription s out, Done (Err (mmbus_err err)))
  | (s, out, Asleep) => (PySubscription s out, Asleep)
  | (s, out, Running) => (PySubscription s out, Running)
  end.

Definition py_poll_recv (p : py_subscription) : py_subscription * result (py_error RE) (option (list byte)) :=
  let '(s, r) := poll_recv (inner p) in (with_inner s p, map_err mmbus_err r).

Definition py_drain_wakeup (p : py_subscription) : py_subscription * result (py_error RE) bool :=
  let '(s, r) := drain_wakeup (inner p) in (with_inner s p, map_err mmbus_err r).

Definition py_arm_wakeup (p : py_subscription) : py_subscription * bool :=
  let '(s, r) := arm_wakeup (inner p) in (with_inner s p, r).

Definition max_payload_size (p : py_subscription) : Z := slot_payload_size (sring (inner p).1).

(** ** Into a caller's buffer *)

(** The loops work on the buffer's memory. *)
Fixpoint recv_into_loop (fuel : nat) (turns : list (env D -> env D)) (slice : list byte) (s : st) :
    st * list byte * outcome (result (py_error RE) Z) :=
  match fuel with
  | O => (s, slice, Running)
  | S fuel =>
      match try_receive_one_into_slice slice s with
      | (s, slice, Ok (Some n)) => (s, slice, Done (Ok n))
      | (s, slice, Err err) => (s, slice, Done (Err (mmbus_err err)))
      | (s, slice, Ok None) =>
          match wait_readable true turns s with
          | (s, turns, Done (Ok _)) => recv_into_loop fuel turns slice s
          | (s, _, Done (Err err)) => (s, slice, Done (Err (mmbus_err err)))
          | (s, _, Asleep) => (s, slice, Asleep)
          | (s, _, Running) => (s, slice, Running)
          end
      end
  end.

Definition recv_into (fuel : nat) (turns : list (env D -> env D)) (buf : option py_buffer) (p : py_subscription) :
    py_subscription * list byte * outcome (result (py_error RE) Z) :=
  match writable_view buf with
  | Err err => (p, memory buf, Done (Err err))
  | Ok slice => let '(s, slice, r) := recv_into_loop fuel turns slice (inner p) in (with_inner s p, slice, r)
  end.

(** A wait that ends without a wakeup has timed out. *)
Fixpoint recv_timeout_into_loop (waits : list (list (env D -> env D))) (slice : list byte) (s : st) :
    st * list byte * result (py_error RE) (option Z) :=
  match try_receive_one_into_slice slice s with
  | (s, slice, Ok (Some n)) => (s, slice, Ok (Some n))
  | (s, slice, Err err) => (s, slice, Err (mmbus_err err))
  | (s, slice, Ok None) =>
      match waits with
      | [] => (s, slice, Ok None)
      | turns :: waits =>
          match wait_readable false turns s with
          | (s, _, Done (Ok true)) => recv_timeout_into_loop waits slice s
          | (s, _, Done (Err err)) => (s, slice, Err (mmbus_err err))
          | (s, _, _) => (s, slice, Ok None)
          end
      end
  end.

Definition recv_timeout_into (waits : list (list (env D -> env D))) (buf : option py_buffer) (p : py_subscription) :
    py_subscription * list byte * result (py_error RE) (option Z) :=
  match writable_view buf with
  | Err err => (p, memory buf, Err err)
  | Ok slice => let '(s, slice, r) := recv_timeout_into_loop waits slice (inner p) in (with_inner s p, slice, r)
  end.

Definition py_try_recv_into (buf : option py_buffer) (p : py_subscription) :
    py_subscription * list byte * result (py_error RE) (option Z) :=
  match writable_view buf with
  | Err err => (p, memory buf, Err err)
  | Ok slice => let '(s, slice, r) := try_receive_one_into_slice slice (inner p) in (with_inner s p, slice, map_err mmbus_err r)
  end.

(** ** Batches *)

(** Phase 2 of [recv_batch]: [k] more at most. *)
Fixpoint drain_batch (k : nat) (p : py_subscription) : py_subscription * list (list byte) :=
  match k with
  | O => (p, [])
  | S k =>
      match try_recv p with
      | (p, Some d) => let '(p, ds) := drain_batch k p in (p, d :: ds)
      | (p, None) => (p, [])
      end
  end.

Definition recv_batch (n : nat) (waits : list (list (env D -> env D))) (p : py_subscription) :
    py_subscription * result (py_error RE) (list (list byte)) :=
  match n with
  | O => (p, Ok [])
  | S k =>
      match recv_timeout waits p with
      | (p, Err err) => (p, Err err)
      | (p, Ok None) => (p, Ok [])
      | (p, Ok (Some d)) => let '(p, ds) := drain_batch k p in (p, Ok (d :: ds))
      end
  end.

(** Phase 2 of [recv_into_buffer]: rows [count] to [count + k - 1]. *)
Fixpoint drain_rows (k : nat) (payload_size count : Z) (buf : list byte) (s : st) :
    st * list byte * result (py_error RE) Z :=
  match k with
  | O => (s, buf, Ok count)
  | S k =>
      let off := count * payload_size in
      match sub_try_receive_into_slice (zslice off (off + payload_size) buf) s with
      | (s, dst, Some (SliceLen n)) =>
          let buf := zsplice off dst buf in
          if n =? payload_size then drain_rows k payload_size (count + 1) buf s
          else (s, buf, Err (ValueError (RowLength count n payload_size)))
      | (s, dst, Some SliceOversize) => (s, zsplice off dst buf, Err (ValueError (RowTooLong count payload_size)))
      | (s, dst, None) => (s, zsplice off dst buf, Ok count)
      end
  end.

Definition recv_into_buffer (payload_size : Z) (waits : list (list (env D -> env D))) (buf : option py_buffer) (p : py_subscription) :
    py_subscription * list byte * result (py_error RE) Z :=
  if payload_size =? 0 then (p, memory buf, Err (ValueError ZeroPayloadSize))
  else
    match writable_view buf with
    | Err err => (p, memory buf, Err err)
    | Ok slice =>
        let capacity := zlen slice / payload_size in
        if capacity =? 0 then (p, slice, Ok 0)
        else
          match receive_timeout_into waits (inner p) with
          | (s, out, Err err) => (PySubscription s out, slice, Err (mmbus_err err))
          | (s, out, Ok false) => (PySubscription s out, slice, Ok 0)
          | (s, out, Ok true) =>
              if negb (zlen out =? payload_size)
              then (PySubscription s out, slice, Err (ValueError (RowLength 0 (zlen out) payload_size)))
              else
                let '(s, slice, r) := drain_rows (Z.to_nat (capacity - 1)) payload_size 1 (zsplice 0 out slice) s in
                (PySubscription s out, slice, r)
          end
    end.
End subscription.

(** ** What the batches return *)

Section batches.
Context {D Ix R RE : Type} `{!ReplayBackend D Ix R RE} `{!ReplayLaws D Ix R RE}.
#[local] Notation st := (st (D := D) (R := R)).

(** What is left to read. *)
Definition unread (wb : Z) (full : list (list byte)) (s : st) : list (list byte) := zdrop (cursor s.2 - wb) full.

Lemma unread_len wb full s : feeds wb full s -> zlen (unread wb full s) = tail (sring s.1) - cursor s.2.
Proof.
  intros (base & next & Hf). pose proof (feeds_tail _ _ _ _ _ Hf). destruct Hf as [_ _ Hpos _ _ _].
  unfold unread. rewrite zlen_zdrop by lia. lia.
Qed.

Lemma unread_advanced wb full d s s' : advanced wb full d s s' -> unread wb full s = d :: unread wb full s'.
Proof.
  intros (Hd & _ & Hc & _). unfold unread. rewrite (log_at_zdrop_cons _ _ _ _ Hd), Hc. do 2 f_equal. lia.
Qed.

(** A timed read on a subscriber with something to read does not wait. *)
Lemma feeds_receive_timeout wb full waits s : feeds wb full s -> cursor s.2 < tail (sring s.1) ->
  exists s' d, receive_timeout_into waits s = (s', d, Ok true) /\ advanced wb full d s s'.
Proof.
  intros Hf Hlt. unfold receive_timeout_into.
  destruct (feeds_source wb full s Hf Hlt) as [(s' & d & E & Ha)|(s1 & E & Hr)]; rewrite E; [by exists s', d|].
  destruct (Hr []) as (s' & d & E2 & Ha). exists s', d. split; [|done]. destruct waits; cbn [receive_ring_timeout]; by rewrite E2.
Qed.

Lemma drain_batch_feeds wb full k p : feeds wb full (inner p) ->
  exists p', drain_batch k p = (p', ztake (Z.of_nat k) (unread wb full (inner p)))
    /\ feeds wb full (inner p') /\ cursor (inner p').2 = Z.min (cursor (inner p).2 + Z.of_nat k) (tail (sring (inner p).1)).
Proof.
  revert p. induction k as [|k IH]; intros p Hf; pose proof (unread_len _ _ _ Hf) as Hl; pose proof (zlen_nonneg (unread wb full (inner p))).
  { exists p. split; [done|]. split; [done|]. lia. }
  cbn [drain_batch]. unfold try_recv. destruct (decide (cursor (inner p).2 < tail (sring (inner p).1))) as [Hlt|Hge].
  - destruct (feeds_try_receive wb full (inner p) Hf Hlt) as (s' & d & E & Ha). unfold try_receive in E.
    destruct (try_receive_into (inner p)) as [[s1 out] []]; [|done]. injection E as -> ->. cbn beta iota.
    pose proof (unread_advanced _ _ _ _ _ Ha) as Hu. destruct Ha as (_ & Hf' & Hc & Ht & _).
    destruct (IH (PySubscription s' d) Hf') as (p' & -> & Hfp & Hcp). cbn [inner] in *. exists p'. rewrite Hu.
    split; [|split; [done|lia]]. unfold ztake. rewrite !Nat2Z.id. done.
  - assert (Heq : cursor (inner p).2 = tail (sring (inner p).1)) by lia.
    destruct (feeds_at_tail wb full (inner p) Hf Heq) as (s1 & E & Hf1 & _ & Hr & Hc1 & Ht1).
    unfold try_receive_into. rewrite E, Hr. exists (PySubscription s1 []). cbn [inner].
    split; [|split; [exact Hf1|lia]].
    assert (unread wb full (inner p) = []) as -> by (apply zlen_0; lia). by rewrite ztake_nil.
Qed.

(** C19: [recv_batch].  Once its first read has returned a message, after whatever wait, the batch is that
    message and the next ones, in order, as many as asked for or as there are, and the position is past
    them; a subscriber with something to read does not wait, and takes over from the log to the ring on the
    way.  The subscriber is fed: its replay still has every record from its position on, and where that ends the
    ring holds the rest; one that was lapped, or that replays a log with buffered records, skips messages.  Nothing within the timeout is the empty batch, and so is a batch of none, which takes nothing. *)
Theorem recv_batch_returns_the_next_messages wb full n waits p :
  recv_batch 0 waits p = (p, Ok [])
  /\ (forall s d, receive_timeout_into waits (inner p) = (s, d, Ok true) -> feeds wb full s ->
        exists p', recv_batch (S n) waits p = (p', Ok (d :: ztake (Z.of_nat n) (unread wb full s)))
          /\ feeds wb full (inner p') /\ cursor (inner p').2 = Z.min (cursor s.2 + Z.of_nat n) (tail (sring s.1)))
  /\ (forall s d, receive_timeout_into waits (inner p) = (s, d, Ok false) -> recv_batch (S n) waits p = (PySubscription s d, Ok []))
  /\ (feeds wb full (inner p) -> cursor (inner p).2 < tail (sring (inner p).1) ->
        exists p', recv_batch n waits p = (p', Ok (ztake (Z.of_nat n) (unread wb full (inner p))))
          /\ feeds wb full (inner p') /\ cursor (inner p').2 = Z.min (cursor (inner p).2 + Z.of_nat n) (tail (sring (inner p).1))).
Proof.
  assert (Hgen : forall n s d, receive_timeout_into waits (inner p) = (s, d, Ok true) -> feeds wb full s ->
    exists p', recv_batch (S n) waits p = (p', Ok (d :: ztake (Z.of_nat n) (unread wb full s)))
      /\ feeds wb full (inner p') /\ cursor (inner p').2 = Z.min (cursor s.2 + Z.of_nat n) (tail (sring s.1))).
  { intros k s d E Hf. cbn [recv_batch]. unfold recv_timeout. rewrite E.
    destruct (drain_batch_feeds wb full k (PySubscription s d) Hf) as (p' & -> & Hp'). by exists p'. }
  split; [done|]. split; [apply Hgen|]. split; [intros s d E; cbn [recv_batch]; unfold recv_timeout; by rewrite E|].
  intros Hf Hlt. destruct n as [|n].
  { exists p. split; [done|]. split; [done|lia]. }
  destruct (feeds_receive_timeout wb full waits (inner p) Hf Hlt) as (s & d & E & Ha).
  rewrite (unread_advanced _ _ _ _ _ Ha). destruct Ha as (_ & Hf' & Hc & Ht & _).
  destruct (Hgen n s d E Hf') as (p' & -> & Hfp & Hcp). exists p'. split; [|split; [done|lia]].
  unfold ztake. by rewrite !Nat2Z.id.
Qed.

(** ** What the rows are *)

Lemma slice_is_receive out (s : st) : ring_wf (sring s.1) ->
  sub_try_receive_into_slice out s
  = match ring_receive [] s with
    | (s', d, true) => if zlen out <? zlen d then (s', out, Some SliceOversize) else (s', zsplice 0 d out, Some (SliceLen (zlen d)))
    | (s', _, false) => (s', out, None)
    end.
Proof.
  destruct s as [e s]. intros Hwf. unfold sub_try_receive_into_slice, ring_receive. rewrite slice_variant by done.
  destruct (Ring.try_receive _ _ [] (sring e)) as [[r' d] [c|]]; [|done]. by destruct (zlen out <? zlen d).
Qed.

(** Filling rows from a list of messages: the buffer, and how many rows there are or what was wrong. *)
Fixpoint fill_rows (payload_size count : Z) (ds : list (list byte)) (buf : list byte) : list byte * result (py_error RE) Z :=
  match ds with
  | [] => (buf, Ok count)
  | d :: ds =>
      if zlen d =? payload_size then fill_rows payload_size (count + 1) ds (zsplice (count * payload_size) d buf)
      else if payload_size <? zlen d then (buf, Err (ValueError (RowTooLong count payload_size)))
      else (zsplice (count * payload_size) d buf, Err (ValueError (RowLength count (zlen d) payload_size)))
  end.

(** The messages it takes: the first that does not fit is taken too. *)
Fixpoint taken_rows (payload_size : Z) (ds : list (list byte)) : Z :=
  match ds with
  | [] => 0
  | d :: ds => if zlen d =? payload_size then 1 + taken_rows payload_size ds else 1
  end.

Lemma ring_receive_replay out (s s' : st) d b : ring_receive out s = (s', d, b) -> wal_replay s'.2 = wal_replay s.2.
Proof. destruct s as [e s]. unfold ring_receive. destruct (Ring.try_receive _ _ _ _) as [[r o] [c|]]; by intros [= <- _ _]. Qed.

Lemma fill_rows_len payload_size count ds buf : 0 <= count -> 0 <= payload_size -> (count + zlen ds) * payload_size <= zlen buf ->
  zlen (fill_rows payload_size count ds buf).1 = zlen buf.
Proof.
  intros Hc Hp. revert count buf Hc. induction ds as [|d ds IH]; intros count buf Hc Hl; [done|]. cbn [fill_rows]. rewrite zlen_cons in Hl.
  pose proof (zlen_nonneg ds). assert (0 <= count * payload_size) by nia.
  assert ((count + 1) * payload_size <= zlen buf) by nia. destruct (Z.eqb_spec (zlen d) payload_size) as [E|].
  - rewrite IH, zlen_zsplice; [done|lia|lia|lia|]. rewrite zlen_zsplice; lia.
  - destruct (Z.ltb_spec payload_size (zlen d)); [done|]. cbn [fst]. apply zlen_zsplice; lia.
Qed.

(** Phase 2 reads the ring; on a subscriber that has let go of its replayer it fills rows from what is
    unread. *)
Lemma drain_rows_fills wb full k payload_size count buf s :
  0 < payload_size -> 0 <= count -> (count + Z.of_nat k) * payload_size <= zlen buf -> feeds wb full s -> wal_replay s.2 = None ->
  let ds := ztake (Z.of_nat k) (unread wb full s) in
  exists s', drain_rows k payload_size count buf s = (s', (fill_rows payload_size count ds buf).1, (fill_rows payload_size count ds buf).2)
    /\ feeds wb full s' /\ cursor s'.2 = cursor s.2 + taken_rows payload_size ds.
Proof.
  intros Hp. revert count buf s. induction k as [|k IH]; intros count buf s Hc Hl Hf Hn.
  { change (Z.of_nat 0) with 0. rewrite ztake_0. cbn. exists s. split; [done|]. split; [done|lia]. }
  cbn [drain_rows]. set (off := count * payload_size). cbv zeta.
  assert (0 <= off) by (unfold off; nia). assert (Hoff : off + payload_size <= zlen buf) by (unfold off; nia).
  pose proof Hf as (base & next & Hat). pose proof (fd_replay _ _ _ _ _ Hat) as Hrep. rewrite Hn in Hrep. subst next.
  pose proof (repr_wf _ _ _ (fd_ring _ _ _ _ _ Hat)) as Hwf. rewrite slice_is_receive by done.
  destruct s as [e s]. pose proof (feeds_ring_receive wb full base [] e s Hat Hn) as Hrr. pose proof (unread_len _ _ _ Hf) as Hul.
  cbn [fst snd] in *. destruct (Z.ltb_spec (cursor s) (tail (sring e))) as [Hlt|Hge].
  2:{ rewrite Hrr. assert (unread wb full (e, s) = []) as -> by (apply zlen_0; pose proof (zlen_nonneg (unread wb full (e, s))); lia).
      rewrite zsplice_own, ztake_nil by lia. exists (e, s). split; [done|]. split; [done|]. cbn. lia. }
  destruct Hrr as (s' & d & E & Ha). rewrite E. pose proof (ring_receive_replay _ _ _ _ _ E) as Hn'. cbn [snd] in Hn'. rewrite Hn in Hn'.
  rewrite (unread_advanced _ _ _ _ _ Ha). destruct Ha as (_ & Hf' & Hc' & _). cbn [fst snd] in Hc'.
  assert (Hcut : ztake (Z.of_nat (S k)) (d :: unread wb full s') = d :: ztake (Z.of_nat k) (unread wb full s')).
  { unfold ztake. by rewrite !Nat2Z.id. }
  rewrite Hcut. cbn [fill_rows taken_rows]. fold off. rewrite zlen_zslice by lia. replace (off + payload_size - off) with payload_size by lia.
  destruct (Z.ltb_spec payload_size (zlen d)).
  - destruct (Z.eqb_spec (zlen d) payload_size); [lia|]. rewrite zsplice_own by lia. exists s'. cbn [fst snd]. split; [done|]. split; [done|lia].
  - rewrite zsplice_within by lia. destruct (Z.eqb_spec (zlen d) payload_size) as [Ed|Ed].
    + destruct (IH (count + 1) (zsplice off d buf) s') as (s2 & E2 & Hf2 & Hc2); [lia| |done|done|].
      { rewrite zlen_zsplice by lia. lia. }
      exists s2. rewrite E2. split; [done|]. split; [done|]. lia.
    + exists s'. cbn [fst snd]. split; [done|]. split; [done|lia].
Qed.
(** Rows that all fit, and what comes after them. *)
Definition rows (payload_size : Z) (ds : list (list byte)) : Prop := Forall (fun d => zlen d = payload_size) ds.

Lemma rows_concat payload_size ds : rows payload_size ds -> zlen (concat ds) = zlen ds * payload_size.
Proof. induction 1 as [|d ds Hd _ IH]; [done|]. cbn [concat]. rewrite zlen_app, zlen_cons. lia. Qed.

Lemma fill_rows_app payload_size count l ds buf :
  0 <= count -> 0 <= payload_size -> (count + zlen l) * payload_size <= zlen buf -> rows payload_size l ->
  fill_rows payload_size count (l ++ ds) buf = fill_rows payload_size (count + zlen l) ds (zsplice (count * payload_size) (concat l) buf).
Proof.
  intros Hc Hp Hl Hr. revert count buf Hc Hl. induction Hr as [|d l Hd Hr IH]; intros count buf Hc Hl.
  - cbn [app concat]. by rewrite zlen_nil, Z.add_0_r, zsplice_nil by lia.
  - cbn [app fill_rows concat]. rewrite Hd, Z.eqb_refl. rewrite zlen_cons in *. pose proof (zlen_nonneg l).
    assert (Hlen : zlen (zsplice (count * payload_size) d buf) = zlen buf) by (apply zlen_zsplice; nia).
    rewrite IH by (rewrite ?Hlen; lia). replace (count + (1 + zlen l)) with (count + 1 + zlen l) by lia. f_equal.
    rewrite <- zsplice_app by (rewrite ?(rows_concat payload_size) by done; nia). f_equal. nia.
Qed.

Lemma taken_rows_app payload_size l ds : rows payload_size l -> taken_rows payload_size (l ++ ds) = zlen l + taken_rows payload_size ds.
Proof. induction 1 as [|d l Hd _ IH]; [done|]. cbn [app taken_rows]. rewrite Hd, Z.eqb_refl, IH, zlen_cons. lia. Qed.

(** Phase 2, after a first row. *)
Lemma rows_filled wb full payload_size cap d buf s :
  0 < payload_size -> 1 <= cap -> cap = zlen buf / payload_size -> zlen d = payload_size -> feeds wb full s -> wal_replay s.2 = None ->
  let next := ztake (cap - 1) (unread wb full s) in
  let drained := drain_rows (RE := RE) (Z.to_nat (cap - 1)) payload_size 1 (zsplice 0 d buf) s in
  (rows payload_size next ->
     exists s', drained = (s', zsplice 0 (d ++ concat next) buf, Ok (1 + zlen next)) /\ feeds wb full s' /\ cursor s'.2 = cursor s.2 + zlen next)
  /\ (forall l m r, next = l ++ m :: r -> rows payload_size l -> zlen m <> payload_size ->
        let long := payload_size <? zlen m in
        let fault := if long then RowTooLong (1 + zlen l) payload_size else RowLength (1 + zlen l) (zlen m) payload_size in
        exists s', drained = (s', zsplice 0 (d ++ concat l ++ (if long then [] else m)) buf, Err (ValueError fault))
          /\ feeds wb full s' /\ cursor s'.2 = cursor s.2 + zlen l + 1).
Proof.
  intros Hp Hcap Ecap Hd Hf Hn next drained.
  assert (Hfit : cap * payload_size <= zlen buf) by (rewrite Ecap; pose proof (Z.mul_div_le (zlen buf) payload_size); lia).
  assert (Hlen0 : zlen (zsplice 0 d buf) = zlen buf) by (apply zlen_zsplice; nia).
  destruct (drain_rows_fills wb full (Z.to_nat (cap - 1)) payload_size 1 (zsplice 0 d buf) s) as (s' & Edr & Hf' & Hcur); try done.
  { rewrite Hlen0, Z2Nat.id by lia. replace (1 + (cap - 1)) with cap by lia. done. }
  rewrite Z2Nat.id in Edr, Hcur by lia. fold next in Edr, Hcur. fold drained in Edr.
  assert (Hnl : zlen next <= cap - 1) by (unfold next, ztake, zlen; rewrite length_take; lia).
  assert (Hfront : forall l k, rows payload_size l -> (1 + zlen l) * payload_size + zlen k <= zlen buf ->
    zsplice ((1 + zlen l) * payload_size) k (zsplice (1 * payload_size) (concat l) (zsplice 0 d buf)) = zsplice 0 (d ++ concat l ++ k) buf).
  { intros l k Hl Hk. pose proof (rows_concat _ _ Hl) as Hcl. pose proof (zlen_nonneg l). pose proof (zlen_nonneg k).
    replace (1 * payload_size) with (0 + zlen d) by lia. rewrite (zsplice_app 0 d) by nia.
    replace ((1 + zlen l) * payload_size) with (0 + zlen (d ++ concat l)) by (rewrite zlen_app; nia).
    rewrite zsplice_app by (rewrite ?zlen_app; nia). by rewrite <- app_assoc. }
  split.
  - intros Hrows. exists s'. pose proof (zlen_nonneg next). rewrite Edr. rewrite <- (app_nil_r next) at 1 2. rewrite fill_rows_app by (rewrite ?Hlen0; nia || done).
    cbn [fill_rows fst snd]. pose proof (Hfront next [] Hrows) as HF. rewrite zlen_nil, zsplice_nil, app_nil_r in HF by nia.
    rewrite HF by nia. split; [done|]. split; [done|].
    rewrite Hcur, <- (app_nil_r next), taken_rows_app by done. cbn. rewrite app_nil_r. lia.
  - intros l m r En Hl Hm long fault. rewrite En in *. rewrite zlen_app, zlen_cons in Hnl. pose proof (zlen_nonneg l). pose proof (zlen_nonneg r).
    rewrite fill_rows_app in Edr by (rewrite ?Hlen0; nia || done). rewrite taken_rows_app in Hcur by done.
    cbn [fill_rows taken_rows] in Edr, Hcur. destruct (Z.eqb_spec (zlen m) payload_size); [done|]. exists s'.
    assert ((2 + zlen l) * payload_size <= cap * payload_size) by nia. pose proof (zlen_nonneg m).
    unfold fault, long in *. rewrite Edr. destruct (Z.ltb_spec payload_size (zlen m)); cbn [fst snd]; (split; [|split; [done|lia]]).
    + pose proof (Hfront l [] Hl) as HF. rewrite zlen_nil, zsplice_nil in HF by nia. by rewrite HF by nia.
    + rewrite Hfront; [done|done|nia].
Qed.

(** C38: [recv_into_buffer], on every branch.  Rows of no bytes, a buffer that is not writable, a buffer with room for
    no row, an error and a timeout: the buffer is untouched, and the result says which.  A first message that is
    not of the row length is taken, and an exception raised.  After a first message of the row length a
    subscriber that reads the ring takes as many more as there are or as the buffer has rows for.  If all of them have that length, the
    rows are exactly these messages, the rest of the buffer is untouched and the position is past them.  If
    not, the rows before the first that does not fit are filled, a short message is written into the row after them and
    a long one is not, the rest is untouched; but an exception says which it was instead of
    how many there are, and the position is past that one too: it is not received again. *)
Theorem recv_into_buffer_fills_rows wb full payload_size waits b p :
  0 <= payload_size ->
  let call := recv_into_buffer payload_size waits b p in
  if payload_size =? 0 then call = (p, memory b, Err (ValueError ZeroPayloadSize))
  else match writable_view b with
  | Err err => call = (p, memory b, Err err)
  | Ok buf =>
      if zlen buf <? payload_size then call = (p, buf, Ok 0)
      else match receive_timeout_into waits (inner p) with
      | (s, d, Err err) => call = (PySubscription s d, buf, Err (mmbus_err err))
      | (s, d, Ok false) => call = (PySubscription s d, buf, Ok 0)
      | (s, d, Ok true) =>
          (zlen d <> payload_size -> call = (PySubscription s d, buf, Err (ValueError (RowLength 0 (zlen d) payload_size))))
          /\ (zlen d = payload_size -> feeds wb full s -> wal_replay s.2 = None ->
               let next := ztake (zlen buf / payload_size - 1) (unread wb full s) in
               (rows payload_size next ->
                  exists s', call = (PySubscription s' d, zsplice 0 (d ++ concat next) buf, Ok (1 + zlen next))
                    /\ feeds wb full s' /\ cursor s'.2 = cursor s.2 + zlen next)
               /\ (forall l m r, next = l ++ m :: r -> rows payload_size l -> zlen m <> payload_size ->
                     let long := payload_size <? zlen m in
                     let fault := if long then RowTooLong (1 + zlen l) payload_size else RowLength (1 + zlen l) (zlen m) payload_size in
                     exists s', call = (PySubscription s' d, zsplice 0 (d ++ concat l ++ (if long then [] else m)) buf, Err (ValueError fault))
                       /\ feeds wb full s' /\ cursor s'.2 = cursor s.2 + zlen l + 1))
      end
  end.
Proof.
  intros Hp0 call. unfold call, recv_into_buffer. destruct (Z.eqb_spec payload_size 0) as [|Hne]; [done|].
  destruct (writable_view b) as [B|err]; [|done]. assert (Hp : 0 < payload_size) by lia.
  destruct (Z.ltb_spec (zlen B) payload_size) as [Hsm|Hb].
  { rewrite Z.div_small by (split; [apply zlen_nonneg|done]). done. }
  set (cap := zlen B / payload_size). assert (Hcap : 1 <= cap) by (unfold cap; apply Z.div_le_lower_bound; lia).
  destruct (Z.eqb_spec cap 0); [lia|]. destruct (receive_timeout_into waits (inner p)) as [[s d] [[]|err]]; [|done..].
  destruct (Z.eqb_spec (zlen d) payload_size) as [Hd|Hd]; (split; [done|]); [|done]. intros _ Hf Hn. cbn [negb].
  destruct (rows_filled wb full payload_size cap d B s) as [H1 H2]; try done. split.
  - intros Hrows. destruct (H1 Hrows) as (s' & -> & Hs'). by exists s'.
  - intros l m r El Hl Hm. destruct (H2 l m r El Hl Hm) as (s' & -> & Hs'). by exists s'.
Qed.
End batches.

(** ** Concrete runs *)

Section demo.
#[local] Existing Instance sum_crc.

Lemma recv_batch_returns_the_next_messages_witness :
  exists p', recv_batch 5 [] (PySubscription (demo_env, demo_sub) []) = (p', Ok demo_msgs) /\ cursor (inner p').2 = 3.
Proof.
  destruct (recv_batch_returns_the_next_messages 0 demo_msgs 5 [] (PySubscription (demo_env, demo_sub) [])) as (_ & _ & _ & H).
  destruct H as (p' & E & _ & Hc); [exact demo_feeds|vm_compute; reflexivity|]. exists p'. split; [exact E|]. etrans; [exact Hc|]. reflexivity.
Defined.

(** At the second message, with the third to come. *)
Definition live_sub : subscriber replayer := Subscriber_ 1 0 1 None.

Lemma live_feeds : feeds 0 demo_msgs (demo_env, live_sub).
Proof. exists 0, 1. constructor; try (vm_compute; split_and?; congruence). exact demo_repr. Qed.

(** The third message is shorter than a row: it is gone, and so is the count of the rows before it. *)
Lemma recv_into_buffer_fills_rows_witness :
  exists s' buf, recv_into_buffer 2 [] (Some (PyBuffer false true (zrep 6 Byte.xff))) (PySubscription (demo_env, live_sub) [])
      = (PySubscription s' [Byte.x02; Byte.x02], buf, Err (ValueError (RowLength 1 1 2)))
    /\ buf = [Byte.x02; Byte.x02; Byte.x03; Byte.xff; Byte.xff; Byte.xff] /\ cursor s'.2 = 3.
Proof.
  destruct (feeds_receive_timeout 0 demo_msgs [] (demo_env, live_sub) live_feeds) as (s & d & E & Hl & Hf & _); [vm_compute; reflexivity|].
  pose proof E as E1. vm_compute in E1. injection E1 as Es Ed. subst d.
  pose proof (recv_into_buffer_fills_rows 0 demo_msgs 2 [] (Some (PyBuffer false true (zrep 6 Byte.xff))) (PySubscription (demo_env, live_sub) [])) as H.
  assert (E0 : (2 =? 0) = false) by reflexivity. assert (Ew : writable_view (RE := wal_error) (Some (PyBuffer false true (zrep 6 Byte.xff))) = Ok (zrep 6 Byte.xff)) by reflexivity.
  assert (El : (zlen (zrep 6 Byte.xff) <? 2) = false) by reflexivity.
  rewrite E0, Ew, El in H. change (inner (PySubscription (demo_env, live_sub) [])) with (demo_env, live_sub) in H. rewrite E in H. specialize (H ltac:(lia)).
  destruct H as [_ H]. destruct H as [_ H].
  - reflexivity.
  - exact Hf.
  - rewrite <- Es. reflexivity.
  - destruct (H [] [Byte.x03] []) as (s' & Ec & _ & Hc).
    + rewrite <- Es. vm_compute. reflexivity.
    + constructor.
    + vm_compute. congruence.
    + exists s', [Byte.x02; Byte.x02; Byte.x03; Byte.xff; Byte.xff; Byte.xff]. split; [exact Ec|]. split; [reflexivity|]. rewrite <- Es in Hc. exact Hc.
Defined.

Definition four_msgs : list (list byte) := [[Byte.x61]; [Byte.x62]; [Byte.x63]; [Byte.x64]].
Definition four_seg : seg := Seg 0 9 [Record_ 0 100 [Byte.x61]; Record_ 1 101 [Byte.x62]; Record_ 2 102 [Byte.x63]; Record_ 3 103 [Byte.x64]].
Definition four_env : env disk :=
  Env (foldl (fun r d => (publish_drop_oldest d r).1) (create 2 4 2) four_msgs) 0 false
    (Disk [(0, File (seg_file four_seg) (zlen (seg_file four_seg)))] []).

(** On a subscriber that replays the log, the first row comes from the log and the others from the ring: the
    ring's two slots no longer have the second message, the newest is taken instead, and the messages in
    between, and then the newest again, come with the reads after that. *)
Example batch_leaves_the_log :
  let call := recv_into_buffer 1 [] (Some (PyBuffer false true (zrep 4 Byte.x00))) (PySubscription (four_env, demo_sub) []) in
  (call.1.2, call.2) = ([Byte.x61; Byte.x64; Byte.x00; Byte.x00], Ok 2)
  /\ (recv_batch 4 [] call.1.1).2 = Ok [[Byte.x62]; [Byte.x63]; [Byte.x64]].
Proof. split; vm_compute; reflexivity. Qed.

(** The same reads one by one give every message once. *)
Example single_reads_do_not :
  (recv_batch 5 [] (PySubscription (four_env, demo_sub) [])).2 = Ok four_msgs.
Proof. vm_compute. reflexivity. Qed.
End demo.
