(* ===== verification/Topic.v ===== *)
(** * A topic at work

    The publisher of [Publisher.v] and any number of the subscribers of [Subscriber.v] on one ring and one
    log: publishes, batches, connections and reads in any order, and a connection's handshake with anything in
    between.  Calls are the steps here; inside a call, [Seqlock.v] and [Wakeup.v] interleave single accesses. *)

From Stdlib Require Import ZArith Lia Strings.Byte.
From stdpp Require Import base option strings gmap list.
From S2P Require Import Prelude OrdMap Chain Record Disk SegmentReader WalV1 WalRecovery Config Stats WalApi WalFollow Ring Publisher Subscriber.

(** ** The system *)

Inductive op :=
  | Publish (data : list byte)
  | PublishMany (items : list (list byte))
  | Connect (start : start_pos) (meanwhile : list op)
  | Poll (fd : nat)
  | Arm (fd : nat)
  | Drain (fd : nat)
  | Drop (fd : nat).

Section topic.
Context {W WE D Ix R RE : Type} `{!WalBackend W WE} `{!ReplayBackend D Ix R RE} `{!LogFiles W D}.

(** The directory a log writes to. *)
Definition log_dir (w : option W) : D := match w with Some x => lf_dir x | None => lf_none end.

(** A subscriber; for the statements, where it started, what it has got, and whether it sleeps: its last call
    was an [arm_wakeup] that found nothing. *)
Record member := Member { m_sub : subscriber R; m_start : Z; m_got : list (list byte); m_asleep : bool }.

(** The publisher and what it shares; the subscribers by their eventfds; and, for the statements, all messages
    the ring has taken. *)
Record topic := Topic {
  t_pub : Publisher.st (W := W);
  t_members : gmap nat member;
  t_next_fd : nat;
  t_sent : list (list byte)
}.

Definition t_ring (t : topic) : ring := wring (t_pub t).1.

(** What the subscriber with the given eventfd sees of the topic, and what the topic is after its call. *)
Definition view (fd : nat) (t : topic) : Subscriber.env D :=
  Env (t_ring t) (efd_count (t_pub t).1 fd) false (log_dir (wal (t_pub t).2)).
Definition put (fd : nat) (e : Subscriber.env D) (t : topic) : topic :=
  let '(w, p) := t_pub t in
  Topic (World (sring e) (<[fd := sefd e]> (efds w)) (backlog w), p) (t_members t) (t_next_fd t) (t_sent t).
Definition set_member (fd : nat) (m : member) (t : topic) : topic :=
  Topic (t_pub t) (<[fd := m]> (t_members t)) (t_next_fd t) (t_sent t).

(** A call of a subscriber. *)
Definition on_member {A} (fd : nat) (call : Subscriber.st (D := D) (R := R) -> Subscriber.st (D := D) (R := R) * A)
    (note : A -> member -> member) (t : topic) : topic :=
  match t_members t !! fd with
  | None => t
  | Some m =>
      let '((e, s), x) := call (view fd t, m_sub m) in
      set_member fd (note x (Member s (m_start m) (m_got m) false)) (put fd e t)
  end.

Definition got (x : option (list byte)) (m : member) : member :=
  match x with Some d => Member (m_sub m) (m_start m) (m_got m ++ [d]) (m_asleep m) | None => m end.
Definition armed (found : bool) (m : member) : member := Member (m_sub m) (m_start m) (m_got m) (negb found).

(** After a publisher's call on [items], the ring's tail tells how many it has taken. *)
Definition after_publish (items : list (list byte)) (s : Publisher.st (W := W)) (t : topic) : topic :=
  Topic s (t_members t) (t_next_fd t) (t_sent t ++ ztake (tail (wring s.1) - tail (t_ring t)) items).

(** The handshake: a fresh eventfd, and a connection in the listener's queue. *)
Definition announce (idx : nat) (r : ring) (t : topic) : topic :=
  let '(w, p) := t_pub t in
  Topic (World r (<[t_next_fd t := 0]> (efds w)) (backlog w ++ [Ok (Client idx (t_next_fd t))]), p)
    (t_members t) (S (t_next_fd t)) (t_sent t).

(** A connection on a topic that is [before] when it claims a slot and [t] when it reads the tail. *)
Definition connected (fd : nat) (start : start_pos) (before t : topic) : topic :=
  let '(e, x) := connect_with "topic" start [(true, true)] (Ok tt) [(true, true)] (Ok tt) (fun _ => view fd t) (view fd before) in
  match x with
  | Ok s => set_member fd (Member s (cursor s) [] false) (put fd e t)
  | Err _ => put fd e t
  end.

Fixpoint step (t : topic) (o : op) {struct o} : topic :=
  match o with
  | Publish data => after_publish [data] (Publisher.publish data (t_pub t)).1 t
  | PublishMany items => after_publish items (Publisher.publish_many items (t_pub t)).1 t
  | Connect start meanwhile =>
      match claim_cursor (current_tail (t_ring t)) (t_ring t) with
      | (_, None) => fold_left step meanwhile t
      | (r, Some idx) => connected (t_next_fd t) start t (fold_left step meanwhile (announce idx r t))
      end
  | Poll fd => on_member fd Subscriber.try_receive got t
  | Arm fd => on_member fd arm_wakeup armed t
  | Drain fd => on_member fd (drain_wakeup (RE := RE)) (fun _ m => m) t
  | Drop fd =>
      match t_members t !! fd with
      | None => t
      | Some m =>
          let t := put fd (Subscriber.drop (view fd t, m_sub m)) t in
          Topic (t_pub t) (delete fd (t_members t)) (t_next_fd t) (t_sent t)
      end
  end.

Definition run (ops : list op) (t : topic) : topic := fold_left step ops t.

(** A topic whose publisher has just been made, on no ring file and a log that holds nothing. *)
Definition fresh_topic (cfg : bus_config) (w : option W) : topic := Topic (Publisher.create NoRingFile cfg w) ∅ 0 [].

(** All that is published, and where connections start, in the calls of a run. *)
Fixpoint payloads (o : op) : list (list byte) :=
  match o with
  | Publish data => [data]
  | PublishMany items => items
  | Connect _ meanwhile => concat (map payloads meanwhile)
  | _ => []
  end.

Fixpoint starts (o : op) : list start_pos :=
  match o with Connect start meanwhile => start :: concat (map starts meanwhile) | _ => [] end.
End topic.

(** A position that may be out of the ring, and positions that make sense. *)
Definition asks_back (start : start_pos) : bool := match start with Explicit _ => true | _ => false end.
Definition start_ok (cap : Z) (start : start_pos) : Prop :=
  match start with Now => True | HistoryBack n => 0 <= n <= cap | Explicit c => 0 <= c < two63 end.

(** ** What a publisher's call does *)

Section growing.
Context {W WE : Type} `{!WalBackend W WE} `{!WalLaws W WE}.
#[local] Notation pst := (Publisher.st (W := W)).

(** A log that has taken [new], one message after the other. *)
Fixpoint appended (new : list (list byte)) (x x' : W) : Prop :=
  match new with
  | [] => x' = x
  | d :: new => exists x1 base hist, wal_logs x base hist /\ wal_fits x d /\ wb_pending_cursor x + 1 < two64
      /\ wb_append (wb_pending_cursor x) (wb_current_ts x) d x = (x1, Ok tt) /\ appended new x1 x'
  end.

Definition logged (new : list (list byte)) (w w' : option W) : Prop :=
  match w, w' with Some x, Some x' => appended new x x' | None, None => True | _, _ => False end.

Lemma appended_app new new' x x1 x' : appended new x x1 -> appended new' x1 x' -> appended (new ++ new') x x'.
Proof.
  revert x. induction new as [|d new IH]; intros x; cbn [appended app]; [by intros ->|].
  intros (y & base & hist & H1 & H2 & H3 & H4 & H5) H6. exists y, base, hist. eauto 10.
Qed.

Lemma logged_app new new' w w1 w' : logged new w w1 -> logged new' w1 w' -> logged (new ++ new') w w'.
Proof. destruct w, w1, w'; cbn; try done. apply appended_app. Qed.

Lemma logged_nil w : logged [] w w.
Proof. by destruct w. Qed.

(** No connection in the listener's queue has failed. *)
Definition welcoming (s : pst) : Prop := Forall (fun x => is_ok x = true) (backlog s.1).

(** From [s] to [s'] the ring and the log have taken [new], and the cursors have stayed; when something was
    taken under the [Error] policy, no claimed cursor was a whole ring behind. *)
Record grows (sent new : list (list byte)) (s s' : pst) : Prop := {
  g_inv : pub_inv 0 (sent ++ new) s';
  g_policy : policy s'.2 = policy s.2;
  g_cursors : cursors (wring s'.1) = cursors (wring s.1);
  g_capacity : capacity (wring s'.1) = capacity (wring s.1);
  g_slot : slot_payload_size (wring s'.1) = slot_payload_size (wring s.1);
  g_lag : policy s.2 = ErrorPolicy -> new <> [] -> forall c, c ∈ cursors (wring s.1) -> c <> CURSOR_UNCLAIMED ->
    zlen (sent ++ new) - c <= capacity (wring s.1);
  g_fits : forall d, data_fits d s -> data_fits d s';
  g_welcoming : welcoming s -> welcoming s';
  g_logged : logged new (wal s.2) (wal s'.2)
}.

Lemma inv_tail sent s : pub_inv 0 sent s -> tail (wring s.1) = zlen sent.
Proof. intros [Hr _]. by rewrite (repr_tail _ _ _ Hr). Qed.

Lemma grows_nil sent s : pub_inv 0 sent s -> grows sent [] s s.
Proof. intros Hi. constructor; rewrite ?app_nil_r; try done. apply logged_nil. Qed.

Lemma grows_trans sent new new' s s1 s2 : pub_inv 0 sent s -> grows sent new s s1 -> grows (sent ++ new) new' s1 s2 -> grows sent (new ++ new') s s2.
Proof.
  intros Hi [H1 H2 H3 H4 H5 H6 H7 H8 H9] [K1 K2 K3 K4 K5 K6 K7 K8 K9]. rewrite <- app_assoc in K1. constructor; try congruence.
  - intros Hpol Hne c Hc Hcu. destruct new' as [|x new'].
    + rewrite app_nil_r in *. by apply H6.
    + rewrite app_assoc, <- H4. apply K6; [congruence|done|by rewrite H3|done].
  - auto.
  - auto.
  - by eapply logged_app.
Qed.

(** A state with the same ring up to flags, and the same log. *)
Lemma grows_frame sent new s s1 s2 : grows sent new s s1 -> same_ring (wring s1.1) (wring s2.1) -> wal s2.2 = wal s1.2 ->
  policy s2.2 = policy s1.2 -> (welcoming s1 -> welcoming s2) -> grows sent new s s2.
Proof.
  intros [[Hr Hw] H2 H3 H4 H5 H6 H7 H8 H9] Hs El Ep Hwel. destruct (Hs) as [E _].
  constructor; try done; try congruence; try (rewrite E; cbn; congruence).
  - split; [by eapply same_ring_repr|by rewrite El].
  - intros d Hd x. rewrite El. by apply H7.
  - auto.
Qed.

Lemma grows_broadcast sent new s s1 : grows sent new s s1 -> grows sent new s (broadcast_wakeup s1).
Proof.
  intros Hg. destruct (broadcast_frame s1) as (Hs & Hb & Hw & Hp & _). eapply grows_frame; try done. unfold welcoming. by rewrite Hb.
Qed.

(** Everyone waiting is let in, unless a connection has failed. *)
Lemma grows_accept sent s : pub_inv 0 sent s ->
  let '(s1, r) := accept_clients (WE := WE) s in grows sent [] s s1 /\ (welcoming s -> r = Ok tt).
Proof.
  intros Hi. destruct s as [w p]. unfold accept_clients. pose proof (accept_all_ok (WE := WE) (backlog w) (clients p)) as Ha.
  destruct (accept_all _ _) as [[l cs] r]. split.
  - eapply grows_frame; [by apply grows_nil|apply same_ring_refl|done|done|]. intros Hwel. destruct (Ha Hwel) as (new & [= -> _ _] & _). constructor.
  - intros Hwel. by destruct (Ha Hwel) as (new & [= _ _ ->] & _).
Qed.

Lemma append_logged sent data s : pub_inv 0 sent s -> data_fits data s -> tail (wring s.1) + 1 < two63 ->
  logged [data] (wal s.2) (wal (append_wal data s).1.2).
Proof.
  destruct s as [w p]. intros Hinv Hfit Hmax. unfold append_wal. cbn [fst snd] in *. destruct (wal p) as [x|] eqn:Ex; [|cbn; by rewrite Ex].
  pose proof (pub_inv_pending _ _ _ _ Hinv Ex) as Hpen. destruct Hinv as [_ Hw]. destruct (Hw x Ex) as (wbase & pre & Hl & Hb). cbn [fst] in *.
  destruct (wal_append_logs x wbase (pre ++ sent) data Hl (Hfit x Ex)) as (x' & E & _); [ulia|].
  unfold current_tail. rewrite <- Hpen, E. exists x', wbase, (pre ++ sent). split; [done|]. split; [by apply Hfit|]. split; [ulia|]. done.
Qed.

(** The log's append and the ring's write, when the ring takes the message. *)
Lemma grows_write sent data s s1 s2 : pub_inv 0 sent s -> data_fits data s -> tail (wring s.1) + 1 < two63 ->
  zlen data <= slot_payload_size (wring s.1) ->
  append_wal data s = (s1, Ok tt) -> ring_publish data s1 = (s2, true) -> grows sent [data] s s2.
Proof.
  destruct s as [w p]. intros Hi Hfit Hmax Hlen E1 E2. cbn [fst snd] in *.
  destruct (append_wal_ok 0 sent data (w, p) Hi Hfit Hmax) as (p' & E & Hpo & _ & Hlogs & Hfits & _). cbn [fst snd] in *.
  rewrite E in E1. injection E1 as <-. pose proof (ring_publish_spec 0 sent data w p' (proj1 Hi) Hlen Hmax) as Hs.
  destruct (match policy p' with ErrorPolicy => is_full (wring w) | DropOldest => false end) eqn:Ef; [by rewrite Hs in E2|].
  destruct Hs as (r & E3 & Hr & Ht). rewrite E3 in E2. injection E2 as <-.
  pose proof (ring_publish_frame data w p') as Hfr. rewrite E3 in Hfr. destruct Hfr as (_ & Hc & _ & _ & Hb).
  assert (capacity r = capacity (wring w) /\ slot_payload_size r = slot_payload_size (wring w)) as [Hcap Hsl].
  { unfold ring_publish in E3. destruct (policy p').
    - rewrite try_publish_is_full, Ef in E3 by done. injection E3 as <-. by rewrite write_slot_eq.
    - injection E3 as <-. cbn [publish_drop_oldest fst]. by rewrite write_slot_eq. }
  constructor; cbn [fst snd with_ring wring] in *; try done.
  - intros Hpol _ c Hin Hcu. rewrite Hpo, Hpol in Ef. pose proof (inv_tail _ _ Hi) as Htl. cbn [fst] in Htl. rewrite zlen_app, zlen_cons, zlen_nil.
    pose proof (wf_capacity _ (repr_wf _ _ _ (proj1 Hi))). destruct (Z.le_gt_cases c (tail (wring w))) as [Hle|]; [|cbn [fst] in *; lia].
    pose proof (not_full_lag _ c (repr_wf _ _ _ (proj1 Hi)) Ef Hin Hcu Hle) as Hlag. cbn [fst] in Hlag. lia.
  - pose proof (append_logged sent data (w, p) Hi Hfit Hmax) as Hlo. by rewrite E in Hlo.
Qed.

(** One message, once the checks in front of the log are passed. *)
Lemma item_grows sent data s : pub_inv 0 sent s -> data_fits data s -> tail (wring s.1) + 1 < two63 ->
  zlen data <= slot_payload_size (wring s.1) -> wal_full_check s = false ->
  exists s1, append_wal data s = (s1, Ok tt)
    /\ let '(s2, ok) := ring_publish data s1 in grows sent (if ok then [data] else []) s s2 /\ (policy s.2 = DropOldest -> ok = true).
Proof.
  intros Hi Hfit Hmax Hlen Hchk. destruct (append_wal_ok 0 sent data s Hi Hfit Hmax) as (p' & E & Hpo & Hnone & _).
  exists (s.1, p'). split; [exact E|]. pose proof (ring_publish_spec 0 sent data s.1 p' (proj1 Hi) Hlen Hmax) as Hs. rewrite Hpo in Hs.
  destruct (match policy s.2 with ErrorPolicy => is_full (wring s.1) | DropOldest => false end) eqn:Ef.
  - rewrite Hs. destruct (policy s.2) eqn:Hpol; [|done]. split; [|done].
    unfold wal_full_check in Hchk. destruct (wal s.2) as [x|] eqn:Ex; [by rewrite Hpol, Ef in Hchk|].
    assert (wal p' = None) as Hn by by apply Hnone.
    eapply grows_frame; [by apply grows_nil|apply same_ring_refl|cbn; congruence|cbn; congruence|done].
  - destruct Hs as (r & E2 & _). rewrite E2. split; [|done]. by eapply grows_write.
Qed.

Lemma grows_room sent new s s' k : pub_inv 0 sent s -> grows sent new s s' -> tail (wring s.1) + zlen new + k < two63 -> tail (wring s'.1) + k < two63.
Proof. intros Hi Hg Hk. rewrite (inv_tail _ _ Hi) in Hk. rewrite (inv_tail _ _ (g_inv _ _ _ _ Hg)), zlen_app. lia. Qed.

(** A publisher that nothing holds up. *)
Definition takes_all (s : pst) : Prop := policy s.2 = DropOldest /\ welcoming s.
Definition fits_slot (s : pst) (d : list byte) : Prop := zlen d <= slot_payload_size (wring s.1).

Lemma grows_takes sent new s s' : grows sent new s s' -> takes_all s -> takes_all s' /\ forall d, fits_slot s d -> fits_slot s' d.
Proof. intros Hg [Hp Hw]. split; [split; [by rewrite (g_policy _ _ _ _ Hg)|by apply Hg]|]. intros d. unfold fits_slot. by rewrite (g_slot _ _ _ _ Hg). Qed.

Lemma full_check_takes (s : pst) : policy s.2 = DropOldest -> wal_full_check s = false.
Proof. unfold wal_full_check. intros ->. by destruct (wal s.2). Qed.

(** The counters do not matter. *)
Lemma same_state sent new s s1 s2 : grows sent new s s1 -> s2.1 = s1.1 -> wal s2.2 = wal s1.2 -> policy s2.2 = policy s1.2 -> grows sent new s s2.
Proof. intros Hg E1 E2 E3. apply (grows_frame _ _ _ s1); try done; [rewrite E1; apply same_ring_refl|unfold welcoming; by rewrite E1]. Qed.

(** What a call takes of the messages it is given; all of them, if nothing holds it up. *)
Definition takes (sent items : list (list byte)) (s s' : pst) : Prop :=
  exists new, new `prefix_of` items /\ grows sent new s s' /\ (takes_all s -> Forall (fits_slot s) items -> new = items).

Lemma publish_takes sent data s : pub_inv 0 sent s -> data_fits data s -> tail (wring s.1) + 1 < two63 ->
  takes sent [data] s (publish data s).1.
Proof.
  intros Hi Hfit Hmax. unfold publish. destruct (Z.ltb_spec (slot_payload_size (wring s.1)) (zlen data)).
  { exists []. split; [apply prefix_nil|]. split; [by apply grows_nil|]. intros _ Hf. apply Forall_cons in Hf as [Hf _]. unfold fits_slot in Hf. lia. }
  pose proof (grows_accept sent s Hi) as Ha. unfold bind at 1. destruct (accept_clients s) as [s1 r]. destruct Ha as [Ha Hr].
  destruct r as [[]|e]; cbn [fst]; [|exists []; split; [apply prefix_nil|]; split; [done|]; intros [_ Hw]; by specialize (Hr Hw)].
  pose proof (g_inv _ _ _ _ Ha) as Hi1. rewrite app_nil_r in Hi1. unfold publish_record.
  destruct (wal_full_check s1) eqn:Ec.
  { exists []. split; [apply prefix_nil|]. split; [done|]. intros [Hp _]. rewrite <- (g_policy _ _ _ _ Ha) in Hp. by rewrite full_check_takes in Ec. }
  destruct (item_grows sent data s1) as (s2 & E & Hg); try done.
  { by apply (g_fits _ _ _ _ Ha). }
  { eapply grows_room; [exact Hi|done|]. rewrite zlen_nil. lia. }
  { rewrite (g_slot _ _ _ _ Ha). lia. }
  unfold bind. rewrite E. destruct (ring_publish data s2) as [[w p] ok]. destruct Hg as [Hg Hall]. rewrite (g_policy _ _ _ _ Ha) in Hall. destruct ok.
  - exists [data]. split; [done|]. split; [|done]. cbn [fst]. apply grows_broadcast. apply (grows_trans sent [] [data] s s1); rewrite ?app_nil_r; try done.
    by apply (same_state _ _ _ (w, p)).
  - exists []. split; [apply prefix_nil|]. split; [|intros [Hp _]; by specialize (Hall Hp)]. cbn [fst].
    apply (grows_trans sent [] [] s s1); rewrite ?app_nil_r; try done. by apply (same_state _ _ _ (w, p)).
Qed.

Lemma items_take items : forall sent count s, pub_inv 0 sent s -> Forall (fun d => data_fits d s) items ->
  tail (wring s.1) + zlen items < two63 -> takes sent items s (publish_items items count s).1.1.
Proof.
  induction items as [|data items IH]; intros sent count s Hi Hfit Hmax; cbn [publish_items].
  { exists []. split; [done|]. split; [by apply grows_nil|done]. }
  apply Forall_cons in Hfit as [Hd Hfit]. rewrite zlen_cons in Hmax. pose proof (zlen_nonneg items).
  destruct (Z.ltb_spec (slot_payload_size (wring s.1)) (zlen data)).
  { cbn [fst]. exists []. split; [apply prefix_nil|]. split; [|intros _ Hf; apply Forall_cons in Hf as [Hf _]; unfold fits_slot in Hf; lia].
    destruct (0 <? count); [apply grows_broadcast|]; by apply grows_nil. }
  destruct (wal_full_check s) eqn:Ec.
  { exists []. split; [apply prefix_nil|]. split; [by apply grows_nil|]. intros [Hp _]. by rewrite full_check_takes in Ec. }
  destruct (item_grows sent data s) as (s2 & E & Hg); try done; [lia|]. rewrite E.
  destruct (ring_publish data s2) as [s3 ok]. destruct Hg as [Hg Hall]. destruct ok.
  2:{ exists []. split; [apply prefix_nil|]. split; [done|]. intros [Hp _]. by specialize (Hall Hp). }
  destruct (IH (sent ++ [data]) (count + 1) s3) as (new & Hpre & Hg' & Hall').
  - apply Hg.
  - eapply Forall_impl; [exact Hfit|]. intros d. apply Hg.
  - eapply grows_room; [exact Hi|done|]. rewrite zlen_cons, zlen_nil. lia.
  - exists (data :: new). split; [by apply prefix_cons|]. split; [by apply (grows_trans sent [data] new s s3)|].
    intros Ht Hf. apply Forall_cons in Hf as [_ Hf]. destruct (grows_takes _ _ _ _ Hg Ht) as [Ht' Hsl]. rewrite Hall'; [done|done|].
    eapply Forall_impl; [exact Hf|exact Hsl].
Qed.

Lemma publish_many_takes sent items s : pub_inv 0 sent s -> Forall (fun d => data_fits d s) items ->
  tail (wring s.1) + zlen items < two63 -> takes sent items s (publish_many items s).1.
Proof.
  intros Hi Hfit Hmax. unfold publish_many. pose proof (grows_accept sent s Hi) as Ha. unfold bind at 1.
  destruct (accept_clients s) as [s1 r]. destruct Ha as [Ha Hr].
  destruct r as [[]|e]; cbn [fst]; [|exists []; split; [apply prefix_nil|]; split; [done|]; intros [_ Hw]; by specialize (Hr Hw)].
  pose proof (g_inv _ _ _ _ Ha) as Hi1. rewrite app_nil_r in Hi1.
  destruct (items_take items sent 0 s1) as (new & Hpre & Hg & Hall); try done.
  { eapply Forall_impl; [exact Hfit|]. intros d. apply Ha. }
  { eapply grows_room; [exact Hi|done|]. rewrite zlen_nil. lia. }
  exists new. split; [done|]. assert (Hg' : grows sent new s (publish_items items 0 s1).1.1).
  { apply (grows_trans sent [] new s s1); rewrite ?app_nil_r; done. }
  split.
  - destruct (publish_items items 0 s1) as [[[w p] n] [e|]]; [done|]. cbn [fst] in *.
    destruct (0 <? n); [|done]. apply grows_broadcast. by apply (same_state _ _ _ (w, p)).
  - intros Ht Hf. destruct (grows_takes _ _ _ _ Ha Ht) as [Ht' Hsl]. apply Hall; [done|]. eapply Forall_impl; [exact Hf|exact Hsl].
Qed.
End growing.

(** What a topic is made with. *)
Record fresh_ok {W WE : Type} `{!WalBackend W WE} `{!WalLaws W WE} (cfg : bus_config) (w : option W) : Prop := {
  fo_capacity : 0 < bcapacity cfg < two32;
  fo_slot : 0 <= slot_size cfg < two32;
  fo_subs : 0 <= bmax_subscribers cfg < two32;
  fo_log : forall x, w = Some x -> wal_logs x 0 []
}.

(** ** The invariant of a run *)

Section delivery.
Context {W WE D Ix R RE : Type} `{!WalBackend W WE} `{!WalLaws W WE} `{!ReplayBackend D Ix R RE} `{!LogFiles W D}
  `{!FollowLaws W WE D Ix R RE}.
#[local] Notation member := (member (R := R)).
#[local] Notation topic := (topic (W := W) (R := R)).

(** Whether connections ask for positions; the log then has to keep all of its messages. *)
Context {history : bool}.

Definition keeps_on (new : list (list byte)) (w : option W) : Prop := history = true -> exists x, w = Some x /\ lf_keeps x 0 new.

(** [reads log start c got]: from [start] on, [got] was read from ever later positions of [log], the last one
    just before [c]. *)
Inductive reads (log : list (list byte)) (start : Z) : Z -> list (list byte) -> Prop :=
  | reads_start : reads log start start []
  | reads_next c got p d : reads log start c got -> c <= p -> log_at 0 log p = Some d -> reads log start (p + 1) (got ++ [d]).

Lemma reads_app log new start c got : reads log start c got -> reads (log ++ new) start c got.
Proof.
  induction 1 as [|c got p d _ IH Hp Hd]; [constructor|]. apply (reads_next _ _ c); [done|done|].
  unfold log_at in *. destruct (p <? 0); [done|]. by apply lookup_app_l_Some.
Qed.

(** What was got is part of what was sent in between, in its order. *)
Lemma reads_sublist log start c got : 0 <= start -> reads log start c got -> start <= c /\ got `sublist_of` zslice start c log.
Proof.
  intros Hs. induction 1 as [|c got p d _ [Hc IH] Hp Hd]; [split; [done|apply sublist_nil_l]|]. split; [lia|].
  unfold log_at in Hd. destruct (Z.ltb_spec p 0); [done|]. rewrite Z.sub_0_r in Hd.
  rewrite (zslice_split c) by lia. rewrite (zslice_split p c (p + 1)) by lia.
  apply sublist_app; [done|]. apply sublist_inserts_l. pose proof (zslice_snoc p p log d ltac:(lia) ltac:(lia) Hd) as E.
  rewrite <- E. by apply sublist_inserts_l.
Qed.

(** What a subscriber reads before it goes on in the ring: nothing, and its slot has its position; or [hist], out of
    the log, and its slot is [parked] where the tail was when it connected. *)
Definition replaying (t : topic) (s : subscriber R) (parked : Z) (hist : list (list byte)) : Prop :=
  match wal_replay s with
  | None => hist = [] /\ parked = cursor s
  | Some r => history = true /\ cursor s <= tail (t_ring t) /\ 0 <= parked <= tail (t_ring t)
      /\ exists x, wal (t_pub t).2 = Some x /\ lf_follows x r (cursor s) hist
  end.

(** These are the next messages, and the ring has what comes then, or will have it when the policy is [Error]. *)
Record fed (t : topic) (s : subscriber R) (parked : Z) (hist : list (list byte)) : Prop := {
  fe_source : replaying t s parked hist;
  fe_slot : cursors (t_ring t) !! cursor_idx s = Some parked;
  fe_next : hist `prefix_of` zdrop (cursor s) (t_sent t);
  fe_enough : parked <= cursor s + zlen hist;
  fe_window : policy (t_pub t).2 = ErrorPolicy -> tail (t_ring t) - capacity (t_ring t) <= parked
}.

(** A subscriber has read from where it started up to its position: under the [Error] policy everything, and the
    rest is ahead. *)
Record member_ok (t : topic) (m : member) : Prop := {
  mk_fed : exists parked hist, fed t (m_sub m) parked hist;
  mk_start : 0 <= m_start m <= cursor (m_sub m);
  mk_pos : cursor (m_sub m) < two63 /\ cursor (m_sub m) <= Z.max (if history then m_start m else 0) (tail (t_ring t));
  mk_got : reads (t_sent t) (m_start m) (cursor (m_sub m)) (m_got m);
  mk_careful : policy (t_pub t).2 = ErrorPolicy -> m_got m = zslice (m_start m) (cursor (m_sub m)) (t_sent t)
}.

(** [res]: slots that connections have claimed and not yet finished with. *)
Record topic_ok (res : list nat) (t : topic) : Prop := {
  tk_inv : pub_inv 0 (t_sent t) (t_pub t);
  tk_welcoming : welcoming (t_pub t);
  tk_members : forall fd m, t_members t !! fd = Some m -> member_ok t m;
  tk_distinct : forall fd fd' m m', t_members t !! fd = Some m -> t_members t !! fd' = Some m' -> fd <> fd' ->
    cursor_idx (m_sub m) <> cursor_idx (m_sub m');
  tk_pending : Forall (fun i => exists c, cursors (t_ring t) !! i = Some c /\ c <> CURSOR_UNCLAIMED) res;
  tk_apart : forall fd m, t_members t !! fd = Some m -> cursor_idx (m_sub m) ∉ res;
  tk_res : NoDup res
}.

Lemma topic_tail res t : topic_ok res t -> tail (t_ring t) = zlen (t_sent t).
Proof. intros Hok. apply inv_tail, (tk_inv _ _ Hok). Qed.

Lemma topic_bound res t : topic_ok res t -> zlen (t_sent t) < two63.
Proof. intros Hok. rewrite <- (topic_tail _ _ Hok). apply (repr_bound 0 (t_sent t)), (tk_inv _ _ Hok). Qed.

Lemma fed_live t s parked hist : fed t s parked hist -> wal_replay s = None -> hist = [] /\ parked = cursor s.
Proof. intros [Hs _ _ _ _] E. unfold replaying in Hs. by rewrite E in Hs. Qed.

Lemma fed_ahead t s parked hist : fed t s parked hist -> 0 <= cursor s -> tail (t_ring t) = zlen (t_sent t) ->
  (cursor s < tail (t_ring t) -> cursor s + zlen hist <= tail (t_ring t)) /\ (tail (t_ring t) <= cursor s -> hist = []).
Proof.
  intros [_ _ [k E] _ _] H0 Ht. split; intros Hc.
  - apply (f_equal zlen) in E. rewrite zlen_zdrop, zlen_app in E by lia. pose proof (zlen_nonneg k). lia.
  - rewrite zdrop_all in E by lia. by destruct hist.
Qed.

Lemma fed_parked t s parked hist : fed t s parked hist -> 0 <= cursor s < two63 -> tail (t_ring t) < two63 -> 0 <= parked < two63.
Proof. intros [Hs _ _ _ _] Hc Ht. unfold replaying in Hs. destruct (wal_replay s); [lia|]. destruct Hs as [_ ->]. lia. Qed.

Lemma small_claimed c : 0 <= c < two63 -> c <> CURSOR_UNCLAIMED.
Proof. intros Hc. unfold CURSOR_UNCLAIMED, u64_MAX. rewrite two64_eq, two63_eq in *. lia. Qed.

(** One slot's position and flag change, and what its owner keeps of it. *)
Lemma moved_ok res fd idx v t t' : topic_ok res t -> idx ∉ res -> is_u64 v ->
  same_ring (set_cursor idx v (t_ring t)) (t_ring t') -> t_sent t' = t_sent t -> (t_pub t').2 = (t_pub t).2 ->
  (welcoming (t_pub t) -> welcoming (t_pub t')) ->
  (forall fd' m, t_members t' !! fd' = Some m ->
     (t_members t !! fd' = Some m /\ cursor_idx (m_sub m) <> idx) \/ (fd' = fd /\ cursor_idx (m_sub m) = idx /\ member_ok t' m)) ->
  topic_ok res t'.
Proof.
  intros Hok Hres Hv [Er Hl] Es Ep Hwel Hms.
  assert (Hc : cursors (t_ring t') = <[idx := v]> (cursors (t_ring t))) by (rewrite Er; done).
  constructor.
  - destruct (tk_inv _ _ Hok) as [Hr Hw]. split; [|by rewrite Ep, Es]. rewrite Es. change (wring (t_pub t').1) with (t_ring t').
    eapply same_ring_repr; [by split|]. by apply set_cursor_repr.
  - apply Hwel, Hok.
  - intros fd' m Hm. destruct (Hms _ _ Hm) as [[Hm' Hne]|(_ & _ & Hmo)]; [|done].
    destruct (tk_members _ _ Hok _ _ Hm') as [(parked & hist & [F1 F2 F3 F4 F5]) H3 H4 H5 H6].
    assert (Ht : tail (t_ring t') = tail (t_ring t)) by (by rewrite Er). assert (Hcap : capacity (t_ring t') = capacity (t_ring t)) by (by rewrite Er).
    constructor; rewrite ?Es, ?Ep, ?Ht, ?Hcap; try done. exists parked, hist. constructor; rewrite ?Es, ?Ep, ?Ht, ?Hcap; try done.
    + unfold replaying in *. by rewrite Ep, Ht.
    + by rewrite Hc, list_lookup_insert_ne.
  - intros fd1 fd2 m1 m2 Hm1 Hm2 Hne. destruct (Hms _ _ Hm1) as [[Hm1' Hn1]|(-> & Hi1 & _)], (Hms _ _ Hm2) as [[Hm2' Hn2]|(-> & Hi2 & _)].
    + by apply (tk_distinct _ _ Hok fd1 fd2).
    + congruence.
    + congruence.
    + done.
  - apply Forall_forall. intros i Hi. pose proof (tk_pending _ _ Hok) as Hp. rewrite Forall_forall in Hp. destruct (Hp i Hi) as (c & Hci & Hcu).
    exists c. split; [|done]. rewrite Hc, list_lookup_insert_ne; [done|]. intros ->. done.
  - intros fd' m Hm. destruct (Hms _ _ Hm) as [[Hm' Hn]|(_ & -> & _)]; [by eapply tk_apart|done].
  - apply Hok.
Qed.

(** A step that publishes of [l] at most, and all of it if it fits the slots and the policy never refuses. *)
Record stepped (res : list nat) (t t' : topic) (l : list (list byte)) : Prop := {
  sp_ok : topic_ok res t';
  sp_fits : forall d, data_fits d (t_pub t) -> data_fits d (t_pub t');
  sp_sent : zlen (t_sent t') <= zlen (t_sent t) + zlen l;
  sp_capacity : capacity (t_ring t') = capacity (t_ring t);
  sp_slot : slot_payload_size (t_ring t') = slot_payload_size (t_ring t);
  sp_policy : policy (t_pub t').2 = policy (t_pub t).2;
  sp_taken : policy (t_pub t).2 = DropOldest -> Forall (fits_slot (t_pub t)) l -> t_sent t' = t_sent t ++ l;
  sp_keeps : forall rest, keeps_on (l ++ rest) (wal (t_pub t).2) -> keeps_on rest (wal (t_pub t').2)
}.

Lemma stepped_refl res t : topic_ok res t -> stepped res t t [].
Proof. intros Hok. constructor; try done; [rewrite zlen_nil; lia|by rewrite app_nil_r]. Qed.

Lemma stepped_trans res' res t t1 t2 l k : stepped res' t t1 l -> stepped res t1 t2 k -> stepped res t t2 (l ++ k).
Proof.
  intros [H1 H2 H3 H4 H5 H6 H7 H8] [K1 K2 K3 K4 K5 K6 K7 K8]. constructor; [done|auto|rewrite zlen_app; lia|congruence..| |].
  2:{ intros rest. rewrite <- app_assoc. auto. }
  intros Hp Hf. apply Forall_app in Hf as [Hf1 Hf2]. rewrite K7, H7, app_assoc; [done|done|done|congruence|].
  eapply Forall_impl; [exact Hf2|]. intros d. unfold fits_slot. change (wring (t_pub t1).1) with (t_ring t1). by rewrite H5.
Qed.

(** *** A log that grows under its replayers *)

Lemma keeps_on_part l k w : keeps_on (l ++ k) w -> keeps_on l w /\ keeps_on k w.
Proof. intros Hk. split; intros Hh; destruct (Hk Hh) as (x & Ex & Hkx); exists x; (split; [done|]); by apply lf_part in Hkx as [? ?]. Qed.

Lemma appended_follows new : forall rest sent x x', appended new x x' -> lf_keeps x 0 (new ++ rest) -> wb_pending_cursor x = zlen sent ->
  lf_keeps x' 0 rest /\ forall r c h, 0 <= c <= zlen sent -> lf_follows x r c h -> h `prefix_of` zdrop c sent ->
    exists h', lf_follows x' r c h' /\ h `prefix_of` h' /\ h' `prefix_of` zdrop c (sent ++ new).
Proof.
  induction new as [|d new IH]; intros rest sent x x'; cbn [appended app].
  { intros -> Hk _. split; [done|]. intros r c h _ Hf Hp. exists h. by rewrite app_nil_r. }
  intros (x1 & base & hist & Hl & Hfit & Hmax & E & Ha) Hk Hpen.
  destruct (lf_append x x1 base hist 0 d (new ++ rest) Hl Hfit Hmax Hk E) as [Hk1 Hf1].
  assert (Hpen1 : wb_pending_cursor x1 = zlen (sent ++ [d])).
  { destruct (wal_append_logs x base hist d Hl Hfit Hmax) as (x2 & E2 & Hl2 & _). rewrite E in E2. injection E2 as <-.
    rewrite (wal_logs_pending _ _ _ Hl2), zlen_app. rewrite (wal_logs_pending _ _ _ Hl) in Hpen. rewrite zlen_app, zlen_cons, zlen_nil. lia. }
  destruct (IH rest (sent ++ [d]) x1 x' Ha Hk1 Hpen1) as [Hk' Hf']. split; [done|]. intros r c h Hc Hf Hp.
  assert (Hc1 : 0 <= c <= zlen (sent ++ [d])) by (rewrite zlen_app; pose proof (zlen_nonneg [d]); lia).
  rewrite <- app_assoc in Hf'. cbn [app] in Hf'. destruct (Hf1 r c h Hf) as [Hs|[Hend Hs]].
  - destruct (Hf' r c h Hc1 Hs) as (h' & ? & ? & ?); [|by exists h']. etrans; [exact Hp|]. apply prefix_zdrop. by eexists.
  - assert (h = zdrop c sent) as ->.
    { destruct Hp as [k Ek]. assert (k = []) as ->; [|by rewrite app_nil_r in Ek]. apply (f_equal zlen) in Ek.
      rewrite zlen_zdrop, zlen_app in Ek by lia. destruct k as [|y k]; [done|]. rewrite zlen_cons in Ek. pose proof (zlen_nonneg k). lia. }
    destruct (Hf' r c (zdrop c sent ++ [d]) Hc1 Hs) as (h' & ? & Hpre & ?); [by rewrite zdrop_app_le by lia|].
    exists h'. split; [done|]. split; [|done]. etrans; [|exact Hpre]. by eexists.
Qed.

(** The publisher's calls. *)
Lemma published_fed res items new s t m : topic_ok res t -> member_ok t m -> keeps_on items (wal (t_pub t).2) -> new `prefix_of` items ->
  grows (t_sent t) new (t_pub t) s -> t_sent (after_publish items s t) = t_sent t ++ new ->
  exists parked hist, fed (after_publish items s t) (m_sub m) parked hist.
Proof.
  intros Hok [(parked & hist & Hf) Hst [Hc Hpos] _ _] Hk [rest ->] Hg Hsent. pose proof (topic_tail _ _ Hok) as Ht. pose proof (topic_bound _ _ Hok) as Hb.
  pose proof (inv_tail _ _ (g_inv _ _ _ _ Hg)) as Ht'. rewrite zlen_app in Ht'. pose proof (zlen_nonneg new).
  pose proof (fed_parked _ _ _ _ Hf ltac:(lia) ltac:(lia)) as Hpb. destruct Hf as [F1 F2 F3 F4 F5].
  assert (Hw : policy (t_pub (after_publish (new ++ rest) s t)).2 = ErrorPolicy ->
    tail (t_ring (after_publish (new ++ rest) s t)) - capacity (t_ring (after_publish (new ++ rest) s t)) <= parked).
  { change (policy (t_pub (after_publish (new ++ rest) s t)).2) with (policy s.2). rewrite (g_policy _ _ _ _ Hg). intros Hpol.
    change (tail (t_ring (after_publish (new ++ rest) s t))) with (tail (wring s.1)).
    change (capacity (t_ring (after_publish (new ++ rest) s t))) with (capacity (wring s.1)). rewrite Ht', (g_capacity _ _ _ _ Hg).
    specialize (F5 Hpol). change (capacity (wring (t_pub t).1)) with (capacity (t_ring t)). destruct new as [|x new]; [rewrite zlen_nil; lia|].
    pose proof (g_lag _ _ _ _ Hg Hpol ltac:(done) parked) as Hlag. rewrite zlen_app in Hlag.
    change (capacity (wring (t_pub t).1)) with (capacity (t_ring t)) in Hlag.
    enough (zlen (t_sent t) + zlen (x :: new) - parked <= capacity (t_ring t)) by lia.
    apply Hlag; [by eapply list_elem_of_lookup_2|by apply small_claimed]. }
  assert (Hslot : cursors (t_ring (after_publish (new ++ rest) s t)) !! cursor_idx (m_sub m) = Some parked).
  { change (t_ring (after_publish (new ++ rest) s t)) with (wring s.1). by rewrite (g_cursors _ _ _ _ Hg). }
  unfold replaying in F1. destruct (wal_replay (m_sub m)) as [r|] eqn:Er.
  - destruct F1 as (Hh & Hct & Hpt & x & Ex & Hfo). destruct (Hk Hh) as (x0 & Ex0 & Hkx). rewrite Ex in Ex0. injection Ex0 as <-.
    pose proof (g_logged _ _ _ _ Hg) as Hlo. rewrite Ex in Hlo. destruct (wal s.2) as [x'|] eqn:Ex'; [|done]. cbn [logged] in Hlo.
    pose proof (pub_inv_pending _ _ _ _ (tk_inv _ _ Hok) Ex) as Hpen. change (tail (wring (t_pub t).1)) with (tail (t_ring t)) in Hpen. rewrite Ht in Hpen.
    destruct (appended_follows new rest (t_sent t) x x' Hlo Hkx Hpen) as [_ Hfol].
    destruct (Hfol r (cursor (m_sub m)) hist) as (h' & Hf' & [k ->] & Hp'); [lia|done|done|].
    exists parked, (hist ++ k). constructor; [|done|by rewrite Hsent|rewrite zlen_app; pose proof (zlen_nonneg k); lia|done].
    unfold replaying. rewrite Er. split; [done|]. change (tail (t_ring (after_publish (new ++ rest) s t))) with (tail (wring s.1)).
    split; [lia|]. split; [lia|]. by exists x'.
  - destruct F1 as [-> ->]. exists (cursor (m_sub m)), []. constructor; [unfold replaying; by rewrite Er|done|by apply prefix_nil|done|done].
Qed.

Lemma published_ok res items s t : topic_ok res t -> keeps_on items (wal (t_pub t).2) ->
  takes (t_sent t) items (t_pub t) s -> stepped res t (after_publish items s t) items.
Proof.
  intros Hok Hk (new & Hnew & Hg & Hall). pose proof Hnew as [rest Hpre]. pose proof (topic_tail _ _ Hok) as Ht.
  pose proof (inv_tail _ _ (g_inv _ _ _ _ Hg)) as Ht'. rewrite zlen_app in Ht'. pose proof (topic_bound _ _ Hok). pose proof (zlen_nonneg new).
  assert (Hsent : t_sent (after_publish items s t) = t_sent t ++ new).
  { unfold after_publish. cbn [t_sent]. rewrite Ht, Ht', Hpre. f_equal. apply ztake_app_exact. lia. }
  constructor; [|apply Hg| |by apply Hg..| |].
  2:{ rewrite Hsent, zlen_app, Hpre, zlen_app. pose proof (zlen_nonneg rest). lia. }
  2:{ intros Hp Hf. rewrite Hsent, Hall; [done|split; [done|apply Hok]|done]. }
  2:{ intros more Hkm Hh. destruct (Hkm Hh) as (x & Ex & Hkx). pose proof (g_logged _ _ _ _ Hg) as Hlo. rewrite Ex in Hlo.
      change (wal (t_pub (after_publish items s t)).2) with (wal s.2). destruct (wal s.2) as [x'|]; [|done]. exists x'. split; [done|]. cbn [logged] in Hlo.
      pose proof (pub_inv_pending _ _ _ _ (tk_inv _ _ Hok) Ex) as Hpen. change (tail (wring (t_pub t).1)) with (tail (t_ring t)) in Hpen. rewrite Ht in Hpen.
      rewrite Hpre, <- app_assoc in Hkx. destruct (appended_follows new (rest ++ more) (t_sent t) x x' Hlo Hkx Hpen) as [Hk' _]. by apply lf_part in Hk' as [_ ?]. }
  assert (Hc : cursors (t_ring (after_publish items s t)) = cursors (t_ring t)) by apply Hg.
  assert (Hmem : forall fd m, t_members t !! fd = Some m -> member_ok (after_publish items s t) m).
  { intros fd m Hm. pose proof (tk_members _ _ Hok _ _ Hm) as Hmo. destruct (published_fed res items new s t m Hok Hmo Hk Hnew Hg Hsent) as (parked & hist & Hf).
    destruct Hmo as [_ H3 [H4 H4'] H5 H6]. constructor; [by exists parked, hist|done|split; [done|]| |].
    - change (tail (t_ring (after_publish items s t))) with (tail (wring s.1)). lia.
    - rewrite Hsent. by apply reads_app.
    - change (policy (t_pub (after_publish items s t)).2) with (policy s.2). rewrite (g_policy _ _ _ _ Hg). intros Hpol.
      rewrite Hsent, (H6 Hpol). destruct (Z.le_gt_cases (cursor (m_sub m)) (zlen (t_sent t))); [symmetry; apply zslice_app_l; lia|].
      assert (m_start m = cursor (m_sub m)) as -> by (destruct history; lia). unfold zslice. by rewrite Z.sub_diag, !ztake_0. }
  constructor; try done.
  - rewrite Hsent. apply Hg.
  - apply Hg, Hok.
  - apply Hok.
  - rewrite Hc. apply Hok.
  - apply Hok.
  - apply Hok.
Qed.

(** The subscriber's calls that take no message. *)
Lemma fed_same t t' s parked hist : fed t s parked hist -> same_ring (t_ring t) (t_ring t') -> t_sent t' = t_sent t -> (t_pub t').2 = (t_pub t).2 ->
  fed t' s parked hist.
Proof.
  intros [F1 F2 F3 F4 F5] [Er _] Es Ep. assert (Hcap : capacity (t_ring t') = capacity (t_ring t)) by (by rewrite Er).
  assert (Htl : tail (t_ring t') = tail (t_ring t)) by (by rewrite Er). constructor; rewrite ?Es, ?Ep, ?Htl, ?Hcap; try done.
  - unfold replaying in *. by rewrite Ep, Htl.
  - by rewrite Er.
Qed.

Lemma quiet_ok res fd t t' m m' : topic_ok res t -> t_members t !! fd = Some m ->
  same_ring (t_ring t) (t_ring t') -> t_sent t' = t_sent t -> (t_pub t').2 = (t_pub t).2 -> t_members t' = <[fd := m']> (t_members t) ->
  m_sub m' = m_sub m -> m_start m' = m_start m -> m_got m' = m_got m -> (welcoming (t_pub t) -> welcoming (t_pub t')) -> stepped res t t' [].
Proof.
  intros Hok Hm Hsame Es Ep Em E1 E2 E3 Hwel. pose proof (tk_members _ _ Hok _ _ Hm) as [(parked & hist & Hf) H3 [H4 H4'] H5 H6].
  pose proof (topic_bound _ _ Hok). pose proof (topic_tail _ _ Hok) as Ht. pose proof (fed_parked _ _ _ _ Hf ltac:(lia) ltac:(lia)) as Hpb.
  pose proof (fed_same t t' _ _ _ Hf Hsame Es Ep) as Hf'. pose proof Hsame as [Er Hl].
  assert (Hcap : capacity (t_ring t') = capacity (t_ring t)) by (by rewrite Er).
  assert (Htl : tail (t_ring t') = tail (t_ring t)) by (by rewrite Er).
  constructor; [|unfold data_fits; rewrite Ep; done|rewrite Es, zlen_nil; lia|done|by rewrite Er|by rewrite Ep|by rewrite Es, app_nil_r|by rewrite Ep].
  apply (moved_ok res fd (cursor_idx (m_sub m)) parked t); try done.
  - by eapply tk_apart.
  - ulia.
  - split; [|done]. rewrite Er. unfold set_cursor. rewrite list_insert_id by apply Hf. by destruct (t_ring t).
  - intros fd' m0. rewrite Em. intros [[<- <-]|[Hne Hm0]]%lookup_insert_Some; [right|left; by eauto using tk_distinct].
    split; [done|]. split; [by rewrite E1|]. constructor; rewrite ?E1, ?E2, ?E3, ?Es, ?Ep, ?Htl; try done. by exists parked, hist.
Qed.

Lemma put_fields fd (e : Subscriber.env D) (t : topic) :
  t_ring (put fd e t) = sring e /\ t_sent (put fd e t) = t_sent t /\ (t_pub (put fd e t)).2 = (t_pub t).2
  /\ t_members (put fd e t) = t_members t /\ (welcoming (t_pub t) -> welcoming (t_pub (put fd e t))).
Proof. unfold put, t_ring, welcoming. by destruct (t_pub t). Qed.

(** Where the next read of a position below the tail finds its message. *)
Definition read_at (r : ring) (c : Z) : Z := if c <? tail r - capacity r then newest_pos r c else c.

Lemma read_at_spec r c : ring_wf r -> c < tail r ->
  c <= read_at r c < tail r /\ tail r - capacity r <= read_at r c /\ (tail r - capacity r <= c -> read_at r c = c).
Proof.
  intros Hwf Hc. pose proof (wf_capacity r Hwf). unfold read_at. destruct (Z.ltb_spec c (tail r - capacity r)); [|lia].
  pose proof (newest_pos_spec r c ltac:(lia) Hc). lia.
Qed.

Lemma receive_at log r i c out : ring_repr 0 log r -> 0 <= c -> c < tail r ->
  exists d, log_at 0 log (read_at r c) = Some d /\ Ring.try_receive i c out r = (set_cursor i (read_at r c + 1) r, d, Some (read_at r c + 1)).
Proof.
  intros Hr H0 Hc. destruct (try_receive_log 0 log r i c out Hr H0) as (_ & Hin & Hov). unfold read_at.
  destruct (Z.ltb_spec c (tail r - capacity r)) as [Hlt|Hge].
  - destruct (Hov Hlt) as (d & Hd & _ & E). eauto.
  - destruct (Hin ltac:(lia)) as (d & Hd & E). eauto.
Qed.

Lemma read_at_set i v r c : read_at (set_cursor i v r) c = read_at r c.
Proof. done. Qed.

(** What a poll does: it takes the next message out of the log, or reads the ring at its position. *)
Lemma poll_eq res fd t m parked hist : topic_ok res t -> t_members t !! fd = Some m -> fed t (m_sub m) parked hist ->
  exists (e : Subscriber.env D) m', on_member fd Subscriber.try_receive got t = set_member fd m' (put fd e t) /\ m_start m' = m_start m
    /\ cursor_idx (m_sub m') = cursor_idx (m_sub m) /\ sefd e = sefd (view fd t) /\ m_asleep m' = false
    /\ match hist with
       | x :: h => sring e = t_ring t /\ cursor (m_sub m') = cursor (m_sub m) + 1 /\ m_got m' = m_got m ++ [x] /\ replaying t (m_sub m') parked h
       | [] => wal_replay (m_sub m') = None
           /\ if tail (t_ring t) <=? cursor (m_sub m)
              then sring e = set_cursor (cursor_idx (m_sub m)) (cursor (m_sub m)) (t_ring t) /\ cursor (m_sub m') = cursor (m_sub m) /\ m_got m' = m_got m
              else let p := read_at (t_ring t) (cursor (m_sub m)) in
                exists d, log_at 0 (t_sent t) p = Some d /\ sring e = set_cursor (cursor_idx (m_sub m)) (p + 1) (t_ring t)
                  /\ cursor (m_sub m') = p + 1 /\ m_got m' = m_got m ++ [d]
       end.
Proof.
  intros Hok Hm [F1 F2 F3 F4 F5]. pose proof (tk_members _ _ Hok _ _ Hm) as [_ H3 [H4 H4'] _ _]. unfold on_member. rewrite Hm.
  pose proof (topic_bound _ _ Hok) as Hb. pose proof (topic_tail _ _ Hok) as Ht.
  unfold Subscriber.try_receive, try_receive_into, next_wal_record. unfold replaying in F1. destruct (wal_replay (m_sub m)) as [r|] eqn:Er.
  - destruct F1 as (Hh & Hct & Hpt & x & Ex & Hfo). destruct (lf_next x r _ _ Hfo) as (r' & En & Hnext).
    change (sdisk (view fd t)) with (log_dir (wal (t_pub t).2)). rewrite Ex. cbn [log_dir]. rewrite En. destruct hist as [|y h].
    + set (e1 := with_sring _ _). set (s1 := set_replay None (m_sub m)).
      assert (Hr1 : ring_repr 0 (t_sent t) (sring e1)) by (apply set_cursor_repr; [apply Hok|ulia]).
      assert (Hid : forall v, set_cursor (cursor_idx (m_sub m)) v (sring e1) = set_cursor (cursor_idx (m_sub m)) v (t_ring t)).
      { intros v. unfold e1, set_cursor. cbn. by rewrite list_insert_insert_eq. }
      unfold ring_receive. change (cursor_idx s1) with (cursor_idx (m_sub m)). change (cursor s1) with (cursor (m_sub m)).
      destruct (Z.leb_spec (tail (t_ring t)) (cursor (m_sub m))) as [Hge|Hlt].
      * destruct (try_receive_log 0 (t_sent t) (sring e1) (cursor_idx (m_sub m)) (cursor (m_sub m)) [] Hr1 ltac:(lia)) as (Hend & _).
        rewrite Hend by done. cbn [got]. by eexists _, _.
      * destruct (receive_at (t_sent t) (sring e1) (cursor_idx (m_sub m)) (cursor (m_sub m)) [] Hr1 ltac:(lia) Hlt) as (d & Hd & E).
        rewrite E, Hid. cbn [got m_sub m_start m_got]. eexists _, _. split; [done|]. do 5 (split; [done|]). cbv zeta. by exists d.
    + rewrite wrap64_small by ulia. cbn [got m_sub m_start m_got]. eexists _, _. split; [done|]. do 4 (split; [done|]). do 3 (split; [done|]).
      cbn [m_sub]. unfold replaying. cbn [set_replay set_pos wal_replay cursor]. split; [done|].
      assert (cursor (m_sub m) + 1 <= tail (t_ring t)).
      { destruct F3 as [k Ek]. apply (f_equal zlen) in Ek. cbn [app] in Ek. rewrite zlen_zdrop, zlen_cons in Ek by lia.
        pose proof (zlen_nonneg (h ++ k)). lia. }
      split; [lia|]. split; [done|]. exists x. split; [done|]. by apply (Hnext y).
  - destruct F1 as [-> ->]. unfold ring_receive. change (sring (view fd t)) with (t_ring t). destruct (Z.leb_spec (tail (t_ring t)) (cursor (m_sub m))) as [Hge|Hlt].
    + destruct (try_receive_log 0 (t_sent t) (t_ring t) (cursor_idx (m_sub m)) (cursor (m_sub m)) [] (proj1 (tk_inv _ _ Hok)) ltac:(lia)) as (Hend & _).
      rewrite Hend by lia. cbn [got]. eexists _, _. split; [done|]. do 5 (split; [done|]). split; [|done]. cbn.
      unfold set_cursor. rewrite list_insert_id by done. by destruct (t_ring t).
    + destruct (receive_at (t_sent t) (t_ring t) (cursor_idx (m_sub m)) (cursor (m_sub m)) [] (proj1 (tk_inv _ _ Hok)) ltac:(lia) Hlt) as (d & Hd & E).
      rewrite E. cbn [got m_sub m_start m_got]. eexists _, _. split; [done|]. do 5 (split; [done|]). cbv zeta. by exists d.
Qed.

(** A message that came out of the log. *)
Lemma replayed_fed fd t (e : Subscriber.env D) m m' parked x h : fed t (m_sub m) parked (x :: h) -> 0 <= cursor (m_sub m) ->
  sring e = t_ring t -> cursor (m_sub m') = cursor (m_sub m) + 1 -> cursor_idx (m_sub m') = cursor_idx (m_sub m) -> replaying t (m_sub m') parked h ->
  fed (set_member fd m' (put fd e t)) (m_sub m') parked h.
Proof.
  intros [_ F2 [k Ek] F4 F5] H0 Hre Ec Ei Hrep. destruct (put_fields fd e t) as (Hr & Es & Ep & _). rewrite zlen_cons in F4.
  set (t' := set_member _ _ _). change (t_ring (put fd e t)) with (t_ring t') in Hr. change (t_sent (put fd e t)) with (t_sent t') in Es.
  change (t_pub (put fd e t)) with (t_pub t') in Ep. rewrite Hre in Hr. constructor; rewrite ?Es, ?Ep, ?Hr, ?Ec, ?Ei; try done; [| |lia].
  - unfold replaying in *. by rewrite Ep, Hr.
  - exists k. rewrite <- zdrop_zdrop by lia. by rewrite Ek.
Qed.

Lemma polled_ok res fd t : topic_ok res t -> stepped res t (on_member fd Subscriber.try_receive got t) [].
Proof.
  intros Hok. destruct (t_members t !! fd) as [m|] eqn:Hm; [|unfold on_member; rewrite Hm; by apply stepped_refl].
  pose proof (tk_members _ _ Hok _ _ Hm) as [(parked & hist & Hf) H3 [H4 H4'] H5 H6]. pose proof (topic_bound _ _ Hok) as Hb. pose proof (topic_tail _ _ Hok) as Ht.
  pose proof (fed_parked _ _ _ _ Hf ltac:(lia) ltac:(lia)) as Hpb.
  destruct (poll_eq res fd t m parked hist Hok Hm Hf) as (e & m' & -> & Est & Ei & _ & _ & He). destruct (put_fields fd e t) as (Hr & Es & Ep & Em & Hwel).
  set (t' := set_member _ _ _). change (t_ring (put fd e t)) with (t_ring t') in Hr. change (t_sent (put fd e t)) with (t_sent t') in Es.
  change (t_pub (put fd e t)) with (t_pub t') in *. pose proof Hf as [F1 F2 F3 F4 F5].
  assert (Hmoved : forall v, is_u64 v -> sring e = set_cursor (cursor_idx (m_sub m)) v (t_ring t) -> (member_ok t' m' : Prop) -> stepped res t t' []).
  { intros v Hv Hre Hmo. rewrite Hre in Hr.
    constructor; [|unfold data_fits; by rewrite Ep|rewrite Es, zlen_nil; lia|by rewrite Hr|by rewrite Hr|by rewrite Ep|by rewrite Es, app_nil_r|by rewrite Ep].
    apply (moved_ok res fd (cursor_idx (m_sub m)) v t); try done; [by eapply tk_apart|rewrite Hr; apply same_ring_refl|].
    intros fd' m0 Hm0. unfold t' in Hm0. cbn [set_member t_members] in Hm0. rewrite Em in Hm0.
    apply lookup_insert_Some in Hm0 as [[<- <-]|[Hne Hm0]]; [by right|left; by eauto using tk_distinct]. }
  assert (Hlt : (cursor_idx (m_sub m) < length (cursors (t_ring t)))%nat) by by eapply lookup_lt_Some.
  destruct hist as [|x h].
  - destruct He as (Hn & He). destruct (Z.leb_spec (tail (t_ring t)) (cursor (m_sub m))) as [Hge|Hltc].
    + destruct He as (Hre & Ec & Eg). apply (Hmoved (cursor (m_sub m))); [ulia|done|]. rewrite Hre in Hr. rewrite zlen_nil in F4.
      constructor; rewrite ?Es, ?Ep, ?Hr, ?Est, ?Ec, ?Eg; try done. exists (cursor (m_sub m)), [].
      constructor; rewrite ?Es, ?Ep, ?Hr, ?Ec, ?Ei; try done.
      * unfold replaying. by rewrite Hn.
      * cbn. by apply list_lookup_insert_eq.
      * rewrite zlen_nil. lia.
      * cbn. intros Hpol. specialize (F5 Hpol). lia.
    + destruct He as (d & Hd & Hre & Ec & Eg).
      destruct (read_at_spec (t_ring t) (cursor (m_sub m)) (repr_wf _ _ _ (proj1 (tk_inv _ _ Hok))) Hltc) as (Hp1 & Hp2 & Hp3).
      set (p := read_at _ _) in *. apply (Hmoved (p + 1)); [ulia|done|]. rewrite Hre in Hr. rewrite zlen_nil in F4.
      constructor; rewrite ?Es, ?Ep, ?Hr, ?Est, ?Ec, ?Eg; try (cbn; lia).
      * exists (p + 1), []. constructor; rewrite ?Es, ?Ep, ?Hr, ?Ec, ?Ei; try done.
        -- unfold replaying. by rewrite Hn.
        -- cbn. by apply list_lookup_insert_eq.
        -- apply prefix_nil.
        -- rewrite zlen_nil. lia.
        -- cbn. lia.
      * by apply (reads_next _ _ (cursor (m_sub m))); [|lia|].
      * intros Hpol. specialize (F5 Hpol). rewrite Hp3 in * by lia. rewrite (H6 Hpol). unfold log_at in Hd.
        destruct (Z.ltb_spec (cursor (m_sub m)) 0); [lia|]. rewrite Z.sub_0_r in Hd. apply zslice_snoc; [lia|lia|done].
  - destruct He as (Hre & Ec & Eg & Hrep). assert (Hd : t_sent t !! Z.to_nat (cursor (m_sub m)) = Some x).
    { destruct F3 as [k Ek]. apply (f_equal (lookup 0%nat)) in Ek. unfold zdrop in Ek. rewrite lookup_drop, Nat.add_0_r in Ek. done. }
    assert (Hc1 : cursor (m_sub m) + 1 <= tail (t_ring t)) by (apply lookup_lt_Some in Hd; unfold zlen in Ht; lia).
    apply (Hmoved parked); [ulia|rewrite Hre; unfold set_cursor; rewrite list_insert_id by done; by destruct (t_ring t)|]. rewrite Hre in Hr. rewrite zlen_cons in F4.
    constructor; rewrite ?Es, ?Ep, ?Hr, ?Est, ?Ec, ?Eg; try lia.
    + exists parked, h. by apply (replayed_fed fd t e m m' parked x h); [|lia|..].
    + apply (reads_next _ _ (cursor (m_sub m))); [done|lia|]. unfold log_at. destruct (Z.ltb_spec (cursor (m_sub m)) 0); [lia|]. by rewrite Z.sub_0_r.
    + intros Hpol. rewrite (H6 Hpol). by apply zslice_snoc; [lia|lia|].
Qed.

(** A call that leaves the subscriber as it is and the ring up to flags. *)
Lemma call_ok {A} res fd call (note : A -> member -> member) t : topic_ok res t ->
  (forall e s, (call (e, s)).1.2 = s /\ same_ring (sring e) (sring (call (e, s)).1.1)) ->
  (forall x m, m_sub (note x m) = m_sub m /\ m_start (note x m) = m_start m /\ m_got (note x m) = m_got m) ->
  stepped res t (on_member fd call note t) [].
Proof.
  intros Hok Hcall Hnote. unfold on_member. destruct (t_members t !! fd) as [m|] eqn:Hm; [|by apply stepped_refl].
  destruct (Hcall (view fd t) (m_sub m)) as [Hs Hr]. destruct (call (view fd t, m_sub m)) as [[e s] x]. cbn [fst snd] in *. subst s.
  destruct (put_fields fd e t) as (Er & Es & Ep & Em & Hwel). destruct (Hnote x (Member (m_sub m) (m_start m) (m_got m) false)) as (N1 & N2 & N3).
  apply (quiet_ok res fd t _ m (note x (Member (m_sub m) (m_start m) (m_got m) false))); try done.
  - change (t_ring (set_member fd ?y ?z)) with (t_ring z). by rewrite Er.
  - cbn. by rewrite Em.
Qed.

Lemma arm_ok res fd t : topic_ok res t -> stepped res t (on_member fd arm_wakeup armed t) [].
Proof.
  intros Hok. apply call_ok; [done| |done]. intros e s. unfold arm_wakeup. cbn [set_flag snd fst].
  destruct (_ <? _); (split; [done|]); (split; [done|]); cbn; by rewrite ?length_insert.
Qed.

Lemma drain_ok res fd t : topic_ok res t -> stepped res t (on_member fd (drain_wakeup (RE := RE)) (fun _ m => m) t) [].
Proof.
  intros Hok. apply call_ok; [done| |done]. intros e s. unfold drain_wakeup, try_drain_wakeup, eventfd_drain. cbn [fst].
  destruct (0 <? sefd e); (split; [done|apply same_ring_refl]).
Qed.

Lemma drop_ok res fd t : topic_ok res t -> stepped res t (step t (Drop fd)) [].
Proof.
  intros Hok. cbn [Topic.step]. destruct (t_members t !! fd) as [m|] eqn:Hm; [|by apply stepped_refl].
  destruct (put_fields fd (Subscriber.drop (view fd t, m_sub m)) t) as (Er & Es & Ep & Em & Hwel). cbv zeta. set (t1 := put _ _ _) in *.
  constructor; [|unfold data_fits; cbn; rewrite Ep; done|cbn [t_sent]; rewrite Es, zlen_nil; lia|change (capacity (t_ring t1) = capacity (t_ring t)); by rewrite Er
    |change (slot_payload_size (t_ring t1) = slot_payload_size (t_ring t)); by rewrite Er|cbn; by rewrite Ep|cbn; by rewrite Es, app_nil_r|cbn; by rewrite Ep].
  apply (moved_ok res fd (cursor_idx (m_sub m)) CURSOR_UNCLAIMED t); try done; cbn [t_pub t_sent t_members].
  - by eapply tk_apart.
  - change (t_ring (Topic _ _ _ _)) with (t_ring t1). rewrite Er. apply same_ring_refl.
  - intros fd' m0. rewrite Em. intros [Hne Hm0]%lookup_delete_Some. left. by eauto using tk_distinct.
Qed.

(** A slot that can be claimed is nobody's. *)
Lemma unclaimed_of res t idx : topic_ok res t -> cursors (t_ring t) !! idx = Some CURSOR_UNCLAIMED ->
  idx ∉ res /\ forall fd m, t_members t !! fd = Some m -> cursor_idx (m_sub m) <> idx.
Proof.
  intros Hok Ei. pose proof (topic_bound _ _ Hok). pose proof (topic_tail _ _ Hok). split.
  - intros Hin. pose proof (tk_pending _ _ Hok) as Hp. rewrite Forall_forall in Hp. destruct (Hp idx Hin) as (c & Hc & Hcu). congruence.
  - intros fd m Hm <-. destruct (tk_members _ _ Hok _ _ Hm) as [(parked & hist & Hf) H3 [H4 _] _ _].
    pose proof (fe_slot _ _ _ _ Hf) as H2. rewrite Ei in H2. injection H2 as H2. apply (small_claimed parked); [eapply fed_parked; [exact Hf|lia|lia]|done].
Qed.

(** A connection: the slot it claims is kept for it. *)
Lemma announce_ok res idx r t : topic_ok res t -> claim_cursor (current_tail (t_ring t)) (t_ring t) = (r, Some idx) ->
  stepped (idx :: res) t (announce idx r t) [].
Proof.
  intros Hok E. pose proof (topic_bound _ _ Hok) as Hb. pose proof (topic_tail _ _ Hok) as Ht. unfold claim_cursor in E.
  destruct (find_unclaimed (cursors (t_ring t))) as [i|] eqn:Ei; [|done]. injection E as <- ->. apply find_unclaimed_Some in Ei as [Ei _].
  destruct (unclaimed_of _ _ _ Hok Ei) as [Hidx Hother].
  unfold announce. destruct (t_pub t) as [w p] eqn:Ep. set (t' := Topic _ _ _ _).
  assert (Hr : t_ring t' = clear_wakeflag idx (set_cursor idx (tail (t_ring t)) (t_ring t))) by done.
  pose proof (zlen_nonneg (t_sent t)).
  assert (Hok' : topic_ok res t').
  { apply (moved_ok res 0 idx (tail (t_ring t)) t); try done.
    - ulia.
    - rewrite Hr. apply same_ring_clear.
    - by rewrite Ep.
    - rewrite Ep. intros Hwel. apply Forall_app. split; [exact Hwel|]. by apply Forall_cons.
    - intros fd m Hm. left. split; [done|by eapply Hother]. }
  constructor; [|by unfold data_fits; rewrite Ep|cbn [t_sent t']; rewrite zlen_nil; lia|done|done|by rewrite Ep|by rewrite app_nil_r|by rewrite Ep].
  destruct Hok'. constructor; try done.
  - apply Forall_cons. split; [|done]. exists (tail (t_ring t)). split; [|apply small_claimed; lia].
    rewrite Hr. cbn. apply list_lookup_insert_eq. by eapply lookup_lt_Some.
  - intros fd m Hm. apply not_elem_of_cons. split; [by eapply Hother|by eapply tk_apart0].
  - by apply NoDup_cons.
Qed.

(** Start positions that the ring serves, or the log. *)
Definition served (cap : Z) (start : start_pos) : Prop := start_ok cap start /\ (asks_back start = true -> history = true).

(** What a connection makes of the topic, once it has read the tail: no connection is refused for its position. *)
Lemma connected_eq res fd idx r start before t : topic_ok res t -> served (capacity (t_ring t)) start -> keeps_on [] (wal (t_pub t).2) ->
  claim_cursor (current_tail (t_ring before)) (t_ring before) = (r, Some idx) ->
  exists c replay parked hist, let s := Subscriber_ c idx (generation (t_ring t)) replay in
    connected fd start before t = set_member fd (Member s c [] false) (put fd (with_sring (set_cursor idx parked (t_ring t)) (view fd t)) t)
    /\ 0 <= c < two63 /\ c <= Z.max (if history then c else 0) (tail (t_ring t)) /\ 0 <= parked < two63 /\ replaying t s parked hist /\ hist `prefix_of` zdrop c (t_sent t) /\ parked <= c + zlen hist
    /\ tail (t_ring t) - capacity (t_ring t) <= parked.
Proof.
  intros Hok [Hs Hback] Hk E. pose proof (topic_tail _ _ Hok) as Ht. pose proof (topic_bound _ _ Hok) as Hb. pose proof (zlen_nonneg (t_sent t)).
  unfold connected, connect_with. cbn [retry negb]. change (sring (view fd before)) with (t_ring before). rewrite E.
  unfold connect_claimed. cbn [retry negb]. cbv zeta. change (sring (view fd t)) with (t_ring t).
  assert (Hcap : 0 < capacity (t_ring t)) by (pose proof (wf_capacity _ (repr_wf _ _ _ (proj1 (tk_inv _ _ Hok)))) as Hw; unfold t_ring; lia).
  assert (Hlive : forall c, start_cursor start (current_tail (t_ring t)) (view fd t) = Ok (c, None) -> 0 <= c < two63 -> c <= Z.max (if history then c else 0) (tail (t_ring t)) ->
    tail (t_ring t) - capacity (t_ring t) <= c ->
    exists c' replay parked hist, start_cursor start (current_tail (t_ring t)) (view fd t) = Ok (c', replay)
      /\ parked = (if replay then current_tail (t_ring t) else c') /\ 0 <= c' < two63 /\ c' <= Z.max (if history then c' else 0) (tail (t_ring t)) /\ 0 <= parked < two63
      /\ replaying t (Subscriber_ c' idx (generation (t_ring t)) replay) parked hist /\ hist `prefix_of` zdrop c' (t_sent t) /\ parked <= c' + zlen hist
      /\ tail (t_ring t) - capacity (t_ring t) <= parked).
  { intros c Ec Hc Ha Hw. exists c, None, c, []. change (zlen (@nil (list byte))) with 0. do 5 (split; [done|]). split; [by split|]. split; [apply prefix_nil|]. lia. }
  enough (Hall : exists c' replay parked hist, start_cursor start (current_tail (t_ring t)) (view fd t) = Ok (c', replay)
      /\ parked = (if replay then current_tail (t_ring t) else c') /\ 0 <= c' < two63 /\ c' <= Z.max (if history then c' else 0) (tail (t_ring t)) /\ 0 <= parked < two63
      /\ replaying t (Subscriber_ c' idx (generation (t_ring t)) replay) parked hist /\ hist `prefix_of` zdrop c' (t_sent t) /\ parked <= c' + zlen hist
      /\ tail (t_ring t) - capacity (t_ring t) <= parked).
  { destruct Hall as (c & replay & parked & hist & -> & -> & Hall). by exists c, replay, (if replay then current_tail (t_ring t) else c), hist. }
  clear r E before. destruct start as [|n|c]; cbn [start_ok asks_back] in *.
  - by apply (Hlive (tail (t_ring t))); [|lia..].
  - apply (Hlive (saturating_sub (tail (t_ring t)) n)); [done|unfold saturating_sub; lia..].
  - specialize (Hback eq_refl). cbn [start_cursor] in *. change (sring (view fd t)) with (t_ring t) in *. change (current_tail (t_ring t)) with (tail (t_ring t)) in *.
    unfold saturating_sub in *. destruct (Z.leb_spec (Z.max 0 (tail (t_ring t) - capacity (t_ring t))) c); [by apply (Hlive c); [|lia|rewrite Hback; lia|lia]|]. clear Hlive.
    destruct (Hk Hback) as (x & Ex & Hkx). destruct (proj2 (tk_inv _ _ Hok) x Ex) as (wbase & pre & Hl & Hbase).
    pose proof (pub_inv_pending _ _ _ _ (tk_inv _ _ Hok) Ex) as Hpen. change (tail (wring (t_pub t).1)) with (tail (t_ring t)) in Hpen.
    destruct (lf_open x wbase (pre ++ t_sent t) 0 c Hl Hkx ltac:(lia)) as (ix & rp & E1 & E2 & E3 & Hfo).
    change (sdisk (view fd t)) with (log_dir (wal (t_pub t).2)). rewrite Ex. cbn [log_dir]. rewrite E1, E2, E3.
    replace (zdrop (c - wbase) (pre ++ t_sent t)) with (zdrop c (t_sent t)) in Hfo by (rewrite zdrop_app_ge by lia; f_equal; lia).
    exists c, (Some rp), (tail (t_ring t)), (zdrop c (t_sent t)). rewrite zlen_zdrop by lia. do 3 (split; [done|]). do 2 (split; [lia|]).
    split; [|split; [done|lia]]. unfold replaying. cbn [wal_replay cursor]. split; [done|]. split; [lia|]. split; [lia|]. by exists x.
Qed.

(** ... and the slot is handed over. *)
Lemma connected_ok res fd idx r start before t : topic_ok (idx :: res) t -> served (capacity (t_ring t)) start -> keeps_on [] (wal (t_pub t).2) ->
  claim_cursor (current_tail (t_ring before)) (t_ring before) = (r, Some idx) ->
  stepped res t (connected fd start before t) [].
Proof.
  intros Hok Hs Hk E. pose proof (topic_bound _ _ Hok) as Hb. pose proof (topic_tail _ _ Hok) as Ht.
  destruct (connected_eq _ fd idx r start before t Hok Hs Hk E) as (c & replay & parked & hist & Ec & Hc & Hah & Hpb & Hrep & Hpre & Hen & Hwin). rewrite Ec. clear Ec.
  set (e := with_sring _ _). destruct (put_fields fd e t) as (Er & Es & Ep & Em & Hwel). set (t' := set_member _ _ _).
  change (t_ring (put fd e t)) with (t_ring t') in Er. change (t_sent (put fd e t)) with (t_sent t') in Es.
  change (t_pub (put fd e t)) with (t_pub t') in Ep. pose proof (tk_res _ _ Hok) as Hnd. apply NoDup_cons in Hnd as [Hidx Hnd].
  constructor; [|unfold data_fits; by rewrite Ep|rewrite Es, zlen_nil; lia|by rewrite Er|by rewrite Er|by rewrite Ep|by rewrite Es, app_nil_r|by rewrite Ep].
  pose proof (tk_pending _ _ Hok) as Hp. apply Forall_cons in Hp as [(c0 & Hc0' & _) Hp].
  apply (moved_ok res fd idx parked t); try done.
  - destruct Hok. constructor; try done. intros fd' m Hm. apply tk_apart0 in Hm. set_solver.
  - ulia.
  - rewrite Er. apply same_ring_refl.
  - intros fd' m Hm. unfold t' in Hm. cbn [set_member t_members] in Hm. rewrite Em in Hm.
    apply lookup_insert_Some in Hm as [[<- <-]|[Hne Hm]]; [right|left; split; [done|]; pose proof (tk_apart _ _ Hok _ _ Hm); set_solver].
    split; [done|]. split; [done|]. destruct Hc as [Hc0 Hc]. constructor; rewrite ?Er, ?Es; cbn [m_sub m_start m_got cursor cursor_idx]; [|lia|by split|constructor|].
    + exists parked, hist. constructor; rewrite ?Er, ?Es; try done.
      * unfold replaying in *. by rewrite Ep, Er.
      * cbn. apply list_lookup_insert_eq. by eapply lookup_lt_Some.
    + intros _. unfold zslice. by rewrite Z.sub_diag, ztake_0.
Qed.

(** ** Runs *)

Section op_ind.
Variable P : op -> Prop.
Hypothesis (HPub : forall d, P (Publish d)) (HMany : forall l, P (PublishMany l)) (HPoll : forall fd, P (Poll fd))
  (HArm : forall fd, P (Arm fd)) (HDrain : forall fd, P (Drain fd)) (HDrop : forall fd, P (Drop fd))
  (HConnect : forall start ops, Forall P ops -> P (Connect start ops)).

Fixpoint op_nested (o : op) : P o :=
  match o with
  | Publish d => HPub d | PublishMany l => HMany l | Poll fd => HPoll fd | Arm fd => HArm fd | Drain fd => HDrain fd
  | Drop fd => HDrop fd
  | Connect start ops =>
      HConnect start ops ((fix go l : Forall P l := match l with [] => Forall_nil_2 P | o :: l => Forall_cons_2 P o l (op_nested o) (go l) end) ops)
  end.
End op_ind.

(** What a step or a run asks of its messages and start positions. *)
Record may (t : topic) (messages : list (list byte)) (positions : list start_pos) : Prop := {
  my_fits : Forall (fun d => data_fits d (t_pub t)) messages;
  my_room : zlen (t_sent t) + zlen messages < two63;
  my_starts : Forall (served (capacity (t_ring t))) positions;
  my_keeps : keeps_on messages (wal (t_pub t).2)
}.

Lemma may_part t l1 l2 k1 k2 : may t (l1 ++ l2) (k1 ++ k2) -> may t l1 k1.
Proof.
  intros [Hf Hr Hs Hk]. apply Forall_app in Hf as [Hf _]. apply Forall_app in Hs as [Hs _]. rewrite zlen_app in Hr. pose proof (zlen_nonneg l2).
  constructor; [done|lia|done|]. by apply keeps_on_part in Hk as [? _].
Qed.

Lemma may_rest res t t1 l1 l2 k1 k2 : may t (l1 ++ l2) (k1 ++ k2) -> stepped res t t1 l1 -> may t1 l2 k2.
Proof.
  intros [Hf Hr Hs Hk] [_ Hfit Hsent Hcap _ _ _ Hkeep]. apply Forall_app in Hf as [_ Hf2]. apply Forall_app in Hs as [_ Hs2].
  rewrite zlen_app in Hr. constructor; [|lia|by rewrite Hcap|by apply Hkeep]. eapply Forall_impl; [exact Hf2|]. auto.
Qed.

(** The calls in the middle of a connection. *)
Lemma may_announced res idx r start t messages positions : may t messages (start :: positions) -> stepped (idx :: res) t (announce idx r t) [] ->
  may (announce idx r t) messages positions.
Proof. intros Hm Ha. exact (may_rest _ t _ [] messages [start] positions Hm Ha). Qed.

Definition keeps (o : op) : Prop := forall res t, topic_ok res t -> may t (payloads o) (starts o) -> stepped res t (step t o) (payloads o).

Lemma run_keeps ops : Forall keeps ops -> forall res t, topic_ok res t ->
  may t (concat (map payloads ops)) (concat (map starts ops)) -> stepped res t (run ops t) (concat (map payloads ops)).
Proof.
  induction 1 as [|o ops Ho _ IH]; intros res t Hok Hm; [by apply stepped_refl|]. cbn [map concat] in *.
  pose proof (Ho res t Hok (may_part _ _ _ _ _ Hm)) as Ho'.
  eapply stepped_trans; [exact Ho'|]. apply IH; [apply Ho'|by eapply may_rest].
Qed.

Lemma step_keeps o : keeps o.
Proof.
  induction o as [d|l|fd|fd|fd|fd|start ops Hops] using op_nested; intros res t Hok Hm; pose proof Hm as [Hf Hr Hs Hk]; cbn [payloads starts] in *.
  - apply published_ok; [done|done|]. apply publish_takes; [apply Hok| |].
    + apply Forall_cons in Hf as [Hf _]. exact Hf.
    + change (wring (t_pub t).1) with (t_ring t). rewrite (topic_tail _ _ Hok). exact Hr.
  - apply published_ok; [done|done|]. apply publish_many_takes; [apply Hok|done|].
    change (wring (t_pub t).1) with (t_ring t). by rewrite (topic_tail _ _ Hok).
  - by apply polled_ok.
  - by apply arm_ok.
  - by apply drain_ok.
  - by apply drop_ok.
  - cbn [Topic.step]. destruct (claim_cursor _ _) as [r [idx|]] eqn:E.
    2:{ apply Forall_cons in Hs as [_ Hs]. by apply (run_keeps ops Hops). }
    pose proof (announce_ok res idx r t Hok E) as Ha. pose proof (may_announced _ _ _ _ _ _ _ Hm Ha) as Hm1.
    pose proof (run_keeps ops Hops (idx :: res) (announce idx r t) (sp_ok _ _ _ _ Ha) Hm1) as Hrun.
    rewrite <- (app_nil_l (concat (map payloads ops))), <- (app_nil_r (concat (map payloads ops))).
    eapply stepped_trans; [exact Ha|]. eapply stepped_trans; [exact Hrun|]. eapply connected_ok; [apply Hrun| | |exact E].
    + apply Forall_cons in Hs as [Hs _]. change (served (capacity (t_ring (run ops (announce idx r t)))) start).
      by rewrite (sp_capacity _ _ _ _ Hrun), (sp_capacity _ _ _ _ Ha).
    + apply (sp_keeps _ _ _ _ Hrun). rewrite app_nil_r. apply Hm1.
Qed.

Lemma topic_run_ok ops res t : topic_ok res t -> may t (concat (map payloads ops)) (concat (map starts ops)) ->
  stepped res t (run ops t) (concat (map payloads ops)).
Proof. apply run_keeps, Forall_true, step_keeps. Qed.

(** Polls: of a subscriber that is in the ring, one gives the next message there. *)
Definition drained (t : topic) (m : member) : Prop := exists parked, fed t (m_sub m) parked [].

Lemma poll_takes res fd t m : topic_ok res t -> t_members t !! fd = Some m -> drained t m -> cursor (m_sub m) < tail (t_ring t) ->
  let p := read_at (t_ring t) (cursor (m_sub m)) in let t' := step t (Poll fd) in
  topic_ok res t' /\ t_sent t' = t_sent t /\ tail (t_ring t') = tail (t_ring t) /\ capacity (t_ring t') = capacity (t_ring t)
  /\ exists m' d, t_members t' !! fd = Some m' /\ drained t' m' /\ cursor (m_sub m') = p + 1 /\ log_at 0 (t_sent t) p = Some d /\ m_got m' = m_got m ++ [d].
Proof.
  intros Hok Hm [parked Hf] Hlt p t'. pose proof (sp_ok _ _ _ _ (polled_ok res fd t Hok)) as Hok1. change (on_member fd Subscriber.try_receive got t) with t' in Hok1.
  destruct (poll_eq res fd t m parked [] Hok Hm Hf) as (e & m' & E & _ & _ & _ & _ & Hn & He). change (on_member fd Subscriber.try_receive got t) with t' in E.
  destruct (Z.leb_spec (tail (t_ring t)) (cursor (m_sub m))); [lia|]. destruct He as (d & Hd & Hr & Es & Eg).
  destruct (put_fields fd e t) as (Er & Esent & _ & Em & _).
  assert (Hring : t_ring t' = sring e) by (rewrite E; exact Er). assert (Hm' : t_members t' !! fd = Some m') by (rewrite E; cbn; by rewrite lookup_insert_eq).
  split; [done|]. split; [by rewrite E|]. rewrite Hring, Hr. do 2 (split; [done|]). exists m', d. split; [done|]. split; [|done].
  destruct (mk_fed _ _ (tk_members _ _ Hok1 _ _ Hm')) as (parked' & hist' & Hf'). destruct (fed_live _ _ _ _ Hf' Hn) as [-> _]. by exists parked'.
Qed.

(** As many polls as there are messages left to read give them all. *)
Lemma polls_take n : forall res fd t m, topic_ok res t -> t_members t !! fd = Some m -> drained t m ->
  tail (t_ring t) - capacity (t_ring t) <= cursor (m_sub m) -> Z.of_nat n = tail (t_ring t) - cursor (m_sub m) ->
  exists m', t_members (run (replicate n (Poll fd)) t) !! fd = Some m' /\ cursor (m_sub m') = tail (t_ring t)
    /\ m_got m' = m_got m ++ zdrop (cursor (m_sub m)) (t_sent t).
Proof.
  induction n as [|n IH]; intros res fd t m Hok Hm Hdr Hw Hn.
  - exists m. split; [done|]. split; [lia|]. rewrite zdrop_all by (pose proof (topic_tail _ _ Hok); lia). by rewrite app_nil_r.
  - pose proof (tk_members _ _ Hok _ _ Hm) as [_ Hst _ _ _].
    destruct (read_at_spec (t_ring t) (cursor (m_sub m)) (repr_wf _ _ _ (proj1 (tk_inv _ _ Hok))) ltac:(lia)) as (_ & _ & Hp).
    destruct (poll_takes res fd t m Hok Hm Hdr ltac:(lia)) as (Hok1 & Hs & Htl & Hcap & m1 & d & Hm1 & Hdr1 & Hc & Hd & Hg). rewrite (Hp Hw) in *.
    destruct (IH res fd (step t (Poll fd)) m1 Hok1 Hm1 Hdr1) as (m' & Hm' & Hc' & Hg'); [lia|lia|].
    exists m'. split; [exact Hm'|]. split; [congruence|]. rewrite Hg', Hg, Hs, Hc, <- app_assoc. f_equal.
    pose proof (log_at_zdrop_cons 0 (t_sent t) (cursor (m_sub m)) d Hd) as Ez. rewrite !Z.sub_0_r in Ez. by rewrite Ez.
Qed.

(** A subscriber that is behind what the ring holds first skips to a message in it. *)
Lemma polls_catch_up res fd t m : topic_ok res t -> t_members t !! fd = Some m -> drained t m -> cursor (m_sub m) < tail (t_ring t) ->
  let p := read_at (t_ring t) (cursor (m_sub m)) in
  exists m', t_members (run (replicate (Z.to_nat (tail (t_ring t) - p)) (Poll fd)) t) !! fd = Some m' /\ cursor (m_sub m') = tail (t_ring t)
    /\ m_got m' = m_got m ++ zdrop p (t_sent t).
Proof.
  intros Hok Hm Hdr Hlt p. pose proof (tk_members _ _ Hok _ _ Hm) as [_ Hst _ _ _].
  destruct (read_at_spec (t_ring t) (cursor (m_sub m)) (repr_wf _ _ _ (proj1 (tk_inv _ _ Hok))) Hlt) as (Hp1 & Hp2 & _). fold p in Hp1, Hp2.
  destruct (poll_takes res fd t m Hok Hm Hdr Hlt) as (Hok1 & Hs & Htl & Hcap & m1 & d & Hm1 & Hdr1 & Hc & Hd & Hg). fold p in Hc, Hd.
  replace (Z.to_nat (tail (t_ring t) - p)) with (S (Z.to_nat (tail (t_ring t) - p - 1))) by lia.
  destruct (polls_take (Z.to_nat (tail (t_ring t) - p - 1)) res fd (step t (Poll fd)) m1 Hok1 Hm1 Hdr1) as (m' & Hm' & Hc' & Hg'); [lia|lia|].
  exists m'. split; [exact Hm'|]. split; [congruence|]. rewrite Hg', Hg, Hs, Hc, <- app_assoc. f_equal.
  pose proof (log_at_zdrop_cons 0 (t_sent t) p d Hd) as Ez. rewrite !Z.sub_0_r in Ez. by rewrite Ez.
Qed.

(** A subscriber that replays gets what there is in the log first. *)
Lemma polls_replay hist : forall res fd t m parked, topic_ok res t -> t_members t !! fd = Some m -> fed t (m_sub m) parked hist ->
  let t' := run (replicate (length hist) (Poll fd)) t in
  topic_ok res t' /\ t_sent t' = t_sent t /\ t_ring t' = t_ring t
  /\ exists m', t_members t' !! fd = Some m' /\ fed t' (m_sub m') parked [] /\ cursor (m_sub m') = cursor (m_sub m) + zlen hist /\ m_got m' = m_got m ++ hist.
Proof.
  induction hist as [|x h IH]; intros res fd t m parked Hok Hm Hf.
  { split; [done|]. do 2 (split; [done|]). exists m. rewrite app_nil_r. split; [done|]. split; [done|]. split; [|done]. change (zlen (@nil (list byte))) with 0. lia. }
  pose proof (sp_ok _ _ _ _ (polled_ok res fd t Hok)) as Hok1. pose proof (mk_start _ _ (tk_members _ _ Hok _ _ Hm)) as Hst.
  destruct (poll_eq res fd t m parked (x :: h) Hok Hm Hf) as (e & m1 & E & _ & Ei & _ & _ & Hr & Ec & Eg & Hrep). rewrite E in Hok1.
  destruct (put_fields fd e t) as (Er & Es & _ & Em & _).
  pose proof (replayed_fed fd t e m m1 parked x h Hf ltac:(lia) Hr Ec Ei Hrep) as Hf1. set (t1 := set_member _ _ _) in *.
  destruct (IH res fd t1 m1 parked Hok1) as (Hok' & Hs' & Hr' & m' & Hm' & Hf' & Hc' & Hg'); [cbn; by rewrite lookup_insert_eq|done|].
  change (run (replicate (length (x :: h)) (Poll fd)) t) with (run (replicate (length h) (Poll fd)) (on_member fd Subscriber.try_receive got t)). rewrite E.
  split; [done|]. split; [by rewrite Hs'|]. split; [rewrite Hr'; by rewrite <- Hr|]. exists m'. split; [done|]. split; [done|].
  rewrite Hc', Hg', Ec, Eg, zlen_cons, <- app_assoc. split; [lia|done].
Qed.

Lemma run_app ops ops' (t : topic) : run (ops ++ ops') t = run ops' (run ops t).
Proof. apply fold_left_app. Qed.

(** All that is left: the log's, and the ring's. *)
Lemma polls_deliver res fd t m parked hist : topic_ok res t -> t_members t !! fd = Some m -> fed t (m_sub m) parked hist ->
  let q := cursor (m_sub m) + zlen hist in let p := read_at (t_ring t) q in
  exists m', t_members (run (replicate (Z.to_nat (zlen hist + (tail (t_ring t) - p))) (Poll fd)) t) !! fd = Some m'
    /\ cursor (m_sub m') = Z.max q (tail (t_ring t)) /\ m_got m' = m_got m ++ hist ++ zdrop p (t_sent t).
Proof.
  intros Hok Hm Hf q p. destruct (polls_replay hist res fd t m parked Hok Hm Hf) as (Hok1 & Hs & Hr & m1 & Hm1 & Hf1 & Hc1 & Hg1). cbv zeta in *.
  set (t1 := run _ t) in *. fold q in Hc1. pose proof (zlen_nonneg hist). pose proof (topic_tail _ _ Hok) as Ht.
  pose proof (wf_capacity _ (repr_wf _ _ _ (proj1 (tk_inv _ _ Hok)))) as Hpos. change (wring (t_pub t).1) with (t_ring t) in Hpos.
  destruct (decide (q < tail (t_ring t))) as [Hlt|Hge].
  - destruct (polls_catch_up res fd t1 m1 Hok1 Hm1) as (m' & Hm' & Hc' & Hg'); [by exists parked|rewrite Hr, Hc1; lia|]. rewrite Hr, Hs, Hc1 in *. fold p in Hm', Hg'.
    destruct (read_at_spec (t_ring t) q (repr_wf _ _ _ (proj1 (tk_inv _ _ Hok))) Hlt) as (Hp1 & _). fold p in Hp1.
    exists m'. rewrite Hg', Hg1, <- app_assoc. split; [|split; [lia|done]].
    replace (Z.to_nat (zlen hist + (tail (t_ring t) - p))) with (length hist + Z.to_nat (tail (t_ring t) - p))%nat by (unfold zlen in *; lia).
    rewrite replicate_add, run_app. exact Hm'.
  - assert (p = q) as -> by (unfold p, read_at; destruct (Z.ltb_spec q (tail (t_ring t) - capacity (t_ring t))); [lia|done]).
    exists m1. rewrite Hg1, zdrop_all, app_nil_r by lia. split; [|split; [lia|done]].
    replace (Z.to_nat (zlen hist + (tail (t_ring t) - q))) with (length hist); [exact Hm1|].
    pose proof (mk_start _ _ (tk_members _ _ Hok _ _ Hm)) as Hst. destruct (fed_ahead _ _ _ _ Hf ltac:(lia) Ht) as [Hin Hah]. unfold q in *.
    destruct (decide (cursor (m_sub m) < tail (t_ring t))); [specialize (Hin ltac:(done)); unfold zlen in *; lia|]. rewrite Hah in * by lia. change (zlen []) with 0 in *. cbn [length]. lia.
Qed.

Lemma fresh_topic_ok cfg w : fresh_ok cfg w -> topic_ok [] (fresh_topic (R := R) cfg w)
  /\ t_ring (fresh_topic (R := R) cfg w) = Ring.create (bcapacity cfg) (slot_size cfg) (bmax_subscribers cfg).
Proof.
  intros [Hc Hs Hb Hw].
  assert (Hr : t_ring (fresh_topic (R := R) cfg w) = Ring.create (bcapacity cfg) (slot_size cfg) (bmax_subscribers cfg)).
  { unfold t_ring, fresh_topic, Publisher.create, create_ring. cbn. destruct w as [x|]; [|done].
    pose proof (wal_logs_pending x 0 [] (Hw x eq_refl)) as ->. done. }
  split; [|exact Hr]. constructor; try done; [|constructor|apply NoDup_nil_2].
  split; [change (wring _) with (t_ring (fresh_topic (R := R) cfg w)); rewrite Hr; by apply create_repr|].
  intros x Hx. exists 0, []. split; [by apply Hw|done].
Qed.
End delivery.

(** ** Runs of a topic from its beginning *)

Section runs.
Context {W WE D Ix R RE : Type} `{!WalBackend W WE} `{!WalLaws W WE} `{!ReplayBackend D Ix R RE} `{!LogFiles W D}
  `{!FollowLaws W WE D Ix R RE}.
#[local] Notation member := (member (R := R)).
#[local] Notation topic := (topic (W := W) (R := R)).

(** Whether a connection of a run asks for a position. *)
Definition replays (ops : list op) : bool := existsb asks_back (concat (map starts ops)).

(** What a run asks of its messages and start positions, and of the log if it is read. *)
Record run_fits (cfg : bus_config) (w : option W) (ops : list op) : Prop := {
  rf_log : forall x, w = Some x -> Forall (wal_fits x) (concat (map payloads ops));
  rf_starts : Forall (start_ok (bcapacity cfg)) (concat (map starts ops));
  rf_length : zlen (concat (map payloads ops)) < two63;
  rf_replay : replays ops = true -> exists x, w = Some x /\ lf_keeps x 0 (concat (map payloads ops))
}.

Lemma fresh_may cfg w ops : fresh_ok cfg w -> run_fits cfg w ops ->
  may (history := replays ops) (fresh_topic (R := R) cfg w) (concat (map payloads ops)) (concat (map starts ops)).
Proof.
  intros Hf [Hfit Hst Hlen Hk]. destruct (fresh_topic_ok (history := replays ops) cfg w Hf) as [_ Hr].
  constructor; [|change (t_sent _) with (@nil (list byte)); rewrite zlen_nil; lia|rewrite Hr|exact Hk].
  - apply Forall_forall. intros d Hd x Hx. specialize (Hfit x Hx). rewrite Forall_forall in Hfit. by apply Hfit.
  - rewrite Forall_forall in Hst. apply Forall_forall. intros start Hin. split; [by apply Hst|]. intros Ha.
    apply existsb_exists. exists start. split; [by apply list_elem_of_In|done].
Qed.

Lemma fresh_run cfg w ops : fresh_ok cfg w -> run_fits cfg w ops ->
  let t := run ops (fresh_topic cfg w) in
  stepped (history := replays ops) [] (fresh_topic cfg w) t (concat (map payloads ops))
  /\ policy (t_pub t).2 = backpressure cfg /\ capacity (t_ring t) = bcapacity cfg.
Proof.
  intros Hf Hm t. destruct (fresh_topic_ok (history := replays ops) cfg w Hf) as [Hok Hr].
  pose proof (topic_run_ok ops [] _ Hok (fresh_may cfg w ops Hf Hm)) as Hs.
  fold t in Hs. split; [done|]. rewrite (sp_policy _ _ _ _ Hs), (sp_capacity _ _ _ _ Hs), Hr. done.
Qed.

(** C1: A fresh topic, from end to end, under the [Error] policy.  A publisher publishes messages one by one and in
    batches, some of which are refused; subscribers connect, at the tail, back in the ring, or at a position that the
    ring may have lost and the log still has, while others go on; they poll, prepare to sleep, take wakeups
    and leave, in any order, by whole calls (others may run while a connection's handshake is under way); every handshake succeeds, the
    log takes every record, and who connects asks for the tail, for at most [capacity] messages back, or for
    an explicit position.  The last is allowed only over a log that keeps every record of the run and shows each as soon as it is appended (a v1
    log that syncs [Each] record, or a v2 log, with a retention that drops none), for a log that buffers leaves a gap
    ([buffered_records_are_skipped]).  Then
    at any time a subscriber has got exactly the messages that the ring took from
    where it started up to its position, each once and in order, and as many more polls as there are messages
    left give it all the rest: a replay of such a log goes on in the ring without a gap. *)
Theorem topic_delivers_in_order cfg w ops : fresh_ok cfg w -> run_fits cfg w ops -> backpressure cfg = ErrorPolicy ->
  let t := run ops (fresh_topic cfg w) in
  forall fd m, t_members t !! fd = Some m ->
    m_got m = zslice (m_start m) (cursor (m_sub m)) (t_sent t)
    /\ 0 <= m_start m <= cursor (m_sub m) /\ cursor (m_sub m) <= Z.max (if replays ops then m_start m else 0) (zlen (t_sent t))
    /\ exists m', t_members (run (replicate (Z.to_nat (zlen (t_sent t) - cursor (m_sub m))) (Poll fd)) t) !! fd = Some m'
         /\ m_got m' = zdrop (m_start m) (t_sent t).
Proof.
  intros Hf Hm Hpol t fd m Hin. destruct (fresh_run cfg w ops Hf Hm) as (Hrun & Hp & _). fold t in Hrun, Hp. rewrite Hpol in Hp.
  pose proof (sp_ok _ _ _ _ Hrun) as Hok. destruct (tk_members _ _ Hok _ _ Hin) as [(parked & hist & Hfed) H3 [H4 H4'] _ H6].
  pose proof (topic_tail _ _ Hok) as Ht. specialize (H6 Hp). rewrite Ht in H4'. do 3 (split; [done|]).
  destruct (polls_deliver [] fd t m parked hist Hok Hin Hfed) as (m' & Hm' & _ & Hg'). cbv zeta in *.
  destruct (fed_ahead _ _ _ _ Hfed ltac:(lia) Ht) as [Hb Hah]. pose proof (fe_window _ _ _ _ Hfed Hp) as Hw. pose proof (fe_enough _ _ _ _ Hfed) as Hen.
  pose proof (fe_next _ _ _ _ Hfed) as [k Hk]. pose proof (zlen_nonneg hist). remember (cursor (m_sub m) + zlen hist) as q eqn:Eq.
  assert (Hq : read_at (t_ring t) q = q) by (unfold read_at; destruct (Z.ltb_spec q (tail (t_ring t) - capacity (t_ring t))); [lia|done]). rewrite Hq in *.
  assert (Hrest : hist ++ zdrop q (t_sent t) = zdrop (cursor (m_sub m)) (t_sent t)).
  { rewrite Eq, <- zdrop_zdrop by lia. rewrite Hk, zdrop_app_exact by done. done. }
  rewrite Hrest, H6 in Hg'. exists m'. split.
  - rewrite <- Ht. destruct (decide (cursor (m_sub m) < tail (t_ring t))) as [Hlt|Hge].
    + replace (tail (t_ring t) - cursor (m_sub m)) with (zlen hist + (tail (t_ring t) - q)) by lia. done.
    + rewrite (Hah ltac:(lia)) in *. replace (Z.to_nat (tail (t_ring t) - cursor (m_sub m))) with 0%nat by lia.
      replace (Z.to_nat (zlen [] + (tail (t_ring t) - q))) with 0%nat in Hm' by (change (zlen []) with 0 in *; lia). exact Hm'.
  - rewrite Hg'. destruct (Z.le_gt_cases (cursor (m_sub m)) (zlen (t_sent t))).
    + symmetry. rewrite <- (zslice_zlen (m_start m)), <- (zslice_zlen (cursor (m_sub m))) by lia. apply zslice_split; lia.
    + assert (m_start m = cursor (m_sub m)) as -> by (destruct (replays ops); lia). unfold zslice. by rewrite Z.sub_diag, ztake_0.
Qed.

(** C3: One topic under the [DropOldest] policy: nothing holds the publisher up, and a slow subscriber loses
    old messages and nothing else.  Whatever the subscribers do, every message that fits a slot is taken.  A
    subscriber gets messages in the order they were sent, none twice, and none from before it started or its
    last read.  Polls bring it to the end: first with every message that its replay still yields, up to one
    not before its slot's position, and then, in as many polls as the ring has slots, or fewer, with every
    message from some position on: the next one, if the ring still holds it, and else one in the ring. *)
Theorem lossy_topic_keeps_going cfg w ops : fresh_ok cfg w -> run_fits cfg w ops -> backpressure cfg = DropOldest ->
  let t := run ops (fresh_topic cfg w) in
  (Forall (fun d => zlen d <= slot_size cfg) (concat (map payloads ops)) -> t_sent t = concat (map payloads ops))
  /\ forall fd m, t_members t !! fd = Some m ->
    m_got m `sublist_of` zslice (m_start m) (cursor (m_sub m)) (t_sent t)
    /\ cursor (m_sub m) <= Z.max (if replays ops then m_start m else 0) (zlen (t_sent t))
    /\ exists q p m', cursor (m_sub m) <= q <= p /\ (wal_replay (m_sub m) = None -> q = cursor (m_sub m))
         /\ (exists parked, cursors (t_ring t) !! cursor_idx (m_sub m) = Some parked /\ parked <= q)
         /\ zlen (t_sent t) - p <= bcapacity cfg /\ (zlen (t_sent t) - q <= bcapacity cfg -> p = q) /\ (q < zlen (t_sent t) -> p < zlen (t_sent t))
         /\ t_members (run (replicate (Z.to_nat (q - cursor (m_sub m) + (zlen (t_sent t) - p))) (Poll fd)) t) !! fd = Some m'
         /\ m_got m' = m_got m ++ zslice (cursor (m_sub m)) q (t_sent t) ++ zdrop p (t_sent t)
         /\ cursor (m_sub m') = Z.max q (zlen (t_sent t)).
Proof.
  intros Hf Hm Hpol t. destruct (fresh_run cfg w ops Hf Hm) as (Hrun & _ & Hcap). fold t in Hrun, Hcap. split.
  { intros Hfits. apply (sp_taken _ _ _ _ Hrun); [exact Hpol|]. eapply Forall_impl; [exact Hfits|]. intros d Hd. unfold fits_slot.
    change (wring (t_pub (fresh_topic cfg w)).1) with (t_ring (fresh_topic (R := R) cfg w)).
    rewrite (proj2 (fresh_topic_ok (history := replays ops) cfg w Hf)). exact Hd. }
  intros fd m Hin. pose proof (sp_ok _ _ _ _ Hrun) as Hok. destruct (tk_members _ _ Hok _ _ Hin) as [(parked & hist & Hfed) H3 [H4 H4'] H5 _].
  pose proof (topic_tail _ _ Hok) as Ht. rewrite Ht in H4'.
  split; [exact (proj2 (reads_sublist _ _ _ _ (proj1 H3) H5))|]. split; [done|].
  destruct (polls_deliver [] fd t m parked hist Hok Hin Hfed) as (m' & Hm' & Hc' & Hg'). cbv zeta in *. pose proof (zlen_nonneg hist).
  pose proof (wf_capacity _ (repr_wf _ _ _ (proj1 (tk_inv _ _ Hok)))) as Hpos. change (wring (t_pub t).1) with (t_ring t) in Hpos.
  remember (cursor (m_sub m) + zlen hist) as q eqn:Eq. exists q, (read_at (t_ring t) q), m'. rewrite Ht, Hcap in *.
  assert (Hp : q <= read_at (t_ring t) q /\ zlen (t_sent t) - read_at (t_ring t) q <= bcapacity cfg
    /\ (zlen (t_sent t) - q <= bcapacity cfg -> read_at (t_ring t) q = q) /\ (q < zlen (t_sent t) -> read_at (t_ring t) q < zlen (t_sent t))).
  { destruct (decide (q < zlen (t_sent t))) as [Hlt|Hge].
    - destruct (read_at_spec (t_ring t) q (repr_wf _ _ _ (proj1 (tk_inv _ _ Hok))) ltac:(lia)) as (Hp1 & Hp2 & Hp3). rewrite Ht, Hcap in *.
      split; [lia|]. split; [lia|]. split; [intros; apply Hp3|]; lia.
    - assert (Hq : read_at (t_ring t) q = q) by (unfold read_at; rewrite Ht, Hcap; destruct (Z.ltb_spec q (zlen (t_sent t) - bcapacity cfg)); [lia|done]).
      rewrite Hq. split; [lia|]. split; [lia|]. split; [done|lia]. }
  destruct Hp as (Hp1 & Hp2 & Hp3 & Hp4). split; [lia|]. split; [intros Hn; destruct (fed_live _ _ _ _ Hfed Hn) as [-> _]; change (zlen []) with 0 in Eq; lia|].
  split; [exists parked; split; [apply Hfed|rewrite Eq; apply Hfed]|]. do 3 (split; [done|]).
  replace (q - cursor (m_sub m) + (zlen (t_sent t) - read_at (t_ring t) q)) with (zlen hist + (zlen (t_sent t) - read_at (t_ring t) q)) by lia.
  split; [done|]. split; [|done]. rewrite Hg'. do 2 f_equal. unfold zslice. rewrite Eq. destruct (fe_next _ _ _ _ Hfed) as [k ->].
  replace (cursor (m_sub m) + zlen hist - cursor (m_sub m)) with (zlen hist) by lia. by rewrite ztake_app_exact.
Qed.
End runs.

(** ** A run *)

(** A theorem on the topic after a run, on the name of that topic. *)
Ltac name_topic H t := lazymatch type of H with let t := _ in @?P t => let Q := eval cbv beta in (P t) in let K := fresh in assert (K : Q) by exact H; clear H; rename K into H end.

(** A subscriber of a run, found by running it. *)
Ltac found := eexists; split; [vm_compute; reflexivity|vm_compute; repeat split].

Section demo.
#[local] Existing Instance sum_crc.

(** Rings of two, and a log that starts a new segment with every third record and flushes every record. *)
Definition roomy (fsync : fsync_policy) (segment : Z) : wal_config := WalConfig true fsync 5 4096 segment 65536.
Definition small (policy : backpressure_policy) : bus_config := BusConfig 4 2 default_base_dir 3 policy (roomy Each 128).
Definition careful : bus_config := small ErrorPolicy.
Definition lossy : bus_config := small DropOldest.
Definition opened (cfg : wal_config) : option WalV1.st :=
  match WalV1.open cfg 9 (Disk [] []) with (d, Ok w) => Some (d, w) | _ => None end.
Definition empty_log : option WalV1.st := opened (roomy Each 128).
Definition msg (n : Z) : list byte := [byte_of_Z n].
#[local] Notation v1_topic := (topic (W := WalV1.st) (R := replayer)).

(** The first subscriber has read one message of a ring of two when the second connects, one back; while it
    does, a batch of two is published, of which the ring takes one.  A third one asks for the first message,
    which the ring does not have, and is still replaying when the next is published. *)
Definition demo_ops : list op :=
  [Connect Now []; Publish (msg 1); Poll 0; Publish (msg 2); Connect (HistoryBack 1) [PublishMany [msg 3; msg 4]; Poll 0];
   Arm 0; Poll 1; Arm 1; Connect (Explicit 0) []; Poll 2; Publish (msg 5)].
Definition demo_topic : v1_topic := run demo_ops (fresh_topic careful empty_log).

Definition seen (fd : nat) (t : v1_topic) : option (Z * Z * list (list byte) * bool * Z) :=
  (fun m => (m_start m, cursor (m_sub m), m_got m, m_asleep m, efd_count (t_pub t).1 fd)) <$> t_members t !! fd.

Example demo_run : t_sent demo_topic = [msg 1; msg 2; msg 3; msg 5]
  /\ seen 0 demo_topic = Some (0, 2, [msg 1; msg 2], false, 0) /\ seen 1 demo_topic = Some (2, 3, [msg 3], true, 1)
  /\ seen 2 demo_topic = Some (0, 1, [msg 1], false, 0).
Proof. vm_compute. repeat split. Qed.

Lemma empty_log_ok : exists w, empty_log = Some (Disk [] [], w) /\ wal_inv (Disk [] []) w [] None /\ cfg w = roomy Each 128 /\ poisoned w = false
  /\ segments w = [] /\ pending_cursor w = 0 /\ retained_bytes w = 0 /\ active_bytes w = 0 /\ writer w = None.
Proof.
  destruct (open_empty (roomy Each 128) 9 (Disk [] []) eq_refl eq_refl ltac:(vm_compute; split; congruence)) as [E Hinv].
  unfold empty_log, opened. rewrite E. eexists. split; [reflexivity|]. split; [exact Hinv|]. repeat split.
Qed.

Lemma small_ok policy : fresh_ok (small policy) empty_log.
Proof.
  constructor; [by split|by split|by split|]. destruct empty_log_ok as (w & -> & Hinv & Hc & Hp & _ & Hpen & _). intros x [= <-].
  exists [], None, []. cbn [fst snd]. rewrite Hc, Hp, Hpen. repeat (split; [done|]). done.
Qed.

Lemma log_keeps new : total_cost v1_cost new <= 65536 -> exists x, empty_log = Some x /\ v1_keeps x 0 new.
Proof.
  intros Hn. destruct empty_log_ok as (w & -> & _ & Hc & _ & Hs & Hpen & Hr & Ha & Hw). eexists. split; [reflexivity|].
  unfold v1_keeps, all_flushed. cbn [snd]. rewrite Hc, Hs, Hpen, Hr, Ha, Hw. cbn [policy retention_bytes roomy om_first]. split; [done|]. split; [done|]. split; [done|lia].
Qed.

Ltac fits_demo := constructor;
  [intros x [= <-]; repeat (apply Forall_cons; split; [split; vm_compute; congruence|]); by apply Forall_nil
  |repeat (apply Forall_cons; split; [try done; split; vm_compute; congruence|]); by apply Forall_nil
  |vm_compute; reflexivity|intros _; apply log_keeps; vm_compute; congruence].

Lemma demo_ops_fit : run_fits careful empty_log demo_ops.
Proof. fits_demo. Qed.

(** The third subscriber, and what it has left: two messages that were logged when it connected, and one that
    was published since. *)
Lemma topic_delivers_in_order_witness : exists m, t_members demo_topic !! 2%nat = Some m
  /\ m_got m = [msg 1] /\ m_got m = zslice (m_start m) (cursor (m_sub m)) (t_sent demo_topic)
  /\ exists m', t_members (run [Poll 2; Poll 2; Poll 2] demo_topic) !! 2%nat = Some m' /\ m_got m' = [msg 1; msg 2; msg 3; msg 5].
Proof.
  assert (Hmm : exists m, t_members demo_topic !! 2%nat = Some m /\ m_start m = 0 /\ cursor (m_sub m) = 1 /\ m_got m = [msg 1]) by found.
  destruct Hmm as (m & E & Hst & Hc & Hgm). exists m. split; [exact E|].
  pose proof (topic_delivers_in_order careful empty_log demo_ops (small_ok _) demo_ops_fit eq_refl) as Hall. name_topic Hall demo_topic.
  destruct (Hall 2%nat m E) as (Hg & _ & _ & m' & Hm' & Hg'). split; [exact Hgm|]. split; [exact Hg|]. exists m'.
  rewrite Hc in Hm'. rewrite Hst in Hg'. split; [exact Hm'|exact Hg'].
Defined.

(** A ring of two and a subscriber that sleeps through four messages; another one asks for the first message
    when the ring has lost it. *)
Definition lossy_ops : list op :=
  [Connect Now []; Publish (msg 1); Poll 0; PublishMany [msg 2; msg 3]; Publish (msg 4); Publish (msg 5); Connect (Explicit 0) []; Poll 1].
Definition lossy_topic : v1_topic := run lossy_ops (fresh_topic lossy empty_log).

Lemma lossy_ops_fit : run_fits lossy empty_log lossy_ops.
Proof. fits_demo. Qed.

(** The first goes on at the message that has taken the place of its own, the second misses nothing. *)
Lemma lossy_topic_keeps_going_witness : t_sent lossy_topic = [msg 1; msg 2; msg 3; msg 4; msg 5]
  /\ (exists m p m', t_members lossy_topic !! 0%nat = Some m /\ m_got m = [msg 1] /\ cursor (m_sub m) < p
       /\ t_members (run (replicate (Z.to_nat (5 - p)) (Poll 0)) lossy_topic) !! 0%nat = Some m'
       /\ m_got m' = [msg 1] ++ zdrop p [msg 1; msg 2; msg 3; msg 4; msg 5])
  /\ exists m', t_members (run (replicate 4 (Poll 1)) lossy_topic) !! 1%nat = Some m' /\ m_got m' = [msg 1; msg 2; msg 3; msg 4; msg 5].
Proof.
  pose proof (lossy_topic_keeps_going lossy empty_log lossy_ops (small_ok _) lossy_ops_fit eq_refl) as Hall.
  name_topic Hall lossy_topic. destruct Hall as [Hs Hm].
  assert (Hsent : t_sent lossy_topic = [msg 1; msg 2; msg 3; msg 4; msg 5]).
  { apply Hs. repeat (apply Forall_cons; split; [vm_compute; congruence|]). by apply Forall_nil. }
  split; [exact Hsent|]. rewrite Hsent in Hm. change (zlen [msg 1; msg 2; msg 3; msg 4; msg 5]) with 5 in Hm. change (bcapacity lossy) with 2 in Hm. split.
  - assert (Hmm : exists m, t_members lossy_topic !! 0%nat = Some m /\ cursor (m_sub m) = 1 /\ m_got m = [msg 1] /\ wal_replay (m_sub m) = None) by found.
    destruct Hmm as (m & E & Hc & Hg & Hn). destruct (Hm 0%nat m E) as (_ & _ & q & p & m' & Hqp & Hq & _ & Hp & _ & _ & H5 & H6 & _).
    rewrite (Hq Hn), Hg, Hc in *. exists m, p, m'. split; [exact E|]. split; [exact Hg|]. split; [lia|].
    replace (1 - 1 + (5 - p)) with (5 - p) in H5 by lia. split; [exact H5|exact H6].
  - assert (Hmm : exists m, t_members lossy_topic !! 1%nat = Some m /\ cursor (m_sub m) = 1 /\ m_got m = [msg 1] /\ cursor_idx (m_sub m) = 1%nat) by found.
    destruct Hmm as (m & E & Hc & Hg & Hi). destruct (Hm 1%nat m E) as (_ & _ & q & p & m' & Hqp & _ & (parked & Hpa & Hpq) & Hp & Hp2 & Hp3 & H5 & H6 & _).
    rewrite Hi in Hpa. vm_compute in Hpa. injection Hpa as <-. rewrite Hg, Hc in *. assert (p = q) as -> by (apply Hp2; lia).
    exists m'. replace (q - 1 + (5 - q)) with 4 in H5 by lia. split; [exact H5|]. rewrite H6. rewrite zdrop_all by (change (zlen _) with 5; lia).
    unfold zslice. rewrite ztake_all by (change (4 <= q - 1); lia). reflexivity.
Defined.

(** The records a log has buffered are not in its file: a subscriber that asks for the first of five messages,
    of which the ring holds two, finds a segment that begins there and nothing in it, takes that for the end of
    the log, and goes on in the ring, with the last one.  No call reports an error. *)
Definition from_the_start (fsync : fsync_policy) : v1_topic :=
  run [Publish (msg 1); PublishMany [msg 2; msg 3]; Publish (msg 4); Publish (msg 5); Connect (Explicit 0) []; Poll 0; Poll 0]
    (fresh_topic (BusConfig 4 2 default_base_dir 2 ErrorPolicy (roomy fsync 4096)) (opened (roomy fsync 4096))).

Example buffered_records_are_skipped :
  seen 0 (from_the_start Batched) = Some (0, 5, [msg 5], false, 0) /\ seen 0 (from_the_start Each) = Some (0, 2, [msg 1; msg 2], false, 0).
Proof. vm_compute. by split. Qed.

(** A position past the tail is taken as it is: under the [Error] policy the ring is full from then on, since
    the publisher takes the tail less the position, modulo 2^64, for the lag. *)
Example position_past_the_tail :
  let t := run [Connect (Explicit 5) []; Publish (msg 1); Publish (msg 2)] (fresh_topic careful empty_log) in
  seen 0 (t : v1_topic) = Some (5, 5, [], false, 0) /\ t_sent t = [].
Proof. vm_compute. by split. Qed.
End demo.
