(* ===== verification/TopicWake.v ===== *)
(** * Nobody sleeps on a message

    The topic of [Topic.v] again: a subscriber that has prepared to sleep, found nothing to read, and has made
    no call since, has no message left to read or a wakeup waiting for it.  For runs in which nobody
    leaves: a slot that is claimed anew while the publisher still knows its old owner breaks it. *)

From Stdlib Require Import ZArith Lia Strings.Byte.
From stdpp Require Import base option strings gmap list.
From S2P Require Import Prelude OrdMap Chain Record Disk SegmentReader WalV1 WalRecovery Config Stats WalApi WalFollow Ring Publisher Subscriber Topic.

(** ** What the publisher's calls do to clients, flags and eventfds *)

Section calm.
Context {W WE : Type} `{!WalBackend W WE}.
#[local] Notation pst := (Publisher.st (W := W)).

(** The connected clients, and those whose connections wait. *)
Definition knows (s : pst) (cs : list client) : Prop := exists l, backlog s.1 = map Ok l /\ cs = clients s.2 ++ l.

(** The same clients, cursors, flags and eventfds. *)
Record calm (s s' : pst) : Prop := {
  ca_cursors : cursors (wring s'.1) = cursors (wring s.1);
  ca_flags : wakeflags (wring s'.1) = wakeflags (wring s.1);
  ca_efds : efds s'.1 = efds s.1;
  ca_knows : forall cs, knows s cs -> knows s' cs
}.

Lemma calm_refl s : calm s s.
Proof. by constructor. Qed.

Lemma calm_trans s1 s2 s3 : calm s1 s2 -> calm s2 s3 -> calm s1 s3.
Proof. intros [H1 H2 H3 H4] [K1 K2 K3 K4]. constructor; [congruence..|auto]. Qed.

Lemma calm_append data (s : pst) : calm s (append_wal data s).1.
Proof.
  destruct s as [w p]. pose proof (append_wal_frame data w p) as Hf. destruct (append_wal data (w, p)) as [[w' p'] r].
  destruct Hf as (-> & Hc & _). constructor; try done. intros cs (l & Hl & ->). exists l. cbn in *. by rewrite Hc.
Qed.

Lemma calm_write data (s : pst) : calm s (ring_publish data s).1.
Proof.
  destruct s as [w p]. pose proof (ring_publish_frame data w p) as Hf. destruct (ring_publish data (w, p)) as [[w' p'] r].
  destruct Hf as (-> & Hc & Hw & He & Hb). constructor; try done. intros cs (l & Hl & ->). exists l. cbn in *. by rewrite Hb.
Qed.

(** A write that the ring takes moves the tail by one. *)
Lemma write_tail data (s s' : pst) ok : ring_publish data s = (s', ok) -> 0 <= tail (wring s.1) -> tail (wring s.1) + 1 < two63 ->
  tail (wring s'.1) = tail (wring s.1) + (if ok then 1 else 0).
Proof.
  destruct s as [w p]. unfold ring_publish. cbn [fst snd]. intros E H0 Hm.
  assert (Hwrap : wrap64 (tail (wring w) + 1) = tail (wring w) + 1) by (apply wrap64_small; ulia).
  destruct (policy p).
  - unfold try_publish in E. destruct (zlen data <=? _); [|injection E as <- <-; cbn; lia].
    destruct (_ <=? _); injection E as <- <-; cbn; lia.
  - cbn in E. injection E as <- <-. cbn. lia.
Qed.

Lemma append_world data (s : pst) : (append_wal data s).1.1 = s.1.
Proof. destruct s as [w p]. pose proof (append_wal_frame data w p) as Hf. destruct (append_wal data (w, p)) as [[w' p'] r]. by destruct Hf as (-> & _). Qed.

Lemma write_backlog data (s : pst) : backlog (ring_publish data s).1.1 = backlog s.1.
Proof. destruct s as [w p]. pose proof (ring_publish_frame data w p) as Hf. destruct (ring_publish data (w, p)) as [[w' p'] r]. by destruct Hf as (_ & _ & _ & _ & Hb). Qed.

Lemma map_ok_inj (l k : list client) : map (Ok : client -> result io_error client) l = map Ok k -> l = k.
Proof. revert k. induction l as [|x l IH]; intros [|y k] E; try done. injection E as -> E. by rewrite (IH k). Qed.

Lemma accept_calm (s : pst) cs : knows s cs -> exists s', accept_clients (WE := WE) s = (s', Ok tt) /\ calm s s' /\ backlog s'.1 = [] /\ clients s'.2 = cs
  /\ wring s'.1 = wring s.1.
Proof.
  destruct s as [w p]. intros (l & Hl & ->). unfold accept_clients. cbn [fst snd] in *. rewrite Hl.
  destruct (accept_all_ok (WE := WE) (map Ok l) (clients p)) as (new & E & Hn); [by apply Forall_map, Forall_true|].
  rewrite E. apply map_ok_inj in Hn as ->.
  eexists. split; [reflexivity|]. split; [|done]. constructor; try done. intros cs (l' & Hl' & ->). cbn in *.
  rewrite Hl in Hl'. apply map_ok_inj in Hl' as <-.
  exists []. split; [done|]. by rewrite app_nil_r.
Qed.

(** A publishing call is calm, and takes nothing; or it takes something and ends with a broadcast to all. *)
Definition publishes (s s' : pst) : Prop := exists s2, calm s s2
  /\ ((s' = s2 /\ tail (wring s2.1) = tail (wring s.1))
      \/ (s' = broadcast_wakeup s2 /\ backlog s2.1 = [] /\ tail (wring s.1) < tail (wring s2.1))).

Lemma calm_count n (s : pst) : calm s (s.1, add_published n s.2).
Proof. constructor; try done. Qed.

Lemma publish_publishes data s cs : knows s cs -> 0 <= tail (wring s.1) -> tail (wring s.1) + 1 < two63 -> publishes s (publish data s).1.
Proof.
  intros Hk H0 Hm. unfold publish. destruct (_ <? _); [exists s; split; [apply calm_refl|by left]|].
  destruct (accept_calm s cs Hk) as (s1 & E & Hca & Hb & _ & Hr). unfold bind at 1. rewrite E. unfold publish_record.
  destruct (wal_full_check s1); [exists s1; split; [done|left; by rewrite Hr]|]. unfold bind.
  pose proof (calm_append data s1) as Hca2. pose proof (append_world data s1) as Hr2.
  destruct (append_wal data s1) as [s2 [[]|e]]; cbn [fst] in *.
  2:{ exists s2. split; [by eapply calm_trans|]. left. by rewrite Hr2, Hr. }
  pose proof (calm_write data s2) as Hca3. destruct (ring_publish data s2) as [s3 ok] eqn:E3.
  pose proof (write_tail data s2 s3 ok E3) as Ht. rewrite Hr2, Hr in Ht. specialize (Ht H0 Hm).
  assert (Hb3 : backlog s3.1 = []) by (pose proof (write_backlog data s2) as Hw; rewrite E3 in Hw; cbn [fst] in Hw; by rewrite Hw, Hr2).
  assert (Hca4 : calm s s3) by (eapply calm_trans; [exact Hca|by eapply calm_trans]).
  destruct s3 as [w p]. destruct ok.
  - exists (w, add_published 1 p). split; [eapply calm_trans; [exact Hca4|apply (calm_count 1 (w, p))]|].
    right. split; [done|]. split; [done|]. cbn in *. lia.
  - exists (w, add_full_rejected p). split; [eapply calm_trans; [exact Hca4|by constructor]|]. left. split; [done|]. cbn in *. lia.
Qed.

Lemma items_publish items : forall count s, 0 <= count -> backlog s.1 = [] -> 0 <= tail (wring s.1) -> tail (wring s.1) + zlen items < two63 ->
  exists s2 n e, publish_items items count s = ((if (match e with Some _ => 0 <? n | None => false end) then broadcast_wakeup s2 else s2), n, e)
    /\ calm s s2 /\ backlog s2.1 = [] /\ count <= n /\ tail (wring s2.1) = tail (wring s.1) + (n - count).
Proof.
  induction items as [|data items IH]; intros count s Hc Hb H0 Hm; cbn [publish_items].
  { exists s, count, None. split; [done|]. split; [apply calm_refl|]. split; [done|lia]. }
  rewrite zlen_cons in Hm. pose proof (zlen_nonneg items).
  destruct (_ <? zlen data).
  { eexists s, count, (Some _). split; [reflexivity|]. split; [apply calm_refl|]. split; [done|lia]. }
  destruct (wal_full_check s).
  { exists s, count, None. split; [done|]. split; [apply calm_refl|]. split; [done|lia]. }
  pose proof (calm_append data s) as Hca2. pose proof (append_world data s) as Hr2.
  destruct (append_wal data s) as [s2 [[]|e]]; cbn [fst] in *.
  2:{ exists s2, count, (Some e). split; [done|]. split; [done|]. split; [by rewrite Hr2|]. rewrite Hr2. lia. }
  pose proof (calm_write data s2) as Hca3. destruct (ring_publish data s2) as [s3 ok] eqn:E3.
  pose proof (write_tail data s2 s3 ok E3) as Ht. rewrite Hr2 in Ht. specialize (Ht H0 ltac:(lia)).
  assert (Hb3 : backlog s3.1 = []) by (pose proof (write_backlog data s2) as Hw; rewrite E3 in Hw; cbn [fst] in Hw; by rewrite Hw, Hr2).
  cbn [fst] in Hca3. assert (Hca4 : calm s s3) by by eapply calm_trans. destruct ok.
  - destruct (IH (count + 1) s3) as (s4 & n & e & E & Hca5 & Hb5 & Hn & Ht5); [lia|done|lia|lia|].
    exists s4, n, e. split; [done|]. split; [by eapply calm_trans|]. split; [done|lia].
  - exists s3, count, None. split; [done|]. split; [done|]. split; [done|lia].
Qed.

Lemma publish_many_publishes items s cs : knows s cs -> 0 <= tail (wring s.1) -> tail (wring s.1) + zlen items < two63 ->
  publishes s (publish_many items s).1.
Proof.
  intros Hk H0 Hm. unfold publish_many. destruct (accept_calm s cs Hk) as (s1 & E & Hca & Hb & _ & Hr). unfold bind at 1. rewrite E.
  rewrite <- Hr in Hm, H0. destruct (items_publish items 0 s1) as (s2 & n & e & E2 & Hca2 & Hb2 & Hn & Ht); [lia|done|done|done|].
  rewrite E2. rewrite Hr in Ht. assert (Hcs : calm s s2) by by eapply calm_trans.
  destruct e as [e|].
  - exists s2. split; [done|]. destruct (Z.ltb_spec 0 n); [right|left; split; [by destruct s2|lia]].
    split; [by destruct (broadcast_wakeup s2)|]. split; [done|lia].
  - destruct s2 as [w p]. destruct (Z.ltb_spec 0 n); cbn [fst].
    + exists (w, add_published n p). split; [eapply calm_trans; [exact Hcs|apply (calm_count n (w, p))]|]. right. split; [done|]. split; [done|cbn in *; lia].
    + exists (w, p). split; [done|]. left. split; [done|lia].
Qed.
End calm.

(** ** The invariant *)

Section awake.
Context {W WE D Ix R RE : Type} `{!WalBackend W WE} `{!WalLaws W WE} `{!ReplayBackend D Ix R RE} `{!LogFiles W D}
  `{!FollowLaws W WE D Ix R RE} {history : bool}.
#[local] Notation member := (member (R := R)).
#[local] Notation topic := (topic (W := W) (R := R)).
#[local] Notation topic_ok := (topic_ok (history := history)).

(** [cs]: the clients the publisher knows, or finds at its next call: no two with one slot or one eventfd, all
    with a claimed slot, the subscribers and the [pend]ing connections among them. *)
Record audience (pend : list client) (t : topic) (cs : list client) : Prop := {
  au_knows : knows (t_pub t) cs;
  au_idx : NoDup (map ccursor_idx cs);
  au_fd : NoDup (map cefd cs);
  au_old : Forall (fun c => (cefd c < t_next_fd t)%nat) cs;
  au_claimed : Forall (fun c => exists v, cursors (t_ring t) !! ccursor_idx c = Some v /\ v <> CURSOR_UNCLAIMED) cs;
  au_members : forall fd m, t_members t !! fd = Some m -> Client (cursor_idx (m_sub m)) fd ∈ cs;
  au_pend : Forall (fun c => c ∈ cs) pend
}.

Record awake (pend : list client) (t : topic) : Prop := {
  aw_clients : exists cs, audience pend t cs;
  aw_room : forall fd, 0 <= efd_count (t_pub t).1 fd <= zlen (t_sent t);
  aw_asleep : forall fd m, t_members t !! fd = Some m -> m_asleep m = true ->
    (wakeflag (t_ring t) (cursor_idx (m_sub m)) = WAKEFLAG_WAITING /\ tail (t_ring t) <= cursor (m_sub m))
    \/ 0 < efd_count (t_pub t).1 fd
}.

Lemma claimed_of w c v : cursors (wring w) !! ccursor_idx c = Some v -> v <> CURSOR_UNCLAIMED -> claimed w c = true.
Proof.
  intros Hv Hn. unfold claimed, cursor_is_unclaimed, cursor_at. rewrite Hv. cbn. by destruct (Z.eqb_spec v CURSOR_UNCLAIMED).
Qed.

Lemma live_all w cs : Forall (fun c => exists v, cursors (wring w) !! ccursor_idx c = Some v /\ v <> CURSOR_UNCLAIMED) cs -> live w cs = cs.
Proof.
  intros Hc. apply List.forallb_filter_id, List.forallb_forall. intros c Hin. rewrite Forall_forall in Hc.
  destruct (Hc c) as (v & Hv & Hn); [by apply list_elem_of_In|by eapply claimed_of].
Qed.

(** The publisher's calls. *)
Lemma published_awake res pend items s t : topic_ok res t -> topic_ok res (after_publish items s t) -> awake pend t ->
  publishes (t_pub t) s -> awake pend (after_publish items s t).
Proof.
  intros Hok Hok' [(cs & [Hk Hidx Hfd Hold Hcl Hmem Hpend]) Hroom Hasl] (s2 & [Hcu Hfl Hef Hkn] & Hcase).
  pose proof (topic_tail _ _ Hok) as Ht. pose proof (topic_tail _ _ Hok') as Ht'. pose proof (topic_bound _ _ Hok) as Hb.
  assert (Hlen : length (wakeflags (t_ring t)) = length (cursors (t_ring t))).
  { pose proof (repr_wf _ _ _ (proj1 (tk_inv _ _ Hok))) as Hwf. pose proof (wf_cursors_len _ Hwf). pose proof (wf_wakeflags_len _ Hwf).
    unfold zlen, t_ring in *. lia. }
  destruct Hcase as [[-> Htl]|(-> & Hbl & Htl)].
  - change (tail (wring s2.1)) with (tail (t_ring (after_publish items s2 t))) in Htl. change (tail (wring (t_pub t).1)) with (tail (t_ring t)) in Htl.
    constructor.
    + exists cs. constructor; try done; [by apply Hkn|]. change (t_ring (after_publish items s2 t)) with (wring s2.1). by rewrite Hcu.
    + intros fd. unfold efd_count. change (efds (t_pub (after_publish items s2 t)).1) with (efds s2.1). rewrite Hef. specialize (Hroom fd).
      unfold efd_count in Hroom. lia.
    + intros fd m Hm Ha. unfold efd_count, wakeflag. change (efds (t_pub (after_publish items s2 t)).1) with (efds s2.1).
      change (wakeflags (t_ring (after_publish items s2 t))) with (wakeflags (wring s2.1)). rewrite Hef, Hfl, Htl. by apply (Hasl fd m).
  - destruct (Hkn cs Hk) as (l & Hl & Hcs). rewrite Hbl in Hl. destruct l; [|done]. rewrite app_nil_r in Hcs. destruct s2 as [w p]. cbn [fst snd] in *.
    assert (Hclw : Forall (fun c => exists v, cursors (wring w) !! ccursor_idx c = Some v /\ v <> CURSOR_UNCLAIMED) cs) by (by rewrite Hcu).
    pose proof (live_all w cs Hclw) as Hlive.
    assert (Hcok : clients_ok w cs).
    { constructor; try done.
      - rewrite Hfl. change (wring (t_pub t).1) with (t_ring t). rewrite Hlen. eapply Forall_impl; [exact Hcl|]. intros c (v & Hv & _). by eapply lookup_lt_Some.
      - apply Forall_true. intros c. unfold efd_count. rewrite Hef. specialize (Hroom (cefd c)). unfold efd_count in Hroom.
        unfold EFD_MAX, u64_MAX. rewrite two64_eq, two63_eq in *. lia. }
    destruct (broadcast_spec w p) as (w' & p' & E & Hw & [(cs' & Hc' & Hperm) _ _ _]); [by rewrite <- Hcs|]. rewrite <- Hcs in *. cbn [app] in Hc'.
    rewrite Hlive in Hperm. rewrite E in *. destruct Hw as [Hring _ Hbk _ Hefd].
    assert (Htail' : tail (t_ring (after_publish items (w', p') t)) = tail (wring w)) by (unfold t_ring; cbn; by rewrite Hring).
    assert (Hcur' : cursors (t_ring (after_publish items (w', p') t)) = cursors (t_ring t)) by (unfold t_ring at 1; cbn; rewrite Hring; exact Hcu).
    assert (Hefd' : forall fd, efd_count (t_pub (after_publish items (w', p') t)).1 fd
      = efd_count (t_pub t).1 fd + (if decide (fd ∈ map cefd (woken w cs)) then 1 else 0)).
    { intros fd. change (efd_count w' fd = efd_count (t_pub t).1 fd + (if decide (fd ∈ map cefd (woken w cs)) then 1 else 0)).
      rewrite Hefd. unfold efd_count. by rewrite Hef. }
    constructor.
    + exists cs'. constructor.
      * exists []. split; [cbn; congruence|]. cbn. by rewrite app_nil_r.
      * by rewrite Hperm.
      * by rewrite Hperm.
      * by rewrite Hperm.
      * rewrite Hperm, Hcur'. exact Hcl.
      * intros fd m Hm. rewrite Hperm. by apply Hmem.
      * eapply Forall_impl; [exact Hpend|]. intros c. by rewrite Hperm.
    + intros fd. rewrite Hefd'. specialize (Hroom fd). change (tail (wring (t_pub t).1)) with (tail (t_ring t)) in Htl. destruct (decide _); lia.
    + intros fd m Hm Ha. right. rewrite Hefd'. specialize (Hroom fd). destruct (Hasl fd m Hm Ha) as [[Hwf _]|Hpos]; [|destruct (decide _); lia].
      rewrite decide_True; [lia|]. apply list_elem_of_fmap. exists (Client (cursor_idx (m_sub m)) fd). split; [done|].
      unfold woken. apply list_elem_of_In, List.filter_In. rewrite Hlive. split; [apply list_elem_of_In; by apply Hmem|].
      unfold waiting, wakeflag. rewrite Hfl. apply Z.eqb_eq. exact Hwf.
Qed.

(** The subscriber's calls. *)
Lemma member_awake res pend fd m m' t t' : topic_ok res t -> topic_ok res t' -> awake pend t ->
  t_members t !! fd = Some m -> t_members t' = <[fd := m']> (t_members t) -> cursor_idx (m_sub m') = cursor_idx (m_sub m) ->
  t_sent t' = t_sent t -> (t_pub t').2 = (t_pub t).2 -> backlog (t_pub t').1 = backlog (t_pub t).1 -> t_next_fd t' = t_next_fd t ->
  (forall i, i <> cursor_idx (m_sub m) -> cursors (t_ring t') !! i = cursors (t_ring t) !! i /\ wakeflag (t_ring t') i = wakeflag (t_ring t) i) ->
  (forall fd', fd' <> fd -> efd_count (t_pub t').1 fd' = efd_count (t_pub t).1 fd') ->
  0 <= efd_count (t_pub t').1 fd <= efd_count (t_pub t).1 fd ->
  (m_asleep m' = true -> wakeflag (t_ring t') (cursor_idx (m_sub m)) = WAKEFLAG_WAITING /\ tail (t_ring t') <= cursor (m_sub m')) ->
  awake pend t'.
Proof.
  intros Hok Hok' [(cs & [Hk Hidx Hfd Hold Hcl Hmem Hpend]) Hroom Hasl] Hm Em Ei Es Ep Eb En Hoth Hef Hown Hsl.
  assert (Hm' : t_members t' !! fd = Some m') by (rewrite Em; apply lookup_insert_eq).
  pose proof (tk_members _ _ Hok' _ _ Hm') as [(parked & hist & Hfed) Hst [Hpos _] _ _].
  pose proof (topic_tail _ _ Hok') as Ht'. pose proof (topic_tail _ _ Hok) as Ht. pose proof (topic_bound _ _ Hok') as Hb.
  pose proof (fed_parked _ _ _ _ Hfed ltac:(lia) ltac:(lia)) as Hpb. pose proof (fe_slot _ _ _ _ Hfed) as Hslot. constructor.
  - exists cs. constructor; try done; [|by rewrite En| |].
    + destruct Hk as (l & Hl & ->). exists l. by rewrite Eb, Ep.
    + eapply Forall_impl; [exact Hcl|]. cbv beta. intros c (v & Hv & Hn). destruct (decide (ccursor_idx c = cursor_idx (m_sub m))) as [E|Hne].
      * exists parked. rewrite E, <- Ei. split; [done|]. by apply small_claimed.
      * exists v. by rewrite (proj1 (Hoth _ Hne)).
    + intros fd0 m0. rewrite Em. intros [[<- <-]|[Hne Hm0]]%lookup_insert_Some; [rewrite Ei; by apply Hmem|by apply Hmem].
  - intros fd0. rewrite Es. destruct (decide (fd0 = fd)) as [->|Hne]; [specialize (Hroom fd); lia|]. rewrite Hef by done. apply Hroom.
  - intros fd0 m0. rewrite Em. intros [[<- <-]|[Hne Hm0]]%lookup_insert_Some Ha; [left; rewrite Ei; by apply Hsl|].
    rewrite Hef by done. pose proof (tk_distinct _ _ Hok fd0 fd m0 m Hm0 Hm ltac:(done)) as Hd.
    rewrite (proj2 (Hoth _ Hd)), Ht', Es, <- Ht. by apply Hasl.
Qed.

Lemma put_efds fd (e : Subscriber.env D) (t : topic) :
  (forall fd', efd_count (t_pub (put fd e t)).1 fd' = if decide (fd' = fd) then sefd e else efd_count (t_pub t).1 fd')
  /\ backlog (t_pub (put fd e t)).1 = backlog (t_pub t).1 /\ t_next_fd (put fd e t) = t_next_fd t.
Proof.
  unfold put. destruct (t_pub t) as [w p]. split; [|done]. intros fd'. unfold efd_count. cbn.
  destruct (decide (fd' = fd)) as [->|Hne]; [by rewrite lookup_insert_eq|by rewrite lookup_insert_ne].
Qed.

(** One call of a subscriber, by what it does to the ring, the eventfd and the subscriber. *)
Lemma call_awake {A} res pend fd call (note : A -> member -> member) t : topic_ok res t -> topic_ok res (on_member fd call note t) -> awake pend t ->
  (forall x m, cursor_idx (m_sub (note x m)) = cursor_idx (m_sub m)) ->
  (forall m, t_members t !! fd = Some m -> let '((e, s), x) := call (view fd t, m_sub m) in
     cursor_idx s = cursor_idx (m_sub m)
     /\ (forall i, i <> cursor_idx s -> cursors (sring e) !! i = cursors (t_ring t) !! i /\ wakeflag (sring e) i = wakeflag (t_ring t) i)
     /\ 0 <= sefd e <= efd_count (t_pub t).1 fd
     /\ (m_asleep (note x (Member s (m_start m) (m_got m) false)) = true ->
           wakeflag (sring e) (cursor_idx s) = WAKEFLAG_WAITING
           /\ tail (sring e) <= cursor (m_sub (note x (Member s (m_start m) (m_got m) false))))) ->
  awake pend (on_member fd call note t).
Proof.
  intros Hok Hok' Haw Hnote Hcall. unfold on_member in *. destruct (t_members t !! fd) as [m|] eqn:Hm; [|done].
  specialize (Hcall m eq_refl). destruct (call (view fd t, m_sub m)) as [[e s] x]. destruct Hcall as (Ei & Hoth & Hef & Hsl).
  destruct (put_fields fd e t) as (Er & Es & Ep & Em & _), (put_efds fd e t) as (Ef & Eb & En). rewrite Ei in Hoth, Hsl.
  refine (member_awake res pend fd m _ t _ Hok Hok' Haw Hm _ _ Es Ep Eb En _ _ _ _); cbn [set_member t_members t_pub].
  - by rewrite Em.
  - by rewrite Hnote.
  - change (t_ring (set_member fd ?y ?z)) with (t_ring z). by rewrite Er.
  - intros fd' Hne. by rewrite Ef, decide_False.
  - by rewrite Ef, decide_True.
  - change (t_ring (set_member fd ?y ?z)) with (t_ring z). by rewrite Er.
Qed.

Lemma poll_awake res pend fd t : topic_ok res t -> awake pend t -> awake pend (step t (Poll fd)).
Proof.
  intros Hok Haw. pose proof (aw_room _ _ Haw fd) as Hroom. pose proof (sp_ok _ _ _ _ (polled_ok res fd t Hok)) as Hok'.
  change (step t (Poll fd)) with (on_member fd Subscriber.try_receive got t). destruct (t_members t !! fd) as [m|] eqn:Hm; [|unfold on_member; by rewrite Hm].
  destruct (mk_fed _ _ (tk_members _ _ Hok _ _ Hm)) as (parked & hist & Hfed).
  destruct (poll_eq res fd t m parked hist Hok Hm Hfed) as (e & m' & E & _ & Ei & Eef & Eas & He). rewrite E in *.
  destruct (put_fields fd e t) as (Er & Es & Ep & Em & _), (put_efds fd e t) as (Ef & Eb & En).
  assert (Hoth : exists v, sring e = set_cursor (cursor_idx (m_sub m)) v (t_ring t) \/ sring e = t_ring t).
  { destruct hist as [|x h]; [|exists 0; right; apply He]. destruct He as [_ He]. destruct (_ <=? _); [eexists; left; apply He|].
    destruct He as (d & _ & He & _). by eexists; left. }
  refine (member_awake res pend fd m m' t _ Hok Hok' Haw Hm _ Ei Es Ep Eb En _ _ _ _); cbn [set_member t_members t_pub].
  - by rewrite Em.
  - change (t_ring (set_member fd ?y ?z)) with (t_ring z). rewrite Er. intros i Hi. destruct Hoth as (v & [->| ->]); [|done]. cbn. by rewrite list_lookup_insert_ne by done.
  - intros fd' Hne. by rewrite Ef, decide_False.
  - rewrite Ef, decide_True, Eef by done. change (sefd (view fd t)) with (efd_count (t_pub t).1 fd). lia.
  - by rewrite Eas.
Qed.

Lemma arm_awake res pend fd t : topic_ok res t -> awake pend t -> awake pend (step t (Arm fd)).
Proof.
  intros Hok Haw. pose proof (aw_room _ _ Haw fd) as Hroom. apply (call_awake res); try done.
  - apply (arm_ok res fd t Hok).
  - intros m Hm. destruct (mk_fed _ _ (tk_members _ _ Hok _ _ Hm)) as (parked & hist & Hfed).
    pose proof (fe_slot _ _ _ _ Hfed) as Hslot. unfold arm_wakeup. cbn [set_flag fst snd].
    change (sring (view fd t)) with (t_ring t). set (r := set_wakeflag (cursor_idx (m_sub m)) (t_ring t)).
    change (current_tail (sring _)) with (tail (t_ring t)).
    assert (Hlt : (cursor_idx (m_sub m) < length (wakeflags (t_ring t)))%nat).
    { pose proof (repr_wf _ _ _ (proj1 (tk_inv _ _ Hok))) as Hwf. pose proof (wf_cursors_len _ Hwf). pose proof (wf_wakeflags_len _ Hwf).
      apply lookup_lt_Some in Hslot. unfold zlen, t_ring in *. lia. }
    destruct (Z.ltb_spec (cursor (m_sub m)) (tail (t_ring t))).
    + split; [done|]. split; [|split; [cbn; lia|done]]. intros i Hi. split; [done|].
      unfold wakeflag. cbn in Hi |- *. by rewrite !list_lookup_insert_ne by done.
    + split; [done|]. split; [|split; [cbn; lia|]].
      * intros i Hi. split; [done|]. unfold wakeflag. cbn in Hi |- *. by rewrite list_lookup_insert_ne by done.
      * intros _. split; [|cbn; lia]. unfold wakeflag. cbn. by rewrite list_lookup_insert_eq.
Qed.

Lemma drain_awake res pend fd t : topic_ok res t -> awake pend t -> awake pend (step t (Drain fd)).
Proof.
  intros Hok Haw. pose proof (aw_room _ _ Haw fd) as Hroom. apply (call_awake res); try done.
  - apply (drain_ok res fd t Hok).
  - intros m Hm. unfold drain_wakeup, try_drain_wakeup, eventfd_drain. cbn [fst]. change (sefd (view fd t)) with (efd_count (t_pub t).1 fd).
    destruct (Z.ltb_spec 0 (efd_count (t_pub t).1 fd)); cbn; (split; [done|]); (split; [done|]); (split; [lia|done]).
Qed.

(** A connection. *)
Lemma announce_awake res pend idx r t : topic_ok res t -> awake pend t -> claim_cursor (current_tail (t_ring t)) (t_ring t) = (r, Some idx) ->
  awake (Client idx (t_next_fd t) :: pend) (announce idx r t).
Proof.
  intros Hok [(cs & [Hk Hidx Hfd Hold Hcl Hmem Hpend]) Hroom Hasl] E. pose proof (topic_tail _ _ Hok) as Ht. pose proof (topic_bound _ _ Hok) as Hb.
  pose proof (zlen_nonneg (t_sent t)). unfold claim_cursor in E. destruct (find_unclaimed (cursors (t_ring t))) as [i|] eqn:Ei; [|done].
  injection E as <- ->. apply find_unclaimed_Some in Ei as [Ei _]. destruct (unclaimed_of _ _ _ Hok Ei) as [_ Hother].
  assert (Hnew : Forall (fun c => ccursor_idx c <> idx) cs).
  { eapply Forall_impl; [exact Hcl|]. cbv beta. intros c (v & Hv & Hn) Ec. rewrite Ec, Ei in Hv. by injection Hv as <-. }
  assert (Hfds : forall fd m, t_members t !! fd = Some m -> fd <> t_next_fd t).
  { intros fd m Hm. apply Hmem in Hm. rewrite Forall_forall in Hold. apply Hold in Hm. cbn in Hm. lia. }
  unfold announce. destruct (t_pub t) as [w p] eqn:Ep.
  assert (Hef : forall fd, fd <> t_next_fd t -> efd_count (World (clear_wakeflag idx (set_cursor idx (tail (t_ring t)) (t_ring t)))
      (<[t_next_fd t := 0]> (efds w)) (backlog w ++ [Ok (Client idx (t_next_fd t))])) fd = efd_count w fd).
  { intros fd Hne. unfold efd_count. cbn. by rewrite lookup_insert_ne. }
  constructor; cbn [t_pub t_sent t_members t_next_fd fst].
  - exists (cs ++ [Client idx (t_next_fd t)]). constructor; cbn [t_pub t_members t_next_fd].
    + destruct Hk as (l & Hl & ->). exists (l ++ [Client idx (t_next_fd t)]). cbn in *. by rewrite Hl, map_app, app_assoc.
    + rewrite map_app. apply NoDup_app. split; [done|]. split; [|apply NoDup_singleton]. intros i (c & -> & Hc)%list_elem_of_fmap Hi.
      apply list_elem_of_singleton in Hi. rewrite Forall_forall in Hnew. by apply (Hnew c).
    + rewrite map_app. apply NoDup_app. split; [done|]. split; [|apply NoDup_singleton]. intros fd (c & -> & Hc)%list_elem_of_fmap Hi.
      apply list_elem_of_singleton in Hi. rewrite Forall_forall in Hold. apply Hold in Hc. cbn in Hi. lia.
    + apply Forall_app. split; [eapply Forall_impl; [exact Hold|]; cbn; lia|]. apply Forall_singleton. cbn. lia.
    + apply Forall_app. split.
      * apply Forall_forall. intros c Hc. rewrite Forall_forall in Hnew, Hcl. destruct (Hcl c Hc) as (v & Hv & Hn). exists v.
        split; [|done]. cbn. rewrite list_lookup_insert_ne; [done|]. intros Ec. by apply (Hnew c).
      * apply Forall_singleton. exists (tail (t_ring t)). split; [|apply small_claimed; lia]. cbn. apply list_lookup_insert_eq. by eapply lookup_lt_Some.
    + intros fd m Hm. apply elem_of_app. left. by apply Hmem.
    + apply Forall_cons. split; [set_solver|]. eapply Forall_impl; [exact Hpend|]. cbv beta. set_solver.
  - intros fd. destruct (decide (fd = t_next_fd t)) as [->|Hne]; [unfold efd_count; cbn; rewrite lookup_insert_eq; cbn; lia|]. rewrite Hef by done. apply Hroom.
  - intros fd m Hm Ha. rewrite Hef by (by eapply Hfds). destruct (Hasl fd m Hm Ha) as [[Hf Hc]|Hpos]; [left|by right].
    split; [|done]. unfold wakeflag in *. cbn. rewrite list_lookup_insert_ne; [done|]. intros Ec. by apply (Hother fd m).
Qed.

Lemma connected_awake res pend fd idx r start before t : topic_ok (idx :: res) t -> served (history := history) (capacity (t_ring t)) start ->
  keeps_on (history := history) [] (wal (t_pub t).2) -> claim_cursor (current_tail (t_ring before)) (t_ring before) = (r, Some idx) ->
  awake (Client idx fd :: pend) t -> awake pend (connected fd start before t).
Proof.
  intros Hok Hs Hk0 E [(cs & [Hk Hidx Hfd Hold Hcl Hmem Hpend]) Hroom Hasl]. pose proof (topic_tail _ _ Hok) as Ht. pose proof (topic_bound _ _ Hok) as Hb.
  destruct (connected_eq _ fd idx r start before t Hok Hs Hk0 E) as (c & replay & parked & hist & -> & _ & _ & Hpb & _).
  apply Forall_cons in Hpend as [Hin Hpend]. set (e := with_sring _ _).
  destruct (put_fields fd e t) as (Er & Es & Ep & Em & _), (put_efds fd e t) as (Ef & Eb & En). set (t' := set_member _ _ _).
  change (t_ring (put fd e t)) with (t_ring t') in Er. change (t_sent (put fd e t)) with (t_sent t') in Es.
  assert (Hefd : forall fd0, efd_count (t_pub t').1 fd0 = efd_count (t_pub t).1 fd0).
  { intros fd0. unfold t'. cbn [set_member t_pub]. rewrite Ef. by destruct (decide (fd0 = fd)) as [->|]. }
  constructor.
  - exists cs. constructor; try done.
    + destruct Hk as (l & Hl & ->). exists l. unfold t'. cbn [set_member t_pub]. by rewrite Eb, Ep.
    + unfold t'. cbn [set_member t_next_fd]. by rewrite En.
    + rewrite Er. eapply Forall_impl; [exact Hcl|]. cbv beta. intros cl (v & Hv & Hn). cbn. destruct (decide (ccursor_idx cl = idx)) as [<-|Hne].
      * exists parked. rewrite list_lookup_insert_eq by (by eapply lookup_lt_Some). split; [done|]. by apply small_claimed.
      * exists v. by rewrite list_lookup_insert_ne by done.
    + intros fd0 m0 Hm0. unfold t' in Hm0. cbn [set_member t_members] in Hm0. rewrite Em in Hm0.
      apply lookup_insert_Some in Hm0 as [[<- <-]|[Hne Hm0]]; [done|by apply Hmem].
  - intros fd0. rewrite Hefd, Es. apply Hroom.
  - intros fd0 m0 Hm0 Ha. unfold t' in Hm0. cbn [set_member t_members] in Hm0. rewrite Em in Hm0.
    apply lookup_insert_Some in Hm0 as [[<- <-]|[Hne Hm0]]; [done|]. rewrite Hefd, Er. by apply Hasl.
Qed.

(** ** Runs in which nobody leaves *)

Fixpoint leaves (o : op) : bool :=
  match o with Drop _ => true | Connect _ meanwhile => existsb leaves meanwhile | _ => false end.

Definition keeps_awake (o : op) : Prop := forall res pend t, topic_ok res t -> may (history := history) t (payloads o) (starts o) -> leaves o = false ->
  awake pend t -> awake pend (step t o).

Lemma run_keeps_awake ops : Forall keeps_awake ops -> forall res pend t, topic_ok res t ->
  may (history := history) t (concat (map payloads ops)) (concat (map starts ops)) -> existsb leaves ops = false -> awake pend t -> awake pend (run ops t).
Proof.
  induction 1 as [|o ops Ho _ IH]; intros res pend t Hok Hm Hl Haw; [done|]. cbn [map concat existsb] in *. apply orb_false_iff in Hl as [Hl1 Hl2].
  pose proof (may_part _ _ _ _ _ Hm) as Hm1. pose proof (step_keeps o res t Hok Hm1) as Hs.
  apply (IH res pend (step t o)); [apply Hs|by eapply may_rest|done|]. by apply (Ho res).
Qed.

Lemma step_keeps_awake o : keeps_awake o.
Proof.
  induction o as [d|l|fd|fd|fd|fd|start ops Hops] using op_nested; intros res pend t Hok Hm Hl Haw.
  - pose proof (step_keeps (Publish d) res t Hok Hm) as Hs. apply (published_awake res); [done|apply Hs|done|].
    destruct (aw_clients _ _ Haw) as [cs Hcs]. pose proof (my_room _ _ _ Hm) as Hr. pose proof (topic_tail _ _ Hok) as Ht. pose proof (zlen_nonneg (t_sent t)).
    unfold t_ring in Ht. eapply publish_publishes; [apply Hcs|lia|rewrite Ht; exact Hr].
  - pose proof (step_keeps (PublishMany l) res t Hok Hm) as Hs. apply (published_awake res); [done|apply Hs|done|].
    destruct (aw_clients _ _ Haw) as [cs Hcs]. pose proof (my_room _ _ _ Hm) as Hr. pose proof (topic_tail _ _ Hok) as Ht. pose proof (zlen_nonneg (t_sent t)).
    unfold t_ring in Ht. eapply publish_many_publishes; [apply Hcs|lia|rewrite Ht; exact Hr].
  - by apply (poll_awake res).
  - by apply (arm_awake res).
  - by apply (drain_awake res).
  - done.
  - cbn [Topic.step leaves payloads starts] in *. destruct (claim_cursor _ _) as [r [idx|]] eqn:E.
    2:{ apply (run_keeps_awake ops Hops res); [done| |done|done]. exact (may_rest res t t [] _ [start] _ Hm (stepped_refl res t Hok)). }
    pose proof (announce_ok res idx r t Hok E) as Ha. pose proof (may_announced _ _ _ _ _ _ _ Hm Ha) as Hm1.
    pose proof (topic_run_ok ops (idx :: res) _ (sp_ok _ _ _ _ Ha) Hm1) as Hrun.
    apply (connected_awake res pend (t_next_fd t) idx r start t (run ops (announce idx r t))); [apply Hrun| | |done|].
    + pose proof (my_starts _ _ _ Hm) as Hst. apply Forall_cons in Hst as [Hst _]. by rewrite (sp_capacity _ _ _ _ Hrun), (sp_capacity _ _ _ _ Ha).
    + apply (sp_keeps _ _ _ _ Hrun). rewrite app_nil_r. apply Hm1.
    + apply (run_keeps_awake ops Hops (idx :: res)); [apply Ha|done|done|]. by apply (announce_awake res).
Qed.

Lemma fresh_awake cfg w : awake [] (fresh_topic (R := R) cfg w).
Proof.
  constructor; [|intros fd; change (0 <= 0 <= 0); lia|done]. exists []. constructor; try done; [by exists []|constructor|constructor].
Qed.

End awake.

Section sleepers.
Context {W WE D Ix R RE : Type} `{!WalBackend W WE} `{!WalLaws W WE} `{!ReplayBackend D Ix R RE} `{!LogFiles W D}
  `{!FollowLaws W WE D Ix R RE}.

(** C2: No wakeup is lost between calls.  On a fresh topic, under either policy, in any run in which nobody leaves, a subscriber that found nothing when it prepared to sleep, and has made no call since, has nothing to read
    or its eventfd is readable: whatever was published since, by one message or by a batch, and also if the
    publisher had not yet accepted its connection when it prepared to sleep.  The calls of a run are whole, one after another, and every
    handshake succeeds: a subscriber that connects and prepares to sleep while a publish is under way can be missed
    ([Wakeup.late_subscriber_sleeps_on_unread_message]). *)
Theorem sleeper_is_woken cfg w ops : fresh_ok cfg w -> run_fits cfg w ops -> existsb leaves ops = false ->
  let t := run ops (fresh_topic (R := R) cfg w) in
  forall fd m, t_members t !! fd = Some m -> m_asleep m = true -> cursor (m_sub m) < zlen (t_sent t) -> 0 < efd_count (t_pub t).1 fd.
Proof.
  intros Hf Hm0 Hl t fd m Hm Ha Hlt. destruct (fresh_topic_ok (R := R) (history := replays ops) cfg w Hf) as [Hok _].
  pose proof (fresh_may (R := R) cfg w ops Hf Hm0) as Hmay.
  assert (Haw : awake [] t).
  { apply (run_keeps_awake ops (Forall_true _ _ step_keeps_awake) [] [] _ Hok Hmay Hl), fresh_awake. }
  pose proof (topic_tail _ _ (sp_ok _ _ _ _ (topic_run_ok ops [] _ Hok Hmay))) as Ht. change (fold_left _ ops ?x) with (run ops x) in Ht. fold t in Ht.
  destruct (aw_asleep _ _ Haw fd m Hm Ha) as [[_ Hc]|Hpos]; [lia|done].
Qed.
End sleepers.

(** ** Runs *)

Section demo.
#[local] Existing Instance sum_crc.

(** In the run of [Topic.v] the second subscriber sleeps when the last message comes. *)
Lemma sleeper_is_woken_witness : exists m, t_members demo_topic !! 1%nat = Some m /\ m_asleep m = true
  /\ cursor (m_sub m) < zlen (t_sent demo_topic) /\ 0 < efd_count (t_pub demo_topic).1 1.
Proof.
  assert (Hmm : exists m, t_members demo_topic !! 1%nat = Some m /\ m_asleep m = true /\ cursor (m_sub m) < zlen (t_sent demo_topic)) by found.
  destruct Hmm as (m & E & Ha & Hc). exists m. split; [exact E|]. split; [exact Ha|]. split; [exact Hc|].
  pose proof (sleeper_is_woken careful empty_log demo_ops (small_ok _) demo_ops_fit eq_refl) as Hall. name_topic Hall demo_topic.
  exact (Hall 1%nat m E Ha Hc).
Defined.

(** With a subscriber that leaves, and one that gets its slot before the publisher has noticed: the second sleeps
    on a message, and the wakeup has gone to the first one's eventfd. *)
Definition left_ops : list op := [Connect Now []; Drop 0; Connect Now []; Arm 1; Publish (msg 1)].

Example successor_sleeps_on : let t := run (R := replayer) left_ops (fresh_topic careful empty_log) in
  seen 1 t = Some (0, 0, [], true, 0) /\ t_sent t = [msg 1] /\ efd_count (t_pub t).1 0 = 1.
Proof. vm_compute. repeat split. Qed.
End demo.
