(* ===== verification/TopicV2.v ===== *)
(** * A topic on the lock-free log

    The theorems of [Topic.v] and [TopicWake.v] for the other log: its files hold every record at once, whatever the sync
    policy, so subscribers may replay it under every policy. *)

From Stdlib Require Import ZArith Lia Strings.Byte.
From stdpp Require Import base option strings gmap list.
From S2P Require Import Prelude OrdMap Chain Record Config Stats Disk Mmap SegmentV2 WalV2 WalV2Spec WalApi WalFollow WalV2Api WalV2Follow Ring Publisher Subscriber Topic.

#[local] Existing Instance sum_crc.
#[local] Notation v2_topic := (topic (W := WalV2.st) (R := WalV2.replayer)).

(** Segments of two records, synced in batches. *)
Definition lock_free_cfg : wal_config := WalConfig true Batched 5 4096 96 65536.
Definition lock_free (policy : backpressure_policy) : bus_config := BusConfig 4 2 default_base_dir 3 policy lock_free_cfg.
Definition lock_free_log : option WalV2.st :=
  match WalV2.open lock_free_cfg 9 (MDisk [] (0, 0) []) with (d, Ok w) => Some (d, w) | _ => None end.

Lemma lock_free_log_ok new : total_cost v2_cost new <= 65536 -> exists x, lock_free_log = Some x /\ v2_logs x 0 [] /\ v2_keeps x 0 new.
Proof.
  intros Hn. eexists. split; [vm_compute; reflexivity|]. split.
  - exists [], None, []. split; [|by repeat split]. constructor.
    + vm_compute. constructor.
    + vm_compute. reflexivity.
    + vm_compute. reflexivity.
    + vm_compute. reflexivity.
    + constructor.
    + constructor.
    + constructor.
    + split; [vm_compute; reflexivity|]. split; [reflexivity|vm_compute; reflexivity].
    + exists 0. split; [lia|vm_compute; reflexivity].
    + vm_compute. reflexivity.
    + vm_compute. reflexivity.
    + split; (split; [vm_compute; congruence|vm_compute; reflexivity]).
  - split; [reflexivity|]. cbn [snd retained_bytes active_bytes cfg retention_bytes]. lia.
Qed.

Lemma lock_free_ok policy : fresh_ok (lock_free policy) lock_free_log.
Proof.
  constructor; [by split|by split|by split|]. destruct (lock_free_log_ok []) as (x & -> & Hl & _); [vm_compute; congruence|]. by intros ? [= <-].
Qed.

(** The run of [Topic.v] asks nothing of this log that it does not do. *)
Lemma lock_free_fits policy : run_fits (lock_free policy) lock_free_log demo_ops.
Proof.
  constructor.
  - intros x Hx. vm_compute in Hx. injection Hx as <-. repeat (apply Forall_cons; split; [split; vm_compute; congruence|]). by apply Forall_nil.
  - repeat (apply Forall_cons; split; [try done; split; vm_compute; congruence|]). by apply Forall_nil.
  - vm_compute. reflexivity.
  - intros _. destruct (lock_free_log_ok (concat (map payloads demo_ops))) as (x & E & _ & Hk); [vm_compute; congruence|]. by exists x.
Qed.

Definition lock_free_topic : v2_topic := run demo_ops (fresh_topic (lock_free ErrorPolicy) lock_free_log).

Lemma lock_free_topic_ok : topic_ok (history := true) [] lock_free_topic.
Proof. exact (sp_ok _ _ _ _ (proj1 (fresh_run (lock_free ErrorPolicy) lock_free_log demo_ops (lock_free_ok _) (lock_free_fits _)))). Qed.

Definition got_by (fd : nat) (t : v2_topic) : option (Z * list (list byte)) := (fun m => (cursor (m_sub m), m_got m)) <$> t_members t !! fd.

(** The subscriber that replays: with batched syncs, where the other log makes it skip, it misses nothing. *)
Example lock_free_run : t_sent lock_free_topic = [msg 1; msg 2; msg 3; msg 5]
  /\ got_by 2 lock_free_topic = Some (1, [msg 1]) /\ got_by 2 (run [Poll 2; Poll 2; Poll 2] lock_free_topic) = Some (4, [msg 1; msg 2; msg 3; msg 5]).
Proof. vm_compute. repeat split. Qed.

Definition replayed_from_the_start : v2_topic :=
  run [Publish (msg 1); PublishMany [msg 2; msg 3]; Publish (msg 4); Publish (msg 5); Connect (Explicit 0) []; Poll 0; Poll 0]
    (fresh_topic (lock_free ErrorPolicy) lock_free_log).

Example unsynced_records_are_replayed : got_by 0 replayed_from_the_start = Some (2, [msg 1; msg 2]).
Proof. vm_compute. reflexivity. Qed.
