(* ===== verification/Waker.v ===== *)
(** * Handshakes and waits ([crates/mmbus/src/waker.rs], and the accept thread of [publisher.rs])

    What a subscriber and the publisher send each other when they meet, on Linux a descriptor with the slot's
    number, on Windows a fixed message over a pipe, and Windows' semaphore in place of the eventfd that
    [Publisher.v] and [Subscriber.v] use.  A system call is its outcome; one that is repeated, the list of
    them. *)

From Stdlib Require Import ZArith Lia Strings.Byte.
From stdpp Require Import base option list.
From S2P Require Import Prelude OrdMap Disk Ring Publisher Subscriber.

(** ** Linux: a descriptor over a socket *)

Definition SOL_SOCKET : Z := 1.
Definition SCM_RIGHTS : Z := 1.

(** A control message with one descriptor. *)
Record cmsghdr := Cmsghdr { cmsg_level : Z; cmsg_type : Z; cmsg_fd : Z }.

Definition send_fd (sendmsg : list byte -> cmsghdr -> result io_error unit) (fd cursor_idx : Z) : result io_error unit :=
  sendmsg (to_le 4 cursor_idx) (Cmsghdr SOL_SOCKET SCM_RIGHTS fd).

(** [recvmsg] fills the front of four bytes, and gives a control message or none. *)
Definition recv_fd (recvmsg : result io_error (list byte * option cmsghdr)) : result io_error (Z * Z) :=
  match recvmsg with
  | Err e => Err e
  | Ok (payload, control) =>
      match control with
      | None => Err OtherIo
      | Some c =>
          if negb (cmsg_level c =? SOL_SOCKET) || negb (cmsg_type c =? SCM_RIGHTS) then Err OtherIo
          else Ok (cmsg_fd c, from_le (zsplice 0 payload (zrep 4 Byte.x00)))
      end
  end.

(** ** Windows: a message over a pipe *)

(** One [WriteFile] each: [None] fails, a number is how much it has written.  What was written, and the result,
    if it returns. *)
Fixpoint write_all (writes : list (option Z)) (data : list byte) : list byte * option (result io_error unit) :=
  match data with
  | [] => ([], Some (Ok tt))
  | _ =>
      match writes with
      | [] => ([], None)
      | None :: _ => ([], Some (Err OtherIo))
      | Some n :: writes =>
          if n =? 0 then ([], Some (Err OtherIo))
          else let '(sent, r) := write_all writes (zdrop n data) in (ztake n data ++ sent, r)
      end
  end.

(** One [ReadFile] each, with what it has read. *)
Fixpoint read_exact (reads : list (option (list byte))) (need : Z) : option (result io_error (list byte)) :=
  if need =? 0 then Some (Ok [])
  else
    match reads with
    | [] => None
    | None :: _ => Some (Err OtherIo)
    | Some [] :: _ => Some (Err UnexpectedEof)
    | Some chunk :: reads =>
        match read_exact reads (need - zlen chunk) with
        | Some (Ok rest) => Some (Ok (chunk ++ rest))
        | r => r
        end
    end.

Definition handshake (pid sem cursor_idx : Z) : list byte := to_le 4 pid ++ to_le 8 sem ++ to_le 4 cursor_idx.

Definition send_handshake (writes : list (option Z)) (pid sem cursor_idx : Z) : list byte * option (result io_error unit) :=
  write_all writes (handshake pid sem cursor_idx).

(** [open_process], and [duplicate] from the process's handle. *)
Definition recv_handshake_and_dup (open_process : Z -> result io_error Z) (duplicate : Z -> Z -> result io_error Z)
    (reads : list (option (list byte))) : option (result io_error (Z * Z)) :=
  match read_exact reads 16 with
  | None => None
  | Some (Err e) => Some (Err e)
  | Some (Ok buf) =>
      let pid := from_le (zslice 0 4 buf) in
      let sub_sem_val := from_le (zslice 4 12 buf) in
      let cursor_idx := from_le (zslice 12 16 buf) in
      Some (let? sub_proc := open_process pid in
            let? dup := duplicate sub_proc sub_sem_val in
            Ok (dup, cursor_idx))
  end.

(** ** Windows: a semaphore *)

Definition SEMAPHORE_MAX : Z := 2 ^ 31 - 1.

(** [ReleaseSemaphore] by one: refused at the maximum. *)
Definition semaphore_wake (count : Z) : Z * bool := if count <? SEMAPHORE_MAX then (count + 1, true) else (count, false).
(** [WaitForSingleObject] that does not wait. *)
Definition semaphore_drain (count : Z) : Z * bool := if 0 <? count then (count - 1, true) else (count, false).

(** [WaitForMultipleObjects] on the semaphore and the pipe: the first that is signalled, a unit of the semaphore
    being taken. *)
Inductive wait_result := WAIT_OBJECT (i : nat) | WAIT_TIMEOUT | WAIT_FAILED.
Definition wait_multiple (count : Z) (pipe_signalled : bool) : Z * wait_result :=
  if 0 <? count then (count - 1, WAIT_OBJECT 0) else if pipe_signalled then (count, WAIT_OBJECT 1) else (count, WAIT_TIMEOUT).

Definition wait_wakeup (w : wait_result) : result io_error unit :=
  match w with
  | WAIT_TIMEOUT => Err WouldBlock
  | WAIT_OBJECT O => Ok tt
  | WAIT_OBJECT (S O) => Err UnexpectedEof
  | _ => Err OtherIo
  end.

(** ** Windows: the accept thread *)

(** One turn: the flag when it starts, the pipe instance, the connection, the flag again, and the handshake. *)
Record accept_turn := AcceptTurn {
  stopped : bool;
  instance : result io_error unit;
  connection : result io_error unit;
  stopped_then : bool;
  shake : result io_error client;
  listening : bool
}.

(** What it sends the publisher; whether it has ended. *)
Fixpoint accept_thread (turns : list accept_turn) : list (result io_error client) * bool :=
  match turns with
  | [] => ([], false)
  | t :: turns =>
      if stopped t then ([], true)
      else
        match instance t with
        | Err e => ([Err e], true)
        | Ok _ =>
            match connection t with
            | Err e => let '(l, ended) := accept_thread turns in (Err e :: l, ended)
            | Ok _ =>
                if stopped_then t then ([], true)
                else
                  match shake t with
                  | Err e => let '(l, ended) := accept_thread turns in (Err e :: l, ended)
                  | Ok c => if listening t then let '(l, ended) := accept_thread turns in (Ok c :: l, ended) else ([], true)
                  end
            end
        end
  end.

(** ** What arrives *)

(** Whatever pieces the writes are done in, what is sent when they are done is the data; enough of them do
    it. *)
Lemma write_all_sends writes : forall data, Forall (fun w => match w with Some n => 0 <= n | None => True end) writes ->
  (write_all writes data).1 `prefix_of` data /\ ((write_all writes data).2 = Some (Ok tt) -> (write_all writes data).1 = data).
Proof.
  induction writes as [|[n|] writes IH]; intros [|b data] Hw; try done.
  - cbn. split; [apply prefix_nil|done].
  - apply Forall_cons in Hw as [Hn Hw]. cbn [write_all]. destruct (n =? 0); [split; [apply prefix_nil|done]|].
    destruct (IH (zdrop n (b :: data)) Hw) as [Hp Hd]. destruct (write_all writes (zdrop n (b :: data))) as [sent r]. cbn [fst snd] in *. split.
    + rewrite <- (ztake_zdrop n (b :: data)) at 2. by apply prefix_app.
    + intros Hr. rewrite (Hd Hr). apply ztake_zdrop.
  - cbn. split; [apply prefix_nil|done].
Qed.

Lemma write_all_ends writes : forall data, Forall (fun w => match w with Some n => 0 < n | None => False end) writes ->
  zlen data <= zlen writes -> (write_all writes data).2 = Some (Ok tt).
Proof.
  induction writes as [|w writes IH]; intros [|b data] Hw Hl; try done.
  apply Forall_cons in Hw as [Hn Hw]. destruct w as [n|]; [|done]. cbn [write_all]. destruct (Z.eqb_spec n 0); [lia|].
    rewrite !zlen_cons in Hl. specialize (IH (zdrop n (b :: data)) Hw).
    destruct (write_all writes (zdrop n (b :: data))) as [sent r]. cbn [snd] in *. apply IH. unfold zdrop, zlen in *.
    rewrite length_drop. cbn. lia.
Qed.

(** Whatever pieces the reads come in, they give what was sent. *)
Lemma read_exact_gets chunks : forall data, Forall (fun c => c <> []) chunks -> concat chunks = data ->
  read_exact (map Some chunks) (zlen data) = Some (Ok data).
Proof.
  induction chunks as [|c chunks IH]; intros data Hc Hd; cbn in Hd; subst data; [done|].
  apply Forall_cons in Hc as [Hne Hc]. cbn [map read_exact]. pose proof (zlen_pos c Hne). rewrite zlen_app. pose proof (zlen_nonneg (concat chunks)).
  destruct (Z.eqb_spec (zlen c + zlen (concat chunks)) 0); [lia|]. destruct c as [|b c]; [done|].
  replace (zlen (b :: c) + zlen (concat chunks) - zlen (b :: c)) with (zlen (concat chunks)) by lia. by rewrite (IH _ Hc eq_refl).
Qed.

(** The Windows handshake.  Once the subscriber's writes are done, in whatever pieces, and the publisher's reads
    have got it all, in whatever pieces, the publisher duplicates the handle the subscriber named, out of
    the process it named, and has its slot; the message is sixteen bytes. *)
Theorem handshake_arrives open_process duplicate writes chunks pid sem idx sent :
  0 <= pid < two32 -> 0 <= sem < two64 -> 0 <= idx < two32 ->
  Forall (fun w => match w with Some n => 0 <= n | None => True end) writes ->
  send_handshake writes pid sem idx = (sent, Some (Ok tt)) -> Forall (fun c => c <> []) chunks -> concat chunks = sent ->
  zlen sent = 16
  /\ recv_handshake_and_dup open_process duplicate (map Some chunks)
     = Some (let? sub_proc := open_process pid in let? dup := duplicate sub_proc sem in Ok (dup, idx)).
Proof.
  intros Hp Hs Hi Hw E Hc Hcc. unfold send_handshake in E. destruct (write_all_sends writes (handshake pid sem idx) Hw) as [_ Hd].
  rewrite E in Hd. cbn [fst snd] in Hd. specialize (Hd eq_refl). subst sent.
  assert (Hlen : zlen (handshake pid sem idx) = 16) by (unfold handshake; rewrite !zlen_app, !zlen_to_le; done).
  rewrite Hd. split; [exact Hlen|]. unfold recv_handshake_and_dup.
  pose proof (read_exact_gets chunks _ Hc Hd) as Hread. rewrite Hlen in Hread. rewrite Hread.
  assert (H0 : zslice 0 4 (handshake pid sem idx) = to_le 4 pid) by (unfold handshake; apply zslice_exact; by rewrite zlen_to_le).
  assert (H1 : zslice 4 12 (handshake pid sem idx) = to_le 8 sem).
  { unfold handshake. rewrite zslice_app_r, !zlen_to_le by (rewrite zlen_to_le; lia). apply zslice_exact. by rewrite zlen_to_le. }
  assert (H2 : zslice 12 16 (handshake pid sem idx) = to_le 4 idx).
  { unfold handshake. rewrite app_assoc, zslice_app_r, zlen_app, !zlen_to_le by (rewrite zlen_app, !zlen_to_le; lia).
    apply zslice_full. by rewrite zlen_to_le. }
  cbv zeta. rewrite H0, H1, H2, !from_to_le. unfold two32, two64 in *. rewrite !Z.mod_small by done. done.
Qed.

Lemma handshake_arrives_witness :
  let '(sent, _) := send_handshake [Some 5; Some 100] 77 4660 2 in
  recv_handshake_and_dup Ok (fun _ h => Ok (h + 1)) (map Some [ztake 3 sent; zdrop 3 sent]) = Some (Ok (4661, 2)).
Proof.
  destruct (send_handshake [Some 5; Some 100] 77 4660 2) as [sent r] eqn:E.
  assert (Hr : r = Some (Ok tt)) by (vm_compute in E; by injection E as _ <-). subst r.
  apply (handshake_arrives Ok (fun _ h => Ok (h + 1)) [Some 5; Some 100] [ztake 3 sent; zdrop 3 sent] 77 4660 2 sent);
    [by vm_compute|by vm_compute|by vm_compute| |exact E| |].
  - repeat (apply Forall_cons; split; [by vm_compute|]). by apply Forall_nil.
  - vm_compute in E. injection E as <-. repeat (apply Forall_cons; split; [by vm_compute|]). by apply Forall_nil.
  - cbn. rewrite app_nil_r. apply ztake_zdrop.
Defined.

(** The Linux handshake: when the kernel hands the four bytes and a descriptor of its own for the one that was
    sent over, the publisher has that descriptor and the slot. *)
Lemma descriptor_arrives sendmsg fd idx dup : 0 <= idx < two32 -> (forall payload c, sendmsg payload c = Ok tt) ->
  send_fd sendmsg fd idx = Ok tt /\ recv_fd (Ok (to_le 4 idx, Some (Cmsghdr SOL_SOCKET SCM_RIGHTS dup))) = Ok (dup, idx).
Proof.
  intros Hi Hs. split; [apply Hs|]. unfold recv_fd. cbn [cmsg_level cmsg_type negb orb Z.eqb]. rewrite !Z.eqb_refl. cbn [negb orb cmsg_fd].
  assert (Hz : zsplice 0 (to_le 4 idx) (zrep 4 Byte.x00) = to_le 4 idx) by (unfold zsplice; rewrite ztake_0, zdrop_all; [by rewrite app_nil_r|by rewrite zlen_to_le, zlen_zrep]).
  rewrite Hz, from_to_le. unfold two32 in *. by rewrite Z.mod_small.
Qed.

(** ** What nobody checks *)

(** A message names any slot at all, and the flag of one past the table is outside of the mapping. *)
Example handshake_names_any_slot :
  recv_fd (Ok (to_le 4 (two32 - 1), Some (Cmsghdr SOL_SOCKET SCM_RIGHTS 9))) = Ok (9, two32 - 1)
  /\ mmap_size 256 4096 16 < wakeflags_offset 16 + 8 * (two32 - 1).
Proof. vm_compute. by split. Qed.

(** A publisher that has sent a wakeup and is gone: on Windows the wakeup counts, on Linux the hangup. *)
Example last_wakeup : (wait_multiple 1 true).2 = WAIT_OBJECT 0 /\ wait_wakeup (wait_multiple 1 true).2 = Ok tt
  /\ forall r : ring, poll_ready (Env r 1 true tt) = Some (Err UnexpectedEof).
Proof. by repeat split. Qed.

(** After one pipe instance that cannot be made, nobody connects any more. *)
Example no_instance_ends_the_thread t turns : stopped t = false -> instance t = Err OtherIo ->
  accept_thread (t :: turns) = ([Err OtherIo], true).
Proof. intros Hs Hi. cbn. by rewrite Hs, Hi. Qed.
