(* ===== verification/ProducerLock.v ===== *)
(** * The producer lock ([crates/mmbus/src/producer_lock.rs])

    The process-wide set, the lock file and [flock] as the state of one machine; [acquire_producer_lock] as
    one call, and the same calls interleaved by any number of handles in any number of processes, with
    [Bus::clean_topic]'s removal of the directory and the death of a process. *)

From Stdlib Require Import ZArith Lia.
From stdpp Require Import base option strings gmap functions list.
From S2P Require Import Prelude Disk Stats.

(** ** The machine *)

(** A [PathBuf] as its components. *)
Definition fpath : Type := list string.

Record state := State {
  in_process : gset (nat * fpath);        (* [IN_PROCESS_LOCKS] of every process *)
  dirent : gmap fpath nat;                (* the inode each lock path names *)
  next_ino : nat;
  flocked : gset (nat * (nat * nat))       (* inode, process and handle of every lock held *)
}.

Definition with_in_process (x : gset (nat * fpath)) (s : state) : state := State x (dirent s) (next_ino s) (flocked s).
Definition with_flocked (x : gset (nat * (nat * nat))) (s : state) : state := State (in_process s) (dirent s) (next_ino s) x.
Definition with_dirent (x : gmap fpath nat) (s : state) : state := State (in_process s) x (next_ino s) (flocked s).

(** [set.insert(path)] and [set.remove(&path)] in process [pid] *)
Definition set_insert (pid : nat) (path : fpath) (s : state) : state * bool :=
  if bool_decide ((pid, path) ∈ in_process s) then (s, false)
  else (with_in_process ({[ (pid, path) ]} ∪ in_process s) s, true).
Definition set_remove (pid : nat) (path : fpath) (s : state) : state :=
  with_in_process (in_process s ∖ {[ (pid, path) ]}) s.

(** [OpenOptions::new().create(true).write(true).truncate(false).open(&path)]; [fails] is its error. *)
Definition open_lock (path : fpath) (fails : option io_error) (s : state) : state * result io_error nat :=
  match fails with
  | Some e => (s, Err e)
  | None =>
      match dirent s !! path with
      | Some ino => (s, Ok ino)
      | None => (State (in_process s) (<[path := next_ino s]> (dirent s)) (S (next_ino s)) (flocked s), Ok (next_ino s))
      end
  end.

Section lock.
(** Whether a second handle of the same process is granted a lock the process holds.  The source says so of
    two systems; Linux says no. *)
Variable per_process : bool.

Definition contended (ino pid : nat) (s : state) : bool :=
  bool_decide (set_Exists (fun x => x.1 = ino /\ (per_process = false \/ x.2.1 <> pid)) (flocked s)).

Definition try_lock_exclusive (ino pid h : nat) (s : state) : state * bool :=
  if contended ino pid s then (s, false) else (with_flocked ({[ (ino, (pid, h)) ]} ∪ flocked s) s, true).

(** Closing the descriptor. *)
Definition close_lock (ino pid h : nat) (s : state) : state := with_flocked (flocked s ∖ {[ (ino, (pid, h)) ]}) s.

(** [ProducerLock]: its path and its file. *)
Record producer_lock := ProducerLock_ { lpath : fpath; lino : nat }.

Definition acquire_producer_lock {WE} (name : string) (path : fpath) (fails : option io_error) (pid h : nat) :
    M state (error WE) producer_lock := fun s =>
  let '(s, inserted) := set_insert pid path s in
  if negb inserted then (s, Err (AlreadyPublishing name))
  else
    match open_lock path fails s with
    | (s, Err e) => (set_remove pid path s, Err (Io e))
    | (s, Ok ino) =>
        let '(s, locked) := try_lock_exclusive ino pid h s in
        if negb locked then (set_remove pid path s, Err (AlreadyPublishing name)) else (s, Ok (ProducerLock_ path ino))
    end.

(** [Drop for ProducerLock], and then the drop of its fields. *)
Definition drop_lock (l : producer_lock) (pid h : nat) (s : state) : state :=
  close_lock (lino l) pid h (set_remove pid (lpath l) s).

(** ** Interleavings

    [process] gives the process of a handle.  A handle is between calls, or at a point of
    [acquire_producer_lock], or holds the lock, or is between the two steps of dropping it. *)
Variable process : nat -> nat.

Inductive pc :=
  | Idle
  | Listed (path : fpath)
  | Opened (path : fpath) (ino : nat)
  | Holding (path : fpath) (ino : nat)
  | Unlisted (path : fpath) (ino : nat).

Record sys := Sys { st : state; pcs : nat -> pc }.

Inductive op :=
  | OInsert (h : nat) (path : fpath)
  | OOpen (h : nat) (fails : option io_error)
  | OFlock (h : nat)
  | OUnlink (h : nat)
  | ORemove (h : nat)
  | OClose (h : nat)
  | OCrash (pid : nat).

(** [None]: the handle is not at that point. *)
Definition step (o : op) (y : sys) : option sys :=
  let s := st y in
  match o with
  | OInsert h path =>
      match pcs y h with
      | Idle => let '(s, inserted) := set_insert (process h) path s in
                Some (Sys s (if inserted then <[h := Listed path]> (pcs y) else pcs y))
      | _ => None
      end
  | OOpen h fails =>
      match pcs y h with
      | Listed path =>
          match open_lock path fails s with
          | (s, Ok ino) => Some (Sys s (<[h := Opened path ino]> (pcs y)))
          | (s, Err _) => Some (Sys (set_remove (process h) path s) (<[h := Idle]> (pcs y)))
          end
      | _ => None
      end
  | OFlock h =>
      match pcs y h with
      | Opened path ino =>
          match try_lock_exclusive ino (process h) h s with
          | (s, true) => Some (Sys s (<[h := Holding path ino]> (pcs y)))
          | (s, false) => Some (Sys (set_remove (process h) path s) (<[h := Idle]> (pcs y)))
          end
      | _ => None
      end
  | OUnlink h =>
      match pcs y h with
      | Holding path _ => Some (Sys (with_dirent (delete path (dirent s)) s) (pcs y))
      | _ => None
      end
  | ORemove h =>
      match pcs y h with
      | Holding path ino => Some (Sys (set_remove (process h) path s) (<[h := Unlisted path ino]> (pcs y)))
      | _ => None
      end
  | OClose h =>
      match pcs y h with
      | Unlisted path ino => Some (Sys (close_lock ino (process h) h s) (<[h := Idle]> (pcs y)))
      | _ => None
      end
  | OCrash pid =>
      Some (Sys (with_in_process (filter (fun x => x.1 <> pid) (in_process s))
                   (with_flocked (filter (fun x => x.2.1 <> pid) (flocked s)) s))
                (fun h => if decide (process h = pid) then Idle else pcs y h))
  end.

Fixpoint run (os : list op) (y : sys) : option sys :=
  match os with
  | [] => Some y
  | o :: os => match step o y with Some y => run os y | None => None end
  end.

(** No process runs yet; lock files may be there from before. *)
Definition boot (files : gmap fpath nat) (n : nat) : sys := Sys (State ∅ files n ∅) (fun _ => Idle).

(** ** What holds at every point *)

(** The path a handle has in its process's set. *)
Definition listed (p : pc) : option fpath :=
  match p with Listed path | Opened path _ | Holding path _ => Some path | Idle | Unlisted _ _ => None end.

(** The file whose lock it holds. *)
Definition locked (p : pc) : option nat :=
  match p with Holding _ ino | Unlisted _ ino => Some ino | _ => None end.

(** The file it has open. *)
Definition file_of (p : pc) : option (fpath * nat) :=
  match p with Opened path ino | Holding path ino | Unlisted path ino => Some (path, ino) | Idle | Listed _ => None end.

Record inv (y : sys) : Prop := {
  i_listed : forall pid path, (pid, path) ∈ in_process (st y) <-> exists h, process h = pid /\ listed (pcs y h) = Some path;
  i_once : forall h h' path, listed (pcs y h) = Some path -> listed (pcs y h') = Some path -> process h = process h' -> h = h';
  i_locked : forall h ino, locked (pcs y h) = Some ino <-> (ino, (process h, h)) ∈ flocked (st y);
  i_owner : forall ino pid h, (ino, (pid, h)) ∈ flocked (st y) -> pid = process h;
  i_excl : forall h h' ino, (ino, (process h, h)) ∈ flocked (st y) -> (ino, (process h', h')) ∈ flocked (st y) ->
             h = h' \/ per_process = true /\ process h = process h'
}.

(** Every path names a file of its own. *)
Definition files_ok (files : gmap fpath nat) (n : nat) : Prop :=
  (forall p p' i, files !! p = Some i -> files !! p' = Some i -> p = p') /\ (forall p i, files !! p = Some i -> (i < n)%nat).

(** Every open lock file is the one its path names. *)
Record linked (y : sys) : Prop := {
  k_names : forall h path ino, file_of (pcs y h) = Some (path, ino) -> dirent (st y) !! path = Some ino;
  k_files : files_ok (dirent (st y)) (next_ino (st y))
}.

Lemma boot_inv files n : inv (boot files n).
Proof. constructor; cbn; [|set_solver..]. intros pid path. split; [set_solver|]. by intros (h & _ & ?). Qed.

Lemma boot_linked files n : files_ok files n -> linked (boot files n).
Proof. by constructor. Qed.

Ltac at_handle h x :=
  destruct (decide (h = x)) as [<-|?]; rewrite ?fn_lookup_insert, ?fn_lookup_insert_ne in * by done.

(** A handle moves on without touching the set or a lock. *)
Lemma inv_same y h q s :
  inv y -> listed q = listed (pcs y h) -> locked q = locked (pcs y h) ->
  in_process s = in_process (st y) -> flocked s = flocked (st y) -> inv (Sys s (<[h := q]> (pcs y))).
Proof.
  intros Hi Hl Hk Hs Hf.
  assert (HL : forall x, listed ((<[h := q]> (pcs y)) x) = listed (pcs y x)) by (intros x; by at_handle h x).
  assert (HK : forall x, locked ((<[h := q]> (pcs y)) x) = locked (pcs y x)) by (intros x; by at_handle h x).
  destruct Hi as [H1 H2 H3 H4 H5]. constructor; cbn [st pcs]; rewrite ?Hs, ?Hf; try done.
  - intros pid p. setoid_rewrite HL. apply H1.
  - intros x x' p. rewrite !HL. apply H2.
  - intros x ino. rewrite HK. apply H3.
Qed.

(** It enters the set, having been the only one to. *)
Lemma inv_list y h path :
  inv y -> pcs y h = Idle -> (process h, path) ∉ in_process (st y) ->
  inv (Sys (with_in_process ({[ (process h, path) ]} ∪ in_process (st y)) (st y)) (<[h := Listed path]> (pcs y))).
Proof.
  intros [H1 H2 H3 H4 H5] Hp Hni. constructor; cbn [st pcs in_process flocked with_in_process]; try done.
  - intros pid p. split.
    + intros [E|Hin]%elem_of_union.
      * apply elem_of_singleton in E. injection E as -> ->. exists h. by rewrite fn_lookup_insert.
      * apply H1 in Hin as (x & Hx & El). exists x. at_handle h x; [by rewrite Hp in El|done].
    + intros (x & <- & El). at_handle h x; [injection El as <-; set_solver|]. apply elem_of_union_r, H1. by exists x.
  - intros x x' p E E' Ep. at_handle h x; at_handle h x'; try done.
    + injection E as <-. destruct Hni. apply H1. by exists x'.
    + injection E' as <-. destruct Hni. apply H1. by exists x.
    + by apply (H2 x x' p).
  - intros x ino. rewrite <- H3. at_handle h x; [|done]. by rewrite Hp.
Qed.

(** It leaves the set; what lock it has it keeps. *)
Lemma inv_unlist y h path q s :
  inv y -> listed (pcs y h) = Some path -> listed q = None -> locked q = locked (pcs y h) ->
  in_process s = in_process (st y) -> flocked s = flocked (st y) ->
  inv (Sys (set_remove (process h) path s) (<[h := q]> (pcs y))).
Proof.
  intros [H1 H2 H3 H4 H5] Hp Hq Hk Hs Hf. constructor; cbn [st pcs in_process flocked with_in_process set_remove]; rewrite ?Hs, ?Hf; try done.
  - intros pid p. split.
    + intros [Hin Hne]%elem_of_difference. apply H1 in Hin as (x & Hx & El). exists x. at_handle h x; [|done].
      destruct Hne. rewrite Hp in El. injection El as <-. set_solver.
    + intros (x & <- & El). at_handle h x; [by rewrite Hq in El|]. apply elem_of_difference. split; [apply H1; by exists x|].
      intros [= Ex ->]%elem_of_singleton. by destruct (H2 x h path).
  - intros x x' p E E' Ep. at_handle h x; [by rewrite Hq in E|]. at_handle h x'; [by rewrite Hq in E'|]. by apply (H2 x x' p).
  - intros x ino. rewrite <- H3. at_handle h x; [|done]. by rewrite Hk.
Qed.

(** It is granted the lock of its file. *)
Lemma inv_lock y h path ino :
  inv y -> pcs y h = Opened path ino -> contended ino (process h) (st y) = false ->
  inv (Sys (with_flocked ({[ (ino, (process h, h)) ]} ∪ flocked (st y)) (st y)) (<[h := Holding path ino]> (pcs y))).
Proof.
  intros [H1 H2 H3 H4 H5] Hp Hc.
  assert (Hfree : forall h', (ino, (process h', h')) ∈ flocked (st y) -> per_process = true /\ process h = process h').
  { intros h' Hin. unfold contended in Hc. apply bool_decide_eq_false in Hc. destruct (decide (per_process = true /\ process h = process h')) as [?|Hn]; [done|].
    destruct Hc. exists (ino, (process h', h')). split; [done|]. cbn. split; [done|]. destruct per_process; [right|by left].
    intros E. by apply Hn. }
  constructor; cbn [st pcs in_process flocked with_flocked].
  - intros pid p. rewrite H1. apply exist_proper. intros x. at_handle h x; [by rewrite Hp|done].
  - intros x x' p E E' Ep. apply (H2 x x' p); [at_handle h x; [by rewrite Hp|done]|at_handle h x'; [by rewrite Hp|done]|done].
  - intros x i. at_handle h x; cbn [locked].
    + split; [intros [= <-]; set_solver|]. intros [E|Hin]%elem_of_union; [set_solver|]. apply H3 in Hin. by rewrite Hp in Hin.
    + rewrite H3. set_solver.
  - intros i pid x [E|Hin]%elem_of_union; [set_solver|by apply (H4 i)].
  - intros x x' i [E|Hx]%elem_of_union [E'|Hx']%elem_of_union.
    + set_solver.
    + apply elem_of_singleton in E. injection E as -> _ ->. right. by apply Hfree.
    + apply elem_of_singleton in E'. injection E' as -> _ ->. right. destruct (Hfree x Hx) as [? ->]. done.
    + by apply (H5 x x' i).
Qed.

(** It closes its file. *)
Lemma inv_close y h path ino :
  inv y -> pcs y h = Unlisted path ino -> inv (Sys (close_lock ino (process h) h (st y)) (<[h := Idle]> (pcs y))).
Proof.
  intros [H1 H2 H3 H4 H5] Hp. constructor; cbn [st pcs in_process flocked with_flocked close_lock].
  - intros pid p. rewrite H1. apply exist_proper. intros x. at_handle h x; [by rewrite Hp|done].
  - intros x x' p E E' Ep. at_handle h x; [done|]. at_handle h x'; [done|]. by apply (H2 x x' p).
  - intros x i. at_handle h x; cbn [locked].
    + split; [done|]. intros [Hin Hn]%elem_of_difference. apply H3 in Hin. rewrite Hp in Hin. injection Hin as <-. set_solver.
    + rewrite H3. set_solver.
  - intros i pid x [Hin _]%elem_of_difference. by apply (H4 i).
  - intros x x' i [Hx _]%elem_of_difference [Hx' _]%elem_of_difference. by apply (H5 x x' i).
Qed.

Lemma inv_crash y pid : inv y -> forall y', step (OCrash pid) y = Some y' -> inv y'.
Proof.
  intros [H1 H2 H3 H4 H5] y' [= <-]. constructor; cbn [st pcs in_process flocked with_flocked with_in_process].
  - intros q p. rewrite elem_of_filter, H1. cbn. split.
    + intros [Hq (x & Hx & El)]. exists x. rewrite decide_False by congruence. done.
    + intros (x & Hx & El). case_decide; [done|]. split; [congruence|]. by exists x.
  - intros x x' p E E' Ep. case_decide; [done|]. case_decide; [done|]. by apply (H2 x x' p).
  - intros x i. rewrite elem_of_filter. cbn. case_decide as Hd; [split; [done|by intros [? _]]|]. rewrite H3. naive_solver.
  - intros i q x [_ Hin]%elem_of_filter. by apply (H4 i).
  - intros x x' i [_ Hx]%elem_of_filter [_ Hx']%elem_of_filter. by apply (H5 x x' i).
Qed.

Lemma step_inv o y y' : inv y -> step o y = Some y' -> inv y'.
Proof.
  intros Hi. destruct o as [h path|h fails|h|h|h|h|pid]; [..|by apply inv_crash]; cbn [step];
    destruct (pcs y h) as [|path0|path0 ino|path0 ino|path0 ino] eqn:Ep; try done.
  - unfold set_insert. case_bool_decide; intros [= <-]; [by destruct y|]. by apply inv_list.
  - unfold open_lock. destruct fails as [e|]; [intros [= <-]; apply inv_unlist; by rewrite ?Ep|].
    destruct (dirent (st y) !! path0); intros [= <-]; apply inv_same; by rewrite ?Ep.
  - unfold try_lock_exclusive. destruct (contended _ _ _) eqn:Ec; intros [= <-]; [apply inv_unlist; by rewrite ?Ep|].
    by apply inv_lock.
  - intros [= <-]. destruct Hi as [H1 H2 H3 H4 H5]. by constructor.
  - intros [= <-]. apply inv_unlist; by rewrite ?Ep.
  - intros [= <-]. by apply (inv_close y h path0).
Qed.

(** Without [clean_topic], a path keeps its file. *)
Definition keeps_files (o : op) : Prop := match o with OUnlink _ => False | _ => True end.

Lemma new_file files n path : files_ok files n -> files !! path = None -> files_ok (<[path := n]> files) (S n).
Proof.
  intros [Hinj Hlt] Hno. split.
  - intros p p' i. rewrite !lookup_insert_Some. intros [[<- <-]|[Hp E]] [[<- E']|[Hp' E']]; try done.
    + apply Hlt in E'. lia.
    + apply Hlt in E. lia.
    + by apply (Hinj p p' i).
  - intros p i. rewrite lookup_insert_Some. intros [[<- <-]|[Hp E]]; [lia|]. apply Hlt in E. lia.
Qed.

Lemma step_linked o y y' : keeps_files o -> linked y -> step o y = Some y' -> linked y'.
Proof.
  intros Ho [Hl Hf]. destruct o as [h path|h fails|h|h|h|h|pid]; cbn [step keeps_files] in *; [..|];
    try (destruct (pcs y h) as [|path0|path0 ino|path0 ino|path0 ino] eqn:Ep; try done).
  - unfold set_insert. case_bool_decide; intros [= <-]; (constructor; [|done]); intros x p i; cbn; [apply Hl|].
    at_handle h x; [done|apply Hl].
  - unfold open_lock. destruct fails as [e|].
    { intros [= <-]. constructor; [|done]. intros x p i. cbn. at_handle h x; [done|apply Hl]. }
    destruct (dirent (st y) !! path0) as [j|] eqn:Ed; intros [= <-]; (constructor; [|first [done|by apply new_file]]);
      intros x p i; cbn; at_handle h x.
    + by intros [= <- <-].
    + apply Hl.
    + intros [= <- <-]. by rewrite lookup_insert_eq.
    + intros E. apply Hl in E. rewrite lookup_insert_ne; [done|]. intros <-. by rewrite E in Ed.
  - unfold try_lock_exclusive. destruct (contended _ _ _); intros [= <-]; (constructor; [|done]); intros x p i; cbn; at_handle h x; try done; try apply Hl.
    intros E. apply (Hl h). by rewrite Ep.
  - intros [= <-]. constructor; [|done]. intros x p i. cbn. at_handle h x; [|apply Hl]. intros E. apply (Hl h). by rewrite Ep.
  - intros [= <-]. constructor; [|done]. intros x p i. cbn. at_handle h x; [done|apply Hl].
  - intros [= <-]. constructor; [|done]. intros x p i. cbn. case_decide; [done|]. apply Hl.
Qed.

Lemma run_inv os y y' : inv y -> run os y = Some y' -> inv y' /\ (linked y -> Forall keeps_files os -> linked y').
Proof.
  revert y. induction os as [|o os IH]; intros y Hi; cbn [run]; [by intros [= <-]|].
  destruct (step o y) as [y1|] eqn:E; [|done]. intros Er. destruct (IH y1 (step_inv _ _ _ Hi E) Er) as [Hi' Hl]. split; [done|].
  intros Hly [Ho Hos]%Forall_cons. apply Hl; [|done]. by apply (step_linked o y).
Qed.

(** ** One call *)

(** Without interleaving, the steps of a handle are the call: it takes the lock, or reports who has it or
    the failure to open the file, and then the set is as before. *)
Definition steps_of (h : nat) (path : fpath) (fails : option io_error) (y : sys) : list op :=
  if bool_decide ((process h, path) ∈ in_process (st y)) then [OInsert h path]
  else match fails with Some _ => [OInsert h path; OOpen h fails] | None => [OInsert h path; OOpen h fails; OFlock h] end.

Lemma acquire_steps {WE} name path fails h y :
  pcs y h = Idle ->
  let '(s, r) := acquire_producer_lock (WE := WE) name path fails (process h) h (st y) in
  exists p', run (steps_of h path fails y) y = Some (Sys s p')
    /\ match r with
       | Ok l => p' h = Holding (lpath l) (lino l)
       | Err e => p' h = Idle /\ in_process s = in_process (st y) /\ flocked s = flocked (st y)
                  /\ e = match fails with Some e => if bool_decide ((process h, path) ∈ in_process (st y)) then AlreadyPublishing name else Io e
                                       | None => AlreadyPublishing name end
       end.
Proof.
  intros Hp. unfold acquire_producer_lock, steps_of, set_insert. case_bool_decide as Hin; cbn [run step negb].
  { rewrite Hp. unfold set_insert. rewrite bool_decide_eq_true_2 by done. exists (pcs y). split; [done|]. split; [done|]. by destruct fails. }
  set (s1 := with_in_process _ _).
  assert (Hback : forall s, in_process s = in_process s1 -> in_process (set_remove (process h) path s) = in_process (st y)).
  { intros s E. unfold set_remove. cbn. rewrite E. unfold s1. cbn. set_solver. }
  assert (Hfl : forall s, flocked (set_remove (process h) path s) = flocked s) by done.
  destruct fails as [e|]; cbn [run step]; rewrite Hp; unfold set_insert; rewrite bool_decide_eq_false_2 by done; fold s1; cbn [pcs st];
    rewrite fn_lookup_insert; cbn [open_lock].
  { eexists. split; [reflexivity|]. rewrite fn_lookup_insert. by rewrite Hback. }
  destruct (dirent s1 !! path) as [ino|] eqn:Ed.
  - unfold try_lock_exclusive. cbn [st pcs]. rewrite fn_lookup_insert. destruct (contended ino _ s1); cbn [negb].
    + eexists. split; [reflexivity|]. rewrite fn_lookup_insert. by rewrite Hback.
    + eexists. split; [reflexivity|]. by rewrite fn_lookup_insert.
  - unfold try_lock_exclusive. cbn [st pcs]. rewrite fn_lookup_insert. set (s2 := State _ _ _ _).
    destruct (contended (next_ino s1) _ s2); cbn [negb].
    + eexists. split; [reflexivity|]. rewrite fn_lookup_insert. by rewrite Hback.
    + eexists. split; [reflexivity|]. by rewrite fn_lookup_insert.
Qed.

(** The lock of a path nobody is at can be had. *)
Lemma acquire_free {WE} name path h y :
  inv y -> linked y -> (forall x, listed (pcs y x) <> Some path) -> (forall x i, file_of (pcs y x) <> Some (path, i)) ->
  exists l, (acquire_producer_lock (WE := WE) name path None (process h) h (st y)).2 = Ok l.
Proof.
  intros [H1 _ H3 H4 _] [Hn [Hinj Hlt]] Hl Hf. unfold acquire_producer_lock, set_insert.
  rewrite bool_decide_eq_false_2 by (rewrite H1; intros (x & _ & E); by apply (Hl x)). cbn [negb].
  assert (Hfree : forall s ino, flocked s = flocked (st y) -> (forall p, dirent (st y) !! p = Some ino -> p = path) ->
    contended ino (process h) s = false).
  { intros s ino Es Hino. apply bool_decide_eq_false. intros ([i [pid x]] & Hx & Ei & _). cbn in Ei. subst i. rewrite Es in Hx.
    rewrite (H4 _ _ _ Hx) in Hx. apply H3 in Hx. destruct (pcs y x) as [|p|p i|p i|p i] eqn:Ep; try done; injection Hx as ->;
      (destruct (Hf x ino); rewrite Ep; cbn [file_of]; by rewrite (Hino p) by (apply (Hn x); by rewrite Ep)). }
  unfold open_lock. set (s1 := with_in_process _ _). destruct (dirent s1 !! path) as [ino|] eqn:Ed; unfold try_lock_exclusive.
  - rewrite (Hfree s1 ino); [by eexists|done|]. intros p E. by apply (Hinj p path ino).
  - rewrite (Hfree _ (next_ino s1)); [by eexists|done|]. intros p E. apply Hlt in E. unfold s1 in E. cbn in E. lia.
Qed.
End lock.

(** C14: one producer per topic.  However the calls of any number of handles in any number of processes
    interleave, failed opens, drops and deaths of processes included, and whether or not the system lets one process lock
    a file twice, two handles never hold the lock of one file, nor, while no [clean_topic] removes the
    directory, of one path; and then no lock is left behind: a path nobody is at can be locked. *)
Theorem one_producer_per_path per_process process files n os y :
  files_ok files n ->
  run per_process process os (boot files n) = Some y ->
  (forall h h' path ino, pcs y h = Holding path ino -> pcs y h' = Holding path ino -> h = h')
  /\ (Forall keeps_files os ->
      (forall h h' path ino ino', pcs y h = Holding path ino -> pcs y h' = Holding path ino' -> h = h')
      /\ forall name path h, (forall x, listed (pcs y x) <> Some path) -> (forall x i, file_of (pcs y x) <> Some (path, i)) ->
           exists l, (acquire_producer_lock per_process (WE := unit) name path None (process h) h (st y)).2 = Ok l).
Proof.
  intros Hf Hr. destruct (run_inv per_process process os _ y (boot_inv per_process process files n) Hr) as [Hi Hl].
  assert (Hsame : forall h h' path ino, pcs y h = Holding path ino -> pcs y h' = Holding path ino -> h = h').
  { intros h h' path ino E E'. destruct Hi as [_ H2 H3 _ H5].
    destruct (H5 h h' ino) as [->|[_ Hp]]; [by apply H3; rewrite E|by apply H3; rewrite E'|done|].
    by apply (H2 h h' path); rewrite ?E, ?E'. }
  split; [exact Hsame|]. intros Hk. specialize (Hl (boot_linked _ _ Hf) Hk). split.
  - intros h h' path ino ino' E E'. apply (Hsame h h' path ino E). rewrite E'. f_equal.
    pose proof (k_names _ Hl h path ino) as Hn. pose proof (k_names _ Hl h' path ino') as Hn'. rewrite E in Hn. rewrite E' in Hn'.
    specialize (Hn eq_refl). specialize (Hn' eq_refl). congruence.
  - intros name path h Hx Hx'. by apply acquire_free.
Qed.

(** [clean_topic] by handle 0 while handle 1 of another process has the file open: the lock of a file
    without a name is granted, and so is the one of the file made anew. *)
Definition clean_race : list op :=
  [OInsert 0 ["t"]; OOpen 0 None; OFlock 0; OInsert 1 ["t"]; OOpen 1 None; OUnlink 0; ORemove 0; OClose 0;
   OFlock 1; OInsert 2 ["t"]; OOpen 2 None; OFlock 2].

Example clean_topic_lets_two_in :
  match run false (fun h => h) clean_race (boot ∅ 0) with
  | Some y => pcs y 1%nat = Holding ["t"] 0 /\ pcs y 2%nat = Holding ["t"] 1
  | None => False
  end.
Proof. vm_compute. split; reflexivity. Qed.

Lemma one_producer_per_path_witness :
  match run true (fun h => h / 2)%nat [OInsert 0 ["t"]; OOpen 0 None; OInsert 1 ["t"]; OFlock 0; OInsert 2 ["t"]; OOpen 2 None; OFlock 2; OCrash 0; OInsert 2 ["t"]]
          (boot ∅ 0) with
  | Some y => forall name h, exists l, (acquire_producer_lock true (WE := unit) name ["u"] None (h / 2)%nat h (st y)).2 = Ok l
  | None => False
  end.
Proof.
  set (os := [OInsert 0 ["t"]; OOpen 0 None; OInsert 1 ["t"]; OFlock 0; OInsert 2 ["t"]; OOpen 2 None; OFlock 2; OCrash 0; OInsert 2 ["t"]]).
  destruct (run true (fun h => h / 2)%nat os (boot ∅ 0)) as [y|] eqn:E; [|vm_compute in E; discriminate].
  assert (Hf : files_ok ∅ 0) by (split; intros *; rewrite lookup_empty; discriminate).
  destruct (one_producer_per_path true (fun h => h / 2)%nat ∅ 0 os y Hf E) as [_ Hk].
  destruct (Hk ltac:(repeat constructor)) as [_ Ha]. intros name h. apply Ha.
  - vm_compute in E. injection E as <-. intros x. cbn. repeat case_match; discriminate.
  - vm_compute in E. injection E as <-. intros x i. cbn. repeat case_match; discriminate.
Defined.
