(* ===== verification/Bus.v ===== *)
(** * The bus ([crates/mmbus/src/bus.rs])

    [Bus] as the cache of publishers it is, over the directories of its topics and their producer locks, and
    the step from [Publisher::create]'s directory and lock to the part of it [Publisher.v] models.  One
    process; what holds between processes is [ProducerLock.v]'s.  Creating directories, lock files, rings and
    sockets does not fail here. *)

From Stdlib Require Import ZArith Lia Strings.Byte Strings.Ascii.
From stdpp Require Import base option strings gmap list.
From S2P Require Import Prelude OrdMap Chain Record Disk SegmentReader SegmentWriter Config Stats WalV1 WalRecovery WalApi Ring Publisher ProducerLock.

(** ** Paths *)

(** The components of a string: between slashes, but for empty ones and [.]; [..] stays a name. *)
Fixpoint split_slash (cur : string) (s : string) : fpath :=
  match s with
  | EmptyString => [cur]
  | String c s => if decide (c = "/"%char) then cur :: split_slash "" s else split_slash (cur +:+ String c "") s
  end.

Definition components (s : string) : fpath := List.filter (fun c => negb (bool_decide (c = "" \/ c = "."))) (split_slash "" s).

Definition is_absolute (s : string) : bool := match s with String c _ => bool_decide (c = "/"%char) | EmptyString => false end.

(** [Path::join]: an absolute path replaces the one it is joined to. *)
Definition join (p : fpath) (s : string) : fpath := if is_absolute s then components s else p ++ components s.

(** ** The log a publisher opens and closes *)

Class TopicLog (W WE D : Type) := {
  tl_none : D;                                        (* no [wal] directory *)
  tl_open : wal_config -> Z -> D -> D * result WE W;    (* [Wal::open] at a time *)
  tl_close : W -> D                                   (* the drop of a [Wal] *)
}.

#[export] Instance wal_v1_topic_log `{Crc} : TopicLog WalV1.st wal_error disk := {
  tl_none := Disk [] [];
  tl_open c now d := match WalV1.open c now d with
                     | (d, Ok w) => (d, Ok (d, w))
                     | (d, Err e) => (d, Err e)
                     end;
  tl_close s := drop_wal s
}.

Section bus.
Context {W WE D : Type} `{!WalBackend W WE} `{!TopicLog W WE D}.
Variable per_process : bool.

(** A topic's directory; [tf_id] tells it from another made at the same path later. *)
Record topic_files := TopicFiles { tf_id : nat; tf_ring : ring_file; tf_log : D }.

(** A [Publisher], with what it has open. *)
Record live := Live { l_lock : producer_lock; l_handle : nat; l_files : nat; l_pub : Publisher.st (W := W) }.

Record env := Env { locks : state; dirs : gmap fpath topic_files; next_id : nat; now : Z }.

Definition with_locks (s : state) (e : env) : env := Env s (dirs e) (next_id e) (now e).
Definition with_dirs (m : gmap fpath topic_files) (e : env) : env := Env (locks e) m (next_id e) (now e).

Record bus := Bus_ { bname : string; config : bus_config; publishers : gmap string live; process : nat }.

Definition with_publishers (m : gmap string live) (b : bus) : bus := Bus_ (bname b) (config b) m (process b).

Definition with_config (name : string) (cfg : bus_config) (pid : nat) : bus := Bus_ name cfg ∅ pid.

(** [cfg.base_dir.join(name)] of [Publisher::create], for the configuration [topic_config] makes. *)
Definition topic_dir (b : bus) (topic : string) : fpath := join (join (components (base_dir (config b))) (bname b)) topic.
Definition lock_path (dir : fpath) : fpath := dir ++ ["producer.lock"].

(** [fs::create_dir_all] *)
Definition create_dir_all (dir : fpath) (e : env) : env :=
  match dirs e !! dir with
  | Some _ => e
  | None => Env (locks e) (<[dir := TopicFiles (next_id e) NoRingFile tl_none]> (dirs e)) (S (next_id e)) (now e)
  end.

(** The files of a directory that exists. *)
Definition files_at (dir : fpath) (e : env) : topic_files := default (TopicFiles 0 NoRingFile tl_none) (dirs e !! dir).

(** [Publisher::create] *)
Definition create_publisher_in (pid : nat) (cfg : bus_config) (dir : fpath) (name : string) : M env (error WE) live := fun e =>
  let e := create_dir_all dir e in
  let h := next_id e in
  let e := Env (locks e) (dirs e) (S h) (now e) in
  match acquire_producer_lock per_process name (lock_path dir) None pid h (locks e) with
  | (s, Err x) => (with_locks s e, Err x)
  | (s, Ok l) =>
      let e := with_locks s e in
      let f := files_at dir e in
      if enabled (wal_cfg cfg) then
        match tl_open (wal_cfg cfg) (now e) (tf_log f) with
        | (d, Err x) =>
            let r := create_or_reuse (tf_ring f) (bcapacity cfg) (slot_size cfg) (bmax_subscribers cfg) in
            (with_locks (drop_lock l pid h (locks e)) (with_dirs (<[dir := TopicFiles (tf_id f) (RingFile r) d]> (dirs e)) e), Err (WalError x))
        | (d, Ok w) => (e, Ok (Live l h (tf_id f) (create (tf_ring f) cfg (Some w))))
        end
      else (e, Ok (Live l h (tf_id f) (create (tf_ring f) cfg None)))
  end.

(** What a publisher leaves in its directory, if the directory is still there. *)
Definition close_files (dir : fpath) (l : live) (e : env) : env :=
  match dirs e !! dir with
  | Some f =>
      if decide (tf_id f = l_files l)
      then with_dirs (<[dir := TopicFiles (tf_id f) (RingFile (wring (l_pub l).1)) (match wal (l_pub l).2 with Some w => tl_close w | None => tf_log f end)]> (dirs e)) e
      else e
  | None => e
  end.

(** Dropping a [Publisher]: its fields in the order of their declaration, the lock before the log. *)
Definition drop_publisher (pid : nat) (dir : fpath) (l : live) (e : env) : env :=
  close_files dir l (with_locks (drop_lock (l_lock l) pid (l_handle l) (locks e)) e).

(** ** The methods *)

Definition be : Type := bus * env.

(** The cached publisher, or a new one, which is cached whatever [m] returns. *)
Definition with_publisher {A} (topic : string) (m : M (Publisher.st (W := W)) (error WE) A) : M be (error WE) A := fun '(b, e) =>
  match publishers b !! topic with
  | Some l =>
      let '(s, r) := m (l_pub l) in
      ((with_publishers (<[topic := Live (l_lock l) (l_handle l) (l_files l) s]> (publishers b)) b, e), r)
  | None =>
      match create_publisher_in (process b) (config b) (topic_dir b topic) topic e with
      | (e, Err x) => ((b, e), Err x)
      | (e, Ok l) =>
          let '(s, r) := m (l_pub l) in
          ((with_publishers (<[topic := Live (l_lock l) (l_handle l) (l_files l) s]> (publishers b)) b, e), r)
      end
  end.

Definition publish (topic : string) (data : list byte) : M be (error WE) unit := with_publisher topic (Publisher.publish data).
Definition publish_many (topic : string) (items : list (list byte)) : M be (error WE) Z := with_publisher topic (Publisher.publish_many items).
Definition wait_for_subscribers (topic : string) (n : nat) (turns : list (list (result io_error client) * bool)) : M be (error WE) unit :=
  with_publisher topic (Publisher.wait_for_subscribers n turns).

Definition take_publisher (topic : string) : M be (error WE) live := fun '(b, e) =>
  match publishers b !! topic with
  | Some l => ((with_publishers (delete topic (publishers b)) b, e), Ok l)
  | None =>
      match create_publisher_in (process b) (config b) (topic_dir b topic) topic e with
      | (e, r) => ((b, e), r)
      end
  end.

Definition stats (topic : string) (b : bus) : option topic_stats := (fun l => Publisher.stats (l_pub l)) <$> publishers b !! topic.
Definition slow_subscribers (topic : string) (threshold : Z) (b : bus) : list (nat * Z) :=
  default [] ((fun l => Publisher.slow_subscribers threshold (l_pub l)) <$> publishers b !! topic).

(** [dir.exists()]: of a directory inside too. *)
Definition dir_exists (dir : fpath) (e : env) : bool := bool_decide (map_Exists (fun p _ => dir `prefix_of` p) (dirs e)).

(** [fs::remove_dir_all] *)
Definition remove_dir_all (dir : fpath) (e : env) : env :=
  Env (with_dirent (filter (fun x => ~ dir `prefix_of` x.1) (dirent (locks e))) (locks e))
    (filter (fun x => ~ dir `prefix_of` x.1) (dirs e)) (next_id e) (now e).

Definition clean_topic (topic : string) : M be (error WE) unit := fun '(b, e) =>
  let dir := topic_dir b topic in
  let '(b, e) := match publishers b !! topic with
                 | Some l => (with_publishers (delete topic (publishers b)) b, drop_publisher (process b) dir l e)
                 | None => (b, e)
                 end in
  if negb (dir_exists dir e) then ((b, e), Ok tt)
  else
    let h := next_id e in
    match acquire_producer_lock per_process topic (lock_path dir) None (process b) h (locks e) with
    | (s, Err x) => ((b, Env s (dirs e) (S h) (now e)), Err x)
    | (s, Ok l) =>
        let e := remove_dir_all dir (Env s (dirs e) (S h) (now e)) in
        ((b, with_locks (drop_lock l (process b) h (locks e)) e), Ok tt)
    end.
End bus.
