(* ===== verification/BusSpec.v ===== *)
(** * What the bus promises ([Bus.v])

    A bus is its topics: each behaves as if it were alone, a cell that holds a topic's files and at most one
    publisher, cached in the bus or taken out of it.  The refinement says that the cache, the directories
    and the producer locks implement that. *)

From Stdlib Require Import ZArith Lia Strings.Byte.
From stdpp Require Import base option strings gmap functions list.
From S2P Require Import Prelude OrdMap Chain Record Disk SegmentReader SegmentWriter Config Stats WalV1 WalRecovery WalApi Ring Publisher ProducerLock Bus.

(** ** Who holds which lock *)

Section holds.
Variables (per_process : bool) (pid : nat) (base : fpath).

Definition dir_of (t : string) : fpath := base ++ [t].

(** The lock, the handle and the directory of the publisher of each topic. *)
#[local] Notation holders := (string -> option (producer_lock * nat * nat)).

Record holds (H : holders) (s : state) : Prop := {
  h_files : files_ok (dirent s) (next_ino s);
  h_lock : forall t l h i, H t = Some (l, h, i) -> lpath l = lock_path (dir_of t) /\ dirent s !! lock_path (dir_of t) = Some (lino l);
  h_set : forall q p, (q, p) ∈ in_process s <-> exists t x, H t = Some x /\ q = pid /\ p = lock_path (dir_of t);
  h_flock : forall ino q h, (ino, (q, h)) ∈ flocked s -> exists t l i, H t = Some (l, h, i) /\ ino = lino l /\ q = pid
}.

Lemma dir_of_inj t t' : dir_of t = dir_of t' -> t = t'.
Proof. unfold dir_of. intros E. apply app_inj_2 in E as [_ E]; [by injection E|done]. Qed.

Lemma lock_path_inj p p' : lock_path p = lock_path p' -> p = p'.
Proof. unfold lock_path. intros E. by apply app_inj_2 in E as [E _]. Qed.

Lemma lock_of_inj t t' : lock_path (dir_of t) = lock_path (dir_of t') -> t = t'.
Proof. intros E. by apply dir_of_inj, lock_path_inj. Qed.

(** The lock of a topic with a publisher is refused, and nothing changes. *)
Lemma acquire_held {WE} H s t x h :
  holds H s -> H t = Some x -> acquire_producer_lock (WE := WE) per_process t (lock_path (dir_of t)) None pid h s = (s, Err (AlreadyPublishing t)).
Proof.
  intros Hh Ht. unfold acquire_producer_lock, set_insert. rewrite bool_decide_eq_true_2; [done|]. apply (h_set _ _ Hh). by exists t, x.
Qed.

(** The lock of a topic without one is granted. *)
Lemma acquire_free_topic {WE} H s t h :
  holds H s -> H t = None ->
  exists l s', acquire_producer_lock (WE := WE) per_process t (lock_path (dir_of t)) None pid h s = (s', Ok l)
    /\ forall i, holds (<[t := Some (l, h, i)]> H) s'.
Proof.
  intros [Hf Hl Hs Hk] Ht. set (lp := lock_path (dir_of t)).
  assert (Hni : (pid, lp) ∉ in_process s).
  { intros Hin. apply Hs in Hin as (t' & x & E & _ & Ep). apply lock_of_inj in Ep as <-. by rewrite Ht in E. }
  unfold acquire_producer_lock, set_insert. rewrite bool_decide_eq_false_2 by done. cbn [negb].
  set (s1 := with_in_process _ s).
  assert (Hgo : forall s2 ino, dirent s2 !! lp = Some ino -> files_ok (dirent s2) (next_ino s2) ->
    (forall p, p <> lp -> dirent s2 !! p = dirent s !! p) -> in_process s2 = in_process s1 -> flocked s2 = flocked s ->
    exists s', try_lock_exclusive per_process ino pid h s2 = (s', true)
      /\ forall i, holds (<[t := Some (ProducerLock_ lp ino, h, i)]> H) s').
  { intros s2 ino Ei Hf2 Hne Eset Efl. unfold try_lock_exclusive.
    assert (contended per_process ino pid s2 = false) as ->.
    { apply bool_decide_eq_false. intros ([i [q x]] & Hx & E & _). cbn in E. subst i. rewrite Efl in Hx.
      apply Hk in Hx as (t' & l' & i' & E' & -> & _). destruct (Hl _ _ _ _ E') as [_ El].
      assert (lock_path (dir_of t') <> lp) as Hp by (intros Ep; apply lock_of_inj in Ep as ->; by rewrite Ht in E').
      rewrite <- Hne in El by done. destruct Hf2 as [Hinj _]. by apply Hp, (Hinj _ _ (lino l')). }
    eexists. split; [reflexivity|]. intros i. constructor; cbn [dirent next_ino in_process flocked with_flocked].
    - done.
    - intros t' l' h' i'. destruct (decide (t = t')) as [<-|Hn]; [rewrite fn_lookup_insert; by intros [= <- <- <-]|].
      rewrite fn_lookup_insert_ne by done. intros E. destruct (Hl _ _ _ _ E) as [-> El]. split; [done|]. rewrite Hne; [done|].
      intros Ep. by apply lock_of_inj in Ep.
    - intros q p. rewrite Eset. unfold s1. cbn. rewrite elem_of_union, elem_of_singleton, Hs. split.
      + intros [[= -> ->]|(t' & x & E & -> & ->)]; [exists t; rewrite fn_lookup_insert; by eexists|].
        exists t'. rewrite fn_lookup_insert_ne by (intros <-; by rewrite Ht in E). by exists x.
      + intros (t' & x & E & -> & ->). destruct (decide (t = t')) as [<-|Hn]; [by left|]. right.
        rewrite fn_lookup_insert_ne in E by done. by exists t', x.
    - intros j q x. rewrite Efl, elem_of_union, elem_of_singleton. intros [[= -> -> ->]|Hin].
      + exists t. rewrite fn_lookup_insert. by do 2 eexists.
      + apply Hk in Hin as (t' & l' & i' & E & -> & ->). exists t'. rewrite fn_lookup_insert_ne by (intros <-; by rewrite Ht in E). by exists l', i'. }
  unfold open_lock. change (dirent s1) with (dirent s). destruct (dirent s !! lp) as [ino|] eqn:Ed.
  - destruct (Hgo s1 ino) as (s' & -> & Hh); try done. cbn [negb]. by exists (ProducerLock_ lp ino), s'.
  - destruct (Hgo (State (in_process s1) (<[lp := next_ino s1]> (dirent s)) (S (next_ino s1)) (flocked s1)) (next_ino s1)) as (s' & -> & Hh); cbn.
    + by rewrite lookup_insert_eq.
    + by apply new_file.
    + intros p Hp. by rewrite lookup_insert_ne.
    + done.
    + done.
    + by exists (ProducerLock_ lp (next_ino s1)), s'.
Qed.

(** A publisher dropped gives its lock back. *)
Lemma release_topic H s t l h i : holds H s -> H t = Some (l, h, i) -> holds (<[t := None]> H) (drop_lock l pid h s).
Proof.
  intros [Hf Hl Hs Hk] Ht. destruct (Hl _ _ _ _ Ht) as [Hp Hi].
  assert (Hne : forall t' x, (<[t := None]> H) t' = Some x -> t' <> t /\ H t' = Some x).
  { intros t' x. destruct (decide (t = t')) as [<-|Hn]; [by rewrite fn_lookup_insert|]. by rewrite fn_lookup_insert_ne. }
  constructor; cbn [dirent next_ino in_process flocked drop_lock close_lock set_remove with_flocked with_in_process].
  - done.
  - intros t' l' h' i' E. apply Hne in E as [_ E]. by apply (Hl t' l' h' i').
  - intros q p. rewrite elem_of_difference, elem_of_singleton, Hs. split.
    + intros [(t' & x & E & -> & ->) Hn]. exists t', x. split; [|done]. rewrite fn_lookup_insert_ne; [done|]. intros <-. by rewrite Hp in Hn.
    + intros (t' & x & E & -> & ->). apply Hne in E as [Hn E]. split; [by exists t', x|]. rewrite Hp. intros [= Ep]. by apply lock_of_inj in Ep.
  - intros ino q x. rewrite elem_of_difference, elem_of_singleton. intros [Hin Hn]. apply Hk in Hin as (t' & l' & i' & E & -> & ->).
    exists t', l', i'. split; [|done]. rewrite fn_lookup_insert_ne; [done|]. intros <-. rewrite Ht in E. by injection E as <- <- <-.
Qed.

Lemma holds_ext H H' s : (forall t, H t = H' t) -> holds H s -> holds H' s.
Proof.
  intros He [Hf Hl Hs Hk]. constructor; try done.
  - intros t l h i. rewrite <- He. apply Hl.
  - intros q p. rewrite Hs. by split; intros (t & x & E & Hq); exists t, x; rewrite He in *.
  - intros ino q h Hin. apply Hk in Hin as (t & l & i & E & Hq). exists t, l, i. by rewrite <- He.
Qed.

(** A directory without a publisher is removed. *)
Lemma unlink_topic H s t :
  holds H s -> H t = None -> holds H (with_dirent (filter (fun x => ~ dir_of t `prefix_of` x.1) (dirent s)) s).
Proof.
  intros [[Hinj Hlt] Hl Hs Hk] Ht. constructor; cbn [dirent next_ino in_process flocked with_dirent]; try done.
  - split; [intros p p' i [E _]%map_lookup_filter_Some [E' _]%map_lookup_filter_Some; by apply (Hinj p p' i)|].
    intros p i [E _]%map_lookup_filter_Some. by apply (Hlt p i).
  - intros t' l h i E. destruct (Hl _ _ _ _ E) as [Hp Hi]. split; [done|]. apply map_lookup_filter_Some. split; [done|]. cbn.
    unfold lock_path, dir_of. intros Hpre. rewrite <- app_assoc in Hpre. apply prefix_app_inv in Hpre as [r Er]. cbn in Er.
    injection Er as -> _. by rewrite Ht in E.
Qed.
End holds.

(** ** A topic by itself *)

Section spec.
Context {W WE D : Type} `{!WalBackend W WE} `{!TopicLog W WE D}.
#[local] Notation pst := (Publisher.st (W := W)).

(** What is done with a publisher. *)
Inductive action := APublish (data : list byte) | APublishMany (items : list (list byte)) | AWait (n : nat) (turns : list (list (result io_error client) * bool)).

Definition run_action (a : action) : M pst (error WE) Z :=
  match a with
  | APublish data => let! _ := Publisher.publish data in ret 0
  | APublishMany items => Publisher.publish_many items
  | AWait n turns => let! _ := Publisher.wait_for_subscribers n turns in ret 0
  end.

(** [BHold]: the owner of a publisher taken out of the bus uses it.  [BGiveBack]: it has used it, and drops it.
    With nothing in hand, neither does anything. *)
Inductive bus_op :=
  | BUse (t : string) (a : action)
  | BTake (t : string)
  | BHold (t : string) (a : action)
  | BGiveBack (t : string) (acts : list action)
  | BClean (t : string).

Definition topic_of (o : bus_op) : string := match o with BUse t _ | BTake t | BHold t _ | BGiveBack t _ | BClean t => t end.

(** The ring file and the log of the directory, if there is one; the publisher cached in the bus, or in the
    hands of whoever took it. *)
Record cell := Cell { c_files : option (ring_file * D); c_bus : option pst; c_hand : option pst }.

Variables (now : Z) (cfg : bus_config).

Definition cell_create (t : string) (k : cell) : option (ring_file * D) * result (error WE) pst :=
  let f := default (NoRingFile, tl_none) (c_files k) in
  match c_hand k with
  | Some _ => (Some f, Err (AlreadyPublishing t))
  | None =>
      if enabled (wal_cfg cfg) then
        match tl_open (wal_cfg cfg) now f.2 with
        | (d, Err x) => (Some (RingFile (create_or_reuse f.1 (bcapacity cfg) (slot_size cfg) (bmax_subscribers cfg)), d), Err (WalError x))
        | (d, Ok w) => (Some f, Ok (create f.1 cfg (Some w)))
        end
      else (Some f, Ok (create f.1 cfg None))
  end.

Definition cell_close (s : pst) (files : option (ring_file * D)) : option (ring_file * D) :=
  (fun f => (RingFile (wring s.1), match wal s.2 with Some w => tl_close w | None => f.2 end)) <$> files.

Definition cell_step (o : bus_op) (k : cell) : cell * result (error WE) Z :=
  match o with
  | BUse t a =>
      match c_bus k with
      | Some s => let '(s, r) := run_action a s in (Cell (c_files k) (Some s) (c_hand k), r)
      | None =>
          match cell_create t k with
          | (f, Err x) => (Cell f None (c_hand k), Err x)
          | (f, Ok s) => let '(s, r) := run_action a s in (Cell f (Some s) (c_hand k), r)
          end
      end
  | BTake t =>
      match c_bus k with
      | Some s => (Cell (c_files k) None (Some s), Ok 0)
      | None =>
          match cell_create t k with
          | (f, Err x) => (Cell f None (c_hand k), Err x)
          | (f, Ok s) => (Cell f None (Some s), Ok 0)
          end
      end
  | BHold t a =>
      match c_hand k with
      | Some s => let '(s, r) := run_action a s in (Cell (c_files k) (c_bus k) (Some s), r)
      | None => (k, Ok 0)
      end
  | BGiveBack t acts =>
      match c_hand k with
      | Some s => let s := foldl (fun s a => (run_action a s).1) s acts in (Cell (cell_close s (c_files k)) (c_bus k) None, Ok 0)
      | None => (k, Ok 0)
      end
  | BClean t =>
      let k := match c_bus k with Some s => Cell (cell_close s (c_files k)) None (c_hand k) | None => k end in
      match c_files k, c_hand k with
      | None, _ => (k, Ok 0)
      | Some _, Some _ => (k, Err (AlreadyPublishing t))
      | Some _, None => (Cell None None None, Ok 0)
      end
  end.

Fixpoint run_cell (os : list bus_op) (k : cell) : cell * list (result (error WE) Z) :=
  match os with
  | [] => (k, [])
  | o :: os => let '(k, r) := cell_step o k in let '(k, rs) := run_cell os k in (k, r :: rs)
  end.
End spec.

(** ** The bus and the publishers taken out of it *)

Section refinement.
Context {W WE D : Type} `{!WalBackend W WE} `{!TopicLog W WE D}.
#[local] Notation pst := (Publisher.st (W := W)).
#[local] Notation live := (Bus.live (W := W)).
Variable per_process : bool.

Record state := State { s_bus : Bus.bus (W := W); s_env : Bus.env (D := D); s_hand : gmap string live }.

Definition bus_step (o : bus_op) (c : state) : state * result (error WE) Z :=
  let be := (s_bus c, s_env c) in
  match o with
  | BUse t a => let '((b, e), r) := with_publisher per_process t (run_action a) be in (State b e (s_hand c), r)
  | BTake t =>
      match take_publisher per_process t be with
      | ((b, e), Ok l) => (State b e (<[t := l]> (s_hand c)), Ok 0)
      | ((b, e), Err x) => (State b e (s_hand c), Err x)
      end
  | BHold t a =>
      match s_hand c !! t with
      | Some l =>
          let '(s, r) := run_action a (l_pub l) in
          (State (s_bus c) (s_env c) (<[t := Live (l_lock l) (l_handle l) (l_files l) s]> (s_hand c)), r)
      | None => (c, Ok 0)
      end
  | BGiveBack t acts =>
      match s_hand c !! t with
      | Some l =>
          let s := foldl (fun s a => (run_action a s).1) (l_pub l) acts in
          (State (s_bus c) (drop_publisher (process (s_bus c)) (topic_dir (s_bus c) t) (Live (l_lock l) (l_handle l) (l_files l) s) (s_env c))
             (delete t (s_hand c)), Ok 0)
      | None => (c, Ok 0)
      end
  | BClean t => 
      match clean_topic per_process t be with
      | ((b, e), Ok _) => (State b e (s_hand c), Ok 0)
      | ((b, e), Err x) => (State b e (s_hand c), Err x)
      end
  end.

(** The results with their topics. *)
Fixpoint run_bus (os : list bus_op) (c : state) : state * list (string * result (error WE) Z) :=
  match os with
  | [] => (c, [])
  | o :: os => let '(c, r) := bus_step o c in let '(c, rs) := run_bus os c in (c, (topic_of o, r) :: rs)
  end.

(** ** The refinement *)

Definition base_of (b : Bus.bus (W := W)) : fpath := join (components (base_dir (config b))) (bname b).

(** A topic's name is one component: not empty, no slash, no dot. *)
Definition simple (t : string) : Prop := is_absolute t = false /\ components t = [t].

Lemma topic_dir_simple b t : simple t -> topic_dir b t = dir_of (base_of b) t.
Proof. intros [Ha Hc]. unfold topic_dir, dir_of, base_of. unfold join at 1. by rewrite Ha, Hc. Qed.

Definition files_view (f : topic_files (D := D)) : ring_file * D := (tf_ring f, tf_log f).
Definition view (t : string) (c : state) : cell (W := W) (D := D) :=
  Cell (files_view <$> dirs (s_env c) !! dir_of (base_of (s_bus c)) t) (l_pub <$> publishers (s_bus c) !! t) (l_pub <$> s_hand c !! t).

Definition hold_of (l : live) : producer_lock * nat * nat := (l_lock l, l_handle l, l_files l).
Definition held (c : state) (t : string) : option (producer_lock * nat * nat) :=
  match publishers (s_bus c) !! t with Some l => Some (hold_of l) | None => hold_of <$> s_hand c !! t end.

Record ok (c : state) : Prop := {
  ok_locks : holds (process (s_bus c)) (base_of (s_bus c)) (held c) (locks (s_env c));
  ok_dirs : forall t l h i, held c t = Some (l, h, i) -> exists f, dirs (s_env c) !! dir_of (base_of (s_bus c)) t = Some f /\ tf_id f = i;
  ok_one : forall t l, publishers (s_bus c) !! t = Some l -> s_hand c !! t = None
}.

(** The directory of a topic after [create_dir_all]. *)
Lemma create_dir_spec dir (e : Bus.env (D := D)) :
  exists f, dirs (create_dir_all dir e) !! dir = Some f /\ files_view f = default (NoRingFile, tl_none) (files_view <$> dirs e !! dir)
    /\ (forall f0, dirs e !! dir = Some f0 -> f = f0) /\ (forall p, p <> dir -> dirs (create_dir_all dir e) !! p = dirs e !! p)
    /\ locks (create_dir_all dir e) = locks e /\ now (create_dir_all dir e) = now e.
Proof.
  unfold create_dir_all. destruct (dirs e !! dir) as [f|] eqn:E.
  - exists f. rewrite E. split; [done|]. split; [done|]. split; [by intros f0 [= <-]|]. done.
  - eexists. cbn. rewrite lookup_insert_eq. split; [done|]. split; [done|]. split; [done|]. split; [|done].
    intros p Hp. by rewrite lookup_insert_ne.
Qed.

(** What a call of [Publisher::create] does, as the cell sees it. *)
Lemma create_spec b e hand t : ok (State b e hand) -> simple t -> publishers b !! t = None ->
  let c := State b e hand in
  let '(e', r) := create_publisher_in per_process (process b) (config b) (topic_dir b t) t e in
  let '(f, rc) := cell_create (now e) (config b) t (view t c) in
  now e' = now e
  /\ (forall p, p <> dir_of (base_of b) t -> dirs e' !! p = dirs e !! p)
  /\ files_view <$> dirs e' !! dir_of (base_of b) t = f
  /\ match r, rc with
     | Err x, Err x' => x = x' /\ ok (State b e' hand)
     | Ok l, Ok s => s = l_pub l /\ hand !! t = None
         /\ holds (process b) (base_of b) (<[t := Some (hold_of l)]> (held c)) (locks e')
         /\ exists f, dirs e' !! dir_of (base_of b) t = Some f /\ tf_id f = l_files l
     | _, _ => False
     end.
Proof.
  intros [Hl Hd Ho] Hs Hp c. cbn [s_bus s_env s_hand] in *. rewrite topic_dir_simple by done. set (dir := dir_of _ t).
  unfold create_publisher_in. cbv zeta. destruct (create_dir_spec dir e) as (f & Ef & Ev & Esame & Ene & El & En).
  set (e1 := create_dir_all dir e) in *. cbn [locks]. rewrite El. unfold cell_create, view. cbn [c_files c_hand s_hand s_env s_bus c]. fold dir.
  assert (Hdirs : forall e2, (forall p, p <> dir -> dirs e2 !! p = dirs e !! p) -> (forall f0, dirs e !! dir = Some f0 -> exists f2, dirs e2 !! dir = Some f2 /\ tf_id f2 = tf_id f0) ->
    forall t' l h i, held c t' = Some (l, h, i) -> exists f, dirs e2 !! dir_of (base_of b) t' = Some f /\ tf_id f = i).
  { intros e2 Hne Hat t' l h i E. destruct (Hd t' l h i E) as (f0 & Ef0 & <-). destruct (decide (t' = t)) as [->|Hn]; [by apply Hat|].
    exists f0. by rewrite Hne by (intros Ed; by apply dir_of_inj in Ed). }
  destruct (hand !! t) as [l|] eqn:Eh; cbn [fmap option_fmap option_map].
  { pose proof (acquire_held (WE := WE) per_process _ _ _ _ t (hold_of l) (next_id e1) Hl ltac:(unfold held; cbn; by rewrite Hp, Eh)) as Ha.
    fold dir in Ha. rewrite Ha. cbn. split; [done|]. split; [exact Ene|]. rewrite Ef. split; [by rewrite <- Ev|]. split; [done|].
    constructor; cbn [s_bus s_env s_hand locks dirs with_locks]; [done| |done]. apply (Hdirs e1 Ene). intros f0 E0. exists f. by rewrite Ef, (Esame f0). }
  assert (Hno : held c t = None) by (unfold held; cbn; by rewrite Hp, Eh).
  destruct (acquire_free_topic (WE := WE) per_process _ _ _ _ t (next_id e1) Hl Hno) as (l & s' & Ha & Hh). fold dir in Ha. rewrite Ha. cbv beta iota.
  unfold files_at. cbn [dirs with_locks now]. rewrite Ef. cbn [default]. rewrite En, <- Ev. cbn [fst snd files_view].
  destruct (enabled _); [destruct (tl_open _ _ _) as [d [w|x]]|]; cbv beta iota.
  - cbn. split; [done|]. split; [exact Ene|]. rewrite Ef. split; [done|]. split; [done|]. split; [done|]. split; [apply Hh|]. by exists f.
  - cbn [now with_locks with_dirs dirs]. split; [done|]. split; [intros p Hpne; rewrite lookup_insert_ne by done; by apply Ene|].
    rewrite lookup_insert_eq. split; [done|]. split; [done|]. constructor; cbn [s_bus s_env s_hand locks dirs with_locks with_dirs]; [| |done].
    + pose proof (release_topic _ _ _ _ t l (next_id e1) 0%nat (Hh 0%nat) ltac:(by rewrite fn_lookup_insert)) as Hr. revert Hr. apply holds_ext.
      intros t'. destruct (decide (t = t')) as [<-|Hn]; [rewrite fn_lookup_insert; symmetry; exact Hno|]. by rewrite !fn_lookup_insert_ne.
    + refine (Hdirs (with_dirs (<[dir := TopicFiles (tf_id f) _ _]> (dirs e1)) e1) _ _); cbn [dirs with_dirs].
      * intros p Hpne. rewrite lookup_insert_ne by done. by apply Ene.
      * intros f0 E0. eexists. rewrite lookup_insert_eq. split; [done|]. cbn. by rewrite (Esame f0).
  - cbn. split; [done|]. split; [exact Ene|]. rewrite Ef. split; [done|]. split; [done|]. split; [done|]. split; [apply Hh|]. by exists f.
Qed.

(** What no step changes. *)
Definition same_setting (c c' : state) : Prop :=
  base_of (s_bus c') = base_of (s_bus c) /\ config (s_bus c') = config (s_bus c) /\ process (s_bus c') = process (s_bus c)
  /\ now (s_env c') = now (s_env c).

(** [c'] differs from [c] in who holds [t] and in [t]'s directory. *)
Lemma ok_change c c' t x :
  ok c -> same_setting c c' ->
  (forall t', held c' t' = (<[t := x]> (held c)) t') ->
  holds (process (s_bus c)) (base_of (s_bus c)) (<[t := x]> (held c)) (locks (s_env c')) ->
  (forall p, p <> dir_of (base_of (s_bus c)) t -> dirs (s_env c') !! p = dirs (s_env c) !! p) ->
  (forall l h i, x = Some (l, h, i) -> exists f, dirs (s_env c') !! dir_of (base_of (s_bus c)) t = Some f /\ tf_id f = i) ->
  (forall t' l, publishers (s_bus c') !! t' = Some l -> s_hand c' !! t' = None) -> ok c'.
Proof.
  intros [Hl Hd Ho] (Eb & Ec & Ep & En) Hh Hl' Hne Hx Hone. constructor; [| |done].
  - rewrite Ep, Eb. revert Hl'. by apply holds_ext.
  - intros t' l h i. rewrite Hh, Eb. destruct (decide (t = t')) as [<-|Hn]; [rewrite fn_lookup_insert; apply Hx|].
    rewrite fn_lookup_insert_ne by done. intros E. rewrite Hne; [by apply (Hd t' l h i)|]. intros Ed. by apply dir_of_inj in Ed.
Qed.

(** The rest of the bus sees nothing of it. *)
Lemma view_other c c' t t' :
  same_setting c c' -> t' <> t -> (forall p, p <> dir_of (base_of (s_bus c)) t -> dirs (s_env c') !! p = dirs (s_env c) !! p) ->
  publishers (s_bus c') !! t' = publishers (s_bus c) !! t' -> s_hand c' !! t' = s_hand c !! t' -> view t' c' = view t' c.
Proof.
  intros (Eb & _) Hn Hne Hp Hh. unfold view. rewrite Eb, Hp, Hh, Hne; [done|]. intros Ed. by apply dir_of_inj in Ed.
Qed.

(** Dropping a publisher. *)
Lemma drop_spec c t l :
  ok c -> held c t = Some (hold_of l) ->
  let e' := drop_publisher (process (s_bus c)) (dir_of (base_of (s_bus c)) t) l (s_env c) in
  now e' = now (s_env c)
  /\ holds (process (s_bus c)) (base_of (s_bus c)) (<[t := None]> (held c)) (locks e')
  /\ (forall p, p <> dir_of (base_of (s_bus c)) t -> dirs e' !! p = dirs (s_env c) !! p)
  /\ files_view <$> dirs e' !! dir_of (base_of (s_bus c)) t = cell_close (l_pub l) (files_view <$> dirs (s_env c) !! dir_of (base_of (s_bus c)) t).
Proof.
  intros [Hl Hd Ho] Ht e'. destruct (Hd _ _ _ _ Ht) as (f & Ef & Ei). unfold e', drop_publisher, close_files.
  cbn [dirs with_locks]. rewrite Ef. rewrite decide_True by done. cbn [dirs with_dirs locks now with_locks].
  split; [done|]. split; [by apply (release_topic _ _ _ _ t _ _ (l_files l))|].
  split; [intros p Hp; by rewrite lookup_insert_ne|]. by rewrite lookup_insert_eq.
Qed.

(** The step of a bus is the step of the operation's topic, and of no other. *)
Definition refines (o : bus_op) (c : state) : Prop :=
  let '(c', r) := bus_step o c in
  ok c' /\ same_setting c c'
  /\ cell_step (now (s_env c)) (config (s_bus c)) o (view (topic_of o) c) = (view (topic_of o) c', r)
  /\ forall t', t' <> topic_of o -> view t' c' = view t' c.

Ltac lookups := rewrite ?lookup_insert_eq, ?lookup_delete_eq, ?lookup_insert_ne, ?lookup_delete_ne, ?fn_lookup_insert, ?fn_lookup_insert_ne by done.

(** A cached publisher is replaced by one with the same lock. *)
Lemma ok_keep b e hand t l l' : ok (State b e hand) -> publishers b !! t = Some l -> hold_of l' = hold_of l ->
  ok (State (with_publishers (<[t := l']> (publishers b)) b) e hand).
Proof.
  intros Hok Hp Eh. pose proof Hok as [Hl Hd Ho]. assert (Hheld : held (State b e hand) t = Some (hold_of l)) by (unfold held; cbn; by rewrite Hp).
  apply (ok_change (State b e hand) _ t (Some (hold_of l))); cbn [s_bus s_env s_hand publishers with_publishers]; try done.
  - intros t'. destruct (decide (t = t')) as [<-|Hn]; unfold held; cbn; lookups; by rewrite ?Eh.
  - revert Hl. apply holds_ext. intros t'. destruct (decide (t = t')) as [<-|Hn]; by lookups.
  - intros l0 h i [= <- <- <-]. by apply (Hd t (l_lock l) (l_handle l)).
  - intros t' l0. destruct (decide (t = t')) as [<-|Hn]; lookups; [intros _; by apply (Ho t l)|apply Ho].
Qed.

Lemma use_refines t a c : ok c -> simple t -> refines (BUse t a) c.
Proof.
  destruct c as [b e hand]. intros Hok Hs. unfold refines. cbn [bus_step s_bus s_env s_hand topic_of]. unfold with_publisher.
  destruct (publishers b !! t) as [l|] eqn:Ep.
  - destruct (run_action a (l_pub l)) as [s r] eqn:Er. split; [by apply (ok_keep b e hand t l)|]. split; [done|]. split.
    + unfold view. cbn [cell_step c_bus c_files c_hand s_bus s_env s_hand publishers with_publishers]. rewrite Ep. lookups. cbn. by rewrite Er.
    + intros t' Hn. apply (view_other (State b e hand) _ t); try done. cbn. by lookups.
  - pose proof (create_spec b e hand t Hok Hs Ep) as Hc. cbv zeta in Hc. unfold cell_step.
    destruct (create_publisher_in _ _ _ _ _ e) as [e' r]. destruct (cell_create _ _ t _) as [f rc] eqn:Ecc.
    destruct Hc as (En & Hne & Ef & Hr). destruct r as [l|x], rc as [s0|x']; try done.
    + destruct Hr as (-> & Eh & Hh & Hid). destruct (run_action a (l_pub l)) as [s r] eqn:Er. split; [|split; [done|split]].
      * apply (ok_change (State b e hand) _ t (Some (hold_of l))); cbn [s_bus s_env s_hand publishers with_publishers]; try done.
        -- intros t'. destruct (decide (t = t')) as [<-|Hn]; unfold held; cbn; by lookups.
        -- by intros l0 h i [= <- <- <-].
        -- intros t' l0. destruct (decide (t = t')) as [<-|Hn]; lookups; [done|apply Hok].
      * assert (c_bus (view t (State b e hand)) = None) as -> by (cbn; by rewrite Ep).
        unfold view. cbn [s_bus s_env s_hand publishers with_publishers c_hand]. lookups. by rewrite <- Ef.
      * intros t' Hn. apply (view_other (State b e hand) _ t); try done. cbn. by lookups.
    + destruct Hr as [<- Hok']. split; [done|]. split; [done|]. split.
      * assert (c_bus (view t (State b e hand)) = None) as -> by (cbn; by rewrite Ep).
        unfold view. cbn [s_bus s_env s_hand c_hand]. by rewrite Ep, <- Ef.
      * intros t' Hn. by apply (view_other (State b e hand) _ t).
Qed.

Lemma take_refines t c : ok c -> simple t -> refines (BTake t) c.
Proof.
  destruct c as [b e hand]. intros Hok Hs. unfold refines. cbn [bus_step s_bus s_env s_hand topic_of]. unfold take_publisher.
  destruct (publishers b !! t) as [l|] eqn:Ep.
  - pose proof Hok as [Hl Hd Ho]. cbn [s_bus s_env s_hand] in *.
    assert (Hheld : held (State b e hand) t = Some (hold_of l)) by (unfold held; cbn; by rewrite Ep).
    split; [|split; [done|split]].
    + apply (ok_change (State b e hand) _ t (Some (hold_of l))); cbn [s_bus s_env s_hand publishers with_publishers]; try done.
      * intros t'. destruct (decide (t = t')) as [<-|Hn]; unfold held; cbn; by lookups.
      * revert Hl. apply holds_ext. intros t'. destruct (decide (t = t')) as [<-|Hn]; by lookups.
      * intros l0 h i [= <- <- <-]. by apply (Hd t (l_lock l) (l_handle l)).
      * intros t' l0. destruct (decide (t = t')) as [<-|Hn]; lookups; [done|apply Ho].
    + unfold view. cbn [cell_step c_bus c_files c_hand s_bus s_env s_hand publishers with_publishers]. rewrite Ep. by lookups.
    + intros t' Hn. apply (view_other (State b e hand) _ t); try done; cbn; by lookups.
  - pose proof (create_spec b e hand t Hok Hs Ep) as Hc. cbv zeta in Hc. unfold cell_step.
    destruct (create_publisher_in _ _ _ _ _ e) as [e' r]. destruct (cell_create _ _ t _) as [f rc] eqn:Ecc.
    destruct Hc as (En & Hne & Ef & Hr). assert (c_bus (view t (State b e hand)) = None) as -> by (cbn; by rewrite Ep).
    destruct r as [l|x], rc as [s0|x']; try done.
    + destruct Hr as (-> & Eh & Hh & Hid). split; [|split; [done|split]].
      * apply (ok_change (State b e hand) _ t (Some (hold_of l))); cbn [s_bus s_env s_hand]; try done.
        -- intros t'. destruct (decide (t = t')) as [<-|Hn]; unfold held; cbn; lookups; by rewrite ?Ep.
        -- by intros l0 h i [= <- <- <-].
        -- intros t' l0. destruct (decide (t = t')) as [<-|Hn]; lookups; [by rewrite Ep|apply Hok].
      * unfold view. cbn [s_bus s_env s_hand c_hand]. lookups. by rewrite <- Ef, Ep.
      * intros t' Hn. apply (view_other (State b e hand) _ t); try done. cbn. by lookups.
    + destruct Hr as [<- Hok']. split; [done|]. split; [done|]. split.
      * unfold view. cbn [s_bus s_env s_hand c_hand]. by rewrite Ep, <- Ef.
      * intros t' Hn. by apply (view_other (State b e hand) _ t).
Qed.

Lemma hold_refines t a c : ok c -> simple t -> refines (BHold t a) c.
Proof.
  destruct c as [b e hand]. intros Hok Hs. unfold refines. cbn [bus_step s_bus s_env s_hand topic_of].
  destruct (hand !! t) as [l|] eqn:Eh.
  2:{ split; [done|]. split; [done|]. split; [|done]. unfold cell_step. assert (c_hand (view t (State b e hand)) = None) as -> by (cbn; by rewrite Eh). done. }
  assert (Ep : publishers b !! t = None).
  { destruct (publishers b !! t) as [l0|] eqn:Ep; [|done]. pose proof (ok_one _ Hok t l0 Ep) as En. cbn in En. by rewrite Eh in En. }
  assert (Hheld : held (State b e hand) t = Some (hold_of l)) by (unfold held; cbn; by rewrite Ep, Eh).
  destruct (run_action a (l_pub l)) as [s r] eqn:Er. split; [|split; [done|split]].
  - apply (ok_change (State b e hand) _ t (Some (hold_of l))); cbn [s_bus s_env s_hand]; try done.
    + intros t'. destruct (decide (t = t')) as [<-|Hn]; unfold held; cbn; lookups; by rewrite ?Ep.
    + pose proof (ok_locks _ Hok) as Hl. revert Hl. apply holds_ext. intros t'. destruct (decide (t = t')) as [<-|Hn]; by lookups.
    + intros l0 h i [= <- <- <-]. by apply (ok_dirs _ Hok t (l_lock l) (l_handle l)).
    + intros t' l0. destruct (decide (t = t')) as [<-|Hn]; lookups; [by rewrite Ep|apply Hok].
  - unfold view. cbn [cell_step c_hand c_files c_bus s_bus s_env s_hand]. rewrite Eh. lookups. cbn. by rewrite Er.
  - intros t' Hn. apply (view_other (State b e hand) _ t); try done. cbn. by lookups.
Qed.

Lemma give_back_refines t acts c : ok c -> simple t -> refines (BGiveBack t acts) c.
Proof.
  destruct c as [b e hand]. intros Hok Hs. unfold refines. cbn [bus_step s_bus s_env s_hand topic_of].
  destruct (hand !! t) as [l|] eqn:Eh.
  2:{ split; [done|]. split; [done|]. split; [|done]. unfold cell_step. assert (c_hand (view t (State b e hand)) = None) as -> by (cbn; by rewrite Eh). done. }
  assert (Ep : publishers b !! t = None).
  { destruct (publishers b !! t) as [l0|] eqn:Ep; [|done]. pose proof (ok_one _ Hok t l0 Ep) as En. cbn in En. by rewrite Eh in En. }
  rewrite topic_dir_simple by done. set (s := foldl _ (l_pub l) acts). set (l' := Live _ _ _ s).
  destruct (drop_spec (State b e hand) t l' Hok) as (En & Hl & Hne & Ef); [unfold held; cbn; by rewrite Ep, Eh|].
  cbn [s_bus s_env s_hand] in *. set (e' := drop_publisher _ _ _ _) in *. split; [|split; [done|split]].
  - apply (ok_change (State b e hand) _ t None); cbn [s_bus s_env s_hand]; try done.
    + intros t'. destruct (decide (t = t')) as [<-|Hn]; unfold held; cbn; lookups; by rewrite ?Ep.
    + intros t' l0. destruct (decide (t = t')) as [<-|Hn]; lookups; [by rewrite Ep|apply Hok].
  - unfold view. cbn [cell_step c_hand c_files c_bus s_bus s_env s_hand]. rewrite Eh, Ef, Ep. by lookups.
  - intros t' Hn. apply (view_other (State b e hand) _ t); try done. cbn. by lookups.
Qed.

(** [clean_topic] once the bus has dropped its own publisher. *)
Lemma clean_uncached b e hand t :
  ok (State b e hand) -> simple t -> publishers b !! t = None -> refines (BClean t) (State b e hand).
Proof.
  intros Hok Hs Ep. pose proof Hok as [Hl Hd Ho]. cbn [s_bus s_env s_hand] in *. unfold refines. cbn [bus_step s_bus s_env s_hand topic_of].
  unfold clean_topic. rewrite Ep, topic_dir_simple by done. set (dir := dir_of _ t). unfold cell_step.
  assert (c_bus (view t (State b e hand)) = None) as -> by (cbn; by rewrite Ep).
  assert (Hview : c_files (view t (State b e hand)) = files_view <$> dirs e !! dir /\ c_hand (view t (State b e hand)) = l_pub <$> hand !! t) by done.
  destruct Hview as [-> ->]. destruct (dir_exists dir e) eqn:Ex; cbn [negb].
  2:{ assert (dirs e !! dir = None) as ->; [|done]. apply bool_decide_eq_false in Ex. destruct (dirs e !! dir) as [f|] eqn:E; [|done].
      destruct Ex. by exists dir, f. }
  destruct (hand !! t) as [l|] eqn:Eh.
  - pose proof (acquire_held (WE := WE) per_process _ _ _ _ t (hold_of l) (next_id e) Hl ltac:(unfold held; cbn; by rewrite Ep, Eh)) as Ha.
    fold dir in Ha. rewrite Ha. destruct (Hd t (l_lock l) (l_handle l) (l_files l) ltac:(unfold held; cbn; by rewrite Ep, Eh)) as (f & Ef & _).
    fold dir in Ef. rewrite Ef. cbn [fmap option_fmap option_map]. split; [|split; [done|split; [done|done]]].
    constructor; [exact Hl|exact Hd|exact Ho].
  - assert (Hno : held (State b e hand) t = None) by (unfold held; cbn; by rewrite Ep, Eh).
    destruct (acquire_free_topic (WE := WE) per_process _ _ _ _ t (next_id e) Hl Hno) as (l & s' & Ha & Hh). fold dir in Ha. rewrite Ha.
    cbn [fmap option_fmap option_map]. set (e' := with_locks _ _).
    assert (Hne : forall t', t' <> t -> dirs e' !! dir_of (base_of b) t' = dirs e !! dir_of (base_of b) t').
    { intros t' Hn. cbn. apply option_eq. intros f. rewrite map_lookup_filter_Some. cbn. split; [by intros [? _]|]. intros E. split; [done|].
      unfold dir, dir_of. intros Hpre. apply prefix_app_inv in Hpre as [r Er]. cbn in Er. injection Er as Er _. done. }
    assert (Hgone : dirs e' !! dir = None).
    { cbn. apply map_lookup_filter_None. right. intros f _ Hn. by destruct Hn. }
    assert (Hview : view t (State b e' hand) = Cell None None None) by (unfold view; cbn [s_bus s_env s_hand]; fold dir; by rewrite Hgone, Ep, Eh).
    rewrite Hview. split; [|split; [done|split]].
    + constructor; cbn [s_bus s_env s_hand]; [| |exact Ho].
      * apply (holds_ext _ _ (<[t := None]> (<[t := Some (l, next_id e, 0%nat)]> (held (State b e hand))))).
        { intros t'. destruct (decide (t = t')) as [<-|Hn]; lookups; [symmetry; exact Hno|done]. }
        pose proof (release_topic _ _ _ _ t l (next_id e) 0%nat (Hh 0%nat) ltac:(by lookups)) as Hr.
        apply (unlink_topic _ _ _ _ t) in Hr; [exact Hr|by lookups].
      * intros t' l0 h i E. destruct (decide (t' = t)) as [->|Hn]; [change (held (State b e hand) t = Some (l0, h, i)) in E; by rewrite Hno in E|].
        rewrite Hne by done. by apply (Hd t' l0 h i).
    + destruct (dirs e !! dir) as [f|] eqn:E; [done|]. unfold view. cbn [s_bus s_env s_hand]. fold dir. by rewrite E, Ep, Eh.
    + intros t' Hn. unfold view. cbn [s_bus s_env s_hand]. by rewrite Hne.
Qed.

Lemma clean_refines t c : ok c -> simple t -> refines (BClean t) c.
Proof.
  destruct c as [b e hand]. intros Hok Hs. destruct (publishers b !! t) as [l|] eqn:Ep; [|by apply clean_uncached].
  set (b1 := with_publishers (delete t (publishers b)) b). set (e1 := drop_publisher (process b) (topic_dir b t) l e).
  assert (Hstep : bus_step (BClean t) (State b e hand) = bus_step (BClean t) (State b1 e1 hand)).
  { cbn [bus_step s_bus s_env s_hand]. unfold clean_topic at 1 2. rewrite Ep. unfold b1 at 1. cbn [publishers with_publishers]. by rewrite lookup_delete_eq. }
  destruct (drop_spec (State b e hand) t l Hok) as (En & Hl & Hne & Ef); [unfold held; cbn; by rewrite Ep|].
  cbn [s_bus s_env s_hand] in *. rewrite <- topic_dir_simple in Hne, Ef, En, Hl by done. fold e1 in Hne, Ef, En, Hl.
  assert (Hok1 : ok (State b1 e1 hand)).
  { apply (ok_change (State b e hand) _ t None); cbn [s_bus s_env s_hand]; try done.
    - intros t'. destruct (decide (t = t')) as [<-|Hn]; unfold held; cbn; lookups; [pose proof (ok_one _ Hok t l Ep) as Eh; cbn in Eh; by rewrite Eh|done].
    - intros p. rewrite <- topic_dir_simple by done. apply Hne.
    - intros t' l0. destruct (decide (t = t')) as [<-|Hn]; cbn; lookups; [done|apply Hok]. }
  pose proof (clean_uncached b1 e1 hand t Hok1 Hs (lookup_delete_eq _ _)) as Hr. unfold refines in *. rewrite Hstep. clear Hstep. cbn [topic_of] in *.
  destruct (bus_step _ _) as [c' r].
  destruct Hr as (Hok' & (Eb & Ec & Epr & Eno) & Hcell & Hview). cbn [s_bus s_env config process] in *.
  split; [done|]. split; [|split].
  - split; [exact Eb|]. split; [exact Ec|]. split; [exact Epr|]. by rewrite Eno.
  - rewrite <- Hcell, En. change (config b1) with (config b). unfold cell_step.
    assert (c_bus (view t (State b e hand)) = Some (l_pub l)) as -> by (cbn; by rewrite Ep).
    assert (c_bus (view t (State b1 e1 hand)) = None) as -> by (cbn; by rewrite lookup_delete_eq).
    assert (Cell (cell_close (l_pub l) (c_files (view t (State b e hand)))) None (c_hand (view t (State b e hand))) = view t (State b1 e1 hand)) as ->; [|done].
    unfold view. cbn [c_files c_hand s_bus s_env s_hand b1 publishers with_publishers]. rewrite lookup_delete_eq.
    change (base_of b1) with (base_of b). rewrite <- topic_dir_simple by done. by rewrite Ef.
  - intros t' Hn. rewrite Hview by done. apply (view_other (State b e hand) _ t); cbn; try done; [|by lookups].
    intros p. rewrite <- topic_dir_simple by done. apply Hne.
Qed.

Lemma step_refines o c : ok c -> simple (topic_of o) -> refines o c.
Proof. destruct o; cbn [topic_of]; auto using use_refines, take_refines, hold_refines, give_back_refines, clean_refines. Qed.

Lemma run_refines os c : ok c -> Forall (fun o => simple (topic_of o)) os ->
  let '(c', rs) := run_bus os c in
  forall t, run_cell (now (s_env c)) (config (s_bus c)) (filter (fun o => topic_of o = t) os) (view t c)
            = (view t c', map snd (filter (fun x => x.1 = t) rs)).
Proof.
  intros Hok Hos. revert c Hok. induction Hos as [|o os Ho Hos IH]; intros c Hok; cbn [run_bus]; [done|].
  pose proof (step_refines o c Hok Ho) as Hr. unfold refines in Hr. destruct (bus_step o c) as [c1 r].
  destruct Hr as (Hok1 & (_ & Ec & _ & En) & Hcell & Hview). specialize (IH c1 Hok1). destruct (run_bus os c1) as [c' rs].
  intros t. specialize (IH t). rewrite Ec, En in IH. destruct (decide (topic_of o = t)) as [<-|Hn].
  - rewrite !filter_cons_True by done. cbn [run_cell]. rewrite Hcell, IH. done.
  - rewrite !filter_cons_False by done. by rewrite <- IH, Hview.
Qed.

(** A bus that has just been made, with no lock held. *)
Lemma fresh_ok name cfg pid e :
  in_process (locks e) = ∅ -> flocked (locks e) = ∅ -> files_ok (dirent (locks e)) (next_ino (locks e)) ->
  ok (State (with_config name cfg pid) e ∅).
Proof.
  intros Hset Hfl Hf. assert (Hnone : forall t, held (State (with_config name cfg pid) e ∅) t = None) by (intros t; unfold held; cbn; by rewrite !lookup_empty).
  constructor; [|intros t l h i E; by rewrite Hnone in E|intros t l; cbn; by rewrite lookup_empty].
  constructor; cbn [s_env]; [done|intros t l h i E; by rewrite Hnone in E| |rewrite Hfl; set_solver].
  intros q p. rewrite Hset. split; [set_solver|]. intros (t & x & E & _). by rewrite Hnone in E.
Qed.

(** C13: a bus is its topics.  In a process that starts with no lock held, whatever is done with the topics of a bus whose names
    are single components of a path (a name with a separator lies inside another topic: [clean_topic_reaches_inside]), in whatever order, with
    publishers taken out, used, dropped and topics cleaned: every topic's files, its publisher and the results of its
    operations are those of the topic by itself.  A publisher is made at the first use and kept, over what
    the last one left; it is refused while another, taken out of the bus, lives; and cleaning removes
    everything or, while that one lives, nothing. *)
Theorem bus_is_its_topics name cfg pid e os :
  in_process (locks e) = ∅ -> flocked (locks e) = ∅ -> files_ok (dirent (locks e)) (next_ino (locks e)) ->
  Forall (fun o => simple (topic_of o)) os ->
  let c := State (with_config name cfg pid) e ∅ in
  let '(c', rs) := run_bus os c in
  forall t, run_cell (now e) cfg (filter (fun o => topic_of o = t) os) (view t c)
            = (view t c', map snd (filter (fun x => x.1 = t) rs)).
Proof.
  intros Hset Hfl Hf Hos c. apply (run_refines os c); [|done]. by apply fresh_ok.
Qed.
End refinement.

(** ** At concrete topics *)

Section demo.
#[local] Existing Instance sum_crc.

#[local] Notation state := (state (W := WalV1.st) (D := disk)).
#[local] Notation run_bus := (run_bus (W := WalV1.st) (D := disk) (WE := wal_error) false).

Definition idle_env : Bus.env (D := disk) := Env (ProducerLock.State ∅ ∅ 0 ∅) ∅ 0 9.

(** Two topics; one publisher is taken out, used, and dropped; a topic is cleaned. *)
Definition demo_ops : list bus_op :=
  [BUse "x" (APublish [Byte.x61]); BTake "y"; BUse "y" (APublish [Byte.x62]); BUse "x" (APublishMany [[Byte.x63]; [Byte.x64]]);
   BHold "y" (APublish [Byte.x62]); BClean "y"; BGiveBack "y" [APublish [Byte.x62]]; BClean "x"; BUse "y" (APublish [Byte.x65]); BUse "x" (APublish [Byte.x66])].

Lemma bus_is_its_topics_witness :
  let '(c', rs) := run_bus demo_ops (State (with_config "bus" demo_bus 1) idle_env ∅) in
  map snd (filter (fun x => x.1 = "y") rs) = [Ok 0; Err (AlreadyPublishing "y"); Ok 0; Err (AlreadyPublishing "y"); Ok 0; Ok 0]
  /\ forall t, run_cell 9 demo_bus (filter (fun o => topic_of o = t) demo_ops) (view t (State (with_config "bus" demo_bus 1) idle_env ∅))
               = (view t c', map snd (filter (fun x => x.1 = t) rs)).
Proof.
  assert (Hf : files_ok (dirent (locks idle_env)) (next_ino (locks idle_env))).
  { split; cbn; intros *; rewrite lookup_empty; discriminate. }
  assert (Hos : Forall (fun o => simple (topic_of o)) demo_ops).
  { repeat (apply Forall_cons; split; [split; vm_compute; reflexivity|]). apply Forall_nil. exact I. }
  pose proof (bus_is_its_topics (W := WalV1.st) (D := disk) (WE := wal_error) false "bus" demo_bus 1 idle_env demo_ops eq_refl eq_refl Hf Hos) as Hb.
  cbv zeta in Hb. assert (Hr : map snd (filter (fun x => x.1 = "y") (run_bus demo_ops (State (with_config "bus" demo_bus 1) idle_env ∅)).2)
     = [Ok 0; Err (AlreadyPublishing "y"); Ok 0; Err (AlreadyPublishing "y"); Ok 0; Ok 0]) by (vm_compute; reflexivity).
  destruct (run_bus demo_ops _) as [c' rs]. split; [exact Hr|exact Hb].
Defined.

(** A topic inside another: cleaning the outer one removes the directory of a live publisher, and another
    process publishes on the topic at the same time. *)
Definition inner : string := "a/b".

Example clean_topic_reaches_inside :
  let '((b1, e), r1) := Bus.publish false inner [Byte.x61] (with_config "bus" demo_bus 1, idle_env) in
  let '((b1, e), r2) := clean_topic false "a" (b1, e) in
  let '((b2, e), r3) := Bus.publish false inner [Byte.x62] (with_config "bus" demo_bus 2, e) in
  let '((b1, e), r4) := Bus.publish false inner [Byte.x63] (b1, e) in
  [r1; r2; r3; r4] = [Ok tt; Ok tt; Ok tt; Ok tt]
  /\ (fun l => l_files l) <$> publishers b1 !! inner <> (fun l => l_files l) <$> publishers b2 !! inner.
Proof. vm_compute. split; [reflexivity|discriminate]. Qed.

(** An absolute name takes a topic out of the base directory. *)
Example absolute_topic : topic_dir (W := WalV1.st) (with_config "bus" demo_bus 1) "/home/u" = ["home"; "u"].
Proof. vm_compute. reflexivity. Qed.

(** The lock of a dropped publisher is free before its log is closed: the next publisher opens the log, and
    then the records that the first one had buffered reach the disk. *)
Definition outlived : list (Z * list byte) :=
  let '((d, w1), _) := (do! append_all (take 1 demo_recs) in do! fsync_wal in append_all (take 2 (drop 1 demo_recs)))
                         (Disk [] [], empty_wal NoFsync) in
  let '(d, r) := WalV1.open (demo_cfg NoFsync) 10 d in
  match r with
  | Err _ => []
  | Ok w2 =>
      let d := drop_wal (d, w1) in
      let '(s2, _) := WalV1.append 1 200 [Byte.x7a] (d, w2) in
      let d := drop_wal s2 in
      match reader_read_from (reader_open d) 0 with
      | Err _ => []
      | Ok r => map (fun x => (rcursor x, payload x)) (replay_collect 10 100 r d).1
      end
  end.

Example log_outlives_its_lock :
  outlived = [(0, [Byte.x61]); (1, [Byte.x62; Byte.x63]); (2, []); (1, [Byte.x7a])].
Proof. vm_compute. reflexivity. Qed.
End demo.
