(* ===== verification/PyBus.v ===== *)
(** * The Python bus ([crates/mmbus/src/python/bus.rs])

    [PyBus] and [PyTopicPublisher] over the bus of [Bus.v] and the subscriber of [Subscriber.v]: arguments and
    their defaults, timeouts, exceptions, and who publishes on a topic once a handle has been taken.  A
    floating-point number is the standard library's [spec_float]. *)

From Stdlib Require Import ZArith Lia Strings.Byte Floats.SpecFloat.
From stdpp Require Import base option strings gmap list.
From S2P Require Import Prelude OrdMap Chain Record Disk SegmentReader SegmentWriter Config Stats WalV1 WalRecovery WalApi Ring Publisher ProducerLock Bus BusSpec Subscriber PySubscription.

(** ** Timeouts *)

Definition NANOS_PER_SEC : Z := 1000000000.

(** [num / den] to the nearest integer, ties to even. *)
Definition round_half_even (num den : Z) : Z :=
  let q := num / den in
  match 2 * (num mod den) ?= den with
  | Lt => q
  | Gt => q + 1
  | Eq => if Z.even q then q else q + 1
  end.

(** [Duration::from_secs_f64], in nanoseconds; [None] is its panic: for a negative number, one that is not
    finite, or [2^64] seconds. *)
Definition from_secs_f64 (x : spec_float) : option Z :=
  match x with
  | S754_zero _ => Some 0
  | S754_infinity _ | S754_nan => None
  | S754_finite true _ _ => None
  | S754_finite false m e =>
      let ns := if 0 <=? e then Zpos m * 2 ^ e * NANOS_PER_SEC else round_half_even (Zpos m * NANOS_PER_SEC) (2 ^ (- e)) in
      if ns <? 2 ^ 64 * NANOS_PER_SEC then Some ns else None
  end.

(** [Instant::now() + timeout]: an [Instant] has signed 64-bit seconds; [None] is the panic on overflow. *)
Definition deadline (now timeout : Z) : option Z :=
  if now + timeout <? 2 ^ 63 * NANOS_PER_SEC then Some (now + timeout) else None.

(** What a call from Python comes to: a value, an exception, or a panic, which is no [Exception]. *)
Inductive py_result (RE A : Type) :=
  | Returned (a : A)
  | Raised (e : py_error RE)
  | PanicException.
Arguments Returned {RE A} a. Arguments Raised {RE A} e. Arguments PanicException {RE A}.

Definition py_return {RE A} (r : result (py_error RE) A) : py_result RE A :=
  match r with Ok a => Returned a | Err e => Raised e end.

(** A call with a timeout, which is converted first. *)
Definition with_timeout {RE S A} (timeout_secs : spec_float) (call : Z -> S -> S * py_result RE A) (s : S) : S * py_result RE A :=
  match from_secs_f64 timeout_secs with
  | None => (s, PanicException)
  | Some timeout => call timeout s
  end.

(** ** The constructor *)

Definition or_default {A} (d : A) (x : option A) : A := match x with Some a => a | None => d end.

Definition py_config (base_dir' : option string) (capacity' slot_size' max_subscribers' : option Z) (backpressure' : option string)
    (wal_enabled : option bool) : result string bus_config :=
  let defaults := bus_default in
  match (match backpressure' with
         | None => Ok (backpressure defaults)
         | Some s =>
             if bool_decide (s = "error") then Ok ErrorPolicy
             else if bool_decide (s = "drop_oldest") then Ok DropOldest
             else Err s
         end) with
  | Err other => Err other
  | Ok policy =>
      let wal := match wal_enabled with
                 | None => wal_cfg defaults
                 | Some true => let w := wal_cfg defaults in
                     WalConfig true (Config.policy w) (fsync_interval w) (fsync_batch_bytes w) (segment_size_max w) (retention_bytes w)
                 | Some false => disabled
                 end in
      Ok (BusConfig (or_default (slot_size defaults) slot_size') (or_default (bcapacity defaults) capacity')
            (or_default (base_dir defaults) base_dir') (or_default (bmax_subscribers defaults) max_subscribers') policy wal)
  end.

(** [PyBus::new]; the error is the [ValueError] of a policy that is neither of the two. *)
Definition py_new {W} (pid : nat) (name : string) (base_dir' : option string) (capacity' slot_size' max_subscribers' : option Z)
    (backpressure' : option string) (wal_enabled : option bool) : result string (Bus.bus (W := W)) :=
  match py_config base_dir' capacity' slot_size' max_subscribers' backpressure' wal_enabled with
  | Ok cfg => Ok (with_config name cfg pid)
  | Err other => Err other
  end.

(** ** The methods of the bus *)

Section methods.
Context {W D Ix R E : Type} `{!WalBackend W E} `{!TopicLog W E D} `{!ReplayBackend D Ix R E}.
Variables (per_process : bool) (clock : Z).

#[local] Notation be := (Bus.be (W := W) (D := D)).
#[local] Notation live := (Bus.live (W := W)).

Definition py_call {S A} (m : M S (error E) A) (s : S) : S * py_result E A :=
  let '(s, r) := m s in (s, py_return (map_err mmbus_err r)).

Definition py_publish (topic : string) (data : list byte) : be -> be * py_result E unit := py_call (Bus.publish per_process topic data).
Definition py_publish_many (topic : string) (items : list (list byte)) : be -> be * py_result E Z :=
  py_call (Bus.publish_many per_process topic items).

(** [topic]: the handle is the publisher. *)
Definition py_topic (name : string) : be -> be * py_result E live := py_call (take_publisher per_process name).

(** [wait_for_subscribers]: there is a publisher before the deadline is computed. *)
Definition py_wait (topic : string) (n : nat) (turns : list (list (result io_error client) * bool)) (timeout_secs : spec_float) :
    be -> be * py_result E unit :=
  with_timeout timeout_secs (fun timeout s =>
    match with_publisher per_process topic (ret tt) s with
    | (s, Err x) => (s, Raised (mmbus_err x))
    | (s, Ok _) =>
        match deadline clock timeout with
        | None => (s, PanicException)
        | Some _ => py_call (Bus.wait_for_subscribers per_process topic n turns) s
        end
    end).

Definition py_clean_topic (topic : string) : be -> be * py_result E unit := py_call (clean_topic per_process topic).

(** [stats] and [slow_subscribers] are those of [Bus.v].

    A subscription is made over what a subscriber of the topic sees of it; [attempts] are the outcomes of its
    calls before the deadline: opening the ring, the eventfd, the socket, the handshake, and what the rest of the
    system does until that has completed. *)
Record attempts := Attempts {
  a_open : list (bool * bool);
  a_efd : result io_error unit;
  a_sock : list (bool * bool);
  a_sent : result io_error unit;
  a_meanwhile : Subscriber.env D -> Subscriber.env D
}.

Definition connect_at (start : start_pos) (topic : string) (w : attempts) : M (Subscriber.env D) (error E) (subscriber R) :=
  connect_with topic start (a_open w) (a_efd w) (a_sock w) (a_sent w) (a_meanwhile w).

Definition subscribe_timeout : string -> attempts -> M (Subscriber.env D) (error E) (subscriber R) := connect_at Now.
Definition subscribe_with_history_timeout (topic : string) (n_messages_back : Z) : attempts -> M (Subscriber.env D) (error E) (subscriber R) :=
  connect_at (HistoryBack n_messages_back) topic.
Definition subscribe_from_timeout (topic : string) (cursor : Z) : attempts -> M (Subscriber.env D) (error E) (subscriber R) :=
  connect_at (Explicit cursor) topic.

Definition py_subscription_of (connect : M (Subscriber.env D) (error E) (subscriber R)) (timeout_secs : spec_float) :
    Subscriber.env D -> Subscriber.env D * py_result E py_subscription :=
  with_timeout timeout_secs (fun timeout e =>
    match deadline clock timeout with
    | None => (e, PanicException)
    | Some _ =>
        match connect e with
        | (e, Ok s) => (e, Returned (PySubscription (e, s) []))
        | (e, Err x) => (e, Raised (mmbus_err x))
        end
    end).

Definition py_subscribe (topic : string) (w : attempts) := py_subscription_of (subscribe_timeout topic w).
Definition py_subscribe_with_history (topic : string) (n_messages_back : Z) (w : attempts) :=
  py_subscription_of (subscribe_with_history_timeout topic n_messages_back w).
Definition py_subscribe_from (topic : string) (cursor : Z) (w : attempts) := py_subscription_of (subscribe_from_timeout topic cursor w).

(** ** The handle *)

Definition with_pub {A} (m : M (Publisher.st (W := W)) (error E) A) : M live (error E) A := fun l =>
  let '(s, r) := m (l_pub l) in (Live (l_lock l) (l_handle l) (l_files l) s, r).

Definition handle_publish (data : list byte) : live -> live * py_result E unit := py_call (with_pub (Publisher.publish data)).
Definition handle_publish_many (items : list (list byte)) : live -> live * py_result E Z := py_call (with_pub (Publisher.publish_many items)).

Definition handle_wait (n : nat) (turns : list (list (result io_error client) * bool)) (timeout_secs : spec_float) :
    live -> live * py_result E unit :=
  with_timeout timeout_secs (fun timeout l =>
    match deadline clock timeout with
    | None => (l, PanicException)
    | Some _ => py_call (with_pub (Publisher.wait_for_subscribers n turns)) l
    end).

(** [__exit__] keeps the publisher, and its lock; an exception goes on. *)
Definition handle_exit (l : live) : live * bool := (l, false).

(** ** A program

    One bus, and the handles taken from it, by topic; a handle goes when it is collected. *)
Inductive py_op :=
  | OPublish (t : string) (data : list byte)
  | OPublishMany (t : string) (items : list (list byte))
  | OWait (t : string) (n : nat) (turns : list (list (result io_error client) * bool)) (timeout_secs : spec_float)
  | OTopic (t : string)
  | OClean (t : string)
  | OHandlePublish (t : string) (data : list byte)
  | OHandlePublishMany (t : string) (items : list (list byte))
  | OHandleWait (t : string) (n : nat) (turns : list (list (result io_error client) * bool)) (timeout_secs : spec_float)
  | OHandleExit (t : string)
  | OHandleDrop (t : string).

#[local] Notation state := (BusSpec.state (W := W) (D := D)).

Definition no_value {A} (r : py_result E A) : py_result E Z :=
  match r with Returned _ => Returned 0 | Raised e => Raised e | PanicException => PanicException end.

Definition on_bus (m : be -> be * py_result E Z) (c : state) : state * py_result E Z :=
  let '((b, e), r) := m (s_bus c, s_env c) in (BusSpec.State b e (s_hand c), r).

Definition on_handle (t : string) (m : live -> live * py_result E Z) (c : state) : state * py_result E Z :=
  match s_hand c !! t with
  | Some l => let '(l, r) := m l in (BusSpec.State (s_bus c) (s_env c) (<[t := l]> (s_hand c)), r)
  | None => (c, Returned 0)
  end.

Definition py_step (o : py_op) (c : state) : state * py_result E Z :=
  match o with
  | OPublish t data => on_bus (fun s => let '(s, r) := py_publish t data s in (s, no_value r)) c
  | OPublishMany t items => on_bus (py_publish_many t items) c
  | OWait t n turns secs => on_bus (fun s => let '(s, r) := py_wait t n turns secs s in (s, no_value r)) c
  | OTopic t =>
      match py_topic t (s_bus c, s_env c) with
      | ((b, e), Returned l) => (BusSpec.State b e (<[t := l]> (s_hand c)), Returned 0)
      | ((b, e), Raised x) => (BusSpec.State b e (s_hand c), Raised x)
      | ((b, e), PanicException) => (BusSpec.State b e (s_hand c), PanicException)
      end
  | OClean t => on_bus (fun s => let '(s, r) := py_clean_topic t s in (s, no_value r)) c
  | OHandlePublish t data => on_handle t (fun l => let '(l, r) := handle_publish data l in (l, no_value r)) c
  | OHandlePublishMany t items => on_handle t (handle_publish_many items) c
  | OHandleWait t n turns secs => on_handle t (fun l => let '(l, r) := handle_wait n turns secs l in (l, no_value r)) c
  | OHandleExit t => on_handle t (fun l => let '(l, _) := handle_exit l in (l, Returned 0)) c
  | OHandleDrop t =>
      match s_hand c !! t with
      | Some l => (BusSpec.State (s_bus c) (drop_publisher (process (s_bus c)) (topic_dir (s_bus c) t) l (s_env c)) (delete t (s_hand c)), Returned 0)
      | None => (c, Returned 0)
      end
  end.

Fixpoint run_py (os : list py_op) (c : state) : state * list (py_op * py_result E Z) :=
  match os with
  | [] => (c, [])
  | o :: os => let '(c, r) := py_step o c in let '(c, rs) := run_py os c in (c, (o, r) :: rs)
  end.
End methods.

(** ** What a program does to the bus *)

Section program.
Context {W D Ix R E : Type} `{!WalBackend W E} `{!TopicLog W E D} `{!ReplayBackend D Ix R E}.
Variables (per_process : bool) (clock : Z).

#[local] Notation state := (BusSpec.state (W := W) (D := D)).
#[local] Notation py_step := (py_step (W := W) (D := D) (E := E) per_process clock).
#[local] Notation run_py := (run_py (W := W) (D := D) (E := E) per_process clock).
#[local] Notation bus_step := (bus_step (W := W) (D := D) (WE := E) per_process).
#[local] Notation run_action := (run_action (W := W) (WE := E)).

Definition py_topic_of (o : py_op) : string :=
  match o with
  | OPublish t _ | OPublishMany t _ | OWait t _ _ _ | OTopic t | OClean t
  | OHandlePublish t _ | OHandlePublishMany t _ | OHandleWait t _ _ _ | OHandleExit t | OHandleDrop t => t
  end.

(** Whether a timeout can be waited for. *)
Definition waits_until (secs : spec_float) : bool :=
  match from_secs_f64 secs with Some timeout => bool_decide (is_Some (deadline clock timeout)) | None => false end.

(** What a call comes to, for the bus and its publishers.  A wait whose deadline overflows has made the publisher. *)
Definition bus_op_of (o : py_op) : option bus_op :=
  match o with
  | OPublish t data => Some (BUse t (APublish data))
  | OPublishMany t items => Some (BUse t (APublishMany items))
  | OWait t n turns secs =>
      match from_secs_f64 secs with
      | None => None
      | Some timeout => Some (BUse t (AWait n (match deadline clock timeout with Some _ => turns | None => [] end)))
      end
  | OTopic t => Some (BTake t)
  | OClean t => Some (BClean t)
  | OHandlePublish t data => Some (BHold t (APublish data))
  | OHandlePublishMany t items => Some (BHold t (APublishMany items))
  | OHandleWait t n turns secs => if waits_until secs then Some (BHold t (AWait n turns)) else None
  | OHandleExit _ => None
  | OHandleDrop t => Some (BGiveBack t [])
  end.

(** Whether the call panics, unless it fails first. *)
Definition panics (o : py_op) : bool :=
  match o with OWait _ _ _ secs | OHandleWait _ _ _ secs => negb (waits_until secs) | _ => false end.

Lemma with_publisher_created {A B} t (m : M (Publisher.st (W := W)) (error E) A) (m' : M _ (error E) B) (s : Bus.be (W := W) (D := D)) :
  match with_publisher per_process t (ret tt) s with
  | (s', Err x) => with_publisher per_process t m s = (s', Err x)
  | (s', Ok _) => with_publisher per_process t m s = with_publisher per_process t m s'
      /\ (forall x, m' = fail x -> with_publisher per_process t m' s = (s', Err x))
  end.
Proof.
  destruct s as [b e]. unfold with_publisher. cbn [ret]. destruct (publishers b !! t) as [l|] eqn:Ep.
  - cbn [publishers with_publishers]. rewrite lookup_insert_eq. cbn [l_pub]. split.
    + destruct (m (l_pub l)). unfold with_publishers. cbn. by rewrite insert_insert_eq.
    + by intros x ->.
  - destruct (create_publisher_in _ _ _ _ _ e) as [e' [l|x]]; [|done]. cbn [publishers with_publishers]. rewrite lookup_insert_eq. cbn [l_pub]. split.
    + destruct (m (l_pub l)). unfold with_publishers. cbn. by rewrite insert_insert_eq.
    + by intros x ->.
Qed.

Definition value (r : result (error E) unit) : result (error E) Z := match r with Ok _ => Ok 0 | Err x => Err x end.

Lemma with_publisher_value t (m : M (Publisher.st (W := W)) (error E) unit) (s : Bus.be (W := W) (D := D)) :
  with_publisher per_process t (let! _ := m in ret 0) s = let '(s', r) := with_publisher per_process t m s in (s', value r).
Proof.
  assert (Hm : forall x, (let! _ := m in ret 0) x = let '(x', r) := m x in (x', value r)) by (intros x; unfold bind; by destruct (m x) as [x' []]).
  destruct s as [b e]. unfold with_publisher. destruct (publishers b !! t) as [l|]; [rewrite Hm; by destruct (m (l_pub l))|].
  destruct (create_publisher_in _ _ _ _ _ e) as [e' [l|x]]; [|done]. rewrite Hm. by destruct (m (l_pub l)).
Qed.

Lemma no_value_returns (r : result (error E) unit) : no_value (py_return (map_err mmbus_err r)) = py_return (map_err mmbus_err (value r)).
Proof. by destruct r. Qed.

(** Every call is an operation of the bus, or changes nothing; and gives its result, as an exception if it is
    an error. *)
Lemma py_step_bus o c :
  let '(c', r) := py_step o c in
  match bus_op_of o with
  | Some b => c' = (bus_step b c).1 /\ (panics o = false -> r = py_return (map_err mmbus_err (bus_step b c).2))
  | None => c' = c
  end.
Proof.
  destruct c as [b e hand]. destruct o as [t d|t its|t n turns secs|t|t|t d|t its|t n turns secs|t|t]; cbn [py_step bus_op_of panics bus_step].
  - unfold on_bus, py_publish, py_call, Bus.publish. cbn [BusSpec.run_action s_bus s_env s_hand]. rewrite with_publisher_value.
    destruct (with_publisher _ t _ _) as [[b' e'] r]. cbn. by rewrite no_value_returns.
  - unfold on_bus, py_publish_many, py_call, Bus.publish_many. cbn [BusSpec.run_action s_bus s_env s_hand].
    by destruct (with_publisher _ t _ _) as [[b' e'] r].
  - unfold on_bus, py_wait, with_timeout, waits_until. cbn [s_bus s_env s_hand]. destruct (from_secs_f64 secs) as [timeout|]; [|done].
    cbn [bus_step BusSpec.run_action s_bus s_env]. rewrite with_publisher_value.
    pose proof (with_publisher_created t (Publisher.wait_for_subscribers n turns) (Publisher.wait_for_subscribers n []) (b, e)) as Hc.
    destruct (deadline clock timeout) as [dl|].
    + destruct (with_publisher _ t (ret tt) _) as [[b1 e1] [[]|x]]; [destruct Hc as [-> _]|rewrite Hc; by cbn].
      unfold py_call, Bus.wait_for_subscribers. destruct (with_publisher _ t _ (b1, e1)) as [[b2 e2] r]. cbn. by rewrite no_value_returns.
    + pose proof (with_publisher_created t (Publisher.wait_for_subscribers n []) (ret tt) (b, e)) as Hn.
      destruct (with_publisher _ t (ret tt) _) as [[b1 e1] [[]|x]]; [by rewrite (proj2 Hc _ eq_refl)|by rewrite Hn].
  - unfold py_topic, py_call. cbn [s_bus s_env s_hand]. by destruct (take_publisher _ t _) as [[b' e'] [l|x]].
  - unfold on_bus, py_clean_topic, py_call. cbn [s_bus s_env s_hand]. by destruct (clean_topic _ t _) as [[b' e'] [[]|x]].
  - unfold on_handle. cbn [s_hand s_bus s_env BusSpec.run_action]. destruct (hand !! t) as [l|]; [|done].
    unfold handle_publish, py_call, with_pub, bind. by destruct (Publisher.publish d (l_pub l)) as [s [[]|x]].
  - unfold on_handle. cbn [s_hand s_bus s_env BusSpec.run_action]. destruct (hand !! t) as [l|]; [|done].
    unfold handle_publish_many, py_call, with_pub. by destruct (Publisher.publish_many its (l_pub l)) as [s r].
  - unfold on_handle, waits_until, handle_wait, with_timeout. cbn [s_hand s_bus s_env].
    destruct (from_secs_f64 secs) as [timeout|]; [destruct (deadline clock timeout) as [dl|]|]; cbn [negb bool_decide].
    + rewrite bool_decide_true by by eexists. cbn [bus_step BusSpec.run_action s_hand s_bus s_env]. destruct (hand !! t) as [l|]; [|done].
      unfold py_call, with_pub, bind. by destruct (Publisher.wait_for_subscribers n turns (l_pub l)) as [s [[]|x]].
    + rewrite bool_decide_false by by intros []. destruct (hand !! t) as [l|] eqn:Eh; [|done]. by rewrite insert_id.
    + destruct (hand !! t) as [l|] eqn:Eh; [|done]. by rewrite insert_id.
  - unfold on_handle. cbn [s_hand s_bus s_env]. destruct (hand !! t) as [l|] eqn:Eh; [|done]. cbn. by rewrite insert_id.
  - cbn [s_hand s_bus s_env foldl]. by destruct (hand !! t) as [[]|].
Qed.

Lemma bus_op_topic o b : bus_op_of o = Some b -> topic_of b = py_topic_of o.
Proof. destruct o; cbn; try (by intros [= <-]); [by destruct (from_secs_f64 _); [intros [= <-]|]|by destruct (waits_until _); [intros [= <-]|]]. Qed.

Lemma py_step_ok o c : ok c -> simple (py_topic_of o) -> ok (py_step o c).1.
Proof.
  intros Hok Hs. pose proof (py_step_bus o c) as Hp. destruct (py_step o c) as [c' r]. cbn [fst].
  destruct (bus_op_of o) as [b|] eqn:Eb; [|by subst]. destruct Hp as [-> _]. rewrite <- (bus_op_topic o b Eb) in Hs.
  pose proof (step_refines per_process b c Hok Hs) as Hr. unfold refines in Hr. by destruct (bus_step b c); destruct Hr.
Qed.

(** ** Who publishes on a topic *)

Lemma run_py_ok os c : ok c -> Forall (fun o => simple (py_topic_of o)) os -> ok (run_py os c).1.
Proof.
  intros Hok Hos. revert c Hok. induction Hos as [|o os Ho _ IH]; intros c Hok; [done|]. cbn [PyBus.run_py].
  pose proof (py_step_ok o c Hok Ho) as Hok1. destruct (py_step o c) as [c1 r]. specialize (IH c1 Hok1). by destruct (run_py os c1).
Qed.

(** Calls on the bus itself, as opposed to a handle. *)
Definition by_bus (o : py_op) : bool := match o with OPublish _ _ | OPublishMany _ _ | OWait _ _ _ _ | OTopic _ | OClean _ => true | _ => false end.

(** What a call on the handle of [t] does with its publisher. *)
Definition handle_act (t : string) (o : py_op) : option action :=
  match bus_op_of o with Some (BHold t' a) => if decide (t' = t) then Some a else None | _ => None end.

Definition handled (t : string) (s : Publisher.st (W := W)) (o : py_op) : Publisher.st (W := W) :=
  match handle_act t o with Some a => (run_action a s).1 | None => s end.

(** The bus is refused, unless the timeout is no duration. *)
Definition refusal (o : py_op) : py_result E Z :=
  match o with
  | OWait _ _ _ secs => match from_secs_f64 secs with None => PanicException | Some _ => Raised (AlreadyPublishingError (py_topic_of o)) end
  | _ => Raised (AlreadyPublishingError (py_topic_of o))
  end.

(** A topic whose publisher is in hand. *)
Lemma cell_held now cfg b (k : cell (W := W) (D := D)) s f :
  c_hand k = Some s -> c_bus k = None -> c_files k = Some f -> (forall t acts, b <> BGiveBack t acts) ->
  let '(k', r) := cell_step now cfg b k in
  c_hand k' = Some (match b with BHold _ a => (run_action a s).1 | _ => s end)
  /\ match b with BHold _ _ => True | _ => r = Err (AlreadyPublishing (topic_of b)) end.
Proof.
  intros Eh Eb Ef Hb. destruct b as [t a|t|t a|t acts|t]; unfold cell_step, cell_create; rewrite ?Eb, ?Eh, ?Ef; try done.
  - by destruct (run_action a s).
  - by destruct (Hb t acts).
Qed.

Lemma held_bus t b c l :
  ok c -> s_hand c !! t = Some l -> simple (topic_of b) -> (forall acts, b <> BGiveBack t acts) ->
  let '(c', r) := bus_step b c in
  (exists l', s_hand c' !! t = Some l'
     /\ l_pub l' = match b with BHold t' a => if decide (t' = t) then (run_action a (l_pub l)).1 else l_pub l | _ => l_pub l end)
  /\ (topic_of b = t -> match b with BHold _ _ => True | _ => r = Err (AlreadyPublishing t) end).
Proof.
  intros Hok Hl Hs Hb.
  assert (Ep : publishers (s_bus c) !! t = None).
  { destruct (publishers (s_bus c) !! t) as [l0|] eqn:Ep; [|done]. pose proof (ok_one _ Hok t l0 Ep) as En. by rewrite Hl in En. }
  destruct (ok_dirs _ Hok t (l_lock l) (l_handle l) (l_files l)) as (f & Ef & _); [unfold held; by rewrite Ep, Hl|].
  pose proof (step_refines per_process b c Hok Hs) as Hr. unfold refines in Hr. destruct (bus_step b c) as [c' r].
  destruct Hr as (_ & _ & Hcell & Hview).
  assert (Hpub : forall s, c_hand (view t c') = Some s -> exists l', s_hand c' !! t = Some l' /\ l_pub l' = s).
  { intros s E0. unfold view in E0. cbn [c_hand] in E0. destruct (s_hand c' !! t) as [l'|]; [|done]. exists l'. cbn in E0. by injection E0. }
  destruct (decide (topic_of b = t)) as [<-|Hn].
  - pose proof (cell_held (now (s_env c)) (config (s_bus c)) b (view (topic_of b) c) (l_pub l) (files_view f)) as Hc. rewrite Hcell in Hc.
    destruct Hc as [Hh He]; [by cbn; rewrite Hl|by cbn; rewrite Ep|by cbn; rewrite Ef|intros t acts ->; by apply (Hb acts)|].
    split; [|by intros _]. apply Hpub. rewrite Hh. destruct b; cbn [topic_of]; try done. by rewrite decide_True.
  - split; [|done]. apply Hpub. rewrite (Hview t) by done. cbn. rewrite Hl. destruct b as [| |t' a| |]; try done. cbn in Hn |- *. by rewrite decide_False.
Qed.

Lemma wait_refused t n turns secs c : (forall turns, (bus_step (BUse t (AWait n turns)) c).2 = Err (AlreadyPublishing t)) ->
  (py_step (OWait t n turns secs) c).2 = refusal (OWait t n turns secs).
Proof.
  intros Hr. specialize (Hr []). cbn [BusSpec.bus_step BusSpec.run_action] in Hr. rewrite with_publisher_value in Hr.
  pose proof (with_publisher_created t (Publisher.wait_for_subscribers n []) (Publisher.wait_for_subscribers n []) (s_bus c, s_env c)) as Hc.
  cbn [PyBus.py_step refusal py_topic_of]. unfold on_bus, py_wait, with_timeout. destruct (from_secs_f64 secs) as [timeout|]; [|done].
  destruct (with_publisher _ t (ret tt) _) as [[b1 e1] [[]|x]].
  - destruct Hc as [_ Hc]. rewrite (Hc _ eq_refl) in Hr. by cbn in Hr.
  - rewrite Hc in Hr. cbn in Hr |- *. by injection Hr as ->.
Qed.

Lemma held_step t o c l :
  ok c -> s_hand c !! t = Some l -> simple (py_topic_of o) -> o <> OHandleDrop t ->
  let '(c', r) := py_step o c in
  ok c' /\ (exists l', s_hand c' !! t = Some l' /\ l_pub l' = handled t (l_pub l) o)
  /\ (py_topic_of o = t -> by_bus o = true -> r = refusal o).
Proof.
  intros Hok Hl Hs Hd. pose proof (py_step_bus o c) as Hp. pose proof (py_step_ok o c Hok Hs) as Hok'.
  assert (Hgive : forall b acts, bus_op_of o = Some b -> b <> BGiveBack t acts).
  { intros b acts Eb ->. destruct o; cbn in Eb; try done; [by destruct (from_secs_f64 _)|by destruct (waits_until _)|]. injection Eb as -> _. done. }
  assert (Hwait : forall n turns secs, o = OWait t n turns secs -> (py_step o c).2 = refusal o).
  { intros n turns secs ->. apply wait_refused. intros turns'.
    pose proof (held_bus t (BUse t (AWait n turns')) c l Hok Hl Hs) as Hb. destruct (bus_step _ c). by apply Hb. }
  destruct (py_step o c) as [c' r] eqn:Es. cbn [fst snd] in *. split; [done|]. unfold handled, handle_act.
  destruct (bus_op_of o) as [b|] eqn:Eb.
  - destruct Hp as [-> Hr]. pose proof (bus_op_topic o b Eb) as Et. rewrite <- Et in Hs.
    pose proof (held_bus t b c l Hok Hl Hs) as Hb. destruct (bus_step b c) as [c1 r1]. destruct Hb as [Hh He]; [intros acts; by apply Hgive|].
    split.
    + destruct Hh as (l' & E1 & E2). exists l'. split; [done|]. rewrite E2. destruct b as [| |t' a| |]; try done. by destruct (decide (t' = t)).
    + intros <- Hby. specialize (He Et). destruct o; try done; cbn in Eb; try (injection Eb as <-; rewrite He in Hr; by rewrite Hr). by eapply Hwait.
  - subst c'. split; [by exists l|]. intros <- Hby. destruct o; try done. by eapply Hwait.
Qed.

Lemma held_run t os c l :
  ok c -> s_hand c !! t = Some l -> Forall (fun o => simple (py_topic_of o) /\ o <> OHandleDrop t) os ->
  let '(c', rs) := run_py os c in
  ok c' /\ (exists l', s_hand c' !! t = Some l' /\ l_pub l' = foldl (handled t) (l_pub l) os)
  /\ Forall (fun x => py_topic_of x.1 = t -> by_bus x.1 = true -> x.2 = refusal x.1) rs.
Proof.
  intros Hok Hl Hos. revert c l Hok Hl. induction Hos as [|o os [Ho Hd] _ IH]; intros c l Hok Hl; [split; [done|]; split; [by exists l|constructor]|].
  cbn [PyBus.run_py foldl]. pose proof (held_step t o c l Hok Hl Ho Hd) as H1. destruct (py_step o c) as [c1 r].
  destruct H1 as (Hok1 & (l1 & Hl1 & E1) & Hr). specialize (IH c1 l1 Hok1 Hl1). destruct (run_py os c1) as [c' rs].
  destruct IH as (Hok' & Hh & Hrs). split; [done|]. split; [by rewrite <- E1|]. by constructor.
Qed.

(** Once the handle is gone the topic is free. *)
Lemma dropped_is_free t c l t' : ok c -> s_hand c !! t = Some l -> simple t ->
  (py_step (OTopic t) (py_step (OHandleDrop t) c).1).2 <> Raised (AlreadyPublishingError t').
Proof.
  intros Hok Hl Hs. pose proof (py_step_ok (OHandleDrop t) c Hok Hs) as Hok3.
  assert (Eh : s_hand (py_step (OHandleDrop t) c).1 !! t = None) by (cbn [PyBus.py_step]; rewrite Hl; cbn; by rewrite lookup_delete_eq).
  assert (Ep : publishers (s_bus (py_step (OHandleDrop t) c).1) !! t = None).
  { cbn [PyBus.py_step]. rewrite Hl. cbn. destruct (publishers (s_bus c) !! t) as [l0|] eqn:Ep; [|done].
    pose proof (ok_one _ Hok t l0 Ep) as En. by rewrite Hl in En. }
  generalize dependent ((py_step (OHandleDrop t) c).1). intros c3 Hok3 Eh Ep.
  pose proof (py_step_bus (OTopic t) c3) as Hp. destruct (py_step (OTopic t) c3) as [c4 r]. cbn [bus_op_of panics snd] in *.
  destruct Hp as [_ ->]; [|done]. pose proof (step_refines per_process (BTake t) c3 Hok3 Hs) as Hr. unfold refines in Hr.
  destruct (bus_step (BTake t) c3) as [c5 r1]. destruct Hr as (_ & _ & Hcell & _). unfold cell_step, cell_create in Hcell. cbn [topic_of snd] in *.
  assert (c_bus (view t c3) = None) as E1 by (cbn; by rewrite Ep). assert (c_hand (view t c3) = None) as E2 by (cbn; by rewrite Eh).
  rewrite E1, E2 in Hcell. destruct (enabled _); [destruct (tl_open _ _ _) as [d [w|x]]|]; apply (f_equal snd) in Hcell; cbn [snd] in Hcell; subst r1; try done.
  cbn. by destruct (rb_too_old x) as [[]|].
Qed.

(** C17: a handle has its topic to itself.  After any calls on a bus, once [topic] has given a handle out,
    every call of the bus that would publish on that topic, take it or clean it raises
    [AlreadyPublishingError] (or panics on a timeout that is none), and none of them, nor anything done on other topics, touches the
    handle's publisher, which is what its own calls have made of it: until the handle is dropped, and then
    the topic can be taken again. *)
Theorem handle_is_exclusive name cfg pid e t before after :
  in_process (locks e) = ∅ -> flocked (locks e) = ∅ -> files_ok (dirent (locks e)) (next_ino (locks e)) ->
  Forall (fun o => simple (py_topic_of o)) before -> simple t ->
  Forall (fun o => simple (py_topic_of o) /\ o <> OHandleDrop t) after ->
  let c0 := (run_py before (BusSpec.State (with_config name cfg pid) e ∅)).1 in
  let '(c1, r) := py_step (OTopic t) c0 in
  r = Returned 0 ->
  let '(c2, rs) := run_py after c1 in
  exists l l', s_hand c1 !! t = Some l /\ s_hand c2 !! t = Some l'
    /\ l_pub l' = foldl (handled t) (l_pub l) after
    /\ Forall (fun x => py_topic_of x.1 = t -> by_bus x.1 = true -> x.2 = refusal x.1) rs
    /\ forall t', (py_step (OTopic t) (py_step (OHandleDrop t) c2).1).2 <> Raised (AlreadyPublishingError t').
Proof.
  intros Hset Hfl Hf Hbefore Ht Hafter c0. pose proof (run_py_ok before _ (fresh_ok name cfg pid e Hset Hfl Hf) Hbefore) as Hok0. fold c0 in Hok0.
  pose proof (py_step_ok (OTopic t) c0 Hok0 Ht) as Hok1.
  assert (Hhand : (py_step (OTopic t) c0).2 = Returned 0 -> exists l, s_hand (py_step (OTopic t) c0).1 !! t = Some l).
  { cbn [PyBus.py_step]. destruct (py_topic _ t _) as [[b1 e1] [l|x|]]; cbn; try done. intros _. exists l. by rewrite lookup_insert_eq. }
  destruct (py_step (OTopic t) c0) as [c1 r]. cbn [fst snd] in *. intros Hr. destruct (Hhand Hr) as [l Hl].
  pose proof (held_run t after c1 l Hok1 Hl Hafter) as Hrun. destruct (run_py after c1) as [c2 rs].
  destruct Hrun as (Hok2 & (l' & Hl' & E') & Hrs). exists l, l'. split; [done|]. split; [done|]. split; [done|]. split; [done|].
  intros t'. by apply (dropped_is_free t c2 l').
Qed.
End program.

(** ** Timeouts *)

Lemma round_half_even_close num den : 0 <= num -> 0 < den -> 0 <= round_half_even num den /\ 2 * Z.abs (round_half_even num den * den - num) <= den.
Proof.
  intros Hn Hd. unfold round_half_even. pose proof (Z.div_mod num den) as E. pose proof (Z.mod_pos_bound num den Hd) as Hm.
  pose proof (Z.div_pos num den Hn Hd) as Hq. destruct (Z.compare_spec (2 * (num mod den)) den); [destruct (Z.even _)| |]; split; try lia.
Qed.

(** A timeout that is one is the number of seconds to half a nanosecond; [m * 2 ^ e] is the number. *)
Lemma from_secs_f64_close m e ns : from_secs_f64 (S754_finite false m e) = Some ns ->
  0 <= ns < 2 ^ 64 * NANOS_PER_SEC
  /\ (0 <= e -> ns = Zpos m * 2 ^ e * NANOS_PER_SEC)
  /\ (e < 0 -> 2 * Z.abs (ns * 2 ^ (- e) - Zpos m * NANOS_PER_SEC) <= 2 ^ (- e)).
Proof.
  unfold from_secs_f64. destruct (Z.leb_spec 0 e) as [He|He].
  - destruct (Z.ltb_spec (Zpos m * 2 ^ e * NANOS_PER_SEC) (2 ^ 64 * NANOS_PER_SEC)); [|done]. intros [= <-].
    assert (0 < 2 ^ e) by (apply Z.pow_pos_nonneg; lia). unfold NANOS_PER_SEC in *. split; [nia|]. split; [done|lia].
  - destruct (round_half_even_close (Zpos m * NANOS_PER_SEC) (2 ^ (- e))) as [H0 Hc]; [unfold NANOS_PER_SEC; lia|apply Z.pow_pos_nonneg; lia|].
    destruct (Z.ltb_spec (round_half_even (Zpos m * NANOS_PER_SEC) (2 ^ (- e))) (2 ^ 64 * NANOS_PER_SEC)); [|done]. intros [= <-].
    split; [done|]. split; [lia|done].
Qed.

(** A tenth of a second, as the nearest double, is a tenth of a second. *)
Definition tenth : spec_float := S754_finite false 7205759403792794 (-56).
Example tenth_of_a_second : from_secs_f64 tenth = Some 100000000.
Proof. vm_compute. reflexivity. Qed.

(** A negative timeout, or an infinite one, is a panic before anything has been tried. *)
Example no_timeout_panics :
  from_secs_f64 (S754_finite true 1 (-10)) = None /\ from_secs_f64 (S754_infinity false) = None.
Proof. done. Qed.

(** ** At a concrete bus *)

Section demo.
#[local] Existing Instance sum_crc.

#[local] Notation run_py := (run_py (W := WalV1.st) (D := disk) (E := wal_error) false 0).
#[local] Notation py_step := (py_step (W := WalV1.st) (D := disk) (E := wal_error) false 0).

Definition demo_before : list py_op := [OPublish "x" [Byte.x61]; OPublish "y" [Byte.x61]].
Definition demo_after : list py_op :=
  [OPublish "x" [Byte.x62]; OHandlePublish "x" [Byte.x63]; OHandleExit "x"; OWait "x" 0 [] tenth; OPublish "y" [Byte.x64];
   OWait "x" 0 [] S754_nan; OHandlePublish "x" [Byte.x65]; OTopic "x"; OClean "x"].

(** Leaving the handle's [with] block does not give the topic back. *)
Lemma handle_is_exclusive_witness :
  let c0 := (run_py demo_before (BusSpec.State (with_config "bus" demo_bus 1) BusSpec.idle_env ∅)).1 in
  let '(c1, r) := py_step (OTopic "x") c0 in
  let '(c2, rs) := run_py demo_after c1 in
  map snd rs = [Raised (AlreadyPublishingError "x"); Returned 0; Returned 0; Raised (AlreadyPublishingError "x"); Returned 0;
                PanicException; Returned 0; Raised (AlreadyPublishingError "x"); Raised (AlreadyPublishingError "x")]
  /\ exists l l', s_hand c1 !! "x" = Some l /\ s_hand c2 !! "x" = Some l' /\ l_pub l' = foldl (handled (E := wal_error) 0 "x") (l_pub l) demo_after.
Proof.
  assert (Hf : files_ok (dirent (locks BusSpec.idle_env)) (next_ino (locks BusSpec.idle_env))).
  { split; cbn; intros *; rewrite lookup_empty; discriminate. }
  assert (Hx : simple "x") by (split; vm_compute; reflexivity). assert (Hy : simple "y") by (split; vm_compute; reflexivity).
  assert (Hb : Forall (fun o => simple (py_topic_of o)) demo_before).
  { repeat (apply Forall_cons; split; [first [exact Hx|exact Hy]|]). apply Forall_nil. exact I. }
  assert (Ha : Forall (fun o => simple (py_topic_of o) /\ o <> OHandleDrop "x") demo_after).
  { repeat (apply Forall_cons; split; [split; [first [exact Hx|exact Hy]|discriminate]|]). apply Forall_nil. exact I. }
  pose proof (handle_is_exclusive (W := WalV1.st) (D := disk) (E := wal_error) false 0 "bus" demo_bus 1 BusSpec.idle_env "x" demo_before demo_after eq_refl eq_refl Hf Hb Hx Ha) as He.
  cbv zeta in *.
  set (c0 := (run_py demo_before _).1) in *.
  assert (Hr : (py_step (OTopic "x") c0).2 = Returned 0) by (vm_compute; reflexivity).
  assert (Hrs : map snd (run_py demo_after (py_step (OTopic "x") c0).1).2
     = [Raised (AlreadyPublishingError "x"); Returned 0; Returned 0; Raised (AlreadyPublishingError "x"); Returned 0;
        PanicException; Returned 0; Raised (AlreadyPublishingError "x"); Raised (AlreadyPublishingError "x")]) by (vm_compute; reflexivity).
  destruct (py_step (OTopic "x") c0) as [c1 r]. cbn [fst snd] in Hr, Hrs. specialize (He Hr).
  destruct (run_py demo_after c1) as [c2 rs]. split; [exact Hrs|].
  destruct He as (l & l' & H1 & H2 & H3 & _). exists l, l'. split; [exact H1|]. split; [exact H2|exact H3].
Defined.
End demo.
