(* ===== verification/Text.v ===== *)
(** * Strings

    A Rust string as the list of its characters' code points, and the standard library's functions on
    strings that the configuration, the bridge and the exporter use. *)

From Stdlib Require Import ZArith Lia Strings.Byte Strings.Ascii.
From stdpp Require Import base option strings list.
From S2P Require Import Prelude.

Definition rstring : Type := list Z.

(** A string literal. *)
Definition str (s : string) : rstring := map (fun c => Z.of_nat (nat_of_ascii c)) (String.list_ascii_of_string s).

(** [char::is_whitespace]: the characters with the property [White_Space]. *)
Definition is_whitespace (c : Z) : bool :=
  ((9 <=? c) && (c <=? 13)) || (c =? 32) || (c =? 0x85) || (c =? 0xA0) || (c =? 0x1680)
  || ((0x2000 <=? c) && (c <=? 0x200A)) || (c =? 0x2028) || (c =? 0x2029) || (c =? 0x202F) || (c =? 0x205F) || (c =? 0x3000).

(** [str::strip_prefix] *)
Fixpoint strip_prefix (p s : rstring) : option rstring :=
  match p, s with
  | [], _ => Some s
  | x :: p, y :: s => if x =? y then strip_prefix p s else None
  | _ :: _, [] => None
  end.

Lemma strip_prefix_spec p s rest : strip_prefix p s = Some rest <-> s = p ++ rest.
Proof.
  revert s. induction p as [|x p IH]; intros s; cbn; [naive_solver|]. destruct s as [|y s]; [naive_solver|].
  destruct (Z.eqb_spec x y) as [->|Hne]; [rewrite IH; naive_solver|]. split; [done|]. by intros [= -> _].
Qed.

(** ** UTF-8 *)

Definition cont_byte (b : byte) : bool := (0x80 <=? byte_to_Z b) && (byte_to_Z b <=? 0xBF).
Definition in_range (lo hi : Z) (b : byte) : bool := (lo <=? byte_to_Z b) && (byte_to_Z b <=? hi).

(** [std::str::from_utf8(..).is_ok()] *)
Fixpoint utf8_valid (bs : list byte) : bool :=
  match bs with
  | [] => true
  | b0 :: r0 =>
      if in_range 0 0x7F b0 then utf8_valid r0
      else match r0 with
      | [] => false
      | b1 :: r1 =>
          if in_range 0xC2 0xDF b0 then cont_byte b1 && utf8_valid r1
          else match r1 with
          | [] => false
          | b2 :: r2 =>
              if in_range 0xE0 0xE0 b0 then in_range 0xA0 0xBF b1 && cont_byte b2 && utf8_valid r2
              else if in_range 0xE1 0xEC b0 || in_range 0xEE 0xEF b0 then cont_byte b1 && cont_byte b2 && utf8_valid r2
              else if in_range 0xED 0xED b0 then in_range 0x80 0x9F b1 && cont_byte b2 && utf8_valid r2
              else match r2 with
              | [] => false
              | b3 :: r3 =>
                  if in_range 0xF0 0xF0 b0 then in_range 0x90 0xBF b1 && cont_byte b2 && cont_byte b3 && utf8_valid r3
                  else if in_range 0xF1 0xF3 b0 then cont_byte b1 && cont_byte b2 && cont_byte b3 && utf8_valid r3
                  else if in_range 0xF4 0xF4 b0 then in_range 0x80 0x8F b1 && cont_byte b2 && cont_byte b3 && utf8_valid r3
                  else false
              end
          end
      end
  end.

(** [char::encode_utf8] *)
Definition utf8_char (c : Z) : list byte :=
  if c <? 0x80 then [byte_of_Z c]
  else if c <? 0x800 then [byte_of_Z (0xC0 + c / 64); byte_of_Z (0x80 + c mod 64)]
  else if c <? 0x10000 then [byte_of_Z (0xE0 + c / 4096); byte_of_Z (0x80 + c / 64 mod 64); byte_of_Z (0x80 + c mod 64)]
  else [byte_of_Z (0xF0 + c / 262144); byte_of_Z (0x80 + c / 4096 mod 64); byte_of_Z (0x80 + c / 64 mod 64); byte_of_Z (0x80 + c mod 64)].

(** [String::as_bytes] *)
Definition as_bytes (s : rstring) : list byte := concat (map utf8_char s).

(** A Unicode scalar value: what a [char] can be. *)
Definition scalar (c : Z) : Prop := 0 <= c < 0xD800 \/ 0xE000 <= c < 0x110000.

Lemma in_range_of_Z lo hi z : 0 <= z < 256 -> in_range lo hi (byte_of_Z z) = (lo <=? z) && (z <=? hi).
Proof. intros Hz. unfold in_range. rewrite byte_to_of_Z, Z.mod_small by done. done. Qed.

Lemma cont_of_Z z : 0 <= z < 64 -> cont_byte (byte_of_Z (0x80 + z)) = true.
Proof. intros Hz. change cont_byte with (in_range 0x80 0xBF). rewrite in_range_of_Z by lia. zbool. Qed.

(** Decides the range tests on bytes whose values are known up to [lia]. *)
Ltac ranges :=
  cbn [utf8_valid app]; rewrite ?cont_of_Z, ?in_range_of_Z by lia;
  repeat match goal with
         | |- context [?a <=? ?b] => first [ rewrite (proj2 (Z.leb_le a b)) by lia | rewrite (proj2 (Z.leb_gt a b)) by lia | destruct (Z.leb_spec a b) ]
         end; cbn [andb orb]; try reflexivity; try lia.

Lemma utf8_2 a b rest : 2 <= a < 32 -> 0 <= b < 64 ->
  utf8_valid ([byte_of_Z (0xC0 + a); byte_of_Z (0x80 + b)] ++ rest) = utf8_valid rest.
Proof. intros Ha Hb. ranges. Qed.

Lemma utf8_3 a b d rest : 0 <= a < 16 -> 0 <= b < 64 -> 0 <= d < 64 -> (a = 0 -> 32 <= b) -> (a = 13 -> b < 32) ->
  utf8_valid ([byte_of_Z (0xE0 + a); byte_of_Z (0x80 + b); byte_of_Z (0x80 + d)] ++ rest) = utf8_valid rest.
Proof. intros Ha Hb Hd H0 H13. ranges. Qed.

Lemma utf8_4 a b d e rest : 0 <= a < 5 -> 0 <= b < 64 -> 0 <= d < 64 -> 0 <= e < 64 -> (a = 0 -> 16 <= b) -> (a = 4 -> b < 16) ->
  utf8_valid ([byte_of_Z (0xF0 + a); byte_of_Z (0x80 + b); byte_of_Z (0x80 + d); byte_of_Z (0x80 + e)] ++ rest) = utf8_valid rest.
Proof. intros Ha Hb Hd He H0 H4. ranges. Qed.

Lemma utf8_char_valid c rest : scalar c -> utf8_valid (utf8_char c ++ rest) = utf8_valid rest.
Proof.
  intros Hc. unfold utf8_char, scalar in *.
  assert (Hd : forall z, 0 <= z -> z = 64 * (z / 64) + z mod 64 /\ 0 <= z mod 64 < 64).
  { intros z Hz. split; [apply Z.div_mod; lia|apply Z.mod_pos_bound; lia]. }
  replace (c / 4096) with (c / 64 / 64) by (rewrite Z.div_div by lia; done).
  replace (c / 262144) with (c / 64 / 64 / 64) by (rewrite !Z.div_div by lia; done).
  destruct (Hd c ltac:(lia)) as [E0 B0]. destruct (Hd (c / 64) ltac:(lia)) as [E1 B1].
  destruct (Hd (c / 64 / 64) ltac:(lia)) as [E2 B2]. clear Hd.
  destruct (Z.ltb_spec c 0x80); [|destruct (Z.ltb_spec c 0x800); [|destruct (Z.ltb_spec c 0x10000)]].
  - ranges.
  - apply utf8_2; lia.
  - apply utf8_3; lia.
  - apply utf8_4; lia.
Qed.

(** The bytes of a Rust string are valid UTF-8. *)
Lemma utf8_as_bytes s : Forall scalar s -> utf8_valid (as_bytes s) = true.
Proof.
  induction 1 as [|c s Hc _ IH]; [done|]. unfold as_bytes in *. cbn [map concat]. by rewrite utf8_char_valid.
Qed.

(** ** Decimal numbers *)

Definition digit (d : Z) : Z := 48 + d.
Definition is_digit (c : Z) : bool := (48 <=? c) && (c <=? 57).

Fixpoint dec_digits (fuel : nat) (n : Z) (acc : rstring) : rstring :=
  match fuel with
  | O => acc
  | S fuel => if n <? 10 then digit n :: acc else dec_digits fuel (n / 10) (digit (n mod 10) :: acc)
  end.

(** [format!("{n}")]; 20 digits are enough for 64 bits. *)
Definition dec (n : Z) : rstring := dec_digits 20 n [].

(** Reading a number back. *)
Definition undec (s : rstring) : Z := foldl (fun v c => 10 * v + (c - 48)) 0 s.

Lemma foldl_undec s v : foldl (fun v c => 10 * v + (c - 48)) v s = 10 ^ zlen s * v + undec s.
Proof.
  revert v. induction s as [|c s IH]; intros v; unfold undec; cbn [foldl]; [rewrite zlen_nil; lia|].
  rewrite !IH, zlen_cons. pose proof (zlen_nonneg s). rewrite Z.pow_add_r by lia. change (10 ^ 1) with 10. lia.
Qed.

Lemma dec_digits_spec fuel n acc : 0 <= n < 10 ^ Z.of_nat fuel -> forallb is_digit acc = true ->
  forallb is_digit (dec_digits fuel n acc) = true /\ undec (dec_digits fuel n acc) = n * 10 ^ zlen acc + undec acc.
Proof.
  revert n acc. induction fuel as [|fuel IH]; intros n acc Hn Ha; cbn [dec_digits].
  - change (10 ^ Z.of_nat 0) with 1 in Hn. split; [done|]. replace n with 0 by lia. lia.
  - rewrite Nat2Z.inj_succ, Z.pow_succ_r in Hn by lia.
    assert (Hstep : forall d, 0 <= d < 10 -> forallb is_digit (digit d :: acc) = true /\ undec (digit d :: acc) = d * 10 ^ zlen acc + undec acc).
    { intros d Hd. split.
      - cbn [forallb]. rewrite Ha. unfold is_digit, digit. rewrite (proj2 (Z.leb_le _ _)), (proj2 (Z.leb_le _ _)) by lia. done.
      - unfold undec. cbn [foldl]. rewrite foldl_undec. unfold digit. fold (undec acc). lia. }
    destruct (Z.ltb_spec n 10); [apply Hstep; lia|].
    destruct (Hstep (n mod 10)) as [Hd Hu]; [apply Z.mod_pos_bound; lia|].
    destruct (IH (n / 10) (digit (n mod 10) :: acc)) as [H1 H2]; [|done|].
    { split; [apply Z.div_pos; lia|]. apply Z.div_lt_upper_bound; lia. }
    split; [done|]. rewrite H2, Hu, zlen_cons. pose proof (zlen_nonneg acc). rewrite Z.pow_add_r by lia. change (10 ^ 1) with 10.
    replace (n * 10 ^ zlen acc) with ((10 * (n / 10) + n mod 10) * 10 ^ zlen acc) by (rewrite <- Z.div_mod by lia; done). ring.
Qed.

Lemma dec_spec n : is_u64 n -> forallb is_digit (dec n) = true /\ undec (dec n) = n.
Proof.
  intros Hn. destruct (dec_digits_spec 20 n []) as [H1 H2]; [|done|].
  { change (10 ^ Z.of_nat 20) with 100000000000000000000. ulia. }
  split; [done|]. unfold dec. rewrite H2, zlen_nil. change (undec []) with 0. lia.
Qed.
