(* ===== verification/Prometheus.v ===== *)
(** * The Prometheus exporter ([crates/mmbus/src/prometheus.rs])

    The text rendering of a topic's counters, a reader of that format, the answer to a request and the accept loop. *)

From Stdlib Require Import ZArith Lia.
From stdpp Require Import base option strings list.
From S2P Require Import Prelude Text Ring Stats.

(** ** Rendering *)

Definition NEWLINE : Z := 10.
Definition QUOTE : Z := 34.
Definition BACKSLASH : Z := 92.
Definition UNDERSCORE : Z := 95.
Definition BRACE : Z := 123.
Definition HASH : Z := 35.

Definition escape_char (c : Z) : rstring :=
  if c =? BACKSLASH then [BACKSLASH; BACKSLASH]
  else if c =? QUOTE then [BACKSLASH; QUOTE]
  else if c =? NEWLINE then [BACKSLASH; 110]
  else if c <? 32 then [UNDERSCORE]
  else [c].

Definition escape_label (raw : rstring) : rstring := concat (map escape_char raw).

(** One metric: its name, its help text, its type, its value. *)
Record metric := Metric { m_name : rstring; m_help : rstring; m_kind : rstring; m_value : Z }.

(** The three [writeln!]s of a metric. *)
Definition write_metric (topic : rstring) (m : metric) : rstring :=
  (str "# HELP " ++ m_name m ++ str " " ++ m_help m) ++ [NEWLINE]
  ++ (str "# TYPE " ++ m_name m ++ str " " ++ m_kind m) ++ [NEWLINE]
  ++ (m_name m ++ str "{topic=" ++ [QUOTE] ++ topic ++ [QUOTE] ++ str "} " ++ dec (m_value m)) ++ [NEWLINE].

(** The minus sign of two of the help texts. *)
Definition MINUS : rstring := [0x2212].

Definition topic_metrics (s : topic_stats) : list metric :=
  [ Metric (str "mmbus_published_total") (str "Successful publishes since publisher creation.") (str "counter") (ts_published_total s);
    Metric (str "mmbus_full_rejected_total") (str "Publishes rejected with Error::Full under BackpressurePolicy::Error.") (str "counter") (ts_full_rejected_total s);
    Metric (str "mmbus_subscribers_dropped_total") (str "Subscribers dropped by the publisher because their wakeup call failed.") (str "counter") (ts_subscribers_dropped_total s);
    Metric (str "mmbus_wakeups_sent_total") (str "Wakeup syscalls fired (coalesced; below published_total under bursts).") (str "counter") (ts_wakeups_sent_total s);
    Metric (str "mmbus_connected_sockets") (str "Subscriber sockets currently accepted.") (str "gauge") (connected_sockets s);
    Metric (str "mmbus_ring_tail") (str "Next slot the producer will write (monotonic during a publisher's lifetime).") (str "counter") (st_tail (ts_ring s));
    Metric (str "mmbus_active_subscribers") (str "Number of subscribers with a claimed cursor slot.") (str "gauge") (active_subscribers (ts_ring s));
    Metric (str "mmbus_max_subscriber_lag") (str "Highest per-subscriber lag (tail " ++ MINUS ++ str " cursor) across all active subscribers.") (str "gauge")
      (foldr Z.max 0 (lags (ts_ring s))) ].

(** [saturating_sub] of the two cursors. *)
Definition replay_lag (w : wal_stats) : Z := Z.max 0 (ws_pending w - ws_durable w).

Definition wal_metrics (w : wal_stats) : list metric :=
  [ Metric (str "mmbus_wal_appends_total") (str "Successful WAL appends.") (str "counter") (ws_appends w);
    Metric (str "mmbus_wal_append_bytes_total") (str "Payload bytes appended to the WAL.") (str "counter") (ws_append_bytes w);
    Metric (str "mmbus_wal_flushes_total") (str "Completed flush_sync calls.") (str "counter") (ws_flushes w);
    Metric (str "mmbus_wal_pending_cursor") (str "Highest cursor appended.") (str "counter") (ws_pending w);
    Metric (str "mmbus_wal_durable_cursor") (str "Highest cursor fsynced to disk.") (str "counter") (ws_durable w);
    Metric (str "mmbus_wal_replay_lag") (str "pending_cursor " ++ MINUS ++ str " durable_cursor; how many records aren't yet durable.") (str "gauge") (replay_lag w);
    Metric (str "mmbus_wal_total_bytes") (str "Total on-disk bytes across all segments.") (str "gauge") (ws_total_bytes w);
    Metric (str "mmbus_wal_segments") (str "Number of segment files on disk.") (str "gauge") (ws_segments w) ].

Definition metrics (s : topic_stats) : list metric := topic_metrics s ++ match ts_wal s with Some w => wal_metrics w | None => [] end.

Definition render_into (topic : rstring) (s : topic_stats) : rstring := concat (map (write_metric (escape_label topic)) (metrics s)).

Definition render (topic : rstring) (s : topic_stats) : rstring := render_into topic s.
Definition render_all (topics : list (rstring * topic_stats)) : rstring := concat (map (fun x => render_into x.1 x.2) topics).

(** ** The answer to a request *)

(** The outcomes of [read_line]: [None] is an error, an empty line the end of the stream. *)
Definition reads : Type := list (option rstring).

Fixpoint words (cur : rstring) (s : rstring) : list rstring :=
  match s with
  | [] => match cur with [] => [] | _ => [cur] end
  | c :: s => if is_whitespace c then match cur with [] => words [] s | _ => cur :: words [] s end else words (cur ++ [c]) s
  end.

Definition split_whitespace (s : rstring) : list rstring := words [] s.

(** The header lines read, at most 64. *)
Fixpoint drain_headers (cap : nat) (rs : reads) : nat :=
  match cap, rs with
  | O, _ => O
  | S _, [] => O
  | S cap, r :: rs =>
      match r with
      | None => 1
      | Some h => if bool_decide (h = [] \/ h = [13; 10] \/ h = [10]) then 1 else S (drain_headers cap rs)
      end
  end.

Definition status_and_body (line body : rstring) : rstring * rstring :=
  let verb := default [] (split_whitespace line !! 0%nat) in
  let path := default [] (split_whitespace line !! 1%nat) in
  if negb (bool_decide (verb = str "GET")) then (str "405 Method Not Allowed", [])
  else if negb (bool_decide (path = str "/metrics")) then (str "404 Not Found", [])
  else (str "200 OK", body).

Definition CRLF : rstring := [13; 10].

Definition response (status body : rstring) : rstring :=
  str "HTTP/1.1 " ++ status ++ CRLF ++ str "Content-Type: text/plain; version=0.0.4" ++ CRLF
  ++ str "Content-Length: " ++ dec (zlen (as_bytes body)) ++ CRLF ++ str "Connection: close" ++ CRLF ++ CRLF ++ body.

(** One connection of [serve_blocking]: what is written, and the lines read; [body] is what the callback gives. *)
Definition serve_one (rs : reads) (body : rstring) : option rstring * nat :=
  match rs with
  | Some line :: headers => (Some (let '(status, body) := status_and_body line body in response status body), S (drain_headers 64 headers))
  | _ => (None, 1%nat)
  end.

(** What [listener.incoming()] gives: a failed accept, a connection with the lines it will send, or one whose
    next line never comes.  The streams have no read timeout and one thread serves them all. *)
Inductive incoming := AcceptFailed | Conn (rs : reads) | Stalled.

Section accept_loop.
Context {S : Type} (scrape_fn : S -> S * rstring).

Definition asks_for_metrics (rs : reads) : bool :=
  match rs with
  | Some line :: _ => bool_decide ((status_and_body line []).1 = str "200 OK")
  | _ => false
  end.

(** [serve_blocking], bound: the answers in order, [None] where a connection is closed without one. *)
Fixpoint serve_blocking (cs : list incoming) (s : S) : S * list (option rstring) :=
  match cs with
  | [] | Stalled :: _ => (s, [])
  | AcceptFailed :: cs => serve_blocking cs s
  | Conn rs :: cs =>
      let '(s, body) := if asks_for_metrics rs then scrape_fn s else (s, []) in
      let '(s, answers) := serve_blocking cs s in (s, (serve_one rs body).1 :: answers)
  end.

(** The lines of the connections served. *)
Fixpoint served (cs : list incoming) : list reads :=
  match cs with
  | [] | Stalled :: _ => []
  | AcceptFailed :: cs => served cs
  | Conn rs :: cs => rs :: served cs
  end.
End accept_loop.

(** ** Reading the format *)

Record sample := Sample { s_name : rstring; s_label : rstring; s_value : Z }.

Fixpoint lines (s : rstring) : list rstring :=
  match s with
  | [] => [[]]
  | c :: s => if c =? NEWLINE then [] :: lines s else match lines s with l :: ls => (c :: l) :: ls | [] => [[c]] end
  end.

(** A quoted label, after its opening quote, and what follows the closing one. *)
Fixpoint read_label (s : rstring) : option (rstring * rstring) :=
  match s with
  | [] => None
  | c :: s =>
      if c =? QUOTE then Some ([], s)
      else if c =? BACKSLASH then
        match s with
        | [] => None
        | d :: s =>
            let x := if d =? 110 then NEWLINE else d in
            if (d =? 110) || (d =? QUOTE) || (d =? BACKSLASH) then option_map (fun r => (x :: r.1, r.2)) (read_label s) else None
        end
      else option_map (fun r => (c :: r.1, r.2)) (read_label s)
  end.

Fixpoint until_brace (s : rstring) : rstring * rstring :=
  match s with
  | [] => ([], [])
  | c :: s' => if c =? BRACE then ([], s) else let '(a, b) := until_brace s' in (c :: a, b)
  end.

Definition sample_of (line : rstring) : option sample :=
  match line with
  | [] => None
  | c :: _ =>
      if c =? HASH then None
      else
        let '(name, rest) := until_brace line in
        rest ← strip_prefix (str "{topic=" ++ [QUOTE]) rest;
        x ← read_label rest;
        v ← strip_prefix (str "} ") x.2;
        if forallb is_digit v then Some (Sample name x.1 (undec v)) else None
  end.

Definition samples (s : rstring) : list sample := omap sample_of (lines s).

(** What the escaping loses: control characters other than the newline. *)
Definition shown (c : Z) : Z := if (c <? 32) && negb (c =? NEWLINE) then UNDERSCORE else c.

Definition one_line (s : rstring) : Prop := Forall (fun c => c <> NEWLINE) s.

Lemma lines_app a b : one_line a -> lines (a ++ NEWLINE :: b) = a :: lines b.
Proof.
  induction 1 as [|c a Hc _ IH]; [done|]. cbn [app lines]. destruct (Z.eqb_spec c NEWLINE); [done|]. by rewrite IH.
Qed.

Lemma samples_line a b : one_line a -> samples (a ++ [NEWLINE] ++ b) = option_list (sample_of a) ++ samples b.
Proof. intros Ha. unfold samples. cbn [app]. rewrite lines_app by done. cbn [omap list_omap]. by destruct (sample_of a). Qed.

Lemma escape_one_line t : one_line (escape_label t).
Proof.
  unfold one_line, escape_label. induction t as [|c t IH]; [constructor|]. cbn [map concat]. apply Forall_app. split; [|done].
  unfold escape_char. destruct (Z.eqb_spec c BACKSLASH); [by repeat constructor|]. destruct (Z.eqb_spec c QUOTE); [by repeat constructor|].
  destruct (Z.eqb_spec c NEWLINE); [by repeat constructor|]. destruct (_ <? _); by repeat constructor.
Qed.

Lemma read_escaped_char c s l r : read_label s = Some (l, r) -> read_label (escape_char c ++ s) = Some (shown c :: l, r).
Proof.
  intros E. unfold escape_char, shown.
  destruct (Z.eqb_spec c BACKSLASH) as [->|H1]; [cbn; by rewrite E|]. destruct (Z.eqb_spec c QUOTE) as [->|H2]; [cbn; by rewrite E|].
  destruct (Z.eqb_spec c NEWLINE) as [->|H3]; [cbn; by rewrite E|]. rewrite andb_true_r. destruct (c <? 32); [cbn; by rewrite E|].
  cbn [app read_label]. rewrite (proj2 (Z.eqb_neq _ _) H1), (proj2 (Z.eqb_neq _ _) H2). by rewrite E.
Qed.

Lemma read_escaped t rest : read_label (escape_label t ++ QUOTE :: rest) = Some (map shown t, rest).
Proof.
  induction t as [|c t IH]; [done|]. unfold escape_label in *. cbn [map concat]. rewrite <- app_assoc. by apply read_escaped_char.
Qed.

Lemma until_brace_app name rest : Forall (fun c => c <> BRACE) name -> until_brace (name ++ BRACE :: rest) = (name, BRACE :: rest).
Proof. induction 1 as [|c name Hc _ IH]; [done|]. cbn [app until_brace]. rewrite (proj2 (Z.eqb_neq _ _) Hc). by rewrite IH. Qed.

(** The name and the help text of a metric, and its value. *)
Record metric_ok (m : metric) : Prop := {
  k_name : one_line (m_name m) /\ Forall (fun c => c <> BRACE) (m_name m);
  k_first : exists c s, m_name m = c :: s /\ c <> HASH;
  k_help : one_line (m_help m);
  k_kind : one_line (m_kind m);
  k_value : is_u64 (m_value m)
}.

Lemma sample_of_line m t : metric_ok m ->
  sample_of (m_name m ++ str "{topic=" ++ [QUOTE] ++ escape_label t ++ [QUOTE] ++ str "} " ++ dec (m_value m))
  = Some (Sample (m_name m) (map shown t) (m_value m)).
Proof.
  intros [[_ Hb] (c & s & En & Hc) _ _ Hv]. unfold sample_of.
  set (body := str "{topic=" ++ _). destruct (m_name m ++ body) as [|c' l] eqn:El; [by rewrite En in El|].
  assert (c' = c) as -> by (rewrite En in El; cbn in El; congruence). rewrite (proj2 (Z.eqb_neq _ _) Hc), <- El.
  assert (until_brace (m_name m ++ body) = (m_name m, body)) as -> by (by apply until_brace_app).
  assert (strip_prefix (str "{topic=" ++ [QUOTE]) body = Some (escape_label t ++ [QUOTE] ++ str "} " ++ dec (m_value m))) as ->.
  { apply strip_prefix_spec. unfold body. by rewrite <- app_assoc. }
  cbn [mbind option_bind]. cbn [app]. rewrite read_escaped. cbn [mbind option_bind snd fst].
  assert (strip_prefix (str "} ") (str "} " ++ dec (m_value m)) = Some (dec (m_value m))) as -> by (by apply strip_prefix_spec).
  cbn [mbind option_bind]. destruct (dec_spec (m_value m) Hv) as [-> ->]. done.
Qed.

Lemma sample_of_comment s : sample_of (HASH :: s) = None.
Proof. done. Qed.

Lemma digits_one_line s : forallb is_digit s = true -> one_line s.
Proof.
  unfold one_line. induction s as [|c s IH]; [constructor|]. cbn [forallb]. intros [Hc Hs]%andb_prop. constructor; [|by apply IH].
  intros ->. done.
Qed.

(** The block of a metric is read as its one sample. *)
Lemma samples_metric m t rest : metric_ok m ->
  samples (write_metric (escape_label t) m ++ rest) = Sample (m_name m) (map shown t) (m_value m) :: samples rest.
Proof.
  intros Hm. pose proof Hm as [[Hn _] _ Hh Hk Hv]. pose proof (sample_of_line m t Hm) as Hl. unfold write_metric.
  pose proof (escape_one_line t) as He. pose proof (digits_one_line _ (proj1 (dec_spec _ Hv))) as Hd.
  set (help := str "# HELP " ++ _). set (type := str "# TYPE " ++ _). set (line := m_name m ++ str "{topic=" ++ _) in *.
  assert (Hlit : Forall one_line [str "# HELP "; str "# TYPE "; str " "; str "{topic="; [QUOTE]; str "} "]).
  { repeat constructor; vm_compute; discriminate. }
  rewrite !Forall_cons in Hlit. destruct Hlit as (L1 & L2 & L3 & L4 & L5 & L6 & _).
  assert (Hone : one_line help /\ one_line type /\ one_line line) by (unfold help, type, line, one_line in *; rewrite !Forall_app; tauto).
  destruct Hone as (H1 & H2 & H3). rewrite <- !app_assoc, !samples_line, Hl by done. done.
Qed.

Definition stats_ok (s : topic_stats) : Prop :=
  Forall is_u64 [ts_published_total s; ts_full_rejected_total s; ts_subscribers_dropped_total s; ts_wakeups_sent_total s;
                 connected_sockets s; st_tail (ts_ring s); active_subscribers (ts_ring s)]
  /\ Forall is_u64 (lags (ts_ring s))
  /\ match ts_wal s with
     | Some w => Forall is_u64 [ws_appends w; ws_append_bytes w; ws_flushes w; ws_pending w; ws_durable w; ws_total_bytes w; ws_segments w]
     | None => True
     end.

Lemma max_u64 l : Forall is_u64 l -> is_u64 (foldr Z.max 0 l).
Proof. induction 1 as [|x l Hx _ IH]; cbn [foldr]; unfold is_u64 in *; [ulia|lia]. Qed.

(** The constant parts of the metrics. *)
Definition texts_ok (m : metric) : bool :=
  forallb (fun c => negb (c =? NEWLINE)) (m_name m ++ m_help m ++ m_kind m) && forallb (fun c => negb (c =? BRACE)) (m_name m)
  && match m_name m with c :: _ => negb (c =? HASH) | [] => false end.

Lemma texts_metric_ok m : texts_ok m = true -> is_u64 (m_value m) -> metric_ok m.
Proof.
  unfold texts_ok. intros [[Ht Hb]%andb_prop Hf]%andb_prop Hv. rewrite !forallb_app in Ht. apply andb_prop in Ht as [Hn Ht].
  apply andb_prop in Ht as [Hh Hk].
  assert (Hone : forall k s, forallb (fun c => negb (c =? k)) s = true -> Forall (fun c => c <> k) s).
  { intros k s. induction s as [|c s IH]; [constructor|]. cbn [forallb]. intros [Hc Hs]%andb_prop. constructor; [|by apply IH].
    by apply negb_true_iff, Z.eqb_neq in Hc. }
  constructor; [split; by apply Hone| |by apply Hone|by apply Hone|done].
  destruct (m_name m) as [|c s]; [done|]. exists c, s. split; [done|]. by apply negb_true_iff, Z.eqb_neq in Hf.
Qed.

Lemma metrics_ok s : stats_ok s -> Forall metric_ok (metrics s).
Proof.
  intros (Ht & Hl & Hw). apply max_u64 in Hl. unfold metrics, topic_metrics. rewrite !Forall_cons in Ht.
  destruct Ht as (H1 & H2 & H3 & H4 & H5 & H6 & H7 & _). apply Forall_app. split.
  - repeat (apply Forall_cons; split; [by apply texts_metric_ok; [vm_compute|]|]). constructor.
  - destruct (ts_wal s) as [w|]; [|constructor]. unfold wal_metrics. rewrite !Forall_cons in Hw.
    destruct Hw as (W1 & W2 & W3 & W4 & W5 & W6 & W7 & _).
    assert (Hlag : is_u64 (replay_lag w)) by (unfold replay_lag, is_u64 in *; lia).
    repeat (apply Forall_cons; split; [by apply texts_metric_ok; [vm_compute|]|]). constructor.
Qed.

(** The samples of a topic. *)
Definition topic_samples (topic : rstring) (s : topic_stats) : list sample :=
  map (fun m => Sample (m_name m) (map shown topic) (m_value m)) (metrics s).

Lemma samples_render topic s rest : stats_ok s -> samples (render_into topic s ++ rest) = topic_samples topic s ++ samples rest.
Proof.
  intros Hs. apply metrics_ok in Hs. unfold render_into, topic_samples. induction Hs as [|m ms Hm _ IH]; [done|].
  cbn [map concat app]. rewrite <- app_assoc, samples_metric by done. by rewrite IH.
Qed.

(** What a scraper reads.  From the rendering of any topics' counters a reader of the text format gets
    exactly their metrics, one sample each, with the right name, value and topic, whatever characters
    the topic's name has; only control characters other than the newline come back as underscores. *)
Theorem rendering_reads_back ts :
  Forall (fun x => stats_ok x.2) ts ->
  samples (render_all ts) = concat (map (fun x => topic_samples x.1 x.2) ts)
  /\ forall x, x ∈ ts -> samples (render x.1 x.2) = topic_samples x.1 x.2.
Proof.
  intros Hts. split.
  - unfold render_all. induction Hts as [|x ts Hx _ IH]; [done|]. cbn [map concat]. by rewrite samples_render, IH.
  - intros x Hx. rewrite Forall_forall in Hts. pose proof (samples_render x.1 x.2 [] (Hts x Hx)) as Hr. by rewrite !app_nil_r in Hr.
Qed.

Definition demo_stats : topic_stats :=
  TopicStats (RingStats 100 2 [3; 7]) 2 (Some (WalStats 100 95 0 4096 4096 1 100 3200 20)) 100 3 1 42.

(** A name with a quote, a newline and a control character. *)
Definition demo_name : rstring := [97; QUOTE; NEWLINE; 7; BACKSLASH].

Lemma rendering_reads_back_witness :
  samples (render_all [(demo_name, demo_stats); (str "b", demo_stats)])
  = topic_samples demo_name demo_stats ++ topic_samples (str "b") demo_stats
  /\ s_label <$> head (topic_samples demo_name demo_stats) = Some [97; QUOTE; NEWLINE; UNDERSCORE; BACKSLASH].
Proof.
  assert (Hs : stats_ok demo_stats).
  { split; [|split]; repeat (apply Forall_cons; split; [split; [vm_compute; discriminate|vm_compute; reflexivity]|]); constructor. }
  split; [|vm_compute; reflexivity].
  exact (proj1 (rendering_reads_back [(demo_name, demo_stats); (str "b", demo_stats)]
                  ltac:(apply Forall_cons; split; [exact Hs|]; apply Forall_cons; split; [exact Hs|]; constructor))).
Defined.

(** Two topics rendered together: the format allows one [TYPE] line for a metric, and there are two. *)
Example type_lines_are_repeated :
  length (filter (fun l => l = str "# TYPE mmbus_published_total counter") (lines (render_all [(str "a", demo_stats); (str "b", demo_stats)]))) = 2%nat.
Proof. vm_compute. reflexivity. Qed.

(** ** Requests *)

Lemma drain_headers_cap cap rs : (drain_headers cap rs <= cap)%nat.
Proof. revert rs. induction cap as [|cap IH]; intros [|[h|] rs]; cbn [drain_headers]; try lia. case_bool_decide; [lia|]. specialize (IH rs). lia. Qed.

(** However many lines a client sends, at most 65 are read. *)
Lemma serve_reads_bounded rs body : (1 <= (serve_one rs body).2 <= 65)%nat.
Proof. destruct rs as [|[line|] rs]; cbn [serve_one snd]; try lia. pose proof (drain_headers_cap 64 rs). lia. Qed.

(** The body a callback gives matters to a request for the metrics only. *)
Lemma other_answers_have_no_body rs b1 b2 : asks_for_metrics rs = false -> (serve_one rs b1).1 = (serve_one rs b2).1.
Proof.
  destruct rs as [|[line|] rs]; [done| |done]. cbn [asks_for_metrics serve_one fst]. intros H.
  apply bool_decide_eq_false in H. revert H. unfold status_and_body. by repeat destruct (negb _).
Qed.

(** Failed accepts and other clients change nothing: every connection before the one that stalls has the answer it
    would have alone, and the callback runs once for each that asks for the metrics. *)
Lemma each_connection_is_answered body cs n :
  serve_blocking (fun n => (S n, body)) cs n
    = (n + length (filter (fun rs => asks_for_metrics rs = true) (served cs)), map (fun rs => (serve_one rs body).1) (served cs))%nat.
Proof.
  revert n. induction cs as [|[|rs|] cs IH]; intros n; cbn [serve_blocking served]; [by rewrite Nat.add_0_r|done| |by rewrite Nat.add_0_r].
  rewrite filter_cons. cbn [map]. destruct (asks_for_metrics rs) eqn:E.
  - rewrite decide_True by done. cbn [length]. rewrite IH. f_equal. lia.
  - rewrite decide_False by done. rewrite IH. do 2 f_equal. by apply other_answers_have_no_body.
Qed.

(** A client that connects and stays silent ends the exporter: nobody after it is answered. *)
Lemma silent_client_stops_the_exporter {S} (scrape : S -> S * rstring) before after s :
  serve_blocking scrape (before ++ Stalled :: after) s = serve_blocking scrape before s.
Proof.
  revert s. induction before as [|[|rs|] before IH]; intros s; cbn [app serve_blocking]; [done|apply IH| |done].
  destruct (if asks_for_metrics rs then scrape s else (s, [])) as [s1 body]. by rewrite IH.
Qed.

Example requests :
  let status line := (status_and_body (str line ++ CRLF) (str "x")).1 in
  status "GET /metrics HTTP/1.1" = str "200 OK" /\ status "POST /metrics HTTP/1.1" = str "405 Method Not Allowed"
  /\ status "GET / HTTP/1.1" = str "404 Not Found" /\ status "GET /metrics?a HTTP/1.1" = str "404 Not Found".
Proof. vm_compute. repeat split. Qed.
