(* ===== verification/PyStats.v ===== *)
(** * The statistics a Python caller sees ([crates/mmbus/src/python/subscription.rs], [PyTopicStats] and [PyWalStats])

    The conversions from the Rust records, which keep every field, and the two [__repr__]s. *)

From Stdlib Require Import ZArith Lia.
From stdpp Require Import base option strings list.
From S2P Require Import Prelude Text Ring Stats.

Record py_wal_stats := PyWalStats {
  pw_pending_cursor : Z;
  pw_durable_cursor : Z;
  pw_oldest_cursor : Z;
  pw_active_segment_bytes : Z;
  pw_total_wal_bytes : Z;
  pw_segments : Z;
  pw_appends_total : Z;
  pw_append_bytes_total : Z;
  pw_flushes_total : Z
}.

Record py_topic_stats := PyTopicStats {
  pt_tail : Z;
  pt_active_subscribers : Z;
  pt_lags : list Z;
  pt_connected_sockets : Z;
  pt_published_total : Z;
  pt_full_rejected_total : Z;
  pt_subscribers_dropped_total : Z;
  pt_wakeups_sent_total : Z;
  pt_wal : option py_wal_stats
}.

(** [From<WalStats>] *)
Definition of_wal_stats (s : wal_stats) : py_wal_stats :=
  PyWalStats (ws_pending s) (ws_durable s) (ws_oldest s) (ws_active_bytes s) (ws_total_bytes s) (ws_segments s)
    (ws_appends s) (ws_append_bytes s) (ws_flushes s).

(** [From<TopicStats>] *)
Definition of_topic_stats (s : topic_stats) : py_topic_stats :=
  PyTopicStats (st_tail (ts_ring s)) (active_subscribers (ts_ring s)) (lags (ts_ring s)) (connected_sockets s)
    (ts_published_total s) (ts_full_rejected_total s) (ts_subscribers_dropped_total s) (ts_wakeups_sent_total s)
    (of_wal_stats <$> ts_wal s).

(** [format!("{:?}", lags)] *)
Fixpoint comma_separated (l : list Z) : rstring :=
  match l with
  | [] => []
  | [x] => dec x
  | x :: l => dec x ++ str ", " ++ comma_separated l
  end.

Definition debug_list (l : list Z) : rstring := str "[" ++ comma_separated l ++ str "]".

Definition topic_stats_repr (s : py_topic_stats) : rstring :=
  str "TopicStats(tail=" ++ dec (pt_tail s) ++ str ", active_subscribers=" ++ dec (pt_active_subscribers s)
  ++ str ", lags=" ++ debug_list (pt_lags s) ++ str ", connected_sockets=" ++ dec (pt_connected_sockets s)
  ++ str ", published_total=" ++ dec (pt_published_total s) ++ str ", full_rejected_total=" ++ dec (pt_full_rejected_total s)
  ++ str ", subscribers_dropped_total=" ++ dec (pt_subscribers_dropped_total s)
  ++ str ", wakeups_sent_total=" ++ dec (pt_wakeups_sent_total s)
  ++ str ", wal=" ++ (match pt_wal s with Some _ => str "<WalStats>" | None => str "None" end) ++ str ")".

Definition wal_stats_repr (s : py_wal_stats) : rstring :=
  str "WalStats(pending=" ++ dec (pw_pending_cursor s) ++ str ", durable=" ++ dec (pw_durable_cursor s)
  ++ str ", oldest=" ++ dec (pw_oldest_cursor s) ++ str ", active_bytes=" ++ dec (pw_active_segment_bytes s)
  ++ str ", total_bytes=" ++ dec (pw_total_wal_bytes s) ++ str ", segments=" ++ dec (pw_segments s)
  ++ str ", appends_total=" ++ dec (pw_appends_total s) ++ str ", append_bytes_total=" ++ dec (pw_append_bytes_total s)
  ++ str ", flushes_total=" ++ dec (pw_flushes_total s) ++ str ")".

(** ** Nothing is lost on the way to Python *)

#[export] Instance of_wal_stats_inj : Inj (=) (=) of_wal_stats.
Proof. intros [] [] [=]. by subst. Qed.

#[export] Instance of_topic_stats_inj : Inj (=) (=) of_topic_stats.
Proof.
  intros [[] ? wa] [[] ? wb] [= -> -> -> -> -> -> -> -> Hw]. f_equal.
  by apply (inj (fmap of_wal_stats)).
Qed.

Definition demo_topic_stats (w : option wal_stats) : topic_stats := TopicStats (RingStats 12 2 [0; 3]) 2 w 12 1 0 20.

Example repr_of_a_topic :
  topic_stats_repr (of_topic_stats (demo_topic_stats None))
    = str "TopicStats(tail=12, active_subscribers=2, lags=[0, 3], connected_sockets=2, published_total=12, full_rejected_total=1, subscribers_dropped_total=0, wakeups_sent_total=20, wal=None)".
Proof. vm_compute. reflexivity. Qed.

Example repr_of_a_log :
  wal_stats_repr (of_wal_stats (WalStats 12 10 4 512 4096 3 12 300 5))
    = str "WalStats(pending=12, durable=10, oldest=4, active_bytes=512, total_bytes=4096, segments=3, appends_total=12, append_bytes_total=300, flushes_total=5)".
Proof. vm_compute. reflexivity. Qed.
