(* ===== verification/Frame.v ===== *)
(** * The bridge's wire frames ([crates/mmbus-bridge/src/frame.rs])

    Encoding, decoding with the errors a streaming reader tells apart, and the hello payload.  On the
    64-bit targets the crate is built for none of the decoder's sums overflows [usize]. *)

From Stdlib Require Import ZArith Lia Strings.Byte.
From stdpp Require Import base option gmap list.
From S2P Require Import Prelude.

Definition FRAME_VERSION : Z := 1.
Definition HEADER_LEN : Z := 4 + 4 + 8 + 8.
Definition MIN_FRAME_LEN : Z := HEADER_LEN + 4 + 4.
Definition MAX_FRAME_LEN : Z := 16 * 1024 * 1024.

Inductive frame_type := Msg | Ping | TopicSubscribe | PeerHello.

#[global] Instance frame_type_eq_dec : EqDecision frame_type.
Proof. solve_decision. Defined.

Inductive decode_error :=
  | Incomplete (have needed : Z)
  | UnsupportedFrameVersion (v : Z)
  | UnknownFrameType (n : Z)
  | TooLarge (len : Z)
  | ShortPeerHello (have : Z).

(** The discriminant: [frame_type as u32]. *)
Definition type_code (t : frame_type) : Z :=
  match t with Msg => 0 | Ping => 1 | TopicSubscribe => 2 | PeerHello => 3 end.

Definition from_u32 (n : Z) : result decode_error frame_type :=
  if n =? 0 then Ok Msg
  else if n =? 1 then Ok Ping
  else if n =? 2 then Ok TopicSubscribe
  else if n =? 3 then Ok PeerHello
  else Err (UnknownFrameType n).

Record frame := Frame_ {
  ftype : frame_type;
  origin_id : Z;
  origin_seq : Z;
  topic : list byte;
  fpayload : list byte
}.

#[global] Instance frame_eq_dec : EqDecision frame.
Proof. solve_decision. Defined.

Definition msg (origin_id origin_seq : Z) (topic payload : list byte) : frame :=
  Frame_ Msg origin_id origin_seq topic payload.

Definition peer_hello_with_psk (origin_id : Z) (psk : list byte) : frame :=
  Frame_ PeerHello origin_id 0 [] (to_le 8 origin_id ++ to_le 2 (zlen psk) ++ psk).

Definition peer_hello (origin_id : Z) : frame := peer_hello_with_psk origin_id [].

Definition ping (origin_id : Z) : frame := Frame_ Ping origin_id 0 [] [].

Definition encoded_len (f : frame) : Z := HEADER_LEN + 4 + zlen (topic f) + 4 + zlen (fpayload f).

(** [encode]: what it appends to [out]; [as u32] keeps the low four bytes of a length. *)
Definition encode (f : frame) (out : list byte) : list byte :=
  out ++ to_le 4 FRAME_VERSION ++ to_le 4 (type_code (ftype f)) ++ to_le 8 (origin_id f) ++ to_le 8 (origin_seq f)
  ++ to_le 4 (zlen (topic f)) ++ topic f ++ to_le 4 (zlen (fpayload f)) ++ fpayload f.

Definition parse_peer_hello (payload : list byte) : result decode_error (Z * list byte) :=
  if zlen payload <? 10 then Err (ShortPeerHello (zlen payload))
  else
    let origin_id := from_le (zslice 0 8 payload) in
    let psk_len := from_le (zslice 8 10 payload) in
    if zlen payload <? 10 + psk_len then Err (ShortPeerHello (zlen payload))
    else Ok (origin_id, zslice 10 (10 + psk_len) payload).

Definition decode (buf : list byte) : result decode_error (frame * Z) :=
  if zlen buf <? HEADER_LEN + 4 then Err (Incomplete (zlen buf) (HEADER_LEN + 4))
  else
    let version := from_le (zslice 0 4 buf) in
    if negb (version =? FRAME_VERSION) then Err (UnsupportedFrameVersion version)
    else
      let? frame_type := from_u32 (from_le (zslice 4 8 buf)) in
      let origin_id := from_le (zslice 8 16 buf) in
      let origin_seq := from_le (zslice 16 24 buf) in
      let topic_len := from_le (zslice 24 28 buf) in
      let after_topic := HEADER_LEN + 4 + topic_len in
      let needed_for_payload_len := after_topic + 4 in
      if MAX_FRAME_LEN <? topic_len then Err (TooLarge topic_len)
      else if zlen buf <? needed_for_payload_len then Err (Incomplete (zlen buf) needed_for_payload_len)
      else
        let payload_len := from_le (zslice after_topic (after_topic + 4) buf) in
        if MAX_FRAME_LEN <? payload_len then Err (TooLarge payload_len)
        else
          let total_len := after_topic + 4 + payload_len in
          if MAX_FRAME_LEN <? total_len then Err (TooLarge total_len)
          else if zlen buf <? total_len then Err (Incomplete (zlen buf) total_len)
          else
            let topic := zslice (HEADER_LEN + 4) after_topic buf in
            let payload := zslice (after_topic + 4) total_len buf in
            Ok (Frame_ frame_type origin_id origin_seq topic payload, total_len).

(** ** Well-formed frames *)

Definition frame_ok (f : frame) : Prop :=
  is_u64 (origin_id f) /\ is_u64 (origin_seq f) /\ encoded_len f <= MAX_FRAME_LEN.

Definition enc_frame (f : frame) : list byte := encode f [].

Lemma encode_app f out : encode f out = out ++ enc_frame f.
Proof. done. Qed.

Lemma from_u32_code t : from_u32 (type_code t) = Ok t.
Proof. by destruct t. Qed.

Lemma from_u32_sound n t : from_u32 n = Ok t -> n = type_code t.
Proof.
  unfold from_u32. intros E. destruct (Z.eqb_spec n 0); [injection E as <-; done|]. destruct (Z.eqb_spec n 1); [injection E as <-; done|].
  destruct (Z.eqb_spec n 2); [injection E as <-; done|]. destruct (Z.eqb_spec n 3); [injection E as <-; done|done].
Qed.

Lemma zlen_enc_frame (f : frame) : zlen (enc_frame f) = encoded_len f.
Proof. unfold enc_frame, encode, encoded_len, HEADER_LEN. zlen_lia. Qed.

(** The fixed fields of a buffer. *)
Lemma split_header buf : 28 <= zlen buf ->
  exists v t o s l tail : list byte, buf = v ++ t ++ o ++ s ++ l ++ tail
    /\ zlen v = 4 /\ zlen t = 4 /\ zlen o = 8 /\ zlen s = 8 /\ zlen l = 4.
Proof.
  intros Hl. assert (Hs : forall n (b : list byte), 0 <= n <= zlen b -> exists x y : list byte, b = x ++ y /\ zlen x = n /\ zlen y = zlen b - n).
  { intros n b Hn. exists (ztake n b), (zdrop n b). rewrite ztake_zdrop, zlen_ztake, zlen_zdrop by lia. done. }
  destruct (Hs 4 buf) as (v & b1 & -> & Hv & H1); [lia|]. rewrite zlen_app in *.
  destruct (Hs 4 b1) as (t & b2 & -> & Ht & H2); [lia|]. rewrite zlen_app in *.
  destruct (Hs 8 b2) as (o & b3 & -> & Ho & H3); [lia|]. rewrite zlen_app in *.
  destruct (Hs 8 b3) as (s & b4 & -> & Hss & H4); [lia|]. rewrite zlen_app in *.
  destruct (Hs 4 b4) as (l & tail & -> & Hll & H5); [lia|]. by exists v, t, o, s, l, tail.
Qed.

(** What follows the fixed fields. *)
Definition decode_tail (have : Z) (ty : frame_type) (o s tl : Z) (tail : list byte) : result decode_error (frame * Z) :=
  if MAX_FRAME_LEN <? tl then Err (TooLarge tl)
  else if zlen tail <? tl + 4 then Err (Incomplete have (28 + tl + 4))
  else
    let pl := from_le (zslice tl (tl + 4) tail) in
    if MAX_FRAME_LEN <? pl then Err (TooLarge pl)
    else if MAX_FRAME_LEN <? 28 + tl + 4 + pl then Err (TooLarge (28 + tl + 4 + pl))
    else if zlen tail <? tl + 4 + pl then Err (Incomplete have (28 + tl + 4 + pl))
    else Ok (Frame_ ty o s (ztake tl tail) (zslice (tl + 4) (tl + 4 + pl) tail), 28 + tl + 4 + pl).

Lemma zslice_field (a b c : list byte) lo hi : lo = zlen a -> hi = zlen a + zlen b -> zslice lo hi (a ++ b ++ c) = b.
Proof.
  intros -> ->. rewrite zslice_app_r by lia. replace (zlen a - zlen a) with 0 by lia.
  replace (zlen a + zlen b - zlen a) with (zlen b) by lia. by apply zslice_exact.
Qed.

Lemma zslice_tail (a : list byte) b lo hi : zlen a <= lo -> zslice lo hi (a ++ b) = zslice (lo - zlen a) (hi - zlen a) b.
Proof. intros ?. by apply zslice_app_r. Qed.

Lemma ltb_shift a b a' b' : a' - a = b' - b -> (a' <? b') = (a <? b).
Proof. intros. destruct (Z.ltb_spec a' b'), (Z.ltb_spec a b); lia. Qed.

Lemma decode_split v t o s l tail :
  zlen v = 4 -> zlen t = 4 -> zlen o = 8 -> zlen s = 8 -> zlen l = 4 ->
  let buf := v ++ t ++ o ++ s ++ l ++ tail in
  decode buf
  = if negb (from_le v =? FRAME_VERSION) then Err (UnsupportedFrameVersion (from_le v))
    else let? ty := from_u32 (from_le t) in decode_tail (zlen buf) ty (from_le o) (from_le s) (from_le l) tail.
Proof.
  intros Hv Ht Ho Hs Hl buf. pose proof (zlen_nonneg tail).
  assert (Hlen : zlen buf = 28 + zlen tail) by (unfold buf; rewrite !zlen_app; lia).
  unfold decode, HEADER_LEN in *. rewrite Hlen. destruct (Z.ltb_spec (28 + zlen tail) (4 + 4 + 8 + 8 + 4)); [lia|].
  replace (zslice 0 4 buf) with v by (symmetry; apply zslice_exact; lia).
  replace (zslice 4 8 buf) with t by (symmetry; apply (zslice_field v t); lia).
  replace (zslice 8 16 buf) with o.
  2:{ symmetry. unfold buf. rewrite (app_assoc v). apply (zslice_field (v ++ t) o); rewrite zlen_app; lia. }
  replace (zslice 16 24 buf) with s.
  2:{ symmetry. unfold buf. rewrite (app_assoc v), (app_assoc (v ++ t)). apply (zslice_field _ s); rewrite !zlen_app; lia. }
  assert (Hb : buf = (v ++ t ++ o ++ s ++ l) ++ tail) by (unfold buf; by rewrite <- !app_assoc).
  assert (Hp : zlen (v ++ t ++ o ++ s ++ l) = 28) by (rewrite !zlen_app; lia).
  replace (zslice 24 28 buf) with l.
  2:{ symmetry. unfold buf. rewrite (app_assoc v), (app_assoc (v ++ t)), (app_assoc ((v ++ t) ++ o)).
      apply (zslice_field _ l); rewrite !zlen_app; lia. }
  destruct (negb _); [done|]. destruct (from_u32 _) as [ty|e]; [|done]. cbv zeta. unfold decode_tail.
  pose proof (from_le_range l) as Hr. set (tl := from_le l) in *. replace (4 + 4 + 8 + 8 + 4 + tl) with (28 + tl) by lia.
  destruct (_ <? tl); [done|]. rewrite (ltb_shift (zlen tail) (tl + 4) (28 + zlen tail) (28 + tl + 4)) by lia.
  destruct (Z.ltb_spec (zlen tail) (tl + 4)); [done|].
  assert (Hz : forall lo hi, 28 <= lo -> zslice lo hi buf = zslice (lo - 28) (hi - 28) tail).
  { intros lo hi Hlo. rewrite Hb, zslice_tail, Hp by lia. done. }
  rewrite !Hz by lia. replace (28 + tl - 28) with tl by lia. replace (28 + tl + 4 - 28) with (tl + 4) by lia.
  set (pl := from_le (zslice tl (tl + 4) tail)). destruct (_ <? pl); [done|].
  destruct (_ <? 28 + tl + 4 + pl); [done|]. rewrite (ltb_shift (zlen tail) (tl + 4 + pl) (28 + zlen tail) (28 + tl + 4 + pl)) by lia.
  assert (0 <= pl) by apply from_le_range. destruct (_ <? tl + 4 + pl); [done|].
  replace (28 + tl + 4 + pl - 28) with (tl + 4 + pl) by lia.
  replace (28 + tl + 4 - 28) with (tl + 4) by lia. replace (28 + tl - 28) with tl by lia.
  replace (4 + 4 + 8 + 8 + 4 - 28) with 0 by lia. unfold zslice at 1. rewrite zdrop_0.
  by replace (tl - 0) with tl by lia.
Qed.

(** ** The codec *)

Lemma enc_frame_split f rest :
  enc_frame f ++ rest
  = to_le 4 FRAME_VERSION ++ to_le 4 (type_code (ftype f)) ++ to_le 8 (origin_id f) ++ to_le 8 (origin_seq f)
    ++ to_le 4 (zlen (topic f)) ++ (topic f ++ to_le 4 (zlen (fpayload f)) ++ fpayload f ++ rest).
Proof. unfold enc_frame, encode. cbn [app]. by rewrite <- !app_assoc. Qed.

Lemma from_to_le_4 z : 0 <= z < two32 -> from_le (to_le 4 z) = z.
Proof. intros. apply from_to_le_small. done. Qed.

Lemma from_to_le_8 z : is_u64 z -> from_le (to_le 8 z) = z.
Proof. intros. apply from_to_le_small. done. Qed.

Lemma type_code_range t : 0 <= type_code t < two32.
Proof. destruct t; cbn; ulia. Qed.

(** The tail of an encoded frame. *)
Lemma decode_encoded f rest :
  is_u64 (origin_id f) -> is_u64 (origin_seq f) -> zlen (topic f) < two32 -> zlen (fpayload f) < two32 ->
  decode (enc_frame f ++ rest)
  = if MAX_FRAME_LEN <? zlen (topic f) then Err (TooLarge (zlen (topic f)))
    else if MAX_FRAME_LEN <? zlen (fpayload f) then Err (TooLarge (zlen (fpayload f)))
    else if MAX_FRAME_LEN <? encoded_len f then Err (TooLarge (encoded_len f))
    else Ok (f, encoded_len f).
Proof.
  intros Ho Hs Ht Hp. pose proof (zlen_nonneg (topic f)). pose proof (zlen_nonneg (fpayload f)). pose proof (zlen_nonneg rest).
  rewrite enc_frame_split. set (tail := topic f ++ _ ++ _ ++ _).
  rewrite decode_split by apply zlen_to_le. cbv zeta.
  rewrite (from_to_le_4 FRAME_VERSION), from_to_le_4, from_u32_code, !from_to_le_8, from_to_le_4
    by (done || apply type_code_range || (unfold FRAME_VERSION; ulia)).
  rewrite Z.eqb_refl. cbn [negb]. unfold decode_tail, encoded_len, HEADER_LEN.
  assert (Htl : zlen tail = zlen (topic f) + 4 + zlen (fpayload f) + zlen rest).
  { unfold tail. rewrite !zlen_app, zlen_to_le. lia. }
  destruct (_ <? zlen (topic f)); [done|]. destruct (Z.ltb_spec (zlen tail) (zlen (topic f) + 4)); [lia|]. cbv zeta.
  assert (Hpl : zslice (zlen (topic f)) (zlen (topic f) + 4) tail = to_le 4 (zlen (fpayload f))).
  { unfold tail. apply (zslice_field (topic f)); rewrite ?zlen_to_le; lia. }
  rewrite Hpl, from_to_le_4 by done. replace (4 + 4 + 8 + 8 + 4 + zlen (topic f) + 4) with (28 + zlen (topic f) + 4) by lia.
  destruct (_ <? zlen (fpayload f)); [done|]. destruct (_ <? _); [done|].
  destruct (Z.ltb_spec (zlen tail) (zlen (topic f) + 4 + zlen (fpayload f))); [lia|].
  assert (Hpay : zslice (zlen (topic f) + 4) (zlen (topic f) + 4 + zlen (fpayload f)) tail = fpayload f).
  { unfold tail. rewrite app_assoc. apply (zslice_field (topic f ++ _)); rewrite zlen_app, zlen_to_le; lia. }
  assert (Htop : ztake (zlen (topic f)) tail = topic f) by (unfold tail; by apply ztake_app_exact).
  rewrite Hpay, Htop. by destruct f.
Qed.

Lemma decode_enc f rest : frame_ok f -> decode (enc_frame f ++ rest) = Ok (f, encoded_len f).
Proof.
  intros (Ho & Hs & Hl). unfold encoded_len, HEADER_LEN, MAX_FRAME_LEN in Hl.
  pose proof (zlen_nonneg (topic f)). pose proof (zlen_nonneg (fpayload f)).
  rewrite decode_encoded by (done || ulia). unfold encoded_len, HEADER_LEN, MAX_FRAME_LEN.
  repeat match goal with |- context [?a <? ?b] => destruct (Z.ltb_spec a b); [lia|] end. done.
Qed.

(** Frames over the cap are encoded all the same, and then refused. *)
Lemma decode_too_large f rest :
  is_u64 (origin_id f) -> is_u64 (origin_seq f) -> zlen (topic f) < two32 -> zlen (fpayload f) < two32 ->
  MAX_FRAME_LEN < encoded_len f -> exists n, decode (enc_frame f ++ rest) = Err (TooLarge n).
Proof.
  intros Ho Hs Ht Hp Hl. rewrite decode_encoded by done. destruct (_ <? zlen (topic f)); [by eexists|].
  destruct (_ <? zlen (fpayload f)); [by eexists|]. destruct (Z.ltb_spec MAX_FRAME_LEN (encoded_len f)); [by eexists|lia].
Qed.

Lemma from_le_u64 bs : zlen bs = 8 -> is_u64 (from_le bs).
Proof. intros E. pose proof (from_le_range bs) as Hr. rewrite E in Hr. exact Hr. Qed.

Lemma decode_sound buf f n :
  decode buf = Ok (f, n) -> frame_ok f /\ n = encoded_len f /\ exists rest, buf = enc_frame f ++ rest.
Proof.
  destruct (Z.lt_ge_cases (zlen buf) 28) as [Hs|Hl].
  { unfold decode, HEADER_LEN. destruct (Z.ltb_spec (zlen buf) (4 + 4 + 8 + 8 + 4)); [done|lia]. }
  destruct (split_header buf Hl) as (v & t & o & s & l & tail & -> & Hv & Ht & Ho & Hs & Hll).
  rewrite decode_split by done. cbv zeta. destruct (Z.eqb_spec (from_le v) FRAME_VERSION) as [Ev|]; [|done]. cbn [negb].
  destruct (from_u32 (from_le t)) as [ty|] eqn:Ety; [|done]. apply from_u32_sound in Ety. unfold decode_tail.
  pose proof (from_le_range l) as Hr. rewrite Hll in Hr. set (tl := from_le l) in *.
  destruct (Z.ltb_spec MAX_FRAME_LEN tl); [done|]. destruct (Z.ltb_spec (zlen tail) (tl + 4)); [done|]. cbv zeta.
  set (plb := zslice tl (tl + 4) tail). assert (Hplb : zlen plb = 4) by (unfold plb; rewrite zlen_zslice; lia).
  pose proof (from_le_range plb) as Hrp. rewrite Hplb in Hrp. set (pl := from_le plb) in *.
  destruct (Z.ltb_spec MAX_FRAME_LEN pl); [done|]. destruct (Z.ltb_spec MAX_FRAME_LEN (28 + tl + 4 + pl)); [done|].
  destruct (Z.ltb_spec (zlen tail) (tl + 4 + pl)); [done|].
  intros E. apply (inj Ok) in E.
  apply (f_equal fst) in E as Ef. apply (f_equal snd) in E. cbn [fst snd] in *. subst f n.
  assert (Htop : zlen (ztake tl tail) = tl) by (rewrite zlen_ztake; lia).
  assert (Hpay : zlen (zslice (tl + 4) (tl + 4 + pl) tail) = pl) by (rewrite zlen_zslice; lia).
  assert (Hel : 28 + tl + 4 + pl = encoded_len (Frame_ ty (from_le o) (from_le s) (ztake tl tail) (zslice (tl + 4) (tl + 4 + pl) tail))).
  { unfold encoded_len, HEADER_LEN. cbn [topic fpayload]. lia. }
  assert (Htail : tail = ztake tl tail ++ plb ++ zslice (tl + 4) (tl + 4 + pl) tail ++ zdrop (tl + 4 + pl) tail).
  { rewrite <- (ztake_zdrop tl tail) at 1. f_equal.
    rewrite <- (ztake_zdrop 4 (zdrop tl tail)) at 1. unfold plb, zslice at 1. replace (tl + 4 - tl) with 4 by lia. f_equal.
    rewrite zdrop_zdrop by lia. rewrite <- (ztake_zdrop pl (zdrop (tl + 4) tail)) at 1. rewrite zdrop_zdrop by lia.
    unfold zslice. by replace (tl + 4 + pl - (tl + 4)) with pl by lia. }
  split; [|split; [exact Hel|]].
  - split; [by apply from_le_u64|]. split; [by apply from_le_u64|]. rewrite <- Hel. lia.
  - exists (zdrop (tl + 4 + pl) tail). rewrite enc_frame_split. cbn [ftype origin_id origin_seq topic fpayload].
    rewrite Htop, Hpay, <- Ev, <- Ety. 
    assert (El : to_le 4 tl = l) by (by apply (to_from_le_zlen 4)). assert (Ep : to_le 4 pl = plb) by (by apply (to_from_le_zlen 4)).
    by rewrite El, Ep, <- Htail, !(to_from_le_zlen 4), !(to_from_le_zlen 8) by done.
Qed.

Definition is_incomplete (r : result decode_error (frame * Z)) : bool :=
  match r with Err (Incomplete _ _) => true | _ => false end.

(** More bytes change only the answer [Incomplete], and that one asks for what is missing. *)
Lemma decode_more buf more :
  match decode buf with
  | Err (Incomplete have needed) =>
      have = zlen buf /\ zlen buf < needed /\ forall f n, decode (buf ++ more) = Ok (f, n) -> needed <= n
  | r => decode (buf ++ more) = r
  end.
Proof.
  pose proof (zlen_nonneg more).
  destruct (Z.lt_ge_cases (zlen buf) 28) as [Hs|Hl].
  { unfold decode at 1, HEADER_LEN. destruct (Z.ltb_spec (zlen buf) (4 + 4 + 8 + 8 + 4)); [|lia]. split; [done|]. split; [lia|].
    intros f n E. apply decode_sound in E as (Hf & -> & _). unfold encoded_len, HEADER_LEN.
    pose proof (zlen_nonneg (topic f)). pose proof (zlen_nonneg (fpayload f)). lia. }
  destruct (split_header buf Hl) as (v & t & o & s & l & tail & -> & Hv & Ht & Ho & Hs & Hll).
  rewrite <- !app_assoc. rewrite !decode_split by done. cbv zeta. destruct (negb _); [done|].
  destruct (from_u32 (from_le t)) as [ty|[]] eqn:Et; try done.
  2:{ exfalso. unfold from_u32 in Et. by repeat destruct (_ =? _). }
  unfold decode_tail. pose proof (from_le_range l) as Hr. set (tl := from_le l) in *. rewrite (zlen_app tail more).
  destruct (_ <? tl); [done|]. set (h := zlen (v ++ t ++ o ++ s ++ l ++ tail)).
  assert (Hh : h = 28 + zlen tail) by (unfold h; rewrite !zlen_app; lia).
  destruct (Z.ltb_spec (zlen tail) (tl + 4)) as [Hlt|Hge].
  { split; [done|]. split; [lia|]. intros f n. destruct (Z.ltb_spec (zlen tail + zlen more) (tl + 4)); [done|]. cbv zeta.
    set (pl := from_le (zslice tl (tl + 4) (tail ++ more))). assert (0 <= pl) by apply from_le_range.
    destruct (_ <? pl); [done|]. destruct (_ <? 28 + tl + 4 + pl); [done|]. destruct (_ <? tl + 4 + pl); [done|].
    intros E. apply (inj Ok) in E. apply (f_equal snd) in E. cbn [snd] in E. lia. }
  destruct (Z.ltb_spec (zlen tail + zlen more) (tl + 4)); [lia|]. cbv zeta.
  rewrite (zslice_app_l tl (tl + 4) tail more) by lia.
  set (pl := from_le (zslice tl (tl + 4) tail)). assert (0 <= pl) by apply from_le_range.
  destruct (_ <? pl); [done|]. destruct (_ <? 28 + tl + 4 + pl); [done|].
  destruct (Z.ltb_spec (zlen tail) (tl + 4 + pl)).
  { split; [done|]. split; [lia|]. intros f n. destruct (_ <? tl + 4 + pl); [done|].
    intros E. apply (inj Ok) in E. apply (f_equal snd) in E. cbn [snd] in E. lia. }
  destruct (Z.ltb_spec (zlen tail + zlen more) (tl + 4 + pl)); [lia|].
  rewrite zslice_app_l by lia. by rewrite ztake_app_le by lia.
Qed.

Lemma decode_stable buf more : is_incomplete (decode buf) = false -> decode (buf ++ more) = decode buf.
Proof. pose proof (decode_more buf more) as Hm. by destruct (decode buf) as [[f n]|[]]. Qed.

(** A part of a frame. *)
Lemma decode_part f p q :
  frame_ok f -> enc_frame f = p ++ q -> q <> [] ->
  exists needed, decode p = Err (Incomplete (zlen p) needed) /\ zlen p < needed <= encoded_len f.
Proof.
  intros Hf E Hq. pose proof (decode_more p q) as Hm. pose proof (decode_enc f [] Hf) as Hd. rewrite app_nil_r, E in Hd.
  assert (Hlen : zlen p < encoded_len f).
  { rewrite <- zlen_enc_frame, E, zlen_app. pose proof (zlen_pos _ Hq). lia. }
  destruct (decode p) as [[g n]|[have needed| | | |]] eqn:Ep; rewrite Hd in Hm.
  - apply (inj Ok) in Hm. injection Hm as <- <-. apply decode_sound in Ep as (_ & _ & rest & Er).
    apply (f_equal zlen) in Er. rewrite zlen_app, zlen_enc_frame in Er. pose proof (zlen_nonneg rest). lia.
  - destruct Hm as (-> & Hn & Hle). exists needed. split; [done|]. specialize (Hle f (encoded_len f) eq_refl). lia.
  - discriminate.
  - discriminate.
  - discriminate.
  - discriminate.
Qed.

(** C36: the frame codec.  A frame with 64-bit ids that stays below the size cap decodes, whatever bytes
    follow it, to itself and its length; bytes that decode to a frame are its one encoding; and of a frame
    that has arrived in part the decoder asks for more bytes, at least one and never more than the frame
    has. *)
Theorem frame_roundtrip f g buf n :
  (frame_ok f -> forall rest, decode (encode f [] ++ rest) = Ok (f, encoded_len f))
  /\ (decode buf = Ok (g, n) -> frame_ok g /\ n = encoded_len g /\ exists rest, buf = encode g [] ++ rest)
  /\ (frame_ok f -> forall p q, encode f [] = p ++ q -> q <> [] ->
        exists needed, decode p = Err (Incomplete (zlen p) needed) /\ zlen p < needed <= encoded_len f).
Proof.
  split; [intros Hf rest; by apply decode_enc|]. split; [apply decode_sound|].
  intros Hf p q E Hq. by apply (decode_part f p q).
Qed.

(** ** The hello *)

(** What a peer takes for the pre-shared key: the length field has 16 bits. *)
Lemma parse_hello id psk : is_u64 id ->
  parse_peer_hello (fpayload (peer_hello_with_psk id psk)) = Ok (id, ztake (zlen psk mod 2 ^ 16) psk).
Proof.
  intros Hid. pose proof (zlen_nonneg psk). unfold parse_peer_hello. cbn [fpayload peer_hello_with_psk].
  set (p := to_le 8 id ++ to_le 2 (zlen psk) ++ psk).
  assert (Hp : zlen p = 10 + zlen psk) by (unfold p; rewrite !zlen_app, !zlen_to_le; lia). rewrite Hp.
  destruct (Z.ltb_spec (10 + zlen psk) 10); [lia|]. cbv zeta.
  replace (zslice 0 8 p) with (to_le 8 id) by (symmetry; apply zslice_exact; by rewrite zlen_to_le).
  replace (zslice 8 10 p) with (to_le 2 (zlen psk)) by (symmetry; apply zslice_field; rewrite !zlen_to_le; lia).
  rewrite from_to_le_8 by done. rewrite from_to_le. replace (8 * Z.of_nat 2) with 16 by lia.
  pose proof (Z.mod_pos_bound (zlen psk) (2 ^ 16) ltac:(lia)). pose proof (Z.mod_le (zlen psk) (2 ^ 16) ltac:(lia) ltac:(lia)).
  destruct (Z.ltb_spec (10 + zlen psk) (10 + zlen psk mod 2 ^ 16)); [lia|]. do 2 f_equal.
  unfold p. rewrite app_assoc, zslice_tail by (rewrite zlen_app, !zlen_to_le; lia). rewrite zlen_app, !zlen_to_le. unfold zslice.
  replace (10 - (Z.of_nat 8 + Z.of_nat 2)) with 0 by lia. rewrite zdrop_0. f_equal. lia.
Qed.

Lemma parse_hello_ok id psk : is_u64 id -> zlen psk < 2 ^ 16 ->
  parse_peer_hello (fpayload (peer_hello_with_psk id psk)) = Ok (id, psk).
Proof.
  intros Hid Hp. rewrite parse_hello by done. pose proof (zlen_nonneg psk). rewrite Z.mod_small by lia. by rewrite ztake_all.
Qed.

Definition demo_frame : frame := msg 7 3 [Byte.x74] [Byte.x61; Byte.x62].

Example demo_frame_bytes : zlen (enc_frame demo_frame) = 35 /\ decode (enc_frame demo_frame) = Ok (demo_frame, 35).
Proof. split; vm_compute; reflexivity. Qed.

Lemma frame_roundtrip_witness :
  decode (encode demo_frame [] ++ [Byte.x01]) = Ok (demo_frame, 35)
  /\ exists needed, decode (ztake 30 (encode demo_frame [])) = Err (Incomplete 30 needed) /\ 30 < needed <= 35.
Proof.
  assert (Hf : frame_ok demo_frame).
  { split; [split; [vm_compute; congruence|vm_compute; reflexivity]|].
    split; [split; [vm_compute; congruence|vm_compute; reflexivity]|vm_compute; congruence]. }
  destruct (frame_roundtrip demo_frame demo_frame [] 0) as (H1 & _ & H3). split.
  - exact (H1 Hf [Byte.x01]).
  - apply (H3 Hf (ztake 30 (encode demo_frame [])) (zdrop 30 (encode demo_frame []))); vm_compute; [reflexivity|discriminate].
Defined.
