(* ===== verification/Queue.v ===== *)
(** * The bridge's drop-oldest queue ([crates/mmbus-bridge/src/queue.rs])

    One queue per peer: several senders, one receiver, never more than [capacity] entries.  Each operation
    holds the mutex and is one step; [recv_timeout] gives it up while it waits, and its waits are a list
    of what other threads did and whether the wait timed out. *)

From Stdlib Require Import ZArith Lia.
From stdpp Require Import base option list.
From S2P Require Import Prelude.

Section queue.
Context {T : Type}.

(** [Shared]: [strong] is the count of the [Arc]: the senders and the receiver. *)
Record chan := Chan {
  items : list T;
  closed : bool;
  capacity : Z;
  strong : Z
}.

Definition with_items (l : list T) (q : chan) : chan := Chan l (closed q) (capacity q) (strong q).

(** [channel]; [None] is its panic. *)
Definition channel (capacity : Z) : option chan :=
  if 0 <? capacity then Some (Chan [] false capacity 2) else None.

Definition send (item : T) (q : chan) : chan * Z :=
  if closed q then (q, 0)
  else if capacity q <=? zlen (items q) then (with_items (tail (items q) ++ [item]) q, 1)
  else (with_items (items q ++ [item]) q, 0).

Definition clone_sender (q : chan) : chan := Chan (items q) (closed q) (capacity q) (strong q + 1).

(** [Drop for Sender]: the body of [drop], and then the reference it gives up. *)
Definition drop_body (q : chan) : chan :=
  if strong q <=? 2 then Chan (items q) true (capacity q) (strong q) else q.
Definition drop_ref (q : chan) : chan := Chan (items q) (closed q) (capacity q) (strong q - 1).

(** What another thread does while the receiver waits. *)
Inductive qop := QSend (item : T) | QClone | QDropBody | QDropRef.

Definition run_qop (o : qop) (q : chan) : chan :=
  match o with
  | QSend item => (send item q).1
  | QClone => clone_sender q
  | QDropBody => drop_body q
  | QDropRef => drop_ref q
  end.

(** [waits] ends where the deadline has passed. *)
Fixpoint recv_timeout (waits : list (list qop * bool)) (q : chan) : chan * option T :=
  match items q with
  | x :: rest => (with_items rest q, Some x)
  | [] =>
      if closed q then (q, None)
      else
        match waits with
        | [] => (q, None)
        | (ops, timed_out) :: waits =>
            let q := foldl (fun q o => run_qop o q) q ops in
            if timed_out && match items q with [] => true | _ => false end then (q, None)
            else recv_timeout waits q
        end
  end.

(** ** Any sequence of operations

    [sent] and [received] are ghosts: what an open queue accepted, and what the receiver got. *)
Inductive event := ESend (item : T) | ERecv (waits : list (list qop * bool)).

(** The items the operations of other threads hand to an open queue, and how many they evict. *)
Fixpoint ops_sent (ops : list qop) (q : chan) : list T :=
  match ops with
  | [] => []
  | o :: ops => match o with QSend x => if closed q then [] else [x] | _ => [] end ++ ops_sent ops (run_qop o q)
  end.

Fixpoint waits_sent (waits : list (list qop * bool)) (q : chan) : list T :=
  match items q with
  | _ :: _ => []
  | [] =>
      if closed q then []
      else
        match waits with
        | [] => []
        | (ops, timed_out) :: waits =>
            let q' := foldl (fun q o => run_qop o q) q ops in
            ops_sent ops q ++ (if timed_out && match items q' with [] => true | _ => false end then [] else waits_sent waits q')
        end
  end.

(** The sum of what [send] returned to these threads. *)
Fixpoint ops_evicted (ops : list qop) (q : chan) : Z :=
  match ops with
  | [] => 0
  | o :: ops => match o with QSend x => (send x q).2 | _ => 0 end + ops_evicted ops (run_qop o q)
  end.

Fixpoint waits_evicted (waits : list (list qop * bool)) (q : chan) : Z :=
  match items q with
  | _ :: _ => 0
  | [] =>
      if closed q then 0
      else
        match waits with
        | [] => 0
        | (ops, timed_out) :: waits =>
            let q' := foldl (fun q o => run_qop o q) q ops in
            ops_evicted ops q + (if timed_out && match items q' with [] => true | _ => false end then 0 else waits_evicted waits q')
        end
  end.

Record trace := Trace { tq : chan; sent : list T; received : list T }.

Definition run_event (t : trace) (e : event) : trace :=
  match e with
  | ESend x => Trace (send x (tq t)).1 (sent t ++ if closed (tq t) then [] else [x]) (received t)
  | ERecv waits =>
      let '(q, r) := recv_timeout waits (tq t) in
      Trace q (sent t ++ waits_sent waits (tq t)) (received t ++ match r with Some x => [x] | None => [] end)
  end.

(** The sum of what all calls of [send] returned in a run. *)
Fixpoint evictions (es : list event) (t : trace) : Z :=
  match es with
  | [] => 0
  | e :: es => match e with ESend x => (send x (tq t)).2 | ERecv waits => waits_evicted waits (tq t) end + evictions es (run_event t e)
  end.

(** The queue holds the newest of what was sent; what was received comes, in order, from before that. *)
Record trace_ok (t : trace) : Prop := {
  t_cap : 0 < capacity (tq t);
  t_len : zlen (items (tq t)) <= capacity (tq t);
  t_hist : exists gone, sent t = gone ++ items (tq t) /\ received t `sublist_of` gone
}.

Lemma send_items x q : 0 < capacity q -> zlen (items q) <= capacity q ->
  zlen (items (send x q).1) <= capacity q /\ capacity (send x q).1 = capacity q
  /\ exists gone, items q ++ (if closed q then [] else [x]) = gone ++ items (send x q).1
       /\ (send x q).2 = zlen gone /\ (closed q = false -> zlen (items q) < capacity q -> gone = []).
Proof.
  intros Hc Hl. unfold send. destruct (closed q); [split; [done|]; split; [done|]; exists []; by rewrite app_nil_r|].
  destruct (Z.leb_spec (capacity q) (zlen (items q))); cbn [fst snd items capacity with_items].
  - destruct (items q) as [|y l]; [rewrite zlen_nil in *; lia|]. cbn [tail]. rewrite zlen_app, !zlen_cons in *. rewrite zlen_nil.
    split; [lia|]. split; [done|]. exists [y]. split; [done|]. split; [done|]. intros _ ?. lia.
  - rewrite zlen_app, zlen_cons, zlen_nil. split; [lia|]. split; [done|]. by exists [].
Qed.

Lemma run_ops_items ops q : 0 < capacity q -> zlen (items q) <= capacity q ->
  let q' := foldl (fun q o => run_qop o q) q ops in
  zlen (items q') <= capacity q /\ capacity q' = capacity q /\ exists gone, items q ++ ops_sent ops q = gone ++ items q'.
Proof.
  revert q. induction ops as [|o ops IH]; intros q Hc Hl; [cbn; split; [done|]; split; [done|]; exists []; by rewrite app_nil_r|].
  cbn [foldl ops_sent].
  assert (H1 : zlen (items (run_qop o q)) <= capacity q /\ capacity (run_qop o q) = capacity q
    /\ exists gone, items q ++ match o with QSend x => if closed q then [] else [x] | _ => [] end = gone ++ items (run_qop o q)).
  { destruct o as [x| | |]; cbn [run_qop].
    - destruct (send_items x q Hc Hl) as (? & ? & gone & ? & _). naive_solver.
    - split; [done|]. split; [done|]. exists []. by rewrite app_nil_r.
    - unfold drop_body. destruct (_ <=? _); (split; [done|]; split; [done|]; exists []; by rewrite app_nil_r).
    - split; [done|]. split; [done|]. exists []. by rewrite app_nil_r. }
  destruct H1 as (Hl1 & Hc1 & g1 & E1). destruct (IH (run_qop o q)) as (Hl2 & Hc2 & g2 & E2); [lia..|].
  split; [lia|]. split; [lia|]. exists (g1 ++ g2). by rewrite app_assoc, E1, <- app_assoc, E2, app_assoc.
Qed.

(** What a receive takes out comes first of what is there or arrives; it comes back empty-handed only from
    an empty queue. *)
Lemma recv_items waits q q' r : 0 < capacity q -> zlen (items q) <= capacity q -> recv_timeout waits q = (q', r) ->
  zlen (items q') <= capacity q /\ capacity q' = capacity q
  /\ (exists gone, items q ++ waits_sent waits q = gone ++ match r with Some x => [x] | None => [] end ++ items q')
  /\ (r = None -> items q' = []).
Proof.
  revert q. induction waits as [|[ops timed_out] waits IH]; intros q Hc Hl; cbn [recv_timeout waits_sent].
  - destruct (items q) as [|x rest] eqn:Ei; [destruct (closed q)|]; intros [= <- <-].
    + split; [by rewrite Ei|]. split; [done|]. split; [exists []; by rewrite Ei|done].
    + split; [by rewrite Ei|]. split; [done|]. split; [exists []; by rewrite Ei|done].
    + cbn [items with_items capacity]. rewrite zlen_cons in Hl. split; [lia|]. split; [done|]. split; [exists []; by rewrite app_nil_r|done].
  - destruct (items q) as [|x rest] eqn:Ei; [destruct (closed q)|].
    + intros [= <- <-]. split; [by rewrite Ei|]. split; [done|]. split; [exists []; by rewrite Ei|done].
    + destruct (run_ops_items ops q Hc ltac:(by rewrite Ei)) as (Hl1 & Hc1 & g1 & E1). rewrite Ei in E1. cbn [app] in E1.
      set (q1 := foldl _ q ops) in *. destruct (timed_out && _) eqn:Et.
      * intros [= <- <-]. apply andb_prop in Et as [Eto Et]. rewrite ?Eto. destruct (items q1) eqn:E2; [|done].
        split; [rewrite zlen_nil; lia|]. split; [done|]. split; [|done]. exists g1. cbn [app]. by rewrite E1, !app_nil_r.
      * intros E. destruct (IH q1 ltac:(lia) ltac:(lia) E) as (Hl2 & Hc2 & (g2 & E2) & Hn).
        split; [lia|]. split; [lia|]. split; [|done]. exists (g1 ++ g2). cbn [app]. by rewrite E1, <- app_assoc, E2, app_assoc.
    + intros [= <- <-]. cbn [items with_items capacity]. rewrite zlen_cons in Hl. split; [lia|]. split; [done|].
      split; [exists []; by rewrite app_nil_r|done].
Qed.

Lemma run_event_ok t e : trace_ok t -> trace_ok (run_event t e).
Proof.
  intros [Hc Hl (gone & Hs & Hr)]. destruct e as [x|waits]; cbn [run_event].
  - destruct (send_items x (tq t) Hc Hl) as (Hl' & Hc' & g & E & _). constructor; cbn [tq sent received]; [lia|lia|].
    exists (gone ++ g). rewrite Hs, <- !app_assoc, E. split; [done|]. by apply sublist_inserts_r.
  - destruct (recv_timeout waits (tq t)) as [q' r] eqn:E.
    destruct (recv_items waits (tq t) q' r Hc Hl E) as (Hl' & Hc' & (g & Eg) & _).
    constructor; cbn [tq sent received]; [lia|lia|]. exists (gone ++ g ++ match r with Some x => [x] | None => [] end).
    rewrite Hs, <- !app_assoc, Eg. split; [done|]. apply sublist_app; [done|]. by apply sublist_inserts_l.
Qed.

Lemma run_event_cap t e : trace_ok t -> capacity (tq (run_event t e)) = capacity (tq t).
Proof.
  intros [Hp Hl _]. destruct e as [x|waits]; cbn [run_event].
  - by destruct (send_items x (tq t) Hp Hl) as (_ & Hc & _).
  - destruct (recv_timeout waits (tq t)) as [q' r] eqn:Er. by destruct (recv_items _ _ _ _ Hp Hl Er) as (_ & Hc & _).
Qed.

Lemma run_events_ok cap q0 es : channel cap = Some q0 ->
  let t := foldl run_event (Trace q0 [] []) es in trace_ok t /\ capacity (tq t) = cap.
Proof.
  unfold channel. destruct (Z.ltb_spec 0 cap) as [Hc|]; [|done]. intros E. assert (q0 = Chan [] false cap 2) as -> by congruence.
  assert (H0 : trace_ok (Trace (Chan [] false cap 2) [] [])).
  { constructor; [done|cbn [tq items capacity]; rewrite zlen_nil; lia|by exists []]. }
  assert (Hc0 : capacity (tq (Trace (Chan [] false cap 2) [] [])) = cap) by done. revert H0 Hc0.
  generalize (Trace (Chan [] false cap 2) [] []). induction es as [|e es IH]; intros t0 H0 Hc0; [done|]. cbn [foldl].
  apply IH; [by apply run_event_ok|]. by rewrite run_event_cap.
Qed.

(** *** Every item is accounted for *)

Lemma send_effect x q :
  let n := if closed q || (zlen (items q) <? capacity q) then 0 else 1 in
  send x q = (with_items (zdrop n (items q) ++ (if closed q then [] else [x])) q, n).
Proof.
  unfold send. destruct q as [l [] c s]; cbn [closed items capacity orb]; [by rewrite app_nil_r|].
  destruct (Z.leb_spec c (zlen l)), (Z.ltb_spec (zlen l) c); try lia; [|done]. by destruct l.
Qed.

Lemma send_balance x q : 0 < capacity q ->
  zlen (items q) + zlen (if closed q then [] else [x]) = (send x q).2 + zlen (items (send x q).1).
Proof.
  intros Hc. rewrite send_effect. cbn [fst snd items with_items]. rewrite zlen_app.
  destruct (closed q); cbn [orb]; [by rewrite zlen_nil|]. destruct (Z.ltb_spec (zlen (items q)) (capacity q)); [done|].
  rewrite zlen_zdrop by lia. lia.
Qed.

Lemma ops_balance ops q : 0 < capacity q ->
  zlen (items q) + zlen (ops_sent ops q) = ops_evicted ops q + zlen (items (foldl (fun q o => run_qop o q) q ops)).
Proof.
  revert q. induction ops as [|o ops IH]; intros q Hc; cbn [ops_sent ops_evicted foldl]; [rewrite zlen_nil; lia|]. rewrite zlen_app.
  assert (Hc' : capacity (run_qop o q) = capacity q).
  { destruct o as [x| | |]; cbn [run_qop]; [by rewrite send_effect|done| |done]. unfold drop_body. by destruct (_ <=? _). }
  specialize (IH (run_qop o q) ltac:(lia)).
  assert (Hi : match o with QSend _ => True | _ => items (run_qop o q) = items q end).
  { destruct o; cbn [run_qop]; try done. unfold drop_body. by destruct (_ <=? _). }
  destruct o as [x| | |]; cbn [run_qop] in *; [pose proof (send_balance x q Hc); lia|rewrite zlen_nil, Hi in *; lia..].
Qed.

Lemma recv_balance waits q : 0 < capacity q ->
  let '(q', r) := recv_timeout waits q in
  zlen (items q) + zlen (waits_sent waits q) = waits_evicted waits q + zlen (match r with Some x => [x] | None => [] end) + zlen (items q').
Proof.
  revert q. induction waits as [|[ops timed_out] waits IH]; intros q Hc; cbn [recv_timeout waits_sent waits_evicted].
  - destruct (items q) as [|x rest] eqn:Ei; [destruct (closed q)|]; rewrite ?Ei; cbn [items with_items]; rewrite ?zlen_cons, ?zlen_nil; lia.
  - destruct (items q) as [|x rest] eqn:Ei.
    2: { cbn [items with_items]. rewrite !zlen_cons, !zlen_nil. lia. }
    destruct (closed q); [by rewrite Ei|].
    pose proof (ops_balance ops q Hc) as Ho. rewrite Ei, zlen_nil in Ho.
    assert (Hc' : capacity (foldl (fun q o => run_qop o q) q ops) = capacity q).
    { clear. revert q. induction ops as [|o ops IH]; intros q; [done|]. cbn [foldl]. rewrite IH.
      destruct o; cbn [run_qop]; [by rewrite send_effect|done| |done]. unfold drop_body. by destruct (_ <=? _). }
    set (q1 := foldl _ q ops) in *. destruct (timed_out && _); rewrite zlen_app.
    + rewrite !zlen_nil. lia.
    + specialize (IH q1 ltac:(lia)). destruct (recv_timeout waits q1) as [q2 r]. rewrite zlen_nil. lia.
Qed.

Lemma run_balance es t : trace_ok t ->
  let t' := foldl run_event t es in
  zlen (sent t') + zlen (received t) + zlen (items (tq t)) = zlen (sent t) + evictions es t + zlen (received t') + zlen (items (tq t')).
Proof.
  revert t. induction es as [|e es IH]; intros t Ht; cbn [foldl evictions]; [lia|]. specialize (IH _ (run_event_ok t e Ht)). cbv zeta in *.
  pose proof (t_cap _ Ht) as Hc. destruct e as [x|waits]; cbn [run_event] in *.
  - cbn [sent received tq] in *. rewrite zlen_app in IH. pose proof (send_balance x (tq t) Hc). lia.
  - pose proof (recv_balance waits (tq t) Hc) as Hb. destruct (recv_timeout waits (tq t)) as [q' r]. cbn [sent received tq] in *.
    rewrite !zlen_app in IH. lia.
Qed.

Lemma received_from_sent cap q0 es : channel cap = Some q0 ->
  received (foldl run_event (Trace q0 [] []) es) `sublist_of` sent (foldl run_event (Trace q0 [] []) es).
Proof. intros E. destruct (run_events_ok cap q0 es E) as [[_ _ (gone & -> & Hr)] _]. by apply sublist_inserts_r. Qed.
End queue.
Arguments chan : clear implicits.
Arguments qop : clear implicits.
Arguments event : clear implicits.
Arguments trace : clear implicits.

(** C37: a peer's queue.  After any sequence of sends and receives, whatever other threads send, clone or
    drop while a receive waits, the queue has at most its capacity of entries; they are the newest ones
    sent, the oldest first; what the receiver got comes from the items before them, in the order sent and
    none of them twice; and every item sent was received, or is in the queue, or is counted by a [send] as evicted.
    A send on a closed queue changes nothing; else it appends its item, after taking out the oldest one if
    and only if the queue is full, and returns how many it took out.  A receive takes the oldest entry if there is one, and
    gives up only on an empty queue. *)
Theorem queue_keeps_the_newest {T} cap (q0 : chan T) es :
  channel cap = Some q0 ->
  let t := foldl run_event (Trace q0 [] []) es in
  zlen (items (tq t)) <= cap
  /\ (exists gone, sent t = gone ++ items (tq t) /\ received t `sublist_of` gone)
  /\ zlen (sent t) = zlen (received t) + evictions es (Trace q0 [] []) + zlen (items (tq t))
  /\ (forall x, send x (tq t)
        = if closed (tq t) then (tq t, 0)
          else let n := if zlen (items (tq t)) <? cap then 0 else 1 in (with_items (zdrop n (items (tq t)) ++ [x]) (tq t), n))
  /\ (forall waits, match items (tq t) with
                   | x :: rest => recv_timeout waits (tq t) = (with_items rest (tq t), Some x)
                   | [] => forall q, recv_timeout waits (tq t) = (q, None) -> items q = []
                   end).
Proof.
  intros E t. pose proof (run_balance es (Trace q0 [] [])) as Hb. destruct (run_events_ok cap q0 es E) as [[Hp Hl Hh] Hcap].
  destruct (run_events_ok cap q0 [] E) as [H0 _]. cbn [foldl] in H0. specialize (Hb H0). cbv zeta in Hb. fold t in Hp, Hl, Hh, Hcap, Hb.
  assert (items q0 = []) as E0 by (unfold channel in E; destruct (0 <? cap); [by injection E as <-|done]).
  cbn [sent received tq] in Hb. rewrite E0, !zlen_nil in Hb. rewrite Hcap in *. split; [done|]. split; [done|]. split; [lia|]. split.
  - intros x. rewrite send_effect, Hcap. destruct (closed (tq t)) eqn:Ecl; cbn [orb]; [|done].
    destruct (tq t) as [l ? ? ?]. cbn in *. by rewrite app_nil_r.
  - intros waits. destruct (items (tq t)) as [|x rest] eqn:Ei; [|destruct waits as [|[]]; cbn [recv_timeout]; by rewrite Ei].
    intros q Er. apply (recv_items waits (tq t) q None); rewrite ?Hcap, ?Ei; done.
Qed.

(** Two senders dropped at the same time: each sees the other's reference, and nobody closes the queue. *)
Example concurrent_drops_leave_it_open :
  let q := Chan [1] false 4 3 in
  closed (drop_ref (drop_ref (drop_body (drop_body q)))) = false
  /\ closed (drop_ref (drop_body (drop_ref (drop_body q)))) = true.
Proof. done. Qed.

Lemma queue_keeps_the_newest_witness :
  let t := foldl run_event (Trace (Chan (@nil Z) false 2 2) [] [])
             [ESend 1; ESend 2; ESend 3; ERecv []; ERecv []; ERecv [([QSend 4; QSend 5; QSend 6], false)]; ESend 7] in
  zlen (items (tq t)) <= 2 /\ received t = [2; 3; 5].
Proof.
  split; [|vm_compute; reflexivity].
  apply (queue_keeps_the_newest 2 (Chan (@nil Z) false 2 2)). reflexivity.
Defined.
