(* ===== verification/BridgeConfig.v ===== *)
(** * The bridge's configuration ([crates/mmbus-bridge/src/config.rs])

    The parsed configuration and its semantic validation.  The TOML parser is a library's; a path is
    a string here. *)

From Stdlib Require Import ZArith Lia.
From stdpp Require Import base option list.
From S2P Require Import Prelude Text.

Inductive transport_kind := Tcp | Quic.

Definition is_quic (t : transport_kind) : bool := match t with Quic => true | Tcp => false end.
Definition is_tcp (t : transport_kind) : bool := match t with Tcp => true | Quic => false end.

Record topic_config := TopicConfig { tname : rstring; forward : bool; receive : bool }.

Record peer_config := PeerConfig {
  pname : rstring;
  endpoint : rstring;
  preshared_key : rstring;
  transport : transport_kind;
  peer_cert_fingerprint : option rstring
}.

Record bridge_config := BridgeConfig {
  bus : rstring;
  base_dir : option rstring;
  cfg_origin_id : option Z;
  listen : option rstring;
  peer_buffer_max : Z;
  listen_quic : option rstring;
  quic_cert_path : option rstring;
  quic_key_path : option rstring;
  quic_worker_threads : Z;
  topics : list topic_config;
  peers : list peer_config
}.

(** The fields' defaults. *)
Definition default_true : bool := true.
Definition default_peer_buffer_max : Z := 4096.
Definition default_quic_worker_threads : Z := 2.

Inductive config_error :=
  | EmptyBus
  | BadEndpoint (e : rstring)
  | DuplicatePeerName (n : rstring)
  | QuicPeerMissingFingerprint (n : rstring)
  | BadCertFingerprint (peer got : rstring)
  | QuicWorkerThreadsZero.

(** [trim().is_empty()] *)
Definition blank (s : rstring) : bool := forallb is_whitespace s.

Definition is_ascii_hexdigit (c : Z) : bool :=
  ((48 <=? c) && (c <=? 57)) || ((65 <=? c) && (c <=? 70)) || ((97 <=? c) && (c <=? 102)).

(** ["sha256:"] and [':'] *)
Definition SHA256_PREFIX : rstring := [115; 104; 97; 50; 53; 54; 58].
Definition COLON : Z := 58.

Definition validate_cert_fingerprint (peer fp : rstring) : result config_error unit :=
  match strip_prefix SHA256_PREFIX fp with
  | None => Err (BadCertFingerprint peer fp)
  | Some rest =>
      if match rest with [] => true | _ => false end || negb (forallb is_ascii_hexdigit rest)
      then Err (BadCertFingerprint peer fp) else Ok tt
  end.

(** The first loop over the peers. *)
Fixpoint check_peers (ps : list peer_config) : result config_error unit :=
  match ps with
  | [] => Ok tt
  | p :: ps =>
      if negb (existsb (Z.eqb COLON) (endpoint p)) then Err (BadEndpoint (endpoint p))
      else if is_quic (transport p) then
        match peer_cert_fingerprint p with
        | None => Err (QuicPeerMissingFingerprint (pname p))
        | Some fp => let? _ := validate_cert_fingerprint (pname p) fp in check_peers ps
        end
      else check_peers ps
  end.

(** The second: [seen] is the hash set. *)
Fixpoint check_names (seen : list rstring) (ps : list peer_config) : result config_error unit :=
  match ps with
  | [] => Ok tt
  | p :: ps => if bool_decide (pname p ∈ seen) then Err (DuplicatePeerName (pname p)) else check_names (pname p :: seen) ps
  end.

Definition validate (c : bridge_config) : result config_error unit :=
  if blank (bus c) then Err EmptyBus
  else
    let? _ := check_peers (peers c) in
    let? _ := check_names [] (peers c) in
    if quic_worker_threads c =? 0 then Err QuicWorkerThreadsZero else Ok tt.

(** ** What a valid configuration is *)

Definition fingerprint_ok (fp : rstring) : Prop :=
  exists hex, fp = SHA256_PREFIX ++ hex /\ hex <> [] /\ Forall (fun c => is_ascii_hexdigit c = true) hex.

Definition peer_ok (p : peer_config) : Prop :=
  COLON ∈ endpoint p /\ (transport p = Quic -> exists fp, peer_cert_fingerprint p = Some fp /\ fingerprint_ok fp).

Lemma forallb_Forall {A} (f : A -> bool) l : forallb f l = true <-> Forall (fun x => f x = true) l.
Proof.
  rewrite List.forallb_forall, Forall_forall. by split; intros Hl x Hx; apply Hl, list_elem_of_In.
Qed.

Lemma fingerprint_spec n fp : validate_cert_fingerprint n fp = Ok tt <-> fingerprint_ok fp.
Proof.
  unfold validate_cert_fingerprint. destruct (strip_prefix SHA256_PREFIX fp) as [rest|] eqn:E.
  - apply strip_prefix_spec in E. split.
    + intros Hv. exists rest. destruct rest as [|x rest]; [done|]. cbn [orb] in Hv.
      destruct (forallb _ (x :: rest)) eqn:Ef; [|done]. split; [done|]. split; [done|]. by apply forallb_Forall.
    + intros (hex & E2 & Hne & Hh). rewrite E in E2. apply app_inv_head in E2 as <-. destruct rest as [|x rest]; [done|].
      cbn [orb]. by rewrite (proj2 (forallb_Forall _ _) Hh).
  - split; [done|]. intros (hex & Ef & _). by rewrite (proj2 (strip_prefix_spec _ _ hex) Ef) in E.
Qed.

Lemma has_colon s : existsb (Z.eqb COLON) s = true <-> COLON ∈ s.
Proof.
  rewrite List.existsb_exists. split.
  - intros (x & Hx & E). apply Z.eqb_eq in E as ->. by apply list_elem_of_In.
  - intros Hc. exists COLON. split; [by apply list_elem_of_In|by apply Z.eqb_eq].
Qed.

Lemma check_peers_spec ps : check_peers ps = Ok tt <-> Forall peer_ok ps.
Proof.
  induction ps as [|p ps IH]; [by split|]. cbn [check_peers]. rewrite Forall_cons. unfold peer_ok at 1.
  rewrite <- has_colon, <- IH. destruct (existsb _ _); cbn [negb]; [|naive_solver].
  destruct (transport p); cbn [is_quic]; [naive_solver|]. destruct (peer_cert_fingerprint p) as [fp|]; [|naive_solver].
  pose proof (fingerprint_spec (pname p) fp) as Hf. destruct (validate_cert_fingerprint _ _) as [[]|e]; naive_solver.
Qed.

Lemma check_names_spec seen ps :
  check_names seen ps = Ok tt <-> NoDup (map pname ps) /\ Forall (fun p => pname p ∉ seen) ps.
Proof.
  revert seen. induction ps as [|p ps IH]; intros seen; cbn [check_names map]; [split; [repeat constructor|done]|].
  rewrite NoDup_cons, Forall_cons. destruct (bool_decide_reflect (pname p ∈ seen)) as [Hin|Hni]; [naive_solver|].
  rewrite IH. setoid_rewrite not_elem_of_cons. rewrite (Forall_and (fun x => pname x <> pname p)).
  assert (Hp : pname p ∉ map pname ps <-> Forall (fun x => pname x <> pname p) ps).
  { rewrite Forall_forall. setoid_rewrite list_elem_of_fmap. naive_solver. }
  naive_solver.
Qed.

(** What is wrong with a peer. *)
Definition peer_fault (p : peer_config) (e : config_error) : Prop :=
  match e with
  | BadEndpoint x => x = endpoint p /\ COLON ∉ endpoint p
  | QuicPeerMissingFingerprint n => n = pname p /\ transport p = Quic /\ peer_cert_fingerprint p = None
  | BadCertFingerprint n got => n = pname p /\ transport p = Quic /\ peer_cert_fingerprint p = Some got /\ ~ fingerprint_ok got
  | _ => False
  end.

Lemma fingerprint_error n fp e : validate_cert_fingerprint n fp = Err e -> e = BadCertFingerprint n fp.
Proof. unfold validate_cert_fingerprint. destruct (strip_prefix _ _); [destruct (_ || _)|]; by intros [= <-]. Qed.

Lemma check_peers_error ps e : check_peers ps = Err e ->
  exists l p l', ps = l ++ p :: l' /\ Forall peer_ok l /\ peer_fault p e.
Proof.
  induction ps as [|p ps IH]; [done|]. cbn [check_peers].
  destruct (existsb (Z.eqb COLON) (endpoint p)) eqn:Ec; cbn [negb].
  2:{ intros [= <-]. exists [], p, ps. split; [done|]. split; [constructor|]. split; [done|]. rewrite <- has_colon. by rewrite Ec. }
  apply has_colon in Ec.
  assert (Hgo : peer_ok p -> check_peers ps = Err e -> exists l p0 l', p :: ps = l ++ p0 :: l' /\ Forall peer_ok l /\ peer_fault p0 e).
  { intros Hp E. destruct (IH E) as (l & q & l' & -> & Hl & Hq). exists (p :: l), q, l'. split; [done|]. split; [by constructor|done]. }
  destruct (transport p) eqn:Et; cbn [is_quic]; [apply Hgo; split; [done|by rewrite Et]|].
  destruct (peer_cert_fingerprint p) as [fp|] eqn:Ef.
  - destruct (validate_cert_fingerprint (pname p) fp) as [[]|e'] eqn:Ev.
    + apply Hgo. split; [done|]. intros _. exists fp. split; [done|]. by apply fingerprint_spec in Ev.
    + intros [= <-]. exists [], p, ps. split; [done|]. split; [constructor|]. pose proof (fingerprint_error _ _ _ Ev) as ->.
      split; [done|]. split; [done|]. split; [done|]. intros Hf. apply (fingerprint_spec (pname p)) in Hf. by rewrite Hf in Ev.
  - intros [= <-]. by exists [], p, ps.
Qed.

Lemma check_names_error seen ps e : check_names seen ps = Err e ->
  exists l p l', ps = l ++ p :: l' /\ e = DuplicatePeerName (pname p) /\ NoDup (map pname l)
    /\ Forall (fun x => pname x ∉ seen) l /\ (pname p ∈ map pname l \/ pname p ∈ seen).
Proof.
  revert seen. induction ps as [|p ps IH]; intros seen; [done|]. cbn [check_names].
  destruct (bool_decide_reflect (pname p ∈ seen)) as [Hin|Hni].
  - intros [= <-]. exists [], p, ps. repeat split; [constructor|constructor|by right].
  - intros E. destruct (IH _ E) as (l & q & l' & -> & -> & Hnd & Hl & Hq). exists (p :: l), q, l'. split; [done|]. split; [done|].
    assert (Hpl : pname p ∉ map pname l).
    { intros Hin. apply list_elem_of_fmap in Hin as (x & Hx & Hxl). rewrite Forall_forall in Hl. specialize (Hl x Hxl).
      apply Hl. rewrite <- Hx. by left. }
    split; [cbn [map]; by constructor|]. split.
    + constructor; [done|]. eapply Forall_impl; [exact Hl|]. intros x Hx Hs. apply Hx. by right.
    + cbn [map]. destruct Hq as [Hq|Hq]; [left; by right|]. apply elem_of_cons in Hq as [->|Hq]; [left; by left|by right].
Qed.

(** C39: validation accepts exactly the configurations whose bus name is not blank, whose peers have a
    host:port, unique names and, for QUIC, a pinned fingerprint of the form sha256:HEX, and that give the
    runtime a thread; otherwise the error names the first fault, in that order, of the first peer that
    has one. *)
Theorem validate_spec c :
  (validate c = Ok tt <->
     blank (bus c) = false /\ Forall peer_ok (peers c) /\ NoDup (map pname (peers c)) /\ quic_worker_threads c <> 0)
  /\ forall e, validate c = Err e ->
       match e with
       | EmptyBus => blank (bus c) = true
       | DuplicatePeerName n =>
           Forall peer_ok (peers c)
           /\ exists l p l', peers c = l ++ p :: l' /\ pname p = n /\ NoDup (map pname l) /\ n ∈ map pname l
       | QuicWorkerThreadsZero => Forall peer_ok (peers c) /\ NoDup (map pname (peers c)) /\ quic_worker_threads c = 0
       | _ => exists l p l', peers c = l ++ p :: l' /\ Forall peer_ok l /\ peer_fault p e
       end.
Proof.
  unfold validate. pose proof (check_peers_spec (peers c)) as Hp. pose proof (check_names_spec [] (peers c)) as Hn.
  assert (Hnil : Forall (fun p => pname p ∉ []) (peers c)) by (apply Forall_forall; intros x _; apply not_elem_of_nil).
  destruct (blank (bus c)); [split; [naive_solver|by intros e [= <-]]|].
  destruct (check_peers (peers c)) as [[]|e] eqn:Ep.
  2:{ split; [naive_solver|]. intros e' [= <-]. pose proof (check_peers_error _ _ Ep) as He.
      destruct e; try done; destruct He as (? & ? & ? & _ & _ & []). }
  destruct (check_names [] (peers c)) as [[]|e] eqn:En.
  2:{ split; [naive_solver|]. intros e' [= <-]. destruct (check_names_error _ _ _ En) as (l & p & l' & El & -> & Hnd & _ & [Hin|Hin]);
        [|by apply not_elem_of_nil in Hin]. split; [by apply Hp|]. by exists l, p, l'. }
  destruct (Z.eqb_spec (quic_worker_threads c) 0); (split; [naive_solver|]).
  - intros e' [= <-]. split; [by apply Hp|]. split; [by apply Hn|done].
  - done.
Qed.

(** Two peers of one name; the second is refused. *)
Definition demo_peer (n : Z) : peer_config := PeerConfig [n] [104; 58; 49] [107] Tcp None.

Lemma validate_spec_witness :
  let c := BridgeConfig [98] None None None default_peer_buffer_max None None None default_quic_worker_threads [] [demo_peer 97; demo_peer 97] in
  exists l p l', peers c = l ++ p :: l' /\ pname p = [97] /\ NoDup (map pname l) /\ [97] ∈ map pname l.
Proof.
  intros c. assert (E : validate c = Err (DuplicatePeerName [97])) by (vm_compute; reflexivity).
  exact (proj2 (proj2 (validate_spec c) _ E)).
Defined.
