(* ===== verification/Bridge.v ===== *)
(** * The bridge ([crates/mmbus-bridge/src/bridge.rs])

    The threads of a bridge as functions of what they see: the reader of an accepted connection, the
    publisher it feeds, the subscriber of a forwarded topic, the forwarder of a peer.  Only the TCP
    transport is modelled; a socket is the list of the outcomes of the calls on it, a [str] its UTF-8
    bytes. *)

From Stdlib Require Import ZArith Lia Strings.Byte.
From stdpp Require Import base option gmap list.
From S2P Require Import Prelude Text BridgeConfig Frame Queue.

(** ** The configuration the threads get ([Bridge::start]) *)

Definition forward_topics (c : bridge_config) : list (list byte) :=
  map (fun t => as_bytes (tname t)) (filter (fun t => forward t = true) (topics c)).
Definition receive_topics (c : bridge_config) : list (list byte) :=
  map (fun t => as_bytes (tname t)) (filter (fun t => receive t = true) (topics c)).
Definition accepted_psks (c : bridge_config) : list (list byte) := map (fun p => as_bytes (preshared_key p)) (peers c).

(** [ME] and [IE] are the errors of the bus and of the operating system; the reason given for a missing
    feature is the listener or a peer. *)
Inductive bridge_error (ME IE : Type) :=
  | Mmbus (e : ME)
  | Listen (e : IE)
  | QuicNotCompiled (listener : bool)
  | QuicSetup (why : rstring).
Arguments QuicNotCompiled {ME IE} listener.

(** The guard of a build without the [quic] feature. *)
Definition start_guard {ME IE} (c : bridge_config) : result (bridge_error ME IE) unit :=
  match listen_quic c with
  | Some _ => Err (QuicNotCompiled true)
  | None => if existsb (fun p => is_quic (transport p)) (peers c) then Err (QuicNotCompiled false) else Ok tt
  end.

(** What a forwarder sends first. *)
Definition hello_bytes (origin : Z) (p : peer_config) : list byte :=
  encode (peer_hello_with_psk origin (as_bytes (preshared_key p))) [].

(** ** Receiving *)

(** [handle_frame]: what it sends to the publisher thread. *)
Definition handle_frame (our_origin_id : Z) (receive_topics : list (list byte)) (f : frame) : option (list byte * list byte) :=
  if origin_id f =? our_origin_id then None
  else
    match ftype f with
    | Msg => if utf8_valid (topic f) then if bool_decide (topic f ∈ receive_topics) then Some (topic f, fpayload f) else None else None
    | PeerHello | Ping | TopicSubscribe => None
    end.

Inductive close_reason :=
  | NotHello (t : frame_type)
  | MalformedHello (e : decode_error)
  | PskMismatch
  | ProtocolError (e : decode_error)
  | PeerClosed
  | ReadFailed
  | ShuttingDown.

(** A connection: the bytes not yet decoded, whether the peer is authenticated, what was sent on. *)
Record conn := Conn {
  cbuf : list byte;
  authenticated : bool;
  published : list (list byte * list byte)
}.

Section reader.
Variables (our_origin_id : Z) (receive_topics accepted_psks : list (list byte)).

(** One complete frame at the front of the buffer. *)
Definition on_frame (c : conn) (f : frame) (n : Z) : conn + close_reason :=
  if authenticated c then
    inl (Conn (zdrop n (cbuf c)) true
           (published c ++ match handle_frame our_origin_id receive_topics f with Some m => [m] | None => [] end))
  else if bool_decide (ftype f = PeerHello) then
    match parse_peer_hello (fpayload f) with
    | Err e => inr (MalformedHello e)
    | Ok (_, psk) =>
        if bool_decide (psk ∈ accepted_psks) then inl (Conn (zdrop n (cbuf c)) true (published c)) else inr PskMismatch
    end
  else inr (NotHello (ftype f)).

(** The inner loop: every complete frame in the buffer. *)
Fixpoint drain_frames (fuel : nat) (c : conn) : conn * option close_reason :=
  match fuel with
  | O => (c, None)
  | S fuel =>
      match decode (cbuf c) with
      | Ok (f, n) =>
          match on_frame c f n with
          | inl c => drain_frames fuel c
          | inr r => (c, Some r)
          end
      | Err (Incomplete _ _) => (c, None)
      | Err e => (c, Some (ProtocolError e))
      end
  end.

(** A frame takes at least a byte. *)
Definition drain (c : conn) : conn * option close_reason := drain_frames (S (length (cbuf c))) c.

(** The outcome of a read, or the shutdown flag seen at the top of the loop. *)
Inductive read := RBytes (chunk : list byte) | RTimeout | REof | RError | RShutdown.

Fixpoint reader_main (reads : list read) (c : conn) : conn * option close_reason :=
  match reads with
  | [] => (c, None)
  | RBytes chunk :: reads =>
      match drain (Conn (cbuf c ++ chunk) (authenticated c) (published c)) with
      | (c, Some r) => (c, Some r)
      | (c, None) => reader_main reads c
      end
  | RTimeout :: reads => reader_main reads c
  | REof :: _ => (c, Some PeerClosed)
  | RError :: _ => (c, Some ReadFailed)
  | RShutdown :: _ => (c, Some ShuttingDown)
  end.

Definition accepted : conn := Conn [] false [].
End reader.

(** [publisher_main]: the producer of every topic is made first, whatever comes of it; then the pairs are
    published as they arrive, whatever became of the one before, until the bridge stops. *)
Inductive pub_event := PubMsg (topic payload : list byte) | PubTimeout | PubStop.

Section publisher.
Context {S E : Type} (precreate : list byte -> M S E unit) (publish : list byte -> list byte -> M S E unit).

Fixpoint precreate_all (topics : list (list byte)) (bus : S) : S :=
  match topics with
  | [] => bus
  | t :: topics => precreate_all topics (precreate t bus).1
  end.

Fixpoint publish_all (es : list pub_event) (bus : S) : S :=
  match es with
  | [] => bus
  | PubMsg t p :: es => publish_all es (publish t p bus).1
  | PubTimeout :: es => publish_all es bus
  | PubStop :: _ => bus
  end.

Definition publisher_main (receive_topics : list (list byte)) (es : list pub_event) (bus : S) : S :=
  publish_all es (precreate_all receive_topics bus).
End publisher.

(** ** Forwarding *)

(** The outcomes of the subscription's [recv_timeout]; [SEnd] makes the thread subscribe again. *)
Inductive sub_event := SPayload (p : list byte) | STimeout | SEnd.

(** [subscriber_main]: the sequence counter and the peers' queues. *)
Fixpoint subscriber_main (origin : Z) (topic : list byte) (es : list sub_event) (seq : Z) (qs : list (chan (list byte))) :
    Z * list (chan (list byte)) :=
  match es with
  | [] => (seq, qs)
  | SPayload p :: es =>
      let bytes := encode (msg origin seq topic p) [] in
      subscriber_main origin topic es (wrap64 (seq + 1)) (map (fun q => (send bytes q).1) qs)
  | STimeout :: es | SEnd :: es => subscriber_main origin topic es seq qs
  end.

(** One turn of [run_connection]'s loop: what the queue gave and how [write_all] ended: [Some k] is a
    failure after [k] bytes. *)
Inductive pump := PFrame (bytes : list byte) (failed : option Z) | PNone.

(** [run_connection] after its hello: the bytes put on the wire, and whether a write failed. *)
Fixpoint pump_frames (ps : list pump) : list byte * bool :=
  match ps with
  | [] => ([], false)
  | PFrame bytes None :: ps => let '(wire, failed) := pump_frames ps in (bytes ++ wire, failed)
  | PFrame bytes (Some k) :: _ => (ztake k bytes, true)
  | PNone :: ps => pump_frames ps
  end.

Definition run_connection (hello : list byte) (ps : list pump) : list byte * bool :=
  let '(wire, failed) := pump_frames ps in (hello ++ wire, failed).

(** The delay before connecting again, in milliseconds. *)
Definition next_backoff (b : Z) : Z := Z.min (b * 2) 1000.

(** The [mpsc] channel the readers share: any merge of what they send. *)
Inductive merge {A} : list (list A) -> list A -> Prop :=
  | merge_done ls : Forall (eq []) ls -> merge ls []
  | merge_send ls i x l m : ls !! i = Some (x :: l) -> merge (<[i := l]> ls) m -> merge ls (x :: m).
