(* ===== verification/BridgeSpec.v ===== *)
(** * What the bridge does with a byte stream ([Bridge.v])

    The reader depends on the bytes of the connection, not on how they are cut into reads, and its buffer is
    bounded. *)

From Stdlib Require Import ZArith Lia Strings.Byte.
From stdpp Require Import base option gmap list.
From S2P Require Import Prelude Text BridgeConfig Frame Queue Bridge.

(** ** The reader *)

Section reader.
Variables (our_origin_id : Z) (receive_topics accepted_psks : list (list byte)).

Definition with_more (more : list byte) (c : conn) : conn := Conn (cbuf c ++ more) (authenticated c) (published c).

#[local] Notation on_frame := (on_frame our_origin_id receive_topics accepted_psks).
#[local] Notation drain_frames := (drain_frames our_origin_id receive_topics accepted_psks).
#[local] Notation drain := (drain our_origin_id receive_topics accepted_psks).
#[local] Notation reader_main := (reader_main our_origin_id receive_topics accepted_psks).

Lemma decode_consumes buf f n : decode buf = Ok (f, n) -> 32 <= n <= zlen buf.
Proof.
  intros E. apply decode_sound in E as (Hf & -> & rest & ->). rewrite zlen_app, zlen_enc_frame.
  unfold encoded_len, HEADER_LEN. pose proof (zlen_nonneg (topic f)). pose proof (zlen_nonneg (fpayload f)). pose proof (zlen_nonneg rest). lia.
Qed.

Lemma on_frame_buf c f n c' : on_frame c f n = inl c' -> cbuf c' = zdrop n (cbuf c).
Proof.
  unfold Bridge.on_frame. destruct (authenticated c); [by intros [= <-]|]. destruct (bool_decide _); [|done].
  destruct (parse_peer_hello _) as [[id psk]|e]; [|done]. destruct (bool_decide _); [|done]. by intros [= <-].
Qed.

Lemma on_frame_more c f n more : n <= zlen (cbuf c) ->
  on_frame (with_more more c) f n = match on_frame c f n with inl c' => inl (with_more more c') | inr r => inr r end.
Proof.
  intros Hn. unfold Bridge.on_frame. cbn [authenticated with_more cbuf published]. rewrite zdrop_app_le by done.
  destruct (authenticated c); [done|]. destruct (bool_decide _); [|done].
  destruct (parse_peer_hello _) as [[id psk]|e]; [|done]. by destruct (bool_decide _).
Qed.

Lemma drained_less c f n c' : decode (cbuf c) = Ok (f, n) -> on_frame c f n = inl c' -> (length (cbuf c') < length (cbuf c))%nat.
Proof.
  intros Ed Eo. pose proof (decode_consumes _ _ _ Ed). rewrite (on_frame_buf _ _ _ _ Eo). unfold zdrop. rewrite length_drop.
  unfold zlen in *. lia.
Qed.

Lemma drain_frames_fuel fuel fuel' c : (length (cbuf c) < fuel)%nat -> (length (cbuf c) < fuel')%nat ->
  drain_frames fuel c = drain_frames fuel' c.
Proof.
  revert fuel' c. induction fuel as [|fuel IH]; intros fuel' c Hf Hf'; [lia|]. destruct fuel' as [|fuel']; [lia|].
  cbn [Bridge.drain_frames]. destruct (decode (cbuf c)) as [[f n]|[]] eqn:Ed; try done.
  destruct (on_frame c f n) as [c'|r] eqn:Eo; [|done]. pose proof (drained_less _ _ _ _ Ed Eo). apply IH; lia.
Qed.

(** One turn of the inner loop. *)
Lemma drain_turn c :
  drain c = match decode (cbuf c) with
            | Ok (f, n) => match on_frame c f n with inl c' => drain c' | inr r => (c, Some r) end
            | Err (Incomplete _ _) => (c, None)
            | Err e => (c, Some (ProtocolError e))
            end.
Proof.
  unfold Bridge.drain at 1. cbn [Bridge.drain_frames]. destruct (decode (cbuf c)) as [[f n]|[]] eqn:Ed; try done.
  destruct (on_frame c f n) as [c'|r] eqn:Eo; [|done]. pose proof (drained_less _ _ _ _ Ed Eo). unfold Bridge.drain. apply drain_frames_fuel; lia.
Qed.

(** Induction over the turns. *)
Lemma drain_ind (P : conn -> Prop) :
  (forall c, (forall f n c', decode (cbuf c) = Ok (f, n) -> on_frame c f n = inl c' -> P c') -> P c) -> forall c, P c.
Proof.
  intros Hstep c. remember (length (cbuf c)) as k eqn:Ek. revert c Ek.
  induction k as [k IH] using (well_founded_induction Nat.lt_wf_0). intros c ->. apply Hstep. intros f n c' Ed Eo.
  by apply (IH (length (cbuf c'))); [apply (drained_less _ _ _ _ Ed Eo)|].
Qed.

(** Two ends of a connection that cannot be told apart; an open one also has the same bytes left. *)
Definition same_end (x y : conn * option close_reason) : Prop :=
  published x.1 = published y.1 /\ authenticated x.1 = authenticated y.1 /\ x.2 = y.2 /\ (x.2 = None -> cbuf x.1 = cbuf y.1).

Lemma same_end_refl x : same_end x x.
Proof. done. Qed.

(** Bytes that come later do not change what was done with those before. *)
Lemma drain_more c more :
  match drain c with
  | (c', None) => drain (with_more more c) = drain (with_more more c') /\ is_incomplete (decode (cbuf c')) = true
  | (c', Some r) => same_end (drain (with_more more c)) (c', Some r)
  end.
Proof.
  induction c as [c IH] using drain_ind. rewrite (drain_turn c), (drain_turn (with_more more c)). cbn [cbuf with_more].
  destruct (decode (cbuf c)) as [[f n]|e] eqn:Ed.
  - rewrite decode_stable, Ed by (by rewrite Ed). pose proof (decode_consumes _ _ _ Ed). rewrite on_frame_more by lia.
    destruct (on_frame c f n) as [c'|r] eqn:Eo; [|done]. exact (IH f n c' eq_refl Eo).
  - destruct e as [have needed| | | |]; try (rewrite decode_stable, Ed by (by rewrite Ed); done).
    split; [|by rewrite Ed]. by rewrite (drain_turn (with_more more c)).
Qed.

(** The bytes of a list of reads that neither fail nor end. *)
Definition read_bytes (reads : list read) : list byte :=
  concat (map (fun r => match r with RBytes chunk => chunk | _ => [] end) reads).

Definition quiet (r : read) : Prop := match r with RBytes _ | RTimeout => True | _ => False end.

Lemma reader_main_drain reads c :
  Forall quiet reads -> is_incomplete (decode (cbuf c)) = true ->
  same_end (reader_main reads c) (drain (with_more (read_bytes reads) c)).
Proof.
  intros Hq. revert c. induction Hq as [|r reads Hr Hq IH]; intros c Hc.
  - unfold read_bytes. cbn [map concat Bridge.reader_main]. rewrite drain_turn. cbn [cbuf with_more]. rewrite app_nil_r.
    destruct (decode (cbuf c)) as [[f n]|[]]; try done. unfold with_more. rewrite app_nil_r. by destruct c.
  - destruct r as [chunk| | | |]; try done; cbn [Bridge.reader_main]; [|exact (IH c Hc)].
    change (read_bytes (RBytes chunk :: reads)) with (chunk ++ read_bytes reads).
    change (Conn (cbuf c ++ chunk) (authenticated c) (published c)) with (with_more chunk c).
    pose proof (drain_more (with_more chunk c) (read_bytes reads)) as Hm.
    replace (with_more (read_bytes reads) (with_more chunk c)) with (with_more (chunk ++ read_bytes reads) c) in Hm
      by (unfold with_more; cbn; by rewrite app_assoc).
    destruct (drain (with_more chunk c)) as [c' [r|]].
    + destruct Hm as (H1 & H2 & H3 & _). split; [done|]. split; [done|]. split; [done|]. done.
    + destruct Hm as [-> Hi]. by apply IH.
Qed.

(** ** Its buffer *)

Lemma decode_needed buf have needed : decode buf = Err (Incomplete have needed) -> zlen buf < needed <= MAX_FRAME_LEN + 32.
Proof.
  intros E. pose proof (decode_more buf []) as Hm. rewrite E in Hm. destruct Hm as (_ & Hlt & _). split; [done|].
  destruct (Z.lt_ge_cases (zlen buf) 28) as [Hs|Hl].
  { unfold decode, HEADER_LEN in E. destruct (Z.ltb_spec (zlen buf) (4 + 4 + 8 + 8 + 4)); [|lia]. injection E as _ <-. unfold MAX_FRAME_LEN. lia. }
  destruct (split_header buf Hl) as (v & t & o & s & l & tail & -> & Hv & Ht & Ho & Hs & Hll).
  rewrite decode_split in E by done. cbv zeta in E. destruct (negb _); [done|]. destruct (from_u32 _) as [ty|e] eqn:Et.
  2:{ exfalso. unfold from_u32 in Et. repeat destruct (_ =? _); try done. by injection Et as <-. }
  unfold decode_tail in E. cbv zeta in E. destruct (Z.ltb_spec MAX_FRAME_LEN (from_le l)); [done|].
  destruct (_ <? _ + 4); [injection E as _ <-; lia|]. destruct (_ <? from_le (zslice _ _ _)); [done|].
  destruct (Z.ltb_spec MAX_FRAME_LEN (28 + from_le l + 4 + from_le (zslice (from_le l) (from_le l + 4) tail))); [done|].
  destruct (_ <? _); [|done]. injection E as _ <-. lia.
Qed.

Lemma drain_bounded c c' : drain c = (c', None) -> zlen (cbuf c') < MAX_FRAME_LEN + 32.
Proof.
  intros E. pose proof (drain_more c []) as Hm. rewrite E in Hm. destruct Hm as [_ Hi].
  destruct (decode (cbuf c')) as [[f n]|[have needed| | | |]] eqn:Ed; try done. pose proof (decode_needed _ _ _ Ed). lia.
Qed.

(** C35: cutting the stream changes nothing.  Whatever reads the bytes of a connection come in, one or many
    at a time, with timeouts in between, the reader publishes the same messages, authenticates or not, and
    closes for the same reason as if it had decoded all of them at once; and whoever sends them, between
    two reads it holds less than a frame. *)
Theorem reader_sees_a_byte_stream reads :
  Forall quiet reads ->
  let whole := drain (Conn (read_bytes reads) false []) in
  let '(c, r) := reader_main reads accepted in
  published c = published whole.1 /\ authenticated c = authenticated whole.1 /\ r = whole.2
  /\ (r = None -> cbuf c = cbuf whole.1 /\ zlen (cbuf c) < MAX_FRAME_LEN + 32).
Proof.
  intros Hq whole. pose proof (reader_main_drain reads accepted Hq eq_refl) as Hs.
  change (with_more (read_bytes reads) accepted) with (Conn (read_bytes reads) false []) in Hs. fold whole in Hs.
  destruct (reader_main reads accepted) as [c r]. destruct Hs as (H1 & H2 & H3 & H4). cbn [fst snd] in *.
  split; [done|]. split; [done|]. split; [done|]. intros E. split; [by apply H4|]. rewrite (H4 E).
  apply (drain_bounded (Conn (read_bytes reads) false [])). fold whole. rewrite H3 in E. by destruct whole as [x y]; cbn in *; subst.
Qed.
End reader.

(** ** The channel of the readers *)

Lemma merge_perm {A} (ls : list (list A)) m : merge ls m -> m ≡ₚ concat ls.
Proof.
  induction 1 as [ls Hls|ls i x l m Hi _ IH]; [by induction Hls as [|? ? <-]|].
  pose proof (lookup_lt_Some _ _ _ Hi) as Hlt. rewrite <- (take_drop_middle ls i _ Hi), concat_app. cbn [concat app].
  rewrite IH, insert_take_drop by done. rewrite concat_app. cbn [concat]. by rewrite Permutation_middle.
Qed.

Lemma merge_sublist {A} (ls : list (list A)) m : merge ls m -> Forall (fun l => l `sublist_of` m) ls.
Proof.
  induction 1 as [ls Hls|ls i x l m Hi _ IH]; [eapply Forall_impl; [exact Hls|]; by intros ? <-|].
  pose proof (lookup_lt_Some _ _ _ Hi) as Hlt. rewrite Forall_lookup in IH |- *. intros j k Hj. destruct (decide (j = i)) as [->|Hij].
  - rewrite Hi in Hj. injection Hj as <-. apply sublist_skip, (IH i). by apply list_lookup_insert_eq.
  - apply sublist_cons, (IH j). by rewrite list_lookup_insert_ne.
Qed.
