(* ===== verification/BridgeMesh.v ===== *)
(** * Messages between bridges

    From the subscription on one machine, through a peer's queue, a connection and the reads on the other
    side, to what is published there; and a message that two bridges keep handing to each other. *)

From Stdlib Require Import ZArith Lia Strings.Byte.
From stdpp Require Import base option gmap list.
From S2P Require Import Prelude Text BridgeConfig Frame Queue Bridge BridgeSpec.

(** ** Frames in a row *)

Definition wire_of (fs : list frame) : list byte := concat (map enc_frame fs).

Lemma wire_of_prefix fs fs' : fs `prefix_of` fs' -> wire_of fs `prefix_of` wire_of fs'.
Proof. intros [k ->]. unfold wire_of. rewrite List.map_app, List.concat_app. by eexists. Qed.

(** A part of a row of frames: whole frames, all there are in it, and the beginning of another. *)
Lemma prefix_frames fs pre : Forall frame_ok fs -> pre `prefix_of` wire_of fs ->
  exists fs1 part, pre = wire_of fs1 ++ part /\ fs1 `prefix_of` fs /\ is_incomplete (decode part) = true
    /\ forall whole, whole `prefix_of` fs -> wire_of whole `prefix_of` pre -> whole `prefix_of` fs1.
Proof.
  intros Hfs. revert pre. induction Hfs as [|f fs Hf Hfs IH]; intros pre Hp.
  - apply prefix_nil_inv in Hp as ->. by exists [], [].
  - destruct Hp as [rest E]. unfold wire_of in E. cbn [map concat] in E.
    destruct (decide (zlen (enc_frame f) <= zlen pre)) as [Hle|Hlt].
    + assert (Ep : pre = enc_frame f ++ zdrop (zlen (enc_frame f)) pre).
      { rewrite <- (ztake_zdrop (zlen (enc_frame f)) pre) at 1. f_equal.
        apply (f_equal (ztake (zlen (enc_frame f)))) in E. by rewrite ztake_app_exact, ztake_app_le in E by done. }
      rewrite Ep, <- app_assoc in E. apply app_inv_head in E. destruct (IH (zdrop (zlen (enc_frame f)) pre)) as (fs1 & part & E1 & Hp1 & Hi & Hw).
      { by exists rest. }
      exists (f :: fs1), part. split; [unfold wire_of in *; cbn [map concat]; rewrite <- app_assoc, <- E1; exact Ep|].
      split; [by apply prefix_cons|]. split; [done|]. intros [|x whole] Hwp Hwl; [apply prefix_nil|].
      pose proof (prefix_cons_inv_1 _ _ _ _ Hwp) as ->. apply prefix_cons_inv_2 in Hwp. apply prefix_cons, Hw; [done|].
      rewrite Ep in Hwl. unfold wire_of in Hwl. cbn [map concat] in Hwl. by apply prefix_app_inv in Hwl.
    + exists [], pre. split; [done|]. split; [apply prefix_nil|].
      assert (Hq : enc_frame f = pre ++ zdrop (zlen pre) (enc_frame f)).
      { rewrite <- (ztake_zdrop (zlen pre) (enc_frame f)) at 1. f_equal.
        apply (f_equal (ztake (zlen pre))) in E. by rewrite ztake_app_le, ztake_app_exact in E by lia. }
      destruct (decode_part f pre (zdrop (zlen pre) (enc_frame f)) Hf Hq) as (needed & -> & _).
      { intros E0. apply (f_equal zlen) in E0. rewrite zlen_zdrop, zlen_nil in E0 by (pose proof (zlen_nonneg pre); lia). lia. }
      split; [done|]. intros [|x whole] Hwp Hwl; [done|]. pose proof (prefix_cons_inv_1 _ _ _ _ Hwp) as ->. exfalso. apply Hlt.
      destruct Hwl as [k ->]. unfold wire_of. cbn [map concat]. rewrite !zlen_app.
      pose proof (zlen_nonneg (concat (map enc_frame whole))). pose proof (zlen_nonneg k). lia.
Qed.

Section receiving.
Variables (us : Z) (rts psks : list (list byte)).
#[local] Notation drain := (drain us rts psks).

Lemma drain_row fs part pub : Forall frame_ok fs -> is_incomplete (decode part) = true ->
  drain (Conn (wire_of fs ++ part) true pub) = (Conn part true (pub ++ omap (handle_frame us rts) fs), None).
Proof.
  intros Hfs Hp. revert pub. induction Hfs as [|f fs Hf Hfs IH]; intros pub; rewrite drain_turn; cbn [cbuf].
  - unfold wire_of. cbn [map concat app omap]. destruct (decode part) as [[f n]|[]]; try done. cbn. by rewrite app_nil_r.
  - unfold wire_of. cbn [map concat]. rewrite <- app_assoc, decode_enc by done. unfold on_frame. cbn [authenticated cbuf published].
    rewrite <- zlen_enc_frame, zdrop_app_exact by done. fold (wire_of fs). rewrite IH, <- app_assoc. do 3 f_equal.
    cbn [omap list_omap]. by destruct (handle_frame us rts f).
Qed.

(** A connection that begins with a hello. *)
Lemma drain_hello id psk fs part : is_u64 id -> zlen psk < 2 ^ 16 -> Forall frame_ok fs -> is_incomplete (decode part) = true ->
  published (drain (Conn (enc_frame (peer_hello_with_psk id psk) ++ wire_of fs ++ part) false [])).1
  = if bool_decide (psk ∈ psks) then omap (handle_frame us rts) fs else [].
Proof.
  intros Hid Hpsk Hfs Hp. rewrite drain_turn. cbn [cbuf].
  assert (Hh : frame_ok (peer_hello_with_psk id psk)).
  { split; [done|]. split; [by split|]. unfold encoded_len, peer_hello_with_psk, MAX_FRAME_LEN, HEADER_LEN. cbn [topic fpayload].
    rewrite !zlen_app, !zlen_to_le, zlen_nil. lia. }
  rewrite decode_enc by done. unfold on_frame. cbn [authenticated]. rewrite parse_hello_ok by done. cbn [ftype peer_hello_with_psk].
  rewrite bool_decide_eq_true_2 by done. destruct (bool_decide (psk ∈ psks)); [|done].
  rewrite <- zlen_enc_frame. cbn [cbuf published]. by rewrite zdrop_app_exact, drain_row.
Qed.
End receiving.

(** ** What a bridge sends *)

Fixpoint payloads (es : list sub_event) : list (list byte) :=
  match es with
  | [] => []
  | SPayload p :: es => p :: payloads es
  | _ :: es => payloads es
  end.

(** The frames of a topic's messages, numbered from [seq]. *)
Fixpoint frames_of (origin : Z) (topic : list byte) (seq : Z) (ps : list (list byte)) : list frame :=
  match ps with
  | [] => []
  | p :: ps => msg origin seq topic p :: frames_of origin topic (wrap64 (seq + 1)) ps
  end.

Definition send_all {T} (xs : list T) (q : chan T) : chan T := foldl (fun q x => (send x q).1) q xs.

(** Every peer's queue is given the same frames, one per message, in order. *)
Lemma subscriber_main_sends origin topic es seq qs :
  (subscriber_main origin topic es seq qs).2 = map (send_all (map enc_frame (frames_of origin topic seq (payloads es)))) qs.
Proof.
  revert seq qs. induction es as [|[p| |] es IH]; intros seq qs; cbn [subscriber_main payloads frames_of map]; try apply IH.
  - symmetry. apply map_id.
  - cbv zeta. rewrite IH, List.map_map. done.
Qed.

(** The frames a bridge may send: its own id, a topic it forwards. *)
Definition own_frame (origin : Z) (topics : list (list byte)) (f : frame) : Prop :=
  ftype f = Msg /\ origin_id f = origin /\ topic f ∈ topics /\ frame_ok f.

Lemma frames_of_own origin topics topic seq ps :
  is_u64 origin -> is_u64 seq -> topic ∈ topics -> Forall (fun p => 32 + zlen topic + zlen p <= MAX_FRAME_LEN) ps ->
  Forall (own_frame origin topics) (frames_of origin topic seq ps).
Proof.
  intros Ho Hs Ht Hp. revert seq Hs. induction Hp as [|p ps Hp _ IH]; intros seq Hs; [done|]. cbn [frames_of]. constructor.
  - split; [done|]. split; [done|]. split; [done|]. split; [done|]. split; [done|]. unfold encoded_len, HEADER_LEN. cbn [Frame.topic fpayload msg]. lia.
  - apply IH. apply wrap64_range.
Qed.

(** ** From one bridge to another *)

Record host := Host { hid : Z; hcfg : bridge_config }.

Definition host_ok (h : host) : Prop := is_u64 (hid h) /\ Forall (fun t => Forall scalar (tname t)) (topics (hcfg h)).

Lemma received_utf8 h t : host_ok h -> t ∈ receive_topics (hcfg h) -> utf8_valid t = true.
Proof.
  intros [_ Hs] Ht. unfold receive_topics in Ht. apply list_elem_of_fmap in Ht as (tc & -> & Hin).
  apply list_elem_of_filter in Hin as [_ Hin]. rewrite Forall_forall in Hs. by apply utf8_as_bytes, Hs.
Qed.

(** What a bridge makes of another's frames. *)
Definition accepts (b : host) (fs : list frame) : list (list byte * list byte) :=
  map (fun f => (topic f, fpayload f)) (filter (fun f => topic f ∈ receive_topics (hcfg b)) fs).

Lemma handle_frames b origin topics fs : host_ok b -> Forall (own_frame origin topics) fs ->
  omap (handle_frame (hid b) (receive_topics (hcfg b))) fs = if origin =? hid b then [] else accepts b fs.
Proof.
  intros Hb Hfs. unfold accepts. induction Hfs as [|f fs (Ht & Ho & _) Hfs IH]; [by destruct (_ =? _)|].
  cbn [omap list_omap]. change (list_omap _ _ (handle_frame (hid b) (receive_topics (hcfg b))) fs) with (omap (handle_frame (hid b) (receive_topics (hcfg b))) fs).
  rewrite IH, filter_cons. unfold handle_frame. rewrite Ho, Ht. destruct (origin =? hid b); [done|].
  destruct (decide (topic f ∈ receive_topics (hcfg b))) as [Hin|Hni].
  - by rewrite (received_utf8 b), bool_decide_eq_true_2 by done.
  - rewrite bool_decide_eq_false_2 by done. by destruct (utf8_valid _).
Qed.

Definition pumped (ps : list pump) : list (list byte) :=
  omap (fun p => match p with PFrame bytes _ => Some bytes | PNone => None end) ps.

Lemma pump_frames_prefix ps :
  (pump_frames ps).1 `prefix_of` concat (pumped ps) /\ ((pump_frames ps).2 = false -> (pump_frames ps).1 = concat (pumped ps)).
Proof.
  induction ps as [|[bytes [k|]|] ps IH]; cbn; [done| | |exact IH].
  - split; [|done]. exists (zdrop k bytes ++ concat (pumped ps)). by rewrite app_assoc, ztake_zdrop.
  - fold (pumped ps). destruct (pump_frames ps) as [w failed]. destruct IH as [IH1 IH2]. cbn [fst snd] in *.
    split; [by apply prefix_app|]. intros E. by rewrite IH2.
Qed.

Lemma sublist_map_inv {A B} (f : A -> B) l xs : l `sublist_of` map f xs -> exists ys, l = map f ys /\ ys `sublist_of` xs.
Proof.
  revert l. induction xs as [|x xs IH]; intros l Hl; cbn [map] in Hl.
  - apply sublist_nil_r in Hl as ->. by exists [].
  - apply sublist_cons_r in Hl as [Hl|(l' & -> & Hl)]; destruct (IH _ Hl) as (ys & -> & Hy).
    + exists ys. split; [done|]. by apply sublist_cons.
    + exists (x :: ys). split; [done|]. by apply sublist_skip.
Qed.

Lemma prefix_sublist {A} (l k : list A) : l `prefix_of` k -> l `sublist_of` k.
Proof. intros [r ->]. by apply sublist_inserts_r. Qed.

Lemma Forall_sublist {A} (P : A -> Prop) l k : l `sublist_of` k -> Forall P k -> Forall P l.
Proof. induction 1; rewrite ?Forall_cons; naive_solver. Qed.

(** Some of the frames written after a hello, and what the reader makes of the bytes that reach it: the
    frames that are whole in them. *)
Lemma connection_reads a b psk fs w reads :
  host_ok a -> host_ok b -> zlen psk < 2 ^ 16 -> Forall (own_frame (hid a) (forward_topics (hcfg a))) fs ->
  w `prefix_of` wire_of fs -> Forall quiet reads ->
  read_bytes reads `prefix_of` enc_frame (peer_hello_with_psk (hid a) psk) ++ w ->
  exists arrived, arrived `prefix_of` fs
    /\ (forall whole, whole `prefix_of` fs -> enc_frame (peer_hello_with_psk (hid a) psk) ++ wire_of whole `prefix_of` read_bytes reads ->
          whole `prefix_of` arrived)
    /\ published (reader_main (hid b) (receive_topics (hcfg b)) (accepted_psks (hcfg b)) reads accepted).1
       = if bool_decide (psk ∈ accepted_psks (hcfg b)) && negb (hid a =? hid b) then accepts b arrived else [].
Proof.
  intros [Ha _] Hb Hpsk Hfs Hw Hq Hr. set (hello := peer_hello_with_psk (hid a) psk) in *.
  destruct (reader_main_drain (hid b) (receive_topics (hcfg b)) (accepted_psks (hcfg b)) reads accepted Hq eq_refl) as [-> _].
  change (with_more (read_bytes reads) accepted) with (Conn (read_bytes reads) false []).
  assert (Hok : Forall frame_ok (hello :: fs)).
  { constructor; [|eapply Forall_impl; [exact Hfs|]; by intros f (_ & _ & _ & ?)]. split; [done|]. split; [by split|].
    unfold hello, encoded_len, peer_hello_with_psk, MAX_FRAME_LEN, HEADER_LEN. cbn [topic fpayload]. rewrite !zlen_app, !zlen_to_le, zlen_nil. lia. }
  destruct (prefix_frames (hello :: fs) (read_bytes reads) Hok) as (fs1 & part & E & Hp & Hi & Hall).
  { etrans; [exact Hr|]. unfold wire_of. cbn [map concat]. by apply prefix_app. }
  assert (Hmax : forall whole, whole `prefix_of` fs -> enc_frame hello ++ wire_of whole `prefix_of` read_bytes reads -> hello :: whole `prefix_of` fs1).
  { intros whole Hwp Hwl. apply Hall; [by apply prefix_cons|]. exact Hwl. }
  clear Hall. rewrite E in Hmax |- *. destruct fs1 as [|h fs1].
  { exists []. split; [apply prefix_nil|]. split; [intros whole Hwp Hwl; specialize (Hmax whole Hwp Hwl); by apply prefix_nil_inv in Hmax|].
    unfold wire_of. cbn [map concat app]. rewrite drain_turn. cbn [cbuf]. destruct (decode part) as [[f n]|[]]; try done. by destruct (_ && _). }
  destruct Hp as [tl Etl]. injection Etl as <- Etl. exists fs1. split; [by exists tl|].
  split; [intros whole Hwp Hwl; by apply (prefix_cons_inv_2 hello hello), Hmax|]. unfold wire_of. cbn [map concat]. rewrite <- app_assoc. fold (wire_of fs1).
  assert (Hfs1 : Forall (own_frame (hid a) (forward_topics (hcfg a))) fs1) by (rewrite Etl in Hfs; by apply Forall_app in Hfs as [? _]).
  unfold hello. rewrite drain_hello; [|done|done|eapply Forall_impl; [exact Hfs1|]; by intros f (_ & _ & _ & ?)|done].
  rewrite (handle_frames b (hid a) _ fs1 Hb Hfs1). destruct (bool_decide _); [|done]. by destruct (hid a =? hid b).
Qed.

(** Everything read: every frame arrives. *)
Lemma connection_reads_all a psk fs reads arrived :
  (forall whole, whole `prefix_of` fs -> enc_frame (peer_hello_with_psk (hid a) psk) ++ wire_of whole `prefix_of` read_bytes reads ->
     whole `prefix_of` arrived) ->
  arrived `prefix_of` fs -> read_bytes reads = enc_frame (peer_hello_with_psk (hid a) psk) ++ wire_of fs -> arrived = fs.
Proof. intros Hmax [k ->] E. destruct (Hmax (arrived ++ k)) as [k' E']; [done|by rewrite E|].
  rewrite <- app_assoc in E'. rewrite <- (app_nil_r arrived) in E' at 1. apply app_inv_head in E'. symmetry in E'.
  apply app_eq_nil in E' as [-> _]. by rewrite app_nil_r. Qed.

(** A connection on which the last writes failed: all of [fs] were given to it, and those of [rest] got stuck. *)
Lemma partial_reads a b p fs whole rest part reads :
  host_ok a -> host_ok b -> zlen (as_bytes (preshared_key p)) < 2 ^ 16 -> Forall (own_frame (hid a) (forward_topics (hcfg a))) fs ->
  map enc_frame fs = whole ++ rest -> part `prefix_of` concat rest -> Forall quiet reads ->
  read_bytes reads `prefix_of` hello_bytes (hid a) p ++ concat whole ++ part ->
  exists arrived, arrived `prefix_of` fs
    /\ (read_bytes reads = hello_bytes (hid a) p ++ concat whole ++ part -> (length fs <= length arrived + length rest)%nat)
    /\ published (reader_main (hid b) (receive_topics (hcfg b)) (accepted_psks (hcfg b)) reads accepted).1
       = if bool_decide (as_bytes (preshared_key p) ∈ accepted_psks (hcfg b)) && negb (hid a =? hid b) then accepts b arrived else [].
Proof.
  intros Ha Hb Hpsk Hfs Em Hp Hq Hr. apply map_eq_app in Em as (fs1 & fs2 & -> & <- & <-). rewrite length_map.
  destruct (connection_reads a b (as_bytes (preshared_key p)) (fs1 ++ fs2) (wire_of fs1 ++ part) reads) as (arr & Hpa & Hmax & ->); try done.
  { unfold wire_of. rewrite List.map_app, List.concat_app. by apply prefix_app. }
  exists arr. split; [done|]. split; [|done]. intros E. destruct (Hmax fs1) as [k ->]; [by eexists|rewrite E|rewrite !length_app; lia].
  exists part. by rewrite <- app_assoc.
Qed.

Lemma accepts_app b fs fs' : accepts b (fs ++ fs') = accepts b fs ++ accepts b fs'.
Proof. unfold accepts. by rewrite filter_app, List.map_app. Qed.

(** From one bridge to another over one connection.  Let A's queue for a peer have been given frames of topics A forwards,
    and let a connection write some of what the forwarder took out of the queue, the last write perhaps
    failing halfway; however the bytes are cut into reads and wherever they stop, B hands to its publisher
    exactly the messages, in the order A sent them and none of them twice, of the frames that arrived
    whole and whose topic B receives.  It hands over nothing if the hello has no key that B accepts or A has B's own id; and
    if no write failed and everything was read, the frames that arrived are all that were taken out. *)
Theorem forwarded_messages_arrive a b p cap (q0 : chan (list byte)) frames es ps reads :
  host_ok a -> host_ok b -> zlen (as_bytes (preshared_key p)) < 2 ^ 16 ->
  Forall (own_frame (hid a) (forward_topics (hcfg a))) frames ->
  channel cap = Some q0 ->
  let t := foldl run_event (Trace q0 [] []) es in
  sent t = map enc_frame frames ->
  pumped ps `sublist_of` received t ->
  let '(wire, failed) := run_connection (hello_bytes (hid a) p) ps in
  Forall quiet reads -> read_bytes reads `prefix_of` wire ->
  exists arrived, arrived `sublist_of` frames
    /\ (failed = false -> read_bytes reads = wire -> map enc_frame arrived = pumped ps)
    /\ published (reader_main (hid b) (receive_topics (hcfg b)) (accepted_psks (hcfg b)) reads accepted).1
       = if bool_decide (as_bytes (preshared_key p) ∈ accepted_psks (hcfg b)) && negb (hid a =? hid b)
         then accepts b arrived else [].
Proof.
  intros Ha Hb Hpsk Hfs Hc t Hsent Hps. unfold run_connection. destruct (pump_frames_prefix ps) as [Hw Hfull].
  destruct (pump_frames ps) as [w failed]. cbn [fst snd] in *. intros Hq Hr.
  assert (Hsub : pumped ps `sublist_of` map enc_frame frames).
  { etrans; [exact Hps|]. rewrite <- Hsent. apply (received_from_sent cap q0 es Hc). }
  apply sublist_map_inv in Hsub as (fs & Efs & Hfs1). rewrite Efs in *.
  assert (Hown : Forall (own_frame (hid a) (forward_topics (hcfg a))) fs) by (by apply (Forall_sublist _ fs frames)).
  destruct (connection_reads a b (as_bytes (preshared_key p)) fs w reads Ha Hb Hpsk Hown Hw Hq Hr) as (arr & Hp & Hall & Hpub).
  exists arr. split; [etrans; [by apply prefix_sublist|exact Hfs1]|]. split; [|exact Hpub].
  intros Hf Er. specialize (Hfull Hf). f_equal. apply (connection_reads_all a (as_bytes (preshared_key p)) fs reads arr Hall Hp). by rewrite Er, Hfull.
Qed.

(** ** Round trips *)

(** One message from the subscription at [a] to what [b] hands to its publisher: [a]'s subscriber, an empty
    queue, a new connection, [b]'s reader. *)
Definition hop (a : host) (p : peer_config) (b : host) (seq : Z) (t payload : list byte) : list (list byte * list byte) :=
  if bool_decide (t ∈ forward_topics (hcfg a)) then
    match channel (peer_buffer_max (hcfg a)) with
    | None => []
    | Some q0 =>
        let sent := (subscriber_main (hid a) t [SPayload payload] seq [q0]).2 in
        let wire := (run_connection (hello_bytes (hid a) p)
                       (omap (fun q => option_map (fun bytes => PFrame bytes None) (recv_timeout [] q).2) sent)).1 in
        published (reader_main (hid b) (receive_topics (hcfg b)) (accepted_psks (hcfg b)) [RBytes wire] accepted).1
    end
  else [].

(** What is left after [n] hops of a message published at [a], when every bridge's publisher succeeds in
    publishing what it is handed, and so its own subscriber for the topic sees it. *)
Fixpoint rounds (n : nat) (a : host) (pa : peer_config) (b : host) (pb : peer_config) (seq : Z) (t payload : list byte) :
    list (list byte * list byte) :=
  match n with
  | O => [(t, payload)]
  | S n => flat_map (fun m => rounds n b pb a pa seq m.1 m.2) (hop a pa b seq t payload)
  end.

(** The links both ways: a key the other side accepts, a topic that is forwarded and received. *)
Record linked (a : host) (p : peer_config) (b : host) (t : list byte) : Prop := {
  l_from : host_ok a;
  l_to : host_ok b;
  l_ids : hid a <> hid b;
  l_cap : 0 < peer_buffer_max (hcfg a);
  l_key : as_bytes (preshared_key p) ∈ accepted_psks (hcfg b);
  l_key_len : zlen (as_bytes (preshared_key p)) < 2 ^ 16;
  l_fwd : t ∈ forward_topics (hcfg a);
  l_rcv : t ∈ receive_topics (hcfg b)
}.

Lemma hop_arrives a p b seq t payload : linked a p b t -> is_u64 seq -> 32 + zlen t + zlen payload <= MAX_FRAME_LEN ->
  hop a p b seq t payload = [(t, payload)].
Proof.
  intros [Ha Hb Hids Hcap Hkey Hkl Hf Hr] Hs Hl. unfold hop. rewrite bool_decide_eq_true_2 by done.
  unfold channel. destruct (Z.ltb_spec 0 (peer_buffer_max (hcfg a))); [|lia]. rewrite subscriber_main_sends.
  cbn [payloads frames_of map send_all foldl]. unfold send. cbn [closed capacity items]. rewrite zlen_nil.
  destruct (Z.leb_spec (peer_buffer_max (hcfg a)) 0); [lia|].
  change ((run_connection (hello_bytes (hid a) p) _).1) with (enc_frame (peer_hello_with_psk (hid a) (as_bytes (preshared_key p))) ++ enc_frame (msg (hid a) seq t payload) ++ []).
  set (fs := [msg (hid a) seq t payload]).
  assert (Hown : Forall (own_frame (hid a) (forward_topics (hcfg a))) fs).
  { unfold fs. apply (frames_of_own (hid a) _ t seq [payload]); [by destruct Ha|done|done|by repeat constructor]. }
  set (wire := enc_frame (peer_hello_with_psk _ _) ++ _).
  assert (Hw : read_bytes [RBytes wire] = enc_frame (peer_hello_with_psk (hid a) (as_bytes (preshared_key p))) ++ wire_of fs).
  { unfold read_bytes, wire. cbn [map concat]. by rewrite app_nil_r. }
  destruct (connection_reads a b (as_bytes (preshared_key p)) fs (wire_of fs) [RBytes wire]) as (arr & Hpa & Hall & ->); try done.
  { by repeat constructor. }
  { by rewrite Hw. }
  rewrite (connection_reads_all a _ _ _ _ Hall Hpa Hw), bool_decide_eq_true_2 by done. destruct (Z.eqb_spec (hid a) (hid b)); [done|]. cbn [andb negb].
  unfold accepts, fs. by rewrite filter_cons_True.
Qed.

(** A message goes round forever.  Between two bridges that forward and receive the same topic and accept
    each other's keys, a message of that topic published at one of them is, after any number of hops, still
    there to be published once more, as long as the bridges' publishes succeed: each bridge forwards what it
    has republished under its own id, so that the other one never sees its own. *)
Theorem message_goes_round_forever n a pa b pb seq t payload :
  linked a pa b t -> linked b pb a t -> is_u64 seq -> 32 + zlen t + zlen payload <= MAX_FRAME_LEN ->
  rounds n a pa b pb seq t payload = [(t, payload)].
Proof.
  intros Hab Hba Hs Hl. revert a pa b pb Hab Hba. induction n as [|n IH]; intros a pa b pb Hab Hba; [done|].
  cbn [rounds]. rewrite (hop_arrives a pa b) by done. cbn [flat_map fst snd]. by rewrite app_nil_r, IH.
Qed.

(** ** At concrete bridges *)

Definition demo_config (fwd rcv : bool) : bridge_config :=
  BridgeConfig [98] None None (Some [104; 58; 49]) 2 None None None default_quic_worker_threads
    [TopicConfig [116; 233] fwd rcv] [demo_peer 97].
Definition demo_topic : list byte := as_bytes [116; 233].
Definition host_a : host := Host 7 (demo_config true true).
Definition host_b : host := Host 9 (demo_config true true).

Lemma demo_host_ok id fwd rcv : is_u64 id -> host_ok (Host id (demo_config fwd rcv)).
Proof.
  intros Hid. split; [done|]. apply Forall_cons. split; [|constructor].
  apply Forall_cons. split; [left; lia|]. apply Forall_cons. split; [left; lia|constructor].
Qed.

Lemma demo_linked i j : is_u64 i -> is_u64 j -> i <> j ->
  linked (Host i (demo_config true true)) (demo_peer 97) (Host j (demo_config true true)) demo_topic.
Proof.
  intros Hi Hj Hne. constructor; try by apply demo_host_ok.
  - done.
  - vm_compute. reflexivity.
  - by left.
  - vm_compute. reflexivity.
  - by left.
  - by left.
Qed.

Lemma message_goes_round_forever_witness :
  rounds 1000 host_a (demo_peer 97) host_b (demo_peer 97) 0 demo_topic [Byte.x61] = [(demo_topic, [Byte.x61])].
Proof.
  assert (H7 : is_u64 7) by (split; [vm_compute; congruence|vm_compute; reflexivity]). assert (H9 : is_u64 9) by (split; [vm_compute; congruence|vm_compute; reflexivity]). assert (H0 : is_u64 0) by (split; [vm_compute; congruence|vm_compute; reflexivity]).
  apply (message_goes_round_forever 1000 host_a (demo_peer 97) host_b (demo_peer 97) 0 demo_topic [Byte.x61]).
  - apply demo_linked; [exact H7|exact H9|lia].
  - apply demo_linked; [exact H9|exact H7|lia].
  - exact H0.
  - vm_compute. congruence.
Defined.

(** Three messages, a queue for two, a stream cut into single bytes that stops inside the last frame. *)
Definition demo_frames : list frame := frames_of 7 demo_topic 0 [[Byte.x61]; [Byte.x62]; [Byte.x63]].
Definition demo_events : list (event (list byte)) := map (fun f => ESend (enc_frame f)) demo_frames ++ [ERecv []; ERecv []].
Definition demo_pumps : list pump := PNone :: map (fun f => PFrame (enc_frame f) None) (tail demo_frames).
Definition demo_wire : list byte := (run_connection (hello_bytes 7 (demo_peer 97)) demo_pumps).1.
Definition demo_reads : list read := RTimeout :: map (fun b => RBytes [b]) (ztake (zlen demo_wire - 1) demo_wire).

Lemma forwarded_messages_arrive_witness :
  exists arrived, arrived `sublist_of` demo_frames
    /\ published (reader_main 9 (receive_topics (hcfg host_b)) (accepted_psks (hcfg host_b)) demo_reads accepted).1 = accepts host_b arrived.
Proof.
  assert (H7 : is_u64 7) by (split; [vm_compute; congruence|vm_compute; reflexivity]). assert (H9 : is_u64 9) by (split; [vm_compute; congruence|vm_compute; reflexivity]). assert (H0 : is_u64 0) by (split; [vm_compute; congruence|vm_compute; reflexivity]).
  destruct (forwarded_messages_arrive host_a host_b (demo_peer 97) 2 (Chan [] false 2 2) demo_frames demo_events demo_pumps demo_reads)
    as (arr & Hsub & _ & Hpub).
  - apply demo_host_ok. exact H7.
  - apply demo_host_ok. exact H9.
  - vm_compute. reflexivity.
  - apply frames_of_own; [exact H7|exact H0|by left|]. repeat constructor; vm_compute; congruence.
  - reflexivity.
  - vm_compute. reflexivity.
  - replace (received _) with (pumped demo_pumps) by (vm_compute; reflexivity). reflexivity.
  - apply Forall_cons. split; [exact I|]. apply Forall_map, Forall_true. intros x. exact I.
  - exists (zdrop (zlen demo_wire - 1) demo_wire). vm_compute. reflexivity.
  - exists arr. split; [exact Hsub|]. etrans; [exact Hpub|]. reflexivity.
Defined.

Lemma reader_sees_a_byte_stream_witness :
  published (reader_main 9 [demo_topic] [[Byte.x6b]] demo_reads accepted).1
  = published (drain 9 [demo_topic] [[Byte.x6b]] (Conn (read_bytes demo_reads) false [])).1.
Proof.
  assert (Hq : Forall quiet demo_reads).
  { apply Forall_cons. split; [exact I|]. apply Forall_map, Forall_true. intros x. exact I. }
  pose proof (reader_sees_a_byte_stream 9 [demo_topic] [[Byte.x6b]] demo_reads Hq) as Hs.
  destruct (reader_main 9 [demo_topic] [[Byte.x6b]] demo_reads accepted) as [c r]. exact (proj1 Hs).
Defined.

(** ** Configurations that pass validation *)

(** A topic listed twice has two subscribers: every message is queued twice, under the same id and number. *)
Example duplicate_topic_is_sent_twice :
  let cfg := BridgeConfig [98] None None None 4 None None None default_quic_worker_threads
               [TopicConfig [116] true true; TopicConfig [116] true true] [demo_peer 97] in
  let subscribe q t := default q (head (subscriber_main 7 t [SPayload [Byte.x61]] 0 [q]).2) in
  validate cfg = Ok tt
  /\ items (foldl subscribe (Chan [] false 4 2) (forward_topics cfg))
     = [enc_frame (msg 7 0 [Byte.x74] [Byte.x61]); enc_frame (msg 7 0 [Byte.x74] [Byte.x61])].
Proof. split; vm_compute; reflexivity. Qed.

(** A peer buffer of no entries is accepted, and the queue's constructor panics on it. *)
Example zero_buffer_panics :
  let cfg := BridgeConfig [98] None None None 0 None None None default_quic_worker_threads [] [demo_peer 97] in
  validate cfg = Ok tt /\ channel (T := list byte) (peer_buffer_max cfg) = None.
Proof. split; vm_compute; reflexivity. Qed.
