(* ===== verification/OriginId.v ===== *)
(** * A bridge's identifier ([random_origin_id] in [crates/mmbus-bridge/src/bridge.rs])

    The bit mix that makes the id of a bridge without a configured one from the clock and the process id,
    and when two bridges get the same. *)

From Stdlib Require Import ZArith Lia.
From stdpp Require Import base option list.
From S2P Require Import Prelude.

(** [u64::rotate_left] *)
Definition rotate_left (x n : Z) : Z := Z.lor (wrap64 (Z.shiftl x n)) (Z.shiftr x (64 - n)).

Definition wrapping_mul (a b : Z) : Z := wrap64 (a * b).

(** [z ^ (z >> k)] *)
Definition xorshift (k z : Z) : Z := Z.lxor z (Z.shiftr z k).

(** The seed: nanoseconds since the epoch ([None] before it; [as u64] keeps the low 64 bits) and the process id. *)
Definition origin_seed (nanos : option Z) (pid : Z) : Z := Z.lxor (default 0 (option_map wrap64 nanos)) (rotate_left pid 32).

Definition mix (z : Z) : Z :=
  let z := wrapping_mul (xorshift 30 z) 0xbf58476d1ce4e5b9 in
  let z := wrapping_mul (xorshift 27 z) 0x94d049bb133111eb in
  xorshift 31 z.

Definition random_origin_id (nanos : option Z) (pid : Z) : Z := mix (origin_seed nanos pid).

(** ** The mix is one-to-one *)

Lemma high_bits z i : is_u64 z -> 64 <= i -> Z.testbit z i = false.
Proof. intros Hz Hi. apply Z.bits_above_log2; [apply Hz|]. destruct (Z.eq_dec z 0) as [->|]; [cbn; lia|].
  enough (Z.log2 z < 64) by lia. apply Z.log2_lt_pow2; [unfold is_u64 in Hz; lia|apply Hz]. Qed.

Lemma u64_of_bits z : 0 <= z -> (forall i, 64 <= i -> Z.testbit z i = false) -> is_u64 z.
Proof.
  intros Hz Hb. split; [done|]. destruct (Z.eq_dec z 0) as [->|]; [by vm_compute|]. change two64 with (2 ^ 64).
  apply Z.log2_lt_pow2; [lia|]. destruct (Z.lt_ge_cases (Z.log2 z) 64) as [|Hge]; [done|].
  specialize (Hb (Z.log2 z) Hge). rewrite Z.bit_log2 in Hb by lia. done.
Qed.

Lemma lxor_u64 x y : is_u64 x -> is_u64 y -> is_u64 (Z.lxor x y).
Proof.
  intros Hx Hy. apply u64_of_bits; [apply Z.lxor_nonneg; split; intros _; [apply Hy|apply Hx]|].
  intros i Hi. by rewrite Z.lxor_spec, !high_bits.
Qed.

Lemma shiftr_u64 x k : 0 <= k -> is_u64 x -> is_u64 (Z.shiftr x k).
Proof.
  intros Hk Hx. apply u64_of_bits; [apply Z.shiftr_nonneg, Hx|]. intros i Hi. rewrite Z.shiftr_spec by lia.
  apply high_bits; [done|lia].
Qed.

Lemma xorshift_u64 k z : 0 <= k -> is_u64 z -> is_u64 (xorshift k z).
Proof. intros. apply lxor_u64; [done|by apply shiftr_u64]. Qed.

(** The bits come back from the top down. *)
Lemma xorshift_inj k x y : 0 < k -> is_u64 x -> is_u64 y -> xorshift k x = xorshift k y -> x = y.
Proof.
  intros Hk Hx Hy E.
  assert (Hb : forall n i, 0 <= i -> 64 - i <= Z.of_nat n -> Z.testbit x i = Z.testbit y i).
  { induction n as [|n IH]; intros i Hi Hn; [by rewrite !high_bits by (done || lia)|].
    pose proof (f_equal (fun z => Z.testbit z i) E) as Ei. unfold xorshift in Ei. cbn beta in Ei.
    rewrite !Z.lxor_spec, !Z.shiftr_spec, (IH (i + k)) in Ei by lia.
    by destruct (Z.testbit x i), (Z.testbit y i), (Z.testbit y (i + k)). }
  apply Z.bits_inj'. intros i Hi. apply (Hb (Z.to_nat (64 - i))); lia.
Qed.

(** An odd factor has an inverse modulo [2^64]. *)
Lemma wrapping_mul_inj c c' x y : wrap64 (c * c') = 1 -> is_u64 x -> is_u64 y -> wrapping_mul x c = wrapping_mul y c -> x = y.
Proof.
  intros Hc Hx Hy E. assert (Hinv : forall z, is_u64 z -> wrap64 (wrapping_mul z c * c') = z).
  { intros z Hz. unfold wrapping_mul, wrap64 in *. rewrite Z.mul_mod_idemp_l by (by vm_compute).
    rewrite <- Z.mul_assoc, <- Z.mul_mod_idemp_r, Hc, Z.mul_1_r by (by vm_compute). by apply Z.mod_small. }
  by rewrite <- (Hinv x Hx), <- (Hinv y Hy), E.
Qed.

Lemma mix_inj x y : is_u64 x -> is_u64 y -> mix x = mix y -> x = y.
Proof.
  intros Hx Hy. unfold mix. cbv zeta. intros E. apply xorshift_inj in E; [|lia|apply wrap64_range..].
  apply (wrapping_mul_inj _ 0x319642b2d24d8ec3) in E; [|by vm_compute|apply xorshift_u64; [lia|apply wrap64_range]..].
  apply xorshift_inj in E; [|lia|apply wrap64_range..].
  apply (wrapping_mul_inj _ 0x96de1b173f119089) in E; [|by vm_compute|apply xorshift_u64; [lia|done]..].
  by apply (xorshift_inj 30).
Qed.

(** ** The seed *)

(** [std::process::id] is a [u32]. *)
Lemma rotate_pid pid : 0 <= pid < two32 -> rotate_left pid 32 = pid * two32.
Proof.
  intros Hp. unfold rotate_left. replace (Z.shiftr pid (64 - 32)) with 0 by (rewrite Z.shiftr_div_pow2 by lia; symmetry; by apply Z.div_small).
  rewrite Z.lor_0_r, Z.shiftl_mul_pow2 by lia. apply wrap64_small. change (2 ^ 32) with two32. rewrite two64_eq. rewrite two32_eq in *. lia.
Qed.

Lemma origin_seed_u64 nanos pid : 0 <= pid < two32 -> is_u64 (origin_seed nanos pid).
Proof.
  intros Hp. apply lxor_u64.
  - destruct nanos; [apply wrap64_range|by vm_compute].
  - rewrite rotate_pid by done. unfold is_u64. rewrite two64_eq. rewrite two32_eq in *. lia.
Qed.

Lemma lxor_cancel_l a b c : Z.lxor a b = Z.lxor a c -> b = c.
Proof. intros E. by rewrite <- (Z.lxor_0_l b), <- (Z.lxor_0_l c), <- (Z.lxor_nilpotent a), !Z.lxor_assoc, E. Qed.

Lemma lxor_cancel_r a b c : Z.lxor b a = Z.lxor c a -> b = c.
Proof. rewrite !(Z.lxor_comm _ a). apply lxor_cancel_l. Qed.

(** The id made from the clock and the process id.  It is a 64-bit number, and no bit of the seed is lost
    on the way to it: two bridges get the same id only if their clock readings, modulo 2^64, and process
    ids combine to the same seed.  So of two bridges with one process id those that start at different
    times have different ids, and of two that start at the same time those with different process ids do. *)
Theorem origin_ids_differ_with_their_seeds n n' pid pid' :
  0 <= pid < two32 -> 0 <= pid' < two32 ->
  is_u64 (random_origin_id n pid)
  /\ (random_origin_id n pid = random_origin_id n' pid' <-> origin_seed n pid = origin_seed n' pid')
  /\ (pid = pid' -> random_origin_id n pid = random_origin_id n' pid' -> default 0 (option_map wrap64 n) = default 0 (option_map wrap64 n'))
  /\ (n = n' -> random_origin_id n pid = random_origin_id n' pid' -> pid = pid').
Proof.
  intros Hp Hp'. pose proof (origin_seed_u64 n pid Hp) as Hs. pose proof (origin_seed_u64 n' pid' Hp') as Hs'.
  assert (Hiff : random_origin_id n pid = random_origin_id n' pid' <-> origin_seed n pid = origin_seed n' pid').
  { split; [by apply mix_inj|]. unfold random_origin_id. by intros ->. }
  split; [apply xorshift_u64; [lia|apply wrap64_range]|]. split; [done|]. rewrite Hiff. unfold origin_seed. split.
  - intros <-. apply lxor_cancel_r.
  - intros <- E. apply lxor_cancel_l in E. rewrite !rotate_pid in E by done. rewrite two32_eq in *. lia.
Qed.

Lemma origin_ids_differ_with_their_seeds_witness : random_origin_id (Some 1700000000000000000) 4242 <> random_origin_id (Some 1700000000000000000) 4243.
Proof.
  intros E. assert (H : 4242 = 4243); [|discriminate H].
  apply (origin_ids_differ_with_their_seeds (Some 1700000000000000000) (Some 1700000000000000000) 4242 4243);
    [split; [vm_compute; congruence|vm_compute; reflexivity]..|reflexivity|exact E].
Defined.

(** A clock before the epoch counts as the epoch: the id is then the process id's alone. *)
Example no_clock : random_origin_id None 0 = 0 /\ random_origin_id None 1 = random_origin_id (Some (2 ^ 64)) 1.
Proof. split; vm_compute; reflexivity. Qed.
