(* ===== verification/QuicIdentity.v ===== *)
(** * The bridge's QUIC identity ([crates/mmbus-bridge/src/quic.rs])

    The self-signed certificate of a bridge, kept in two files; its fingerprint; and the verifier that pins a
    peer's certificate by it.  The SHA-256 of the ring library is the class [Sha256], the key generator of
    rcgen an argument.  A path is relative to a directory that exists. *)

From Stdlib Require Import ZArith Lia Strings.Byte Strings.Ascii.
From stdpp Require Import base option strings gmap list.
From S2P Require Import Prelude Text ProducerLock Bus BridgeConfig Bridge.

(** ** Files *)

Record file := File_ { bytes : list byte; mode : Z }.

Record fs := Fs { files : gmap fpath file; subdirs : gset fpath }.

Definition is_dir (p : fpath) (s : fs) : bool := bool_decide (p = [] \/ p ∈ subdirs s).

Inductive io_error := NotFound | IsADirectory | NotADirectory | OtherIo (code : Z).

(** What the operating system refuses: the error of a call, and the bytes a failing write has written. *)
Inductive fs_call := CRead | COpen | CWrite | CStat | CChmod | CMkdir.
Definition faults : Type := fs_call -> fpath -> option (io_error * Z).
Definition no_faults : faults := fun _ _ => None.

(** The mode of a new file, 644 in octal, and the one of a key, 600. *)
Definition DEFAULT_MODE : Z := 6 * 64 + 4 * 8 + 4.
Definition PRIVATE_MODE : Z := 6 * 64.

(** [Path::parent] *)
Definition parent (p : fpath) : option fpath := match p with [] => None | _ => Some (removelast p) end.

Section calls.
Variable flt : faults.

(** [Path::exists]: no when asking fails. *)
Definition path_exists (p : fpath) (s : fs) : bool :=
  match flt CStat p with
  | Some _ => false
  | None => is_dir p s || bool_decide (is_Some (files s !! p))
  end.

(** [fs::read] *)
Definition fs_read (p : fpath) : M fs io_error (list byte) := fun s =>
  match flt CRead p with
  | Some (e, _) => (s, Err e)
  | None =>
      if is_dir p s then (s, Err IsADirectory)
      else match files s !! p with Some f => (s, Ok (bytes f)) | None => (s, Err NotFound) end
  end.

(** [fs::write]: opening creates the file or empties it, and then the bytes are written. *)
Definition fs_write (p : fpath) (bs : list byte) : M fs io_error unit := fun s =>
  match flt COpen p with
  | Some (e, _) => (s, Err e)
  | None =>
      if is_dir p s then (s, Err IsADirectory)
      else if is_dir (removelast p) s then
        let m := match files s !! p with Some f => mode f | None => DEFAULT_MODE end in
        match flt CWrite p with
        | Some (e, k) => (Fs (<[p := File_ (ztake k bs) m]> (files s)) (subdirs s), Err e)
        | None => (Fs (<[p := File_ bs m]> (files s)) (subdirs s), Ok tt)
        end
      else (s, Err NotFound)
  end.

(** [fs::metadata(..).permissions()] *)
Definition fs_mode (p : fpath) : M fs io_error Z := fun s =>
  match flt CStat p with
  | Some (e, _) => (s, Err e)
  | None => match files s !! p with Some f => (s, Ok (mode f)) | None => (s, Err NotFound) end
  end.

(** [fs::set_permissions] *)
Definition fs_chmod (p : fpath) (m : Z) : M fs io_error unit := fun s =>
  match flt CChmod p with
  | Some (e, _) => (s, Err e)
  | None =>
      match files s !! p with
      | Some f => (Fs (<[p := File_ (bytes f) m]> (files s)) (subdirs s), Ok tt)
      | None => (s, Err NotFound)
      end
  end.

(** The directories on the way to a path, itself included. *)
Fixpoint prefixes (p : fpath) : list fpath :=
  match p with
  | [] => []
  | x :: p => [x] :: map (cons x) (prefixes p)
  end.

(** [fs::create_dir_all]; a failing one makes nothing. *)
Definition fs_create_dir_all (p : fpath) : M fs io_error unit := fun s =>
  if is_dir p s then (s, Ok tt)
  else
    match flt CMkdir p with
    | Some (e, _) => (s, Err e)
    | None =>
        if existsb (fun q => bool_decide (is_Some (files s !! q))) (prefixes p) then (s, Err NotADirectory)
        else (Fs (files s) (list_to_set (prefixes p) ∪ subdirs s), Ok tt)
    end.
End calls.

(** ** The fingerprint *)

Class Sha256 := {
  sha256 : list byte -> list byte;
  sha256_len : forall m, zlen (sha256 m) = 32
}.

(** [{:X}] of a digit, [{:02X}] of a byte. *)
Definition hex_digit (d : Z) : Z := if d <? 10 then 48 + d else 55 + d.
Definition hex_byte (b : byte) : rstring := [hex_digit (byte_to_Z b / 16); hex_digit (byte_to_Z b mod 16)].
Definition hex (bs : list byte) : rstring := concat (map hex_byte bs).

Definition fingerprint_der `{Sha256} (der : list byte) : rstring := SHA256_PREFIX ++ hex (sha256 der).

(** [ct_eq]: every pair of bytes is looked at. *)
Definition ct_eq (a b : list byte) : bool :=
  if negb (zlen a =? zlen b) then false
  else foldl (fun diff xy => Z.lor diff (Z.lxor (byte_to_Z xy.1) (byte_to_Z xy.2))) 0 (zip a b) =? 0.

(** ** The identity *)

Record identity := Identity { cert_der : list byte; key_der : list byte; fingerprint : rstring }.

Inductive quic_error (G : Type) :=
  | Rcgen (e : G)
  | Rustls
  | Quinn (why : rstring)
  | IdentityIo (path : fpath) (source : io_error).
Arguments Rustls {G}. Arguments Quinn {G}. Arguments IdentityIo {G}. Arguments Rcgen {G}.

(** [map_err] *)
Definition at_path {G A} (p : fpath) (m : M fs io_error A) : M fs (quic_error G) A := fun s =>
  let '(s, r) := m s in (s, map_err (IdentityIo p) r).

Section identity.
Context `{Sha256} {G : Type}.

(** What rcgen gives: a certificate and its key. *)
Variable rcgen : result G (list byte * list byte).
Variable flt : faults.

Definition generate : result (quic_error G) identity :=
  match rcgen with
  | Ok (cert, key) => Ok (Identity cert key (fingerprint_der cert))
  | Err e => Err (Rcgen e)
  end.

Definition load (cert_path key_path : fpath) : M fs (quic_error G) identity :=
  let! cert := at_path cert_path (fs_read flt cert_path) in
  let! key := at_path key_path (fs_read flt key_path) in
  ret (Identity cert key (fingerprint_der cert)).

Definition save (id : identity) (cert_path key_path : fpath) : M fs (quic_error G) unit :=
  do! at_path cert_path (fs_write flt cert_path (cert_der id)) in
  do! at_path key_path (fs_write flt key_path (key_der id)) in
  do! at_path key_path (fs_mode flt key_path) in
  at_path key_path (fs_chmod flt key_path PRIVATE_MODE).

Definition gen_or_load_identity (cert_path key_path : fpath) : M fs (quic_error G) identity := fun s =>
  if path_exists flt cert_path s && path_exists flt key_path s then load cert_path key_path s
  else
    (do! match parent cert_path with
         | Some dir => at_path dir (fs_create_dir_all flt dir)
         | None => ret tt
         end in
     let! id := lift generate in
     do! save id cert_path key_path in
     ret id) s.

(** [PinnedFingerprintVerifier::verify_server_cert] *)
Definition verify_server_cert (expected_fp : rstring) (end_entity : list byte) : result (rstring * rstring) unit :=
  let actual := fingerprint_der end_entity in
  if ct_eq (as_bytes actual) (as_bytes expected_fp) then Ok tt else Err (expected_fp, actual).

(** ** At startup ([build_quic_runtime_and_identity] in [bridge.rs]) *)

Definition path_of (s : rstring) : fpath := components (String.string_of_list_ascii (map ascii_of_byte (as_bytes s))).

Definition any_quic_peer (c : bridge_config) : bool := existsb (fun p => is_quic (transport p)) (peers c).

Definition base_path (temp_dir : fpath) (c : bridge_config) : fpath := default temp_dir (option_map path_of (base_dir c)).
Definition cert_file (temp_dir : fpath) (c : bridge_config) : fpath :=
  default (base_path temp_dir c ++ ["bridge.cert.der"]) (option_map path_of (quic_cert_path c)).
Definition key_file (temp_dir : fpath) (c : bridge_config) : fpath :=
  default (base_path temp_dir c ++ ["bridge.key.der"]) (option_map path_of (quic_key_path c)).

(** [runtime] is what building it gives; its threads are the system's. *)
Definition build_quic_runtime_and_identity {ME IE} (display : quic_error G -> rstring) (temp_dir : fpath)
    (runtime : result IE unit) (c : bridge_config) : M fs (bridge_error ME IE) (option unit * option identity) := fun s =>
  let want_listen := bool_decide (is_Some (listen_quic c)) in
  if negb (any_quic_peer c) && negb want_listen then (s, Ok (None, None))
  else
    match runtime with
    | Err e => (s, Err (Listen _ _ e))
    | Ok rt =>
        if want_listen then
          match gen_or_load_identity (cert_file temp_dir c) (key_file temp_dir c) s with
          | (s, Ok id) => (s, Ok (Some rt, Some id))
          | (s, Err e) => (s, Err (QuicSetup _ _ (display e)))
          end
        else (s, Ok (Some rt, None))
    end.
End identity.

(** ** Comparing and printing *)

Lemma byte_to_Z_inj a b : byte_to_Z a = byte_to_Z b -> a = b.
Proof. intros E. by rewrite <- (byte_of_to_Z a), <- (byte_of_to_Z b), E. Qed.

Lemma fold_diff a b d : length a = length b ->
  foldl (fun diff xy => Z.lor diff (Z.lxor (byte_to_Z xy.1) (byte_to_Z xy.2))) d (zip a b) = 0 <-> d = 0 /\ a = b.
Proof.
  revert b d. induction a as [|x a IH]; intros [|y b] d Hl; try done; cbn [zip_with foldl fst snd]; [naive_solver|].
  rewrite IH by (cbn in Hl; lia). rewrite Z.lor_eq_0_iff, Z.lxor_eq_0_iff. split.
  - intros [[-> E] ->]. by rewrite (byte_to_Z_inj _ _ E).
  - by intros [-> [= -> ->]].
Qed.

Lemma ct_eq_spec a b : ct_eq a b = true <-> a = b.
Proof.
  unfold ct_eq. destruct (Z.eqb_spec (zlen a) (zlen b)) as [E|Hne]; cbn [negb].
  - rewrite Z.eqb_eq, fold_diff by (unfold zlen in E; lia). naive_solver.
  - split; [done|]. by intros ->.
Qed.

Definition ascii (s : rstring) : Prop := Forall (fun c => 0 <= c < 128) s.

Lemma as_bytes_ascii s : ascii s -> as_bytes s = map byte_of_Z s.
Proof.
  induction 1 as [|c s Hc _ IH]; [done|]. unfold as_bytes in *. cbn [map concat]. rewrite IH. unfold utf8_char.
  by destruct (Z.ltb_spec c 0x80); [|lia].
Qed.

Lemma as_bytes_inj s s' : ascii s -> ascii s' -> as_bytes s = as_bytes s' -> s = s'.
Proof.
  intros Hs Hs'. rewrite !as_bytes_ascii by done. revert s' Hs'. induction Hs as [|c s Hc _ IH]; intros [|c' s'] Hs'; try done.
  apply Forall_cons in Hs' as [Hc' Hs']. cbn [map]. intros [= E1 E2]. f_equal; [|by apply IH].
  apply (f_equal byte_to_Z) in E1. rewrite !byte_to_of_Z, !Z.mod_small in E1 by lia. done.
Qed.

(** A digit as the code prints it. *)
Definition upper_hex (c : Z) : Prop := 48 <= c <= 57 \/ 65 <= c <= 70.

Lemma hex_digit_upper d : 0 <= d < 16 -> upper_hex (hex_digit d).
Proof. intros Hd. unfold hex_digit, upper_hex. destruct (Z.ltb_spec d 10); lia. Qed.

Lemma hex_digit_inj d d' : 0 <= d < 16 -> 0 <= d' < 16 -> hex_digit d = hex_digit d' -> d = d'.
Proof. unfold hex_digit. intros. destruct (Z.ltb_spec d 10), (Z.ltb_spec d' 10); lia. Qed.

Lemma nibbles b : 0 <= byte_to_Z b / 16 < 16 /\ 0 <= byte_to_Z b mod 16 < 16.
Proof.
  pose proof (byte_to_Z_range b). split; [|apply Z.mod_pos_bound; lia]. split; [apply Z.div_pos; lia|apply Z.div_lt_upper_bound; lia].
Qed.

Lemma hex_byte_inj a b : hex_byte a = hex_byte b -> a = b.
Proof.
  unfold hex_byte. intros [= E1 E2]. pose proof (nibbles a). pose proof (nibbles b).
  apply hex_digit_inj in E1, E2; [|naive_solver..]. apply byte_to_Z_inj.
  rewrite (Z.div_mod (byte_to_Z a) 16), (Z.div_mod (byte_to_Z b) 16) by lia. by rewrite E1, E2.
Qed.

Lemma hex_upper bs : Forall upper_hex (hex bs).
Proof.
  unfold hex. induction bs as [|b bs IH]; [constructor|]. cbn [map concat]. apply Forall_app. split; [|done].
  pose proof (nibbles b) as [H1 H2]. repeat (apply Forall_cons; split; [by apply hex_digit_upper|]). constructor.
Qed.

Lemma zlen_hex bs : zlen (hex bs) = 2 * zlen bs.
Proof. unfold hex. induction bs as [|b bs IH]; [done|]. cbn [map concat]. rewrite zlen_app, IH, zlen_cons. unfold hex_byte. rewrite !zlen_cons, zlen_nil. lia. Qed.

Lemma hex_inj a b : hex a = hex b -> a = b.
Proof.
  revert b. induction a as [|x a IH]; intros [|y b]; try done. unfold hex in *. cbn [map concat]. intros E.
  apply app_inj_1 in E as [E1 E2]; [|done]. by rewrite (hex_byte_inj _ _ E1), (IH _ E2).
Qed.

Lemma upper_hexdigit c : upper_hex c -> is_ascii_hexdigit c = true.
Proof. unfold upper_hex, is_ascii_hexdigit. rewrite !orb_true_iff, !andb_true_iff, !Z.leb_le. lia. Qed.

Lemma hexdigit_ascii c : is_ascii_hexdigit c = true -> 0 <= c < 128.
Proof. unfold is_ascii_hexdigit. rewrite !orb_true_iff, !andb_true_iff, !Z.leb_le. lia. Qed.

Lemma prefix_ascii : ascii SHA256_PREFIX.
Proof. repeat constructor; lia. Qed.

Lemma fingerprint_ok_ascii fp : fingerprint_ok fp -> ascii fp.
Proof.
  intros (h & -> & _ & Hh). apply Forall_app. split; [apply prefix_ascii|]. eapply Forall_impl; [exact Hh|]. apply hexdigit_ascii.
Qed.

Section fingerprints.
Context `{Sha256}.

(** The fingerprint of a certificate passes the configuration's check. *)
Lemma fingerprint_der_ok der : fingerprint_ok (fingerprint_der der).
Proof.
  exists (hex (sha256 der)). split; [done|]. split.
  - intros E. apply (f_equal zlen) in E. by rewrite zlen_hex, sha256_len in E.
  - eapply Forall_impl; [apply hex_upper|]. apply upper_hexdigit.
Qed.

Lemma fingerprint_der_inj x y : fingerprint_der x = fingerprint_der y <-> sha256 x = sha256 y.
Proof.
  unfold fingerprint_der. split; [|by intros ->]. intros E. apply app_inv_head in E. by apply hex_inj.
Qed.

Lemma verify_spec fp cert : ascii fp -> verify_server_cert fp cert = Ok tt <-> fp = fingerprint_der cert.
Proof.
  intros Hfp. unfold verify_server_cert. destruct (ct_eq _ _) eqn:E.
  - apply ct_eq_spec in E. split; [|done]. intros _. symmetry. apply as_bytes_inj; [|done|done].
    apply fingerprint_ok_ascii, fingerprint_der_ok.
  - split; [done|]. intros ->. by rewrite (proj2 (ct_eq_spec _ _) eq_refl) in E.
Qed.
End fingerprints.

(** Pinning.  The verifier accepts a certificate if and only if the configured pin is its fingerprint, and
    reports both when it does not; pinned to the fingerprint of one certificate, which the configuration's
    check lets through, it accepts exactly the certificates with the same SHA-256.  The check lets through
    more than that: a pin that is not 64 digits long, or has a lower-case one, matches no certificate. *)
Theorem pin_accepts_one_digest `{Sha256} name fp :
  validate_cert_fingerprint name fp = Ok tt ->
  (forall cert, verify_server_cert fp cert = if decide (fp = fingerprint_der cert) then Ok tt else Err (fp, fingerprint_der cert))
  /\ (forall cert, validate_cert_fingerprint name (fingerprint_der cert) = Ok tt)
  /\ (forall cert cert', verify_server_cert (fingerprint_der cert) cert' = Ok tt <-> sha256 cert' = sha256 cert)
  /\ (forall rest, fp = SHA256_PREFIX ++ rest -> zlen rest <> 64 \/ ~ Forall upper_hex rest -> forall cert, verify_server_cert fp cert <> Ok tt).
Proof.
  intros Hv. apply fingerprint_spec, fingerprint_ok_ascii in Hv. split; [|split; [|split]].
  - intros cert. destruct (decide _) as [E|Hne]; [by apply verify_spec|]. unfold verify_server_cert.
    destruct (ct_eq _ _) eqn:E; [|done]. destruct Hne. apply (verify_spec fp); [done|]. unfold verify_server_cert. by rewrite E.
  - intros cert. apply fingerprint_spec, fingerprint_der_ok.
  - intros cert cert'. rewrite verify_spec by apply fingerprint_ok_ascii, fingerprint_der_ok. rewrite fingerprint_der_inj. split; by intros ->.
  - intros rest -> Hbad cert E. apply verify_spec in E; [|done]. apply app_inv_head in E as ->.
    destruct Hbad as [Hl|Hu]; [|apply Hu, hex_upper]. by rewrite zlen_hex, sha256_len in Hl.
Qed.

(** ** The files *)

Lemma at_path_ok {G A} p (m : M fs io_error A) s s' a : @at_path G A p m s = (s', Ok a) -> m s = (s', Ok a).
Proof. unfold at_path. destruct (m s) as [s1 [x|e]]; cbn; congruence. Qed.

Lemma at_path_state {G A} p (m : M fs io_error A) s : (@at_path G A p m s).1 = (m s).1.
Proof. unfold at_path. by destruct (m s). Qed.

Section files.
Variable flt : faults.

Lemma fs_read_spec p s s' r : fs_read flt p s = (s', r) ->
  s' = s /\ (forall bs, r = Ok bs -> is_dir p s = false /\ exists f, files s !! p = Some f /\ bytes f = bs).
Proof. unfold fs_read. intros E. repeat dmatch E; minv; (split; [done|]; intros bs [= <-]; eauto). Qed.

(** What a write leaves alone, and what a successful one does. *)
Lemma fs_write_frame p bs s q : q <> p -> files (fs_write flt p bs s).1 !! q = files s !! q.
Proof. intros Hq. unfold fs_write. repeat dgoal; cbn [fst files]; try done; by rewrite lookup_insert_ne. Qed.

Lemma fs_write_ok p bs s s' : fs_write flt p bs s = (s', Ok tt) ->
  is_dir p s' = false /\ subdirs s' = subdirs s /\ exists m, files s' = <[p := File_ bs m]> (files s).
Proof. unfold fs_write. intros E. repeat dmatch E; minv; (split; [done|]; split; [done|]; eexists; done). Qed.

Lemma fs_mode_state p s : (fs_mode flt p s).1 = s.
Proof. unfold fs_mode. by repeat dgoal. Qed.

Lemma fs_chmod_frame p m s q : q <> p -> files (fs_chmod flt p m s).1 !! q = files s !! q.
Proof. intros Hq. unfold fs_chmod. repeat dgoal; cbn [fst files]; try done; by rewrite lookup_insert_ne. Qed.

Lemma fs_chmod_ok p m s s' : fs_chmod flt p m s = (s', Ok tt) ->
  subdirs s' = subdirs s /\ exists f, files s !! p = Some f /\ files s' = <[p := File_ (bytes f) m]> (files s).
Proof. unfold fs_chmod. intros E. repeat dmatch E; minv; (split; [done|]; eexists; done). Qed.

Lemma fs_create_dir_all_files p s : files (fs_create_dir_all flt p s).1 = files s.
Proof. unfold fs_create_dir_all. by repeat dgoal. Qed.
End files.

(** Where both files are readable: what [load] gives. *)
Definition holds (cert_path key_path : fpath) (id : identity) (m m' : Z) (s : fs) : Prop :=
  files s !! cert_path = Some (File_ (cert_der id) m) /\ files s !! key_path = Some (File_ (key_der id) m')
  /\ is_dir cert_path s = false /\ is_dir key_path s = false.

Section identity.
Context `{Sha256} {G : Type}.
Variables (cert_path key_path : fpath).

Lemma load_spec flt s s' (r : result (quic_error G) identity) : load flt cert_path key_path s = (s', r) ->
  s' = s /\ forall id, r = Ok id -> fingerprint id = fingerprint_der (cert_der id) /\ exists m m', holds cert_path key_path id m m' s.
Proof.
  unfold load, bind, ret, at_path. intros E. destruct (fs_read flt cert_path s) as [s1 [cert|e]] eqn:E1; cbn [map_err] in E;
    destruct (fs_read_spec _ _ _ _ _ E1) as [-> Hc]; [|by minv].
  destruct (fs_read flt key_path s) as [s2 [key|e]] eqn:E2; cbn [map_err] in E; destruct (fs_read_spec _ _ _ _ _ E2) as [-> Hk]; [|by minv].
  minv. split; [done|]. intros id [= <-]. split; [done|]. destruct (Hc cert eq_refl) as (Hd & f & Hf & <-).
  destruct (Hk key eq_refl) as (Hd' & f' & Hf' & <-). exists (mode f), (mode f'). split; [by destruct f|]. by split; [destruct f'|].
Qed.

(** An identity that is on disk is the one the next start loads, whatever rcgen would give. *)
Lemma load_holds (rcgen : result G _) id m m' s : holds cert_path key_path id m m' s -> fingerprint id = fingerprint_der (cert_der id) ->
  gen_or_load_identity rcgen no_faults cert_path key_path s = (s, Ok id).
Proof.
  intros (Hc & Hk & Hdc & Hdk) Hf. unfold gen_or_load_identity, path_exists, load, bind, ret, at_path, fs_read, no_faults.
  rewrite Hdc, Hdk, Hc, Hk. rewrite !bool_decide_eq_true_2 by (by eexists). destruct id. cbn in *. by rewrite Hdk, Hf.
Qed.

Lemma save_frame flt id s q : q <> cert_path -> q <> key_path ->
  files (@save G flt id cert_path key_path s).1 !! q = files s !! q.
Proof.
  intros Hc Hk. unfold save, bind, at_path. pose proof (fs_write_frame flt cert_path (cert_der id) s q Hc) as H1.
  destruct (fs_write flt cert_path _ s) as [s1 [[]|e]]; [|done]. cbn [map_err fst] in *.
  pose proof (fs_write_frame flt key_path (key_der id) s1 q Hk) as H2. destruct (fs_write flt key_path _ s1) as [s2 [[]|e]]; cbn [map_err fst] in *; [|congruence].
  pose proof (fs_mode_state flt key_path s2) as H3. destruct (fs_mode flt key_path s2) as [s3 [m|e]]; cbn [map_err fst] in *; subst; [|congruence].
  pose proof (fs_chmod_frame flt key_path PRIVATE_MODE s2 q Hk) as H4. destruct (fs_chmod _ _ _ s2) as [s4 r]. cbn [fst] in *. congruence.
Qed.

Lemma save_ok flt id s s' : cert_path <> key_path -> @save G flt id cert_path key_path s = (s', Ok tt) ->
  exists m, holds cert_path key_path id m PRIVATE_MODE s'.
Proof.
  intros Hne. unfold save, bind. intros E.
  destruct (at_path cert_path _ s) as [s1 [[]|e]] eqn:E1; [|by minv]. apply at_path_ok, fs_write_ok in E1 as (Hd1 & Hs1 & m & Hf1).
  destruct (at_path key_path _ s1) as [s2 [[]|e]] eqn:E2; [|by minv]. apply at_path_ok, fs_write_ok in E2 as (Hd2 & Hs2 & m' & Hf2).
  destruct (at_path key_path _ s2) as [s3 [m3|e]] eqn:E3; [|by minv]. apply at_path_ok in E3.
  assert (s3 = s2) as -> by (pose proof (fs_mode_state flt key_path s2) as Hm; by rewrite E3 in Hm).
  apply at_path_ok, fs_chmod_ok in E as (Hs4 & f & Hf & Hf4). exists m. unfold holds, is_dir in *. rewrite Hs4, Hs2 in *.
  rewrite Hf4, Hf2, Hf1 in *. rewrite lookup_insert_eq in Hf. injection Hf as <-.
  rewrite lookup_insert_ne, lookup_insert_ne, lookup_insert_eq, lookup_insert_eq by done. done.
Qed.

(** A start that makes a new identity. *)
Lemma new_identity (rcgen : result G _) flt s s' r : cert_path <> key_path ->
  (path_exists flt cert_path s && path_exists flt key_path s = false) ->
  gen_or_load_identity rcgen flt cert_path key_path s = (s', r) ->
  (forall id, r = Ok id -> fingerprint id = fingerprint_der (cert_der id) /\ rcgen = Ok (cert_der id, key_der id)
     /\ exists m, holds cert_path key_path id m PRIVATE_MODE s')
  /\ (forall q, q <> cert_path -> q <> key_path -> files s' !! q = files s !! q).
Proof.
  intros Hne Hb. unfold gen_or_load_identity. rewrite Hb. unfold bind at 1. set (mkdir := match parent cert_path with Some _ => _ | None => _ end).
  assert (Hf : files (mkdir s).1 = files s).
  { unfold mkdir. destruct (parent cert_path); [|done]. rewrite at_path_state. apply fs_create_dir_all_files. }
  destruct (mkdir s) as [s1 [[]|e]]; cbn [fst] in Hf; [|intros; minv; split; [done|by rewrite Hf]].
  unfold bind, lift, generate. destruct rcgen as [[cert key]|e]; [|intros; minv; split; [done|by rewrite Hf]].
  set (id := Identity _ _ _). pose proof (fun q => save_frame flt id s1 q) as Hfr. pose proof (save_ok flt id s1) as Hok.
  destruct (save flt id cert_path key_path s1) as [s2 [[]|e]]; cbn [fst] in *; unfold ret; intros; minv;
    (split; [|intros q Hc Hk; by rewrite Hfr, Hf]); [|done].
  intros id' [= <-]. split; [done|]. split; [done|]. by apply Hok.
Qed.
End identity.

(** C40: the identity over restarts.  When [gen_or_load_identity] gives an identity, both files hold it, its
    fingerprint is its certificate's, and the next start, if the files can be read, gives the same identity
    and changes nothing.  If both files were there it is theirs and nothing was written; otherwise it is a
    new one, and only its owner can read the key.  Whatever fails, files other than the two stay as they
    were, and a pair of files that is there is never overwritten. *)
Theorem identity_survives_restart `{Sha256} {G} (rcgen : result G _) flt cert_path key_path s s' r :
  cert_path <> key_path ->
  gen_or_load_identity rcgen flt cert_path key_path s = (s', r) ->
  (forall id, r = Ok id ->
     fingerprint id = fingerprint_der (cert_der id)
     /\ (forall rcgen' : result G _, gen_or_load_identity rcgen' no_faults cert_path key_path s' = (s', Ok id))
     /\ exists m m', holds cert_path key_path id m m' s'
          /\ (s' = s \/ rcgen = Ok (cert_der id, key_der id) /\ m' = PRIVATE_MODE))
  /\ (path_exists flt cert_path s && path_exists flt key_path s = true -> s' = s)
  /\ (forall q, q <> cert_path -> q <> key_path -> files s' !! q = files s !! q).
Proof.
  intros Hne E0. pose proof E0 as E. unfold gen_or_load_identity in E. destruct (path_exists flt cert_path s && _) eqn:Eb.
  - destruct (load_spec _ _ _ _ _ _ E) as [-> Hl]. split; [|done]. intros id Hr. destruct (Hl id Hr) as (Hf & m & m' & Hh).
    split; [done|]. split; [by intros rcgen'; apply (load_holds _ _ rcgen' id m m')|]. exists m, m'. auto.
  - destruct (new_identity cert_path key_path rcgen flt s s' r Hne Eb E0) as [Hn Hfr].
    split; [|done]. intros id Hr. destruct (Hn id Hr) as (Hf & Hg & m & Hh). split; [done|].
    split; [by intros rcgen'; apply (load_holds _ _ rcgen' id m PRIVATE_MODE)|]. exists m, PRIVATE_MODE. auto.
Qed.

(** ** At concrete inputs *)

(** A digest for the examples: the first 32 bytes. *)
#[local] Instance demo_sha256 : Sha256.
Proof.
  refine {| sha256 m := ztake 32 (m ++ zrep 32 Byte.x00) |}.
  intros m. rewrite zlen_ztake; [done|]. rewrite zlen_app, zlen_zrep by done. pose proof (zlen_nonneg m). lia.
Defined.

Definition demo_cert : list byte := [Byte.xab; Byte.x01].
Definition demo_key : list byte := [Byte.x99].
Definition demo_rcgen : result Z (list byte * list byte) := Ok (demo_cert, demo_key).
Definition cert_at : fpath := ["etc"; "bridge.cert.der"].
Definition key_at : fpath := ["etc"; "bridge.key.der"].
Definition no_files : fs := Fs ∅ ∅.

Lemma pin_accepts_one_digest_witness :
  let pin := fingerprint_der demo_cert in
  pin = str "sha256:AB01000000000000000000000000000000000000000000000000000000000000"
  /\ verify_server_cert pin demo_cert = Ok tt
  /\ verify_server_cert (str "sha256:ab01000000000000000000000000000000000000000000000000000000000000") demo_cert <> Ok tt.
Proof.
  split; [vm_compute; reflexivity|]. split.
  - apply (pin_accepts_one_digest [97] (fingerprint_der demo_cert)); vm_compute; reflexivity.
  - destruct (pin_accepts_one_digest [97] (str "sha256:ab01000000000000000000000000000000000000000000000000000000000000")) as (_ & _ & _ & Hl);
      [vm_compute; reflexivity|].
    apply (Hl (str "ab01000000000000000000000000000000000000000000000000000000000000")); [vm_compute; reflexivity|].
    right. intros Hu. apply Forall_cons in Hu as [Hu _]. vm_compute in Hu. destruct Hu as [[_ Hu]|[_ Hu]]; apply Hu; reflexivity.
Defined.

(** The first start makes the directory and both files; the second finds them. *)
Definition first_start : fs * result (quic_error Z) identity := gen_or_load_identity demo_rcgen no_faults cert_at key_at no_files.

Lemma identity_survives_restart_witness :
  gen_or_load_identity (@Err Z (list byte * list byte) 5) no_faults cert_at key_at first_start.1 = first_start
  /\ is_ok first_start.2 = true.
Proof.
  split; [|vm_compute; reflexivity].
  apply (identity_survives_restart demo_rcgen no_faults cert_at key_at no_files first_start.1 first_start.2); [discriminate|reflexivity|].
  vm_compute. reflexivity.
Defined.

Definition second_rcgen : result Z (list byte * list byte) := Ok ([Byte.xcd], [Byte.x88]).

(** One of the two files lost: both are replaced, and with them the fingerprint the peers have pinned. *)
Example one_lost_file_changes_the_fingerprint :
  let s := Fs (delete key_at (files first_start.1)) (subdirs first_start.1) in
  let again := gen_or_load_identity second_rcgen no_faults cert_at key_at s in
  again.2 = Ok (Identity [Byte.xcd] [Byte.x88] (fingerprint_der [Byte.xcd]))
  /\ option_map bytes (files again.1 !! cert_at) = Some [Byte.xcd].
Proof. split; vm_compute; reflexivity. Qed.

(** The key is written before it is made private: when that fails, so does the start, and the next one takes
    the key that everybody can read. *)
Example key_left_readable :
  let denied : faults := fun c _ => match c with CChmod => Some (OtherIo 1, 0) | _ => None end in
  let failed := gen_or_load_identity demo_rcgen denied cert_at key_at no_files in
  failed.2 = Err (IdentityIo key_at (OtherIo 1))
  /\ option_map mode (files failed.1 !! key_at) = Some DEFAULT_MODE
  /\ gen_or_load_identity demo_rcgen no_faults cert_at key_at failed.1
     = (failed.1, Ok (Identity demo_cert demo_key (fingerprint_der demo_cert))).
Proof. split; [|split]; vm_compute; reflexivity. Qed.

(** Only the certificate's directory is made: a key elsewhere cannot be written, after the certificate was. *)
Example key_directory_is_not_made :
  let failed := gen_or_load_identity demo_rcgen no_faults cert_at ["keys"; "bridge.key.der"] no_files in
  failed.2 = Err (IdentityIo ["keys"; "bridge.key.der"] NotFound) /\ option_map bytes (files failed.1 !! cert_at) = Some demo_cert.
Proof. split; vm_compute; reflexivity. Qed.

(** One path for both: the key overwrites the certificate, and the next start takes it for one. *)
Example one_path_for_both :
  let first := gen_or_load_identity demo_rcgen no_faults cert_at cert_at no_files in
  first.2 = Ok (Identity demo_cert demo_key (fingerprint_der demo_cert))
  /\ (gen_or_load_identity demo_rcgen no_faults cert_at cert_at first.1).2 = Ok (Identity demo_key demo_key (fingerprint_der demo_key)).
Proof. split; vm_compute; reflexivity. Qed.

(** A bridge that only dials has a runtime and no identity; one without QUIC has neither, whatever its files. *)
Lemma identity_only_to_listen {G ME IE} (rcgen : result G _) flt display tmp c s s' rt id :
  @build_quic_runtime_and_identity _ G rcgen flt ME IE display tmp (Ok tt) c s = (s', Ok (rt, id)) ->
  (is_Some rt <-> any_quic_peer c = true \/ is_Some (listen_quic c)) /\ (is_Some id <-> is_Some (listen_quic c))
  /\ (listen_quic c = None -> s' = s).
Proof.
  unfold build_quic_runtime_and_identity. destruct (listen_quic c) as [addr|]; intros E.
  - rewrite bool_decide_eq_true_2, andb_false_r in E by done. destruct (gen_or_load_identity _ _ _ _ s) as [s1 [i|e]]; minv. naive_solver.
  - rewrite bool_decide_eq_false_2 in E by (intros [? ?]; done). rewrite andb_true_r in E. destruct (any_quic_peer c); cbn [negb] in E; minv.
    + split; [naive_solver|]. split; [|done]. by split; intros [].
    + split; [|split; [by split; intros []|done]]. split; [by intros []|]. by intros [|[]].
Qed.
