(* ===== verification/Quic.v ===== *)
(** * The bridge over QUIC ([crates/mmbus-bridge/src/quic.rs])

    What a QUIC peer has instead of a forwarder thread - a thread between its queue and a second one inside
    the runtime, and the task that writes the stream - and the task that reads an accepted connection.  The
    quinn library's connections and streams are lists of the outcomes of the calls on them. *)

From Stdlib Require Import ZArith Lia Strings.Byte.
From stdpp Require Import base option gmap list.
From S2P Require Import Prelude Text BridgeConfig Frame Queue Bridge BridgeSpec BridgeMesh.

(** ** Waiting *)

(** [sleep_interruptible], in milliseconds: the chunks slept.  [stops] is what the loads of the shutdown flag
    give; the flag is down when they are used up. *)
Fixpoint sleep_chunks (fuel : nat) (left : Z) (stops : list bool) : list Z :=
  match fuel with
  | O => []
  | S fuel =>
      if 0 <? left then
        if match stops with true :: _ => true | _ => false end then []
        else let chunk := Z.min left 50 in chunk :: sleep_chunks fuel (saturating_sub left chunk) (tail stops)
      else []
  end.

Definition sleep_interruptible (total : Z) (stops : list bool) : list Z := sleep_chunks (Z.to_nat (total / 50) + 1) total stops.

(** ** The task that writes *)

(** One turn of [run_quic_connection]'s loop: the flag is up; what [recv] gave within 200 ms and how
    [write_all] ended ([Some k] is a failure after [k] bytes); the channel is closed; nothing came. *)
Inductive turn := TStop | TFrame (bytes : list byte) (failed : option Z) | TClosed | TQuiet.

Inductive session_end := Running | Finished | OpenFailed | HelloFailed | WriteFailed.

Fixpoint pump_stream (ts : list turn) : list byte * session_end :=
  match ts with
  | [] => ([], Running)
  | TStop :: _ | TClosed :: _ => ([], Finished)
  | TFrame bytes None :: ts => let '(wire, e) := pump_stream ts in (bytes ++ wire, e)
  | TFrame bytes (Some k) :: _ => (ztake k bytes, WriteFailed)
  | TQuiet :: ts => pump_stream ts
  end.

Definition run_quic_connection (open_failed : bool) (hello_failed : option Z) (hello : list byte) (ts : list turn) :
    list byte * session_end :=
  if open_failed then ([], OpenFailed)
  else
    match hello_failed with
    | Some k => (ztake k hello, HelloFailed)
    | None => let '(wire, e) := pump_stream ts in (hello ++ wire, e)
    end.

(** One turn of [outbound_main]'s loop. *)
Inductive dial :=
  | DStop
  | DConfigError
  | DBadEndpoint
  | DBindFailed (stops : list bool)
  | DSpawnFailed
  | DConnectFailed (stops : list bool)
  | DConnected (open_failed : bool) (hello_failed : option Z) (ts : list turn).

Inductive effect := Slept (chunks : list Z) | Session (wire : list byte) (e : session_end).

Fixpoint outbound_loop (hello : list byte) (backoff : Z) (ds : list dial) : list effect :=
  match ds with
  | [] | DStop :: _ | DConfigError :: _ | DBadEndpoint :: _ | DSpawnFailed :: _ => []
  | DBindFailed stops :: ds | DConnectFailed stops :: ds =>
      Slept (sleep_interruptible backoff stops) :: outbound_loop hello (next_backoff backoff) ds
  | DConnected open_failed hello_failed ts :: ds =>
      let '(wire, e) := run_quic_connection open_failed hello_failed hello ts in
      Session wire e :: outbound_loop hello 50 ds
  end.

Definition outbound_main (hello : list byte) (ds : list dial) : list effect := outbound_loop hello 50 ds.

(** ** Between the queues *)

(** A peer's queue, the thread of [spawn_queue_bridge] with the frame it cannot hand on yet, the runtime's
    channel, and what the task that writes has taken from it. *)
Record pipe := Pipe {
  pq : chan (list byte);
  held : option (list byte);
  tokio : list (list byte);
  taken : list (list byte)
}.

(** [PSend]: the subscriber's [send]; [PMove]: the thread's [recv_timeout]; [PPush]: its [blocking_send]
    goes through; [PTake]: the task's [recv]. *)
Inductive pipe_event := PSend (bytes : list byte) | PMove (waits : list (list (qop (list byte)) * bool)) | PPush | PTake.

(** [mpsc::channel(peer_buffer_max.max(1))] *)
Definition tokio_capacity (peer_buffer_max : Z) : Z := Z.max peer_buffer_max 1.

(** A step that would block does nothing. *)
Definition pipe_step (cap : Z) (p : pipe) (e : pipe_event) : pipe :=
  match e with
  | PSend bytes => Pipe (send bytes (pq p)).1 (held p) (tokio p) (taken p)
  | PMove waits =>
      match held p with
      | Some _ => p
      | None => let '(q, r) := recv_timeout waits (pq p) in Pipe q r (tokio p) (taken p)
      end
  | PPush =>
      match held p with
      | Some bytes => if zlen (tokio p) <? cap then Pipe (pq p) None (tokio p ++ [bytes]) (taken p) else p
      | None => p
      end
  | PTake =>
      match tokio p with
      | bytes :: rest => Pipe (pq p) (held p) rest (taken p ++ [bytes])
      | [] => p
      end
  end.

Definition new_pipe (q : chan (list byte)) : pipe := Pipe q None [] [].

(** ** The task that reads *)

(** [handle_inbound_frame]: what it sends to the publisher thread. *)
Definition handle_inbound_frame (our_origin_id : Z) (receive_topics : list (list byte)) (f : frame) : option (list byte * list byte) :=
  if origin_id f =? our_origin_id then None
  else if negb (bool_decide (ftype f = Msg)) then None
  else if negb (utf8_valid (topic f)) then None
  else if bool_decide (topic f ∈ receive_topics) then Some (topic f, fpayload f) else None.

Section connection.
Variables (our_origin_id : Z) (receive_topics accepted_psks : list (list byte)).

(** A complete frame; [inr] closes the connection. *)
Definition on_quic_frame (c : conn) (f : frame) (n : Z) : conn + close_reason :=
  if negb (authenticated c) then
    if negb (bool_decide (ftype f = PeerHello)) then inr (NotHello (ftype f))
    else
      match parse_peer_hello (fpayload f) with
      | Err e => inr (MalformedHello e)
      | Ok (_, psk) =>
          if negb (bool_decide (psk ∈ accepted_psks)) then inr PskMismatch else inl (Conn (zdrop n (cbuf c)) true (published c))
      end
  else
    let out := match handle_inbound_frame our_origin_id receive_topics f with Some m => [m] | None => [] end in
    inl (Conn (zdrop n (cbuf c)) (authenticated c) (published c ++ out)).

Fixpoint quic_frames (fuel : nat) (c : conn) : conn * option close_reason :=
  match fuel with
  | O => (c, None)
  | S fuel =>
      match decode (cbuf c) with
      | Ok (f, n) =>
          match on_quic_frame c f n with
          | inl c => quic_frames fuel c
          | inr r => (c, Some r)
          end
      | Err (Incomplete _ _) => (c, None)
      | Err e => (c, Some (ProtocolError e))
      end
  end.

(** The outcome of a read within 200 ms, or the flag seen at the top of the loop.  A read of no bytes is the
    end of the stream. *)
Inductive quic_read := QBytes (chunk : list byte) | QEnd | QFailed | QElapsed | QStop.

Fixpoint read_stream (reads : list quic_read) (c : conn) : conn * option close_reason :=
  match reads with
  | [] => (c, None)
  | QBytes chunk :: reads =>
      if 0 <? zlen chunk then
        let c := Conn (cbuf c ++ chunk) (authenticated c) (published c) in
        match quic_frames (S (length (cbuf c))) c with
        | (c, Some r) => (c, Some r)
        | (c, None) => read_stream reads c
        end
      else (c, Some PeerClosed)
  | QEnd :: _ => (c, Some PeerClosed)
  | QFailed :: _ => (c, Some ReadFailed)
  | QElapsed :: reads => read_stream reads c
  | QStop :: _ => (c, Some ShuttingDown)
  end.

(** [accept_failed]: the peer opened no stream. *)
Definition handle_connection (accept_failed : bool) (reads : list quic_read) : conn * option close_reason :=
  if accept_failed then (accepted, Some ReadFailed) else read_stream reads accepted.
End connection.

(** ** The task that accepts *)

(** How the endpoint came up. *)
Inductive endpoint := EBindFailed | EAddrFailed | EBound.

(** One turn of [listener_main]'s loop: the flag is up; what [accept] gave within 200 ms: a connection whose
    handshake fails, or is made, with how [accept_bi] ended and what its stream gave; a closed endpoint; nothing. *)
Inductive incoming := IStop | IHandshakeFailed | IConnection (c : bool * list quic_read) | IClosed | IQuiet.

Inductive quic_listener_end := Accepting | NotBound | ShutDown | EndpointClosed.

(** The connections that a handler is spawned for.  The tasks of those whose handshake fails end with it. *)
Fixpoint listener_loop (turns : list incoming) : list (bool * list quic_read) * quic_listener_end :=
  match turns with
  | [] => ([], Accepting)
  | IStop :: _ => ([], ShutDown)
  | IClosed :: _ => ([], EndpointClosed)
  | IConnection c :: turns => let '(cs, e) := listener_loop turns in (c :: cs, e)
  | IHandshakeFailed :: turns | IQuiet :: turns => listener_loop turns
  end.

(** The listener, and whether it has sent the address it is bound to. *)
Definition listener_main (ep : endpoint) (turns : list incoming) : bool * (list (bool * list quic_read) * quic_listener_end) :=
  match ep with
  | EBindFailed | EAddrFailed => (false, ([], NotBound))
  | EBound => (true, listener_loop turns)
  end.

Definition connection_of (i : incoming) : option (bool * list quic_read) := match i with IConnection c => Some c | _ => None end.

(** ** Waiting *)

Definition total_slept (chunks : list Z) : Z := foldr Z.add 0 chunks.

Lemma sleep_chunks_spec fuel left stops : 0 <= left <= 50 * Z.of_nat fuel ->
  let cs := sleep_chunks fuel left stops in
  Forall (fun c => 0 < c <= 50) cs /\ total_slept cs <= left /\ (Forall (eq false) stops -> total_slept cs = left).
Proof.
  revert left stops. induction fuel as [|fuel IH]; intros left stops Hl; [cbn; split; [constructor|lia]|]. cbn [sleep_chunks].
  destruct (Z.ltb_spec 0 left) as [Hpos|]; [|cbn; split; [constructor|]; split; [lia|]; intros _; lia].
  destruct (match stops with true :: _ => true | _ => false end) eqn:Es.
  - cbn. split; [constructor|]. split; [lia|]. intros Hs. destruct stops as [|[] stops]; try done. by apply Forall_cons in Hs as [? _].
  - unfold saturating_sub. destruct (IH (Z.max 0 (left - Z.min left 50)) (tail stops)) as (H1 & H2 & H3); [lia|].
    cbn [total_slept foldr]. fold (total_slept (sleep_chunks fuel (Z.max 0 (left - Z.min left 50)) (tail stops))).
    split; [constructor; [lia|done]|]. split; [lia|]. intros Hs. rewrite H3; [lia|]. destruct stops; [done|]. by apply Forall_cons in Hs as [_ ?].
Qed.

Lemma sleep_interruptible_spec total stops : 0 <= total ->
  let cs := sleep_interruptible total stops in
  Forall (fun c => 0 < c <= 50) cs /\ total_slept cs <= total /\ (Forall (eq false) stops -> total_slept cs = total).
Proof.
  intros Ht. apply sleep_chunks_spec. split; [done|]. rewrite Nat2Z.inj_add, Z2Nat.id by (apply Z.div_pos; lia).
  pose proof (Z.mul_succ_div_gt total 50). lia.
Qed.

(** As long as the listener runs, no connection is left out, whatever becomes of the others. *)
Lemma quic_listener_serves turns rest : Forall (fun i => i <> IStop /\ i <> IClosed) turns ->
  listener_main EBound (turns ++ rest) = (true, (omap connection_of turns ++ (listener_loop rest).1, (listener_loop rest).2)).
Proof.
  intros Ht. unfold listener_main. f_equal. induction Ht as [|i turns [H1 H2] _ IH]; [apply surjective_pairing|].
  destruct i as [| |c| |]; try done; cbn [app listener_loop]; by rewrite IH.
Qed.

(** However often it fails to connect, the task never sleeps for more than a second before it tries again. *)
Lemma retries_come_soon hello ds :
  Forall (fun e => match e with Slept cs => total_slept cs <= 1000 | Session _ _ => True end) (outbound_main hello ds).
Proof.
  unfold outbound_main. assert (Hb : 0 <= 50 <= 1000) by lia. revert Hb. generalize 50.
  induction ds as [|d ds IH]; intros b Hb; [constructor|]. assert (Hn : 0 <= next_backoff b <= 1000) by (unfold next_backoff; lia).
  destruct d as [| | |stops| |stops|o h ts]; cbn [outbound_loop]; try constructor; try (by apply IH).
  1,2: destruct (sleep_interruptible_spec b stops) as (_ & ? & _); lia.
  destruct (run_quic_connection _ _ _ _). constructor; [done|]. apply IH. lia.
Qed.

(** ** The reader is the TCP reader *)

Definition tcp_read (r : quic_read) : read :=
  match r with
  | QBytes [] => REof
  | QBytes chunk => RBytes chunk
  | QEnd => REof
  | QFailed => RError
  | QElapsed => RTimeout
  | QStop => RShutdown
  end.

Lemma handle_inbound_frame_eq us rts f : handle_inbound_frame us rts f = handle_frame us rts f.
Proof. unfold handle_inbound_frame, handle_frame. destruct (_ =? us); [done|]. destruct (ftype f); cbn; try done. by destruct (utf8_valid _). Qed.

Section reader.
Variables (us : Z) (rts psks : list (list byte)).

Lemma on_quic_frame_eq c f n : on_quic_frame us rts psks c f n = on_frame us rts psks c f n.
Proof.
  unfold on_quic_frame, on_frame. rewrite handle_inbound_frame_eq. destruct (authenticated c); [done|].
  cbn [negb]. destruct (bool_decide (ftype f = PeerHello)); [|done]. destruct (parse_peer_hello _) as [[id psk]|e]; [|done]. by destruct (bool_decide _).
Qed.

Lemma quic_frames_eq fuel c : quic_frames us rts psks fuel c = drain_frames us rts psks fuel c.
Proof.
  revert c. induction fuel as [|fuel IH]; intros c; [done|]. cbn [quic_frames drain_frames].
  destruct (decode (cbuf c)) as [[f n]|e]; [|done]. rewrite on_quic_frame_eq. destruct (on_frame us rts psks c f n); [apply IH|done].
Qed.

Lemma read_stream_eq reads c : read_stream us rts psks reads c = reader_main us rts psks (map tcp_read reads) c.
Proof.
  revert c. induction reads as [|r reads IH]; intros c; [done|]. destruct r as [chunk| | | |]; try done; cbn [map tcp_read]; [|apply IH].
  destruct chunk as [|x chunk]; [done|]. cbn [read_stream reader_main]. rewrite zlen_cons.
  destruct (Z.ltb_spec 0 (1 + zlen chunk)); [|pose proof (zlen_nonneg chunk); lia]. cbv zeta. rewrite quic_frames_eq. fold (drain us rts psks).
  change (drain_frames us rts psks (S (length (cbuf (Conn (cbuf c ++ x :: chunk) (authenticated c) (published c))))) ?d) with (drain us rts psks d).
  destruct (drain us rts psks _) as [c' [r|]]; [done|apply IH].
Qed.

(** The reads up to the first that ends the connection. *)
Fixpoint heard (reads : list quic_read) : list read :=
  match reads with
  | QBytes (x :: chunk) :: reads => RBytes (x :: chunk) :: heard reads
  | QElapsed :: reads => RTimeout :: heard reads
  | _ => []
  end.

Lemma heard_quiet reads : Forall quiet (heard reads).
Proof. induction reads as [|[[|x chunk]| | | |] reads IH]; cbn; by repeat constructor. Qed.

Lemma published_heard reads c :
  published (read_stream us rts psks reads c).1 = published (reader_main us rts psks (heard reads) c).1.
Proof.
  rewrite read_stream_eq. revert c. induction reads as [|[[|x chunk]| | | |] reads IH]; intros c; cbn [map tcp_read heard reader_main]; try done.
  destruct (drain us rts psks _) as [c' [r|]]; [done|apply IH].
Qed.
End reader.

(** ** The two queues in a row *)

(** What the peer's queue sees of a run of the pipe. *)
Fixpoint queue_events (cap : Z) (p : pipe) (es : list pipe_event) : list (event (list byte)) :=
  match es with
  | [] => []
  | e :: es =>
      match e with
      | PSend bytes => [ESend bytes]
      | PMove waits => match held p with None => [ERecv waits] | Some _ => [] end
      | PPush | PTake => []
      end ++ queue_events cap (pipe_step cap p e) es
  end.

(** Nothing is lost or reordered between the queue and the task, and the channel keeps its bound. *)
Definition pipe_ok (cap : Z) (p : pipe) (t : trace (list byte)) : Prop :=
  tq t = pq p /\ received t = taken p ++ tokio p ++ option_list (held p) /\ zlen (tokio p) <= cap.

Lemma pipe_runs cap p t es : pipe_ok cap p t -> pipe_ok cap (foldl (pipe_step cap) p es) (foldl run_event t (queue_events cap p es)).
Proof.
  revert p t. induction es as [|e es IH]; intros p t Hok; [done|]. cbn [foldl queue_events]. rewrite foldl_app. apply IH. clear IH.
  destruct Hok as (Hq & Hr & Hl). destruct e as [x|waits| |]; cbn [pipe_step].
  - cbn [foldl run_event]. split; [by rewrite Hq|done].
  - destruct (held p) as [y|] eqn:Eh; [by rewrite <- Eh in Hr|]. cbn [foldl run_event option_list] in *. rewrite Hq.
    destruct (recv_timeout waits (pq p)) as [q [x|]]; (split; [done|]; split; [|done]); cbn [received taken tokio held option_list];
      by rewrite Hr, ?app_nil_r, <- ?app_assoc.
  - cbn [foldl]. destruct (held p) as [y|] eqn:Eh; [|by rewrite <- Eh in Hr]. destruct (Z.ltb_spec (zlen (tokio p)) cap); [|by rewrite <- Eh in Hr].
    split; [done|]. cbn [taken tokio held option_list] in *. split; [by rewrite Hr, app_nil_r|]. rewrite zlen_app, zlen_cons, zlen_nil. lia.
  - cbn [foldl]. destruct (tokio p) as [|y rest] eqn:Et; [by rewrite <- Et in Hr, Hl|]. rewrite zlen_cons in Hl.
    split; [done|]. cbn [taken tokio held]. split; [by rewrite Hr, <- !app_assoc|lia].
Qed.

Lemma new_pipe_ok cap q0 : 0 <= cap -> pipe_ok cap (new_pipe q0) (Trace q0 [] []).
Proof. intros Hc. split; [done|]. split; [done|]. by cbn. Qed.

(** ** What a run of the task writes *)

Fixpoint taken_by (ts : list turn) : list (list byte) :=
  match ts with
  | [] | TStop :: _ | TClosed :: _ => []
  | TFrame bytes None :: ts => bytes :: taken_by ts
  | TFrame bytes (Some _) :: _ => [bytes]
  | TQuiet :: ts => taken_by ts
  end.

Definition session_takes (open_failed : bool) (hello_failed : option Z) (ts : list turn) : list (list byte) :=
  if open_failed then [] else match hello_failed with Some _ => [] | None => taken_by ts end.

(** The frames the task has taken out of its channel. *)
Fixpoint dialled (ds : list dial) : list (list byte) :=
  match ds with
  | [] | DStop :: _ | DConfigError :: _ | DBadEndpoint :: _ | DSpawnFailed :: _ => []
  | DBindFailed _ :: ds | DConnectFailed _ :: ds => dialled ds
  | DConnected open_failed hello_failed ts :: ds => session_takes open_failed hello_failed ts ++ dialled ds
  end.

(** Frames that got stuck in a write. *)
Definition stuck (e : session_end) : nat := match e with WriteFailed => 1 | _ => 0 end.

Lemma pump_stream_spec ts : let '(w, e) := pump_stream ts in
  exists whole rest part, taken_by ts = whole ++ rest /\ w = concat whole ++ part /\ part `prefix_of` concat rest /\ length rest = stuck e.
Proof.
  induction ts as [|[|bytes [k|]| |] ts IH]; cbn [pump_stream taken_by].
  1-2, 5: by exists [], [], [].
  - exists [], [bytes], (ztake k bytes). split; [done|]. split; [done|]. cbn [concat]. rewrite app_nil_r. split; [|done].
    exists (zdrop k bytes). by rewrite ztake_zdrop.
  - destruct (pump_stream ts) as [w e]. destruct IH as (whole & rest & part & -> & -> & Hp & Hl).
    exists (bytes :: whole), rest, part. split; [done|]. cbn [concat]. by rewrite <- app_assoc.
  - exact IH.
Qed.

(** The connections of the other side: whether accepting the stream failed, and the reads. *)
Definition inbound : Type := bool * list quic_read.

Definition stream_bytes (c : inbound) : list byte := read_bytes (heard c.2).

Definition publishes (b : host) (c : inbound) : list (list byte * list byte) :=
  published (handle_connection (hid b) (receive_topics (hcfg b)) (accepted_psks (hcfg b)) c.1 c.2).1.

Definition sessions (es : list effect) : list (list byte * session_end) :=
  omap (fun e => match e with Session w e => Some (w, e) | Slept _ => None end) es.

Definition lost_in (ses : list (list byte * session_end)) : nat := foldr Nat.add 0%nat (map (fun s => stuck s.2) ses).

(** What came of [fs] on a connection, and the messages a bridge made of it. *)
Definition outcome (a b : host) (p : peer_config) (fs : list frame) (w : list byte) (e : session_end) (c : inbound) : Prop :=
  exists arrived, arrived `prefix_of` fs
    /\ (c.1 = false -> stream_bytes c = w -> (length fs <= length arrived + stuck e)%nat)
    /\ publishes b c = if bool_decide (as_bytes (preshared_key p) ∈ accepted_psks (hcfg b)) && negb (hid a =? hid b) then accepts b arrived else [].

Section links.
Variables (a b : host) (p : peer_config).
Hypotheses (Ha : host_ok a) (Hb : host_ok b) (Hpsk : zlen (as_bytes (preshared_key p)) < 2 ^ 16).
#[local] Notation own := (Forall (own_frame (hid a) (forward_topics (hcfg a)))).

(** A stream that begins with the hello, read by a bridge. *)
Lemma hello_reads fs w e c whole rest part :
  own fs -> map enc_frame fs = whole ++ rest -> part `prefix_of` concat rest -> length rest = stuck e ->
  stream_bytes c `prefix_of` hello_bytes (hid a) p ++ concat whole ++ part ->
  w = hello_bytes (hid a) p ++ concat whole ++ part -> outcome a b p fs w e c.
Proof.
  intros Hfs Em Hp Hl Hr ->. unfold outcome, publishes, handle_connection. destruct c as [[] reads]; cbn [fst snd] in *.
  { exists []. split; [apply prefix_nil|]. split; [done|]. by destruct (_ && _). }
  rewrite published_heard, <- Hl. unfold stream_bytes in *. cbn [snd] in *.
  destruct (partial_reads a b p fs whole rest part (heard reads)) as (arr & ? & Hn & ?); try done; [apply heard_quiet|].
  exists arr. split; [done|]. split; [|done]. by intros _ ?; apply Hn.
Qed.

(** A stream that ends before any frame. *)
Lemma no_frames w e c : w `prefix_of` hello_bytes (hid a) p -> stream_bytes c `prefix_of` w -> outcome a b p [] w e c.
Proof.
  intros Hw Hr. destruct (hello_reads [] (hello_bytes (hid a) p) Finished c [] [] []) as (arr & Hp & _ & Hpub); try done.
  - etrans; [exact Hr|]. cbn. by rewrite app_nil_r.
  - cbn. by rewrite app_nil_r.
  - exists arr. split; [done|]. split; [cbn; lia|done].
Qed.

(** One connection. *)
Lemma session_reads fs open_failed hello_failed ts c :
  own fs -> session_takes open_failed hello_failed ts = map enc_frame fs ->
  let '(w, e) := run_quic_connection open_failed hello_failed (hello_bytes (hid a) p) ts in
  stream_bytes c `prefix_of` w -> outcome a b p fs w e c.
Proof.
  intros Hfs. unfold session_takes, run_quic_connection. destruct open_failed as [|].
  { intros Em Hr. symmetry in Em. apply map_eq_nil in Em as ->. apply no_frames; [apply prefix_nil|done]. }
  destruct hello_failed as [k|].
  { intros Em Hr. symmetry in Em. apply map_eq_nil in Em as ->. apply no_frames; [|done].
    exists (zdrop k (hello_bytes (hid a) p)). by rewrite ztake_zdrop. }
  intros Em. pose proof (pump_stream_spec ts) as Hs. destruct (pump_stream ts) as [w e].
  destruct Hs as (whole & rest & part & Et & -> & Hp & Hl). intros Hr. apply (hello_reads _ _ _ _ whole rest part); try done. by rewrite <- Em.
Qed.

(** All of them, one after the other. *)
Definition summary (fs : list frame) (ses : list (list byte * session_end)) (cs : list inbound) : Prop :=
  exists arrived, arrived `sublist_of` fs
    /\ (Forall2 (fun c s => c.1 = false /\ stream_bytes c = s.1) cs ses -> (length fs <= length arrived + lost_in ses)%nat)
    /\ concat (map (publishes b) cs)
       = if bool_decide (as_bytes (preshared_key p) ∈ accepted_psks (hcfg b)) && negb (hid a =? hid b) then accepts b arrived else [].

Lemma summary_cons fs fs' w e ses c cs : outcome a b p fs w e c -> summary fs' ses cs -> summary (fs ++ fs') ((w, e) :: ses) (c :: cs).
Proof.
  intros (x & Hx & Hn & Ep) (y & Hy & Hn' & Eq). exists (x ++ y). split; [apply sublist_app; [by apply prefix_sublist|done]|]. split.
  - intros HF. apply Forall2_cons in HF as [[H1 H2] HF]. specialize (Hn H1 H2). specialize (Hn' HF).
    rewrite !length_app. unfold lost_in in *. cbn [map foldr snd]. lia.
  - cbn [map concat]. rewrite Ep, Eq, accepts_app. by destruct (_ && _).
Qed.

Lemma connections_read ds backoff fs cs : own fs -> dialled ds = map enc_frame fs ->
  let ses := sessions (outbound_loop (hello_bytes (hid a) p) backoff ds) in
  Forall2 (fun c s => stream_bytes c `prefix_of` s.1) cs ses -> summary fs ses cs.
Proof.
  revert cs backoff fs. induction ds as [|d ds IH]; intros cs backoff fs Hfs.
  2: destruct d as [| | |stops| |stops|o h ts]; cbn [dialled outbound_loop]; try exact (IH _ _ _ Hfs).
  all: cbv zeta.
  1-5: intros E HF; symmetry in E; apply map_eq_nil in E as ->; apply Forall2_nil_inv_r in HF as ->;
    exists []; split; [done|]; split; [cbn; lia|by destruct (_ && _)].
  intros E. symmetry in E. apply map_eq_app in E as (fs1 & fs2 & -> & E1 & E2). apply Forall_app in Hfs as [Hfs1 Hfs2].
  pose proof (fun c => session_reads fs1 o h ts c Hfs1 (eq_sym E1)) as Hs. destruct (run_quic_connection _ _ _ ts) as [w e].
  intros HF. apply Forall2_cons_inv_r in HF as (c & cs' & Hc & HF & ->). apply summary_cons; [by apply Hs|]. by apply IH.
Qed.
End links.

(** C16: from one bridge to another over QUIC.  Frames of topics A forwards go into A's queue for a peer; the
    thread behind it moves them to the runtime's channel, in any interleaving with the senders and the task
    that takes them out; that task dials, fails, is cut off in the middle of a write and dials again, any
    number of times.  B's listener accepts what comes of that, between handshakes that fail.  However each of
    B's connections is cut into reads and wherever it ends, and however the tasks that read them come to send
    on the channel they share, B's publisher gets the messages of frames A sent whose topic B receives, none twice;
    those of one connection in the order A sent them, and all of them in that order as long as each task is
    done before the next one begins; and nothing without an accepted key or under B's own id.  When
    every connection is accepted and read to its end, each failed write costs one frame and nothing else is lost of
    what the task took. *)
Theorem quic_messages_arrive a b p cap (q0 : chan (list byte)) frames es ds turns m :
  host_ok a -> host_ok b -> zlen (as_bytes (preshared_key p)) < 2 ^ 16 ->
  Forall (own_frame (hid a) (forward_topics (hcfg a))) frames ->
  channel cap = Some q0 ->
  let line := foldl (pipe_step (tokio_capacity cap)) (new_pipe q0) es in
  sent (foldl run_event (Trace q0 [] []) (queue_events (tokio_capacity cap) (new_pipe q0) es)) = map enc_frame frames ->
  dialled ds `prefix_of` taken line ->
  let ses := sessions (outbound_main (hello_bytes (hid a) p) ds) in
  let cs := (listener_main EBound turns).2.1 in
  Forall2 (fun c s => stream_bytes c `prefix_of` s.1) cs ses ->
  merge (map (publishes b) cs) m ->
  let due arrived := if bool_decide (as_bytes (preshared_key p) ∈ accepted_psks (hcfg b)) && negb (hid a =? hid b) then accepts b arrived else [] in
  exists arrived, arrived `sublist_of` frames
    /\ m ≡ₚ due arrived
    /\ Forall (fun c => publishes b c `sublist_of` m) cs
    /\ concat (map (publishes b) cs) = due arrived
    /\ (Forall2 (fun c s => c.1 = false /\ stream_bytes c = s.1) cs ses -> (length (dialled ds) <= length arrived + lost_in ses)%nat).
Proof.
  intros Ha Hb Hpsk Hfs Hc line Hsent Hd ses cs HF Hm due.
  destruct (pipe_runs (tokio_capacity cap) (new_pipe q0) (Trace q0 [] []) es) as (_ & Hrec & _).
  { apply new_pipe_ok. unfold tokio_capacity. lia. }
  fold line in Hrec. set (t := foldl run_event _ _) in *.
  assert (Hsub : dialled ds `sublist_of` map enc_frame frames).
  { rewrite <- Hsent. etrans; [|apply (received_from_sent cap q0 _ Hc)]. fold t. rewrite Hrec. by apply sublist_inserts_r, prefix_sublist. }
  apply sublist_map_inv in Hsub as (fs & E & Hfs1).
  destruct (connections_read a b p Ha Hb Hpsk ds 50 fs cs (Forall_sublist _ _ _ Hfs1 Hfs) E HF) as (arr & Hsub & Hn & Hpub).
  exists arr. split; [by etrans|]. split; [unfold due; rewrite <- Hpub; by apply merge_perm|].
  split; [pose proof (merge_sublist _ _ Hm) as Hms; by apply Forall_map in Hms|].
  split; [done|]. rewrite E, length_map. exact Hn.
Qed.

(** ** At concrete bridges *)

(** The first connection is cut off inside the second frame; the third goes over the next one. *)
Definition quic_frames_sent : list (list byte) := map enc_frame demo_frames.

Definition demo_line : list pipe_event :=
  match quic_frames_sent with
  | [f1; f2; f3] => [PSend f1; PMove []; PTake; PPush; PSend f2; PTake; PSend f3; PMove []; PPush; PMove []; PPush; PTake; PTake]
  | _ => []
  end.

Definition demo_dials : list dial :=
  match quic_frames_sent with
  | [f1; f2; f3] =>
      [DConnectFailed []; DConnected false None [TFrame f1 None; TQuiet; TFrame f2 (Some 5); TFrame f3 None];
       DBindFailed [false; true]; DConnected false None [TFrame f3 None; TStop]]
  | _ => []
  end.

Definition demo_sessions : list (list byte * session_end) := sessions (outbound_main (hello_bytes 7 (demo_peer 97)) demo_dials).
Definition demo_incoming : list incoming :=
  IQuiet :: IHandshakeFailed :: map (fun s => IConnection (false, [QElapsed; QBytes (ztake 40 s.1); QBytes (zdrop 40 s.1); QEnd])) demo_sessions ++ [IStop].
Definition demo_inbound : list inbound := (listener_main EBound demo_incoming).2.1.

(** The tasks of both connections run side by side: the newer one is ahead. *)
Definition demo_published : list (list byte * list byte) := [(demo_topic, [Byte.x63]); (demo_topic, [Byte.x61])].

Lemma quic_messages_arrive_witness :
  concat (map (publishes host_b) demo_inbound) = [(demo_topic, [Byte.x61]); (demo_topic, [Byte.x63])]
  /\ exists arrived, arrived `sublist_of` demo_frames /\ demo_published ≡ₚ accepts host_b arrived.
Proof.
  assert (H7 : is_u64 7) by (split; [vm_compute; congruence|vm_compute; reflexivity]). assert (H9 : is_u64 9) by (split; [vm_compute; congruence|vm_compute; reflexivity]). assert (H0 : is_u64 0) by (split; [vm_compute; congruence|vm_compute; reflexivity]).
  split; [vm_compute; reflexivity|].
  destruct (quic_messages_arrive host_a host_b (demo_peer 97) 2 (Chan [] false 2 2) demo_frames demo_line demo_dials demo_incoming demo_published)
    as (arr & Hsub & Hpub & _).
  - apply demo_host_ok. exact H7.
  - apply demo_host_ok. exact H9.
  - vm_compute. reflexivity.
  - apply frames_of_own; [exact H7|exact H0|by left|]. repeat constructor; vm_compute; congruence.
  - reflexivity.
  - vm_compute. reflexivity.
  - exists []. vm_compute. reflexivity.
  - apply Forall2_cons. split; [exists []; vm_compute; reflexivity|]. apply Forall2_cons. split; [exists []; vm_compute; reflexivity|]. apply Forall2_nil. exact I.
  - replace (map (publishes host_b) _) with [[(demo_topic, [Byte.x61])]; [(demo_topic, [Byte.x63])]] by (vm_compute; reflexivity).
    apply (merge_send _ 1 _ []); [done|]. apply (merge_send _ 0 _ []); [done|]. apply merge_done. repeat constructor.
  - exists arr. split; [exact Hsub|]. etrans; [exact Hpub|]. reflexivity.
Defined.

(** Behind a QUIC peer's queue there is a second one of the same size that drops nothing: while the peer is
    away the oldest messages are kept there, and newer ones are dropped. *)
Example oldest_messages_are_kept :
  let line := foldl (pipe_step (tokio_capacity 1)) (new_pipe (Chan [] false 1 2))
                [PSend [Byte.x31]; PMove []; PPush; PSend [Byte.x32]; PMove []; PPush; PSend [Byte.x33]; PSend [Byte.x34]] in
  (tokio line, held line, items (pq line)) = ([[Byte.x31]], Some [Byte.x32], [[Byte.x34]]).
Proof. vm_compute. reflexivity. Qed.

(** A failed dial, whatever the reason, is retried: a wrong certificate is not told apart from a peer that is away. *)
Example retry_delays :
  map (fun e => match e with Slept cs => total_slept cs | Session _ _ => -1 end) (outbound_main [] (repeat (DConnectFailed []) 7))
  = [50; 100; 200; 400; 800; 1000; 1000].
Proof. vm_compute. reflexivity. Qed.
