(* ===== verification/Forwarder.v ===== *)
(** * The threads of a TCP peer ([crates/mmbus-bridge/src/bridge.rs])

    [forwarder_main], which connects to a peer, writes what its queue gives and connects again, and
    [listener_main], which starts a reader for every connection it accepts; and what comes of the two over
    any number of connections.  Sockets are the outcomes of the calls on them; the queue is [Queue.v]'s, with
    the other threads' operations between two turns of the loop. *)

From Stdlib Require Import ZArith Lia Strings.Byte.
From stdpp Require Import base option gmap list sorting.
From S2P Require Import Prelude Text BridgeConfig Frame Queue Bridge BridgeSpec BridgeMesh Quic.

(** ** The forwarder *)

(** One turn of [run_connection]'s loop: the flag, what others did to the queue since the last turn, the
    waits of [recv_timeout], how [write_all] ended ([Some k] is a failure after [k] bytes), and the flag again,
    when nothing came. *)
Record turn := Turn {
  t_stop : bool;
  t_ops : list (qop (list byte));
  t_waits : list (list (qop (list byte)) * bool);
  t_write : option Z;
  t_stop_again : bool
}.

Inductive session_end := Connected | Finished | SetupFailed | HelloFailed | WriteFailed.

(** The queue with its ghosts: what it was sent and what was received from it. *)
#[local] Notation line := (trace (list byte)).

Definition others (ops : list (qop (list byte))) (t : line) : line :=
  Trace (foldl (fun q o => run_qop o q) (tq t) ops) (sent t ++ ops_sent ops (tq t)) (received t).

(** [rx.recv_timeout] *)
Definition take (waits : list (list (qop (list byte)) * bool)) (t : line) : line * option (list byte) :=
  (run_event t (ERecv waits), (recv_timeout waits (tq t)).2).

(** The loop of [run_connection]; the turns end where the thread is still connected. *)
Fixpoint connection_loop (ts : list turn) (q : line) : line * list byte * session_end :=
  match ts with
  | [] => (q, [], Connected)
  | t :: ts =>
      if t_stop t then (q, [], Finished)
      else
        match take (t_waits t) (others (t_ops t) q) with
        | (q, Some bytes) =>
            match t_write t with
            | Some k => (q, ztake k bytes, WriteFailed)
            | None => let '(q, wire, e) := connection_loop ts q in (q, bytes ++ wire, e)
            end
        | (q, None) => if t_stop_again t then (q, [], Finished) else connection_loop ts q
        end
  end.

Definition run_connection (setup_failed : bool) (hello_failed : option Z) (hello : list byte) (ts : list turn) (q : line) :
    line * list byte * session_end :=
  if setup_failed then (q, [], SetupFailed)
  else
    match hello_failed with
    | Some k => (q, ztake k hello, HelloFailed)
    | None => let '(q, wire, e) := connection_loop ts q in (q, hello ++ wire, e)
    end.

(** One turn of [forwarder_main]'s loop: the flag is up, the endpoint is no address, [connect_timeout] fails
    (and the loads of the flag in the sleep that follows), or there is a connection. *)
Inductive dial :=
  | DStop
  | DBadEndpoint
  | DConnectFailed (stops : list bool)
  | DConnected (setup_failed : bool) (hello_failed : option Z) (ts : list turn).

Inductive effect := Slept (chunks : list Z) | Session (wire : list byte) (e : session_end).

Fixpoint forwarder_loop (hello : list byte) (backoff : Z) (ds : list dial) (q : line) : line * list effect :=
  match ds with
  | [] | DStop :: _ | DBadEndpoint :: _ => (q, [])
  | DConnectFailed stops :: ds =>
      let '(q, es) := forwarder_loop hello (next_backoff backoff) ds q in (q, Slept (sleep_interruptible backoff stops) :: es)
  | DConnected setup_failed hello_failed ts :: ds =>
      let '(q, wire, e) := run_connection setup_failed hello_failed hello ts q in
      let '(q, es) := forwarder_loop hello 50 ds q in (q, Session wire e :: es)
  end.

Definition forwarder_main (hello : list byte) (ds : list dial) (q : line) : line * list effect := forwarder_loop hello 50 ds q.

(** ** The listener *)

(** One turn of [listener_main]'s loop: the flag is up; a connection, with how [set_nonblocking] and
    [set_read_timeout] end and what its reader will see; nothing to accept; [accept] fails. *)
Inductive accept := LStop | LAccepted (nonblocking_failed timeout_failed : bool) (reads : list read) | LQuiet | LFailed.

Inductive listener_end := Listening | Stopped | AcceptFailed.

(** The readers it starts, in order. *)
Fixpoint listener_main (turns : list accept) : list (list read) * listener_end :=
  match turns with
  | [] => ([], Listening)
  | LStop :: _ => ([], Stopped)
  | LAccepted nonblocking_failed timeout_failed reads :: turns =>
      if nonblocking_failed then listener_main turns
      else if timeout_failed then listener_main turns
      else let '(readers, e) := listener_main turns in (reads :: readers, e)
  | LQuiet :: turns => listener_main turns
  | LFailed :: _ => ([], AcceptFailed)
  end.

(** ** Over all connections *)

Definition option_list {A} (x : option A) : list A := match x with Some a => [a] | None => [] end.

Definition stuck (e : session_end) : nat := match e with WriteFailed => 1 | _ => 0 end.

Definition sessions (es : list effect) : list (list byte * session_end) :=
  omap (fun e => match e with Session w e => Some (w, e) | Slept _ => None end) es.

(** The frames failed writes got stuck on. *)
Definition lost_in (ses : list (list byte * session_end)) : nat := foldr Nat.add 0%nat (map (fun s => stuck s.2) ses).

(** What the reader of a connection hands to the publisher. *)
Definition publishes (b : host) (reads : list read) : list (list byte * list byte) :=
  published (reader_main (hid b) (receive_topics (hcfg b)) (accepted_psks (hcfg b)) reads accepted).1.

(** The reads before the one that ends the reader. *)
Fixpoint heard (reads : list read) : list read :=
  match reads with
  | (RBytes _ | RTimeout) as r :: reads => r :: heard reads
  | _ => []
  end.

Lemma tcp_heard_quiet reads : Forall quiet (heard reads).
Proof. induction reads as [|[] reads IH]; cbn; repeat constructor; done. Qed.

Lemma tcp_published_heard id topics psks reads c :
  published (reader_main id topics psks reads c).1 = published (reader_main id topics psks (heard reads) c).1.
Proof.
  revert c. induction reads as [|[chunk| | | |] reads IH]; intros c; cbn [heard reader_main]; [done| |apply IH|done..].
  destruct (drain _ _ _ _) as [c' [r|]]; [done|apply IH].
Qed.

(** *** The queue *)

Lemma others_ok ops t : trace_ok t -> trace_ok (others ops t) /\ capacity (tq (others ops t)) = capacity (tq t).
Proof.
  intros [Hc Hl (gone & Hs & Hr)]. destruct (run_ops_items ops (tq t) Hc Hl) as (Hl' & Hc' & g & E). split; [|exact Hc'].
  constructor; cbn [tq sent received others]; rewrite ?Hc'; [done|done|]. exists (gone ++ g).
  rewrite Hs, <- !app_assoc, E. split; [done|]. by apply sublist_inserts_r.
Qed.

Definition same_queue (t t' : line) : Prop := trace_ok t -> trace_ok t' /\ capacity (tq t') = capacity (tq t).

Lemma same_queue_trans t1 t2 t3 : same_queue t1 t2 -> same_queue t2 t3 -> same_queue t1 t3.
Proof. intros H1 H2 Hok. destruct (H1 Hok) as [Hok' E]. destruct (H2 Hok') as [? E']. split; [done|]. by rewrite E', E. Qed.

Lemma take_queue waits ops t : same_queue t (take waits (others ops t)).1.
Proof.
  apply (same_queue_trans _ (others ops t)); [intros Hok; by apply others_ok|]. intros Hok. unfold take. cbn [fst].
  split; [by apply run_event_ok|by apply run_event_cap].
Qed.

Lemma take_received waits ops t : let '(t', r) := take waits (others ops t) in received t' = received t ++ option_list r.
Proof. unfold take. cbn [run_event]. by destruct (recv_timeout waits _) as [q []]. Qed.

Lemma connection_loop_queue ts q : same_queue q (connection_loop ts q).1.1.
Proof.
  revert q. induction ts as [|t ts IH]; intros q; [by intros ?|]. cbn [connection_loop]. destruct (t_stop t); [by intros ?|].
  pose proof (take_queue (t_waits t) (t_ops t) q) as Hq. destruct (take _ _) as [q1 [bytes|]]; cbn [fst] in Hq.
  - destruct (t_write t); [done|]. specialize (IH q1). destruct (connection_loop ts q1) as [[q2 w] e]. by apply (same_queue_trans _ q1).
  - destruct (t_stop_again t); [done|]. apply (same_queue_trans _ q1); [done|apply IH].
Qed.

Lemma forwarder_queue hello backoff ds q : same_queue q (forwarder_loop hello backoff ds q).1.
Proof.
  revert backoff q. induction ds as [|[| |stops|sf hf ts] ds IH]; intros b q; cbn [forwarder_loop]; try (by intros ?).
  - specialize (IH (next_backoff b) q). by destruct (forwarder_loop _ _ ds q).
  - assert (H1 : same_queue q (run_connection sf hf hello ts q).1.1).
    { unfold run_connection. destruct sf; [by intros ?|]. destruct hf; [by intros ?|].
      pose proof (connection_loop_queue ts q). by destruct (connection_loop ts q) as [[q1 w] e]. }
    destruct (run_connection _ _ _ ts q) as [[q1 w] e]. specialize (IH 50 q1). destruct (forwarder_loop _ _ ds q1).
    by apply (same_queue_trans _ q1).
Qed.

(** *** One connection *)

Lemma connection_loop_spec ts q : let '(q', w, e) := connection_loop ts q in
  exists whole rest part, received q' = received q ++ whole ++ rest /\ w = concat whole ++ part
    /\ part `prefix_of` concat rest /\ length rest = stuck e.
Proof.
  revert q. induction ts as [|t ts IH]; intros q; cbn [connection_loop]; [exists [], [], []; by rewrite app_nil_r|].
  destruct (t_stop t); [exists [], [], []; by rewrite app_nil_r|].
  pose proof (take_received (t_waits t) (t_ops t) q) as Hr. destruct (take _ _) as [q1 [bytes|]]; cbn [option_list] in Hr.
  - destruct (t_write t) as [k|].
    + exists [], [bytes], (ztake k bytes). split; [done|]. split; [done|]. cbn [concat]. rewrite app_nil_r. split; [|done].
      exists (zdrop k bytes). by rewrite ztake_zdrop.
    + specialize (IH q1). destruct (connection_loop ts q1) as [[q2 w] e]. destruct IH as (whole & rest & part & -> & -> & Hp & Hl).
      exists (bytes :: whole), rest, part. rewrite Hr, <- app_assoc. split; [done|]. cbn [concat]. by rewrite <- app_assoc.
  - rewrite app_nil_r in Hr. destruct (t_stop_again t); [exists [], [], []; by rewrite app_nil_r|].
    rewrite <- Hr. apply IH.
Qed.

Lemma run_connection_spec sf hf hello ts q : let '(q', w, e) := run_connection sf hf hello ts q in
  exists whole rest part, received q' = received q ++ whole ++ rest /\ part `prefix_of` concat rest /\ length rest = stuck e
    /\ w `prefix_of` hello ++ concat whole ++ part /\ (whole ++ rest <> [] -> w = hello ++ concat whole ++ part).
Proof.
  unfold run_connection. destruct sf; [exists [], [], []; rewrite app_nil_r; repeat split; try done; apply prefix_nil|].
  destruct hf as [k|].
  { exists [], [], []. cbn. rewrite !app_nil_r. repeat split; try done. exists (zdrop k hello). by rewrite ztake_zdrop. }
  pose proof (connection_loop_spec ts q) as Hs. destruct (connection_loop ts q) as [[q1 w] e].
  destruct Hs as (whole & rest & part & ? & -> & ? & ?). by exists whole, rest, part.
Qed.

Lemma forwarder_received hello backoff ds q : received q `prefix_of` received (forwarder_loop hello backoff ds q).1.
Proof.
  revert backoff q. induction ds as [|[| |stops|sf hf ts] ds IH]; intros b q; cbn [forwarder_loop]; try done.
  - specialize (IH (next_backoff b) q). by destruct (forwarder_loop _ _ ds q).
  - pose proof (run_connection_spec sf hf hello ts q) as Hs. destruct (run_connection _ _ _ ts q) as [[q1 w] e].
    destruct Hs as (whole & rest & part & Er & _). specialize (IH 50 q1). destruct (forwarder_loop _ 50 ds q1).
    etrans; [|exact IH]. rewrite Er. by eexists.
Qed.

(** ** From one bridge to the other *)

Section link.
Variables (a b : host) (p : peer_config).
Hypotheses (Ha : host_ok a) (Hb : host_ok b) (Hpsk : zlen (as_bytes (preshared_key p)) < 2 ^ 16).
#[local] Notation own := (Forall (own_frame (hid a) (forward_topics (hcfg a)))).

(** The peer's key is one the other accepts, and its id another. *)
Definition admitted : bool := bool_decide (as_bytes (preshared_key p) ∈ accepted_psks (hcfg b)) && negb (hid a =? hid b).

(** What came of [fs], which the forwarder took out of its queue, over its connections, and what the readers at
    the other end made of it. *)
Definition summary (fs : list frame) (ses : list (list byte * session_end)) (cs : list (list read)) : Prop :=
  exists arrived, arrived `sublist_of` fs
    /\ (Forall2 (fun c s => read_bytes (heard c) = s.1) cs ses -> (length fs <= length arrived + lost_in ses)%nat)
    /\ concat (map (publishes b) cs) = if admitted then accepts b arrived else [].

Lemma tcp_summary_nil : summary [] [] [].
Proof. exists []. split; [done|]. split; [cbn; lia|]. by destruct admitted. Qed.

Lemma tcp_summary_cons fs fs' sf hf ts q ses c cs :
  own fs -> let '(q', w, e) := run_connection sf hf (hello_bytes (hid a) p) ts q in
  received q' = received q ++ map enc_frame fs -> read_bytes (heard c) `prefix_of` w ->
  summary fs' ses cs -> summary (fs ++ fs') ((w, e) :: ses) (c :: cs).
Proof.
  intros Hfs. pose proof (run_connection_spec sf hf (hello_bytes (hid a) p) ts q) as Hs.
  destruct (run_connection _ _ _ ts q) as [[q' w] e]. destruct Hs as (whole & rest & part & Er & Hp & Hl & Hw & Hfull).
  rewrite Er. intros E%app_inv_head Hc (y & Hy & Hn' & Eq).
  destruct (partial_reads a b p fs whole rest part (heard c)) as (x & Hx & Hn & Ex); try done; [apply tcp_heard_quiet|by etrans|].
  exists (x ++ y). split; [apply sublist_app; [by apply prefix_sublist|done]|]. split.
  - intros HF. apply Forall2_cons in HF as [H1 HF]. specialize (Hn' HF). cbn [fst] in H1. unfold lost_in in *. cbn [map foldr snd].
    rewrite !length_app. enough (length fs <= length x + stuck e)%nat by lia. rewrite <- Hl. destruct (decide (whole ++ rest = [])) as [E0|E0].
    + rewrite E0 in E. apply eq_sym, map_eq_nil in E as ->. cbn. lia.
    + apply Hn. by rewrite <- (Hfull E0).
  - cbn [map concat]. unfold publishes at 1. rewrite tcp_published_heard, Ex, Eq, accepts_app. fold admitted. by destruct admitted.
Qed.

Lemma sessions_read ds backoff q cs fs : own fs ->
  let '(q', es) := forwarder_loop (hello_bytes (hid a) p) backoff ds q in
  received q' = received q ++ map enc_frame fs ->
  Forall2 (fun c s => read_bytes (heard c) `prefix_of` s.1) cs (sessions es) -> summary fs (sessions es) cs.
Proof.
  revert backoff q cs fs. induction ds as [|[| |stops|sf hf ts] ds IH]; intros backoff q cs fs Hfs; cbn [forwarder_loop].
  1-3: intros E HF; rewrite <- (app_nil_r (received q)) in E at 1; apply app_inv_head, eq_sym, map_eq_nil in E as ->;
    apply Forall2_nil_inv_r in HF as ->; apply tcp_summary_nil.
  - specialize (IH (next_backoff backoff) q cs fs Hfs). by destruct (forwarder_loop _ _ ds q).
  - pose proof (fun fs fs' ses c cs => tcp_summary_cons fs fs' sf hf ts q ses c cs) as Hcons.
    pose proof (run_connection_spec sf hf (hello_bytes (hid a) p) ts q) as Hs.
    destruct (run_connection _ _ _ ts q) as [[q1 w] e]. destruct Hs as (whole & rest & part & Er & _).
    pose proof (forwarder_received (hello_bytes (hid a) p) 50 ds q1) as [X EX].
    pose proof (fun cs fs => IH 50 q1 cs fs) as IH1. destruct (forwarder_loop _ 50 ds q1) as [q2 es]. cbn [fst] in EX.
    intros E HF. cbn [sessions omap] in *. fold (sessions es) in *. apply Forall2_cons_inv_r in HF as (c & cs' & Hc & HF & ->).
    rewrite EX, Er, <- app_assoc in E. apply app_inv_head, eq_sym, map_eq_app in E as (fs1 & fs2 & -> & E1 & E2).
    apply Forall_app in Hfs as [Hfs1 Hfs2]. apply Hcons; [done|by rewrite Er, E1|done|]. apply IH1; [done|by rewrite EX, E2|done].
Qed.
End link.

(** C15: from one bridge to another, for as long as both run.  Frames of topics A forwards go into A's queue for a
    peer, whatever the threads that send do between two steps of the forwarder; the forwarder connects, fails,
    is cut off in the middle of a write and connects again, any number of times; B's readers, one for each
    connection (none of whose bytes need arrive), see what was written cut into any reads and ending anywhere, and
    share a channel to B's publisher.  The publisher gets the messages of frames A sent whose topic B receives, no frame
    twice; those of one connection in the order A sent them, and all of them in that order as long as each reader is
    done before the next one begins; and nothing without an accepted key or under B's own id.  When every connection
    is read to its end, a failed write costs one frame and nothing else that was taken out of the queue is
    lost; what was not taken out or evicted is in the queue, which holds the newest. *)
Theorem bridge_delivers a b p cap (q0 : chan (list byte)) frames ds cs m :
  host_ok a -> host_ok b -> zlen (as_bytes (preshared_key p)) < 2 ^ 16 ->
  Forall (own_frame (hid a) (forward_topics (hcfg a))) frames ->
  channel cap = Some q0 ->
  let '(q, es) := forwarder_main (hello_bytes (hid a) p) ds (Trace q0 [] []) in
  sent q = map enc_frame frames ->
  Forall2 (fun c s => read_bytes (heard c) `prefix_of` s.1) cs (sessions es) ->
  merge (map (publishes b) cs) m ->
  exists arrived, arrived `sublist_of` frames
    /\ m ≡ₚ (if admitted a b p then accepts b arrived else [])
    /\ Forall (fun c => publishes b c `sublist_of` m) cs
    /\ concat (map (publishes b) cs) = (if admitted a b p then accepts b arrived else [])
    /\ (Forall2 (fun c s => read_bytes (heard c) = s.1) cs (sessions es) ->
          (length (received q) <= length arrived + lost_in (sessions es))%nat)
    /\ exists gone, map enc_frame frames = gone ++ items (tq q) /\ received q `sublist_of` gone /\ zlen (items (tq q)) <= cap.
Proof.
  intros Ha Hb Hpsk Hfs Hc. destruct (run_events_ok cap q0 [] Hc) as [Hok Hcap]. cbn [foldl] in Hok, Hcap.
  pose proof (forwarder_queue (hello_bytes (hid a) p) 50 ds _ Hok) as [[_ Hl (gone & Hs & Hg)] Hcap'].
  pose proof (fun fs => sessions_read a b p Ha Hb Hpsk ds 50 (Trace q0 [] []) cs fs) as Hread. cbn [received app] in Hread.
  unfold forwarder_main. destruct (forwarder_loop _ 50 ds _) as [q es]. cbn [fst] in *. intros Hsent HF Hm.
  assert (Hsub : received q `sublist_of` map enc_frame frames) by (rewrite <- Hsent, Hs; by apply sublist_inserts_r).
  apply sublist_map_inv in Hsub as (fs & E & Hfs1).
  destruct (Hread fs (Forall_sublist _ _ _ Hfs1 Hfs) E HF) as (arr & Hsub & Hn & Hpub).
  exists arr. split; [by etrans|]. split; [rewrite <- Hpub; by apply merge_perm|]. split.
  { pose proof (merge_sublist _ _ Hm) as Hms. by apply Forall_map in Hms. }
  split; [done|]. split; [rewrite E, length_map; exact Hn|]. exists gone. rewrite <- Hsent, Hs. split; [done|]. split; [done|]. lia.
Qed.

(** *** Listening *)

(** The connections the listener sets up. *)
Definition set_up (t : accept) : option (list read) := match t with LAccepted false false reads => Some reads | _ => None end.

(** Until it is told to stop, or [accept] fails, every connection that can be set up has a reader, in order. *)
Lemma listener_serves turns rest : Forall (fun t => t <> LStop /\ t <> LFailed) turns ->
  (listener_main (turns ++ rest)).1 = omap set_up turns ++ (listener_main rest).1
  /\ (listener_main (turns ++ rest)).2 = (listener_main rest).2.
Proof.
  induction 1 as [|t turns [H1 H2] _ IH]; [done|]. cbn [app]. destruct t as [|[] [] reads| |]; try done.
  cbn [listener_main omap list_omap set_up]. destruct (listener_main (turns ++ rest)). cbn [fst snd] in *. destruct IH as [-> ->]. done.
Qed.

(** An error of [accept], as for a connection that was reset before it was accepted, or for want of descriptors,
    ends the thread: the peer that comes next is not served, though the bridge runs on. *)
Example accept_error_ends_the_listener :
  listener_main [LQuiet; LFailed; LAccepted false false [RBytes [Byte.x00]]] = ([], AcceptFailed).
Proof. reflexivity. Qed.

(** ** At concrete bridges *)

(** Three frames: the first goes over one connection, the write of the second is cut off; the third goes over
    the next one. *)
Definition demo_turn (ops : list (list byte)) (write : option Z) : turn := Turn false (map QSend ops) [] write false.

Definition demo_dials : list dial :=
  match map enc_frame demo_frames with
  | [f1; f2; f3] =>
      [DConnectFailed [false; true];
       DConnected false None [demo_turn [f1] None; demo_turn [] None; demo_turn [f2; f3] (Some 5)];
       DConnected true None []; DConnected false None [demo_turn [] None; Turn true [] [] None false]; DStop]
  | _ => []
  end.

Definition demo_line : line := Trace (Chan [] false 2 2) [] [].
Definition demo_sessions : list (list byte * session_end) := sessions (forwarder_main (hello_bytes 7 (demo_peer 97)) demo_dials demo_line).2.
Definition demo_arrivals : list (list read) := map (fun s => [RTimeout; RBytes (ztake 40 s.1); RBytes (zdrop 40 s.1); REof]) demo_sessions.

(** The readers of two connections run side by side: the newer one may be ahead. *)
Example reconnect_reorders :
  demo_frames = [msg 7 0 demo_topic [Byte.x61]; msg 7 1 demo_topic [Byte.x62]; msg 7 2 demo_topic [Byte.x63]]
  /\ merge (map (publishes host_b) demo_arrivals) [(demo_topic, [Byte.x63]); (demo_topic, [Byte.x61])].
Proof.
  split; [vm_compute; reflexivity|].
  replace (map (publishes host_b) demo_arrivals) with [[(demo_topic, [Byte.x61])]; []; [(demo_topic, [Byte.x63])]] by (vm_compute; reflexivity).
  apply (merge_send _ 2 _ []); [done|]. apply (merge_send _ 0 _ []); [done|]. apply merge_done. repeat constructor.
Qed.

Lemma bridge_delivers_witness :
  concat (map (publishes host_b) demo_arrivals) = [(demo_topic, [Byte.x61]); (demo_topic, [Byte.x63])]
  /\ exists arrived, arrived `sublist_of` demo_frames
       /\ [(demo_topic, [Byte.x63]); (demo_topic, [Byte.x61])] ≡ₚ accepts host_b arrived.
Proof.
  assert (H7 : is_u64 7) by (split; [vm_compute; congruence|vm_compute; reflexivity]). assert (H9 : is_u64 9) by (split; [vm_compute; congruence|vm_compute; reflexivity]). assert (H0 : is_u64 0) by (split; [vm_compute; congruence|vm_compute; reflexivity]).
  split; [vm_compute; reflexivity|].
  pose proof (bridge_delivers host_a host_b (demo_peer 97) 2 (Chan [] false 2 2) demo_frames demo_dials demo_arrivals
    [(demo_topic, [Byte.x63]); (demo_topic, [Byte.x61])]) as Hd.
  unfold demo_arrivals, demo_sessions, demo_line in Hd.
  destruct (forwarder_main (hello_bytes (hid host_a) (demo_peer 97)) demo_dials (Trace (Chan [] false 2 2) [] [])) as [q es] eqn:E.
  vm_compute in E. injection E as <- <-.
  destruct Hd as (arr & Hsub & Hperm & _).
  - apply demo_host_ok. exact H7.
  - apply demo_host_ok. exact H9.
  - vm_compute. reflexivity.
  - apply frames_of_own; [exact H7|exact H0|by left|]. repeat constructor; vm_compute; congruence.
  - reflexivity.
  - vm_compute. reflexivity.
  - vm_compute. repeat (apply Forall2_cons; split; [exists []; vm_compute; reflexivity|]). apply Forall2_nil. exact I.
  - exact (proj2 reconnect_reorders).
  - exists arr. split; [exact Hsub|]. etrans; [exact Hperm|]. reflexivity.
Defined.
