(* ===== verification/BridgeStart.v ===== *)
(** * Starting and stopping a bridge ([Bridge::start], [Bridge::shutdown] in [crates/mmbus-bridge/src/bridge.rs])

    The threads and tasks a bridge spawns, in the order it does, and what becomes of them when it stops or
    when starting fails halfway.  A worker carries the shutdown flag it looks at, a number; an address is a
    number too. *)

From Stdlib Require Import ZArith Lia Strings.Byte.
From stdpp Require Import base option strings gmap list.
From S2P Require Import Prelude Text ProducerLock Bus BridgeConfig Frame Queue Bridge OriginId QuicIdentity.

(** ** Workers *)

Inductive worker :=
  | WForwarder (p : peer_config)
  | WQueueBridge (p : peer_config)
  | WOutbound (p : peer_config)
  | WSubscriber (topic : rstring)
  | WPublisher
  | WTcpListener
  | WQuicListener.

(** Tasks of the QUIC runtime; the others are threads. *)
Definition is_task (w : worker) : bool := match w with WOutbound _ | WQuicListener => true | _ => false end.
Definition is_publisher (w : worker) : bool := match w with WPublisher => true | _ => false end.
Definition is_tcp_listener (w : worker) : bool := match w with WTcpListener => true | _ => false end.

(** A process: its workers with their flags, the flags that are up, and the next one. *)
Record proc := Proc { live : list (nat * worker); stopping : gset nat; next_flag : nat }.

(** The workers nobody has told to stop.  One that ends by itself counts: a forwarder whose endpoint does not
    parse, a queue's thread at its next message when the task behind it is gone. *)
Definition running (p : proc) : list (nat * worker) := filter (fun x => x.1 ∉ stopping p) (live p).

(** [BridgeError], or a panic. *)
Inductive start_failure (ME IE : Type) := Failed (e : bridge_error ME IE) | Panicked.
Arguments Failed {ME IE}.
Arguments Panicked {ME IE}.

(** What [Bridge] keeps. *)
Record bridge := Bridge_ {
  b_flag : nat;
  b_origin_id : Z;
  b_listen_addr : option Z;
  b_quic_listen_addr : option Z;
  b_quic_fingerprint : option rstring
}.

(** What the system does at a start: the clock and the process id, the QUIC runtime and its files, binding
    ([bind], [set_nonblocking] and [local_addr] together), and the QUIC listener. *)
Record world (ME IE G : Type) := World {
  nanos : option Z;
  pid : Z;
  runtime : result IE unit;
  rcgen_gives : result G (list byte * list byte);
  fs_faults : faults;
  temp_dir : fpath;
  display : quic_error G -> rstring;
  tcp_bind : rstring -> result IE Z;
  parse_addr : rstring -> result rstring Z;
  server_config : identity -> result (quic_error G) unit;
  quic_bound : option Z
}.
Arguments nanos {ME IE G}. Arguments pid {ME IE G}. Arguments runtime {ME IE G}. Arguments rcgen_gives {ME IE G}.
Arguments fs_faults {ME IE G}. Arguments temp_dir {ME IE G}. Arguments display {ME IE G}. Arguments tcp_bind {ME IE G}.
Arguments parse_addr {ME IE G}. Arguments server_config {ME IE G}. Arguments quic_bound {ME IE G}.

Section start.
Context `{Sha256} {ME IE G : Type}.
Variable feature_quic : bool.
#[local] Notation sys := (proc * fs)%type.
#[local] Notation call := (M (proc * fs) (start_failure ME IE)).

(** [thread::spawn], [rt.spawn] *)
Definition spawn (flag : nat) (w : worker) : call unit := modify (fun '(p, f) => (Proc (live p ++ [(flag, w)]) (stopping p) (next_flag p), f)).

(** [expect] *)
Definition expect {A} (x : option A) : call A := match x with Some a => ret a | None => fail Panicked end.

(** The loop over the peers. *)
Fixpoint spawn_peers (flag : nat) (buffer : Z) (rt : option unit) (ps : list peer_config) : call unit :=
  match ps with
  | [] => ret tt
  | p :: ps =>
      do! expect (channel (T := list byte) buffer) in
      do! match transport p with
          | Tcp => spawn flag (WForwarder p)
          | Quic =>
              if feature_quic then
                do! expect rt in
                do! spawn flag (WQueueBridge p) in
                do! expect (peer_cert_fingerprint p) in
                spawn flag (WOutbound p)
              else fail Panicked
          end in
      spawn_peers flag buffer rt ps
  end.

(** The loop over the topics. *)
Fixpoint spawn_subscribers (flag : nat) (ts : list topic_config) : call unit :=
  match ts with
  | [] => ret tt
  | t :: ts =>
      do! (if forward t then spawn flag (WSubscriber (tname t)) else ret tt) in
      spawn_subscribers flag ts
  end.

(** The receive side: the listeners' addresses. *)
Definition start_receiving (flag : nat) (w : world ME IE G) (cfg : bridge_config) (id : option identity) : call (option Z * option Z) :=
  let want_quic := feature_quic && bool_decide (is_Some (listen_quic cfg)) in
  if bool_decide (is_Some (listen cfg)) || want_quic then
    do! spawn flag WPublisher in
    let! listen_addr :=
      match listen cfg with
      | None => ret None
      | Some s =>
          let! addr := lift (map_err (fun e => Failed (Listen _ _ e)) (tcp_bind w s)) in
          do! spawn flag WTcpListener in
          ret (Some addr)
      end in
    let! quic_addr :=
      if want_quic then
        match listen_quic cfg with
        | None => ret None
        | Some s =>
            do! lift (map_err (fun why => Failed (QuicSetup _ _ why)) (parse_addr w s)) in
            let! i := match id with Some i => ret i | None => fail (Failed (QuicSetup _ _ [])) end in
            do! lift (map_err (fun e => Failed (QuicSetup _ _ (display w e))) (server_config w i)) in
            do! spawn flag WQuicListener in
            ret (quic_bound w)
        end
      else ret None in
    ret (listen_addr, quic_addr)
  else ret (None, None).

Definition build_quic (w : world ME IE G) (cfg : bridge_config) : call (option unit * option identity) := fun '(p, f) =>
  if feature_quic then
    let '(f, r) := build_quic_runtime_and_identity (rcgen_gives w) (fs_faults w) (display w) (temp_dir w) (runtime w) cfg f in
    ((p, f), map_err Failed r)
  else ((p, f), Ok (None, None)).

(** The body of [start], with the flag of this bridge. *)
Definition start_body (w : world ME IE G) (cfg : bridge_config) (flag : nat) : call bridge :=
  do! (if feature_quic then ret tt else lift (map_err Failed (start_guard cfg))) in
  let origin := default (random_origin_id (nanos w) (pid w)) (cfg_origin_id cfg) in
  let! (rt, id) := build_quic w cfg in
  do! spawn_peers flag (peer_buffer_max cfg) rt (peers cfg) in
  do! spawn_subscribers flag (topics cfg) in
  let! (listen_addr, quic_addr) := start_receiving flag w cfg id in
  ret (Bridge_ flag origin listen_addr quic_addr (option_map fingerprint id)).

(** What dropping the locals of a start that fails does: the runtime goes, with its tasks; the publisher's
    channel is closed, unless a TCP listener has a sender. *)
Definition abandon (flag : nat) (p : proc) : proc :=
  let listening := existsb (fun x => (x.1 =? flag)%nat && is_tcp_listener x.2) (live p) in
  Proc (filter (fun x => ~ (x.1 = flag /\ (is_task x.2 = true \/ is_publisher x.2 = true /\ listening = false))) (live p))
    (stopping p) (next_flag p).

Definition start (w : world ME IE G) (cfg : bridge_config) : call bridge := fun '(p, f) =>
  let flag := next_flag p in
  match start_body w cfg flag (Proc (live p) (stopping p) (S flag), f) with
  | ((p, f), Ok b) => ((p, f), Ok b)
  | ((p, f), Err e) => ((abandon flag p, f), Err e)
  end.
End start.

(** [shutdown_inner]: the flag goes up, ... *)
Definition stop (b : bridge) (p : proc) : proc := Proc (live p) ({[ b_flag b ]} ∪ stopping p) (next_flag p).
(** ... and the workers end and are joined, or halted with the runtime. *)
Definition join_workers (b : bridge) (p : proc) : proc :=
  Proc (filter (fun x => x.1 <> b_flag b) (live p)) (stopping p) (next_flag p).

Definition shutdown (b : bridge) (p : proc) : proc := join_workers b (stop b p).

(** ** What a start spawns *)

Definition peer_workers (p : peer_config) : list worker :=
  match transport p with Tcp => [WForwarder p] | Quic => [WQueueBridge p; WOutbound p] end.
Definition peers_workers (ps : list peer_config) : list worker := concat (map peer_workers ps).
Definition subscriber_workers (ts : list topic_config) : list worker := map (fun t => WSubscriber (tname t)) (filter (fun t => forward t = true) ts).
Definition receive_workers (feature_quic : bool) (cfg : bridge_config) : list worker :=
  let quic := feature_quic && bool_decide (is_Some (listen_quic cfg)) in
  if bool_decide (is_Some (listen cfg)) || quic
  then WPublisher :: (if listen cfg then [WTcpListener] else []) ++ (if quic then [WQuicListener] else [])
  else [].
Definition workers_of (feature_quic : bool) (cfg : bridge_config) : list worker :=
  peers_workers (peers cfg) ++ subscriber_workers (topics cfg) ++ receive_workers feature_quic cfg.

Definition tagged (flag : nat) (ws : list worker) : list (nat * worker) := map (pair flag) ws.

Definition with_workers (flag : nat) (ws : list worker) (p : proc) : proc := Proc (live p ++ tagged flag ws) (stopping p) (next_flag p).

Section spawning.
Context `{Sha256} {ME IE G : Type}.
#[local] Notation call := (M (proc * fs) (start_failure ME IE)).

(** A call that spawns [all], or, when it fails, a first part of it. *)
Definition spawns {A} (flag : nat) (all : list worker) (m : call A) : Prop := forall p f,
  exists ws f' r, m (p, f) = ((with_workers flag ws p, f'), r) /\ ws `prefix_of` all /\ (is_ok r = true -> ws = all).

Lemma with_workers_nil flag p : with_workers flag [] p = p.
Proof. unfold with_workers. cbn. rewrite app_nil_r. by destruct p. Qed.

Lemma with_workers_app flag ws ws' p : with_workers flag ws' (with_workers flag ws p) = with_workers flag (ws ++ ws') p.
Proof. unfold with_workers, tagged. cbn. by rewrite List.map_app, app_assoc. Qed.

(** Nothing is spawned. *)
Lemma spawns_pure {A} flag (m : call A) : (forall s, (m s).1.1 = s.1) -> spawns flag [] m.
Proof.
  intros Hm p f. specialize (Hm (p, f)). destruct (m (p, f)) as [[p' f'] r]. cbn in Hm. subst p'.
  exists [], f', r. rewrite with_workers_nil. split; [done|]. by split.
Qed.

Lemma spawns_ret {A} flag (a : A) : spawns flag [] (ret a).
Proof. by apply spawns_pure. Qed.

Lemma spawns_lift {A} flag r : spawns (A := A) flag [] (lift r).
Proof. by apply spawns_pure. Qed.

Lemma spawns_expect {A} flag (x : option A) : spawns flag [] (expect x).
Proof. apply spawns_pure. by destruct x. Qed.

(** A call that does not succeed may be said to spawn anything. *)
Lemma spawns_fail {A} flag all e : spawns (A := A) flag all (fail e).
Proof. intros p f. exists [], f, (Err e). rewrite with_workers_nil. split; [done|]. split; [apply prefix_nil|done]. Qed.

Lemma spawns_spawn flag w : spawns flag [w] (spawn flag w).
Proof. intros p f. exists [w], f, (Ok tt). by repeat split. Qed.

Lemma spawns_bind {A B} flag all all' (m : call A) (k : A -> call B) :
  spawns flag all m -> (forall a, spawns flag all' (k a)) -> spawns flag (all ++ all') (bind m k).
Proof.
  intros Hm Hk p f. destruct (Hm p f) as (ws & f1 & r & E & Hp & Hr). unfold bind. rewrite E. destruct r as [a|e].
  - rewrite (Hr eq_refl). destruct (Hk a (with_workers flag all p) f1) as (ws' & f2 & r' & E' & Hp' & Hr'). rewrite E'.
    exists (all ++ ws'), f2, r'. rewrite with_workers_app. split; [done|]. split; [by apply prefix_app|]. intros Ho. by rewrite (Hr' Ho).
  - exists ws, f1, (Err e). split; [done|]. split; [by apply prefix_app_r|done].
Qed.

(** After a call that spawns nothing. *)
Lemma spawns_then {A B} flag all (m : call A) (k : A -> call B) :
  spawns flag [] m -> (forall a, spawns flag all (k a)) -> spawns flag all (bind m k).
Proof. intros Hm Hk. by apply (spawns_bind flag [] all). Qed.

Lemma spawns_after {A B} flag all (m : call A) (k : A -> call B) :
  spawns flag all m -> (forall a, spawns flag [] (k a)) -> spawns flag all (bind m k).
Proof. intros Hm Hk. rewrite <- (app_nil_r all). by apply spawns_bind. Qed.

Lemma spawns_peers feature_quic flag buffer rt ps : spawns flag (peers_workers ps) (spawn_peers feature_quic flag buffer rt ps).
Proof.
  induction ps as [|p ps IH]; [apply spawns_ret|]. cbn [spawn_peers]. apply spawns_then; [apply spawns_expect|intros _].
  unfold peers_workers. cbn [map concat]. apply spawns_bind; [|intros _; exact IH]. unfold peer_workers.
  destruct (transport p); [apply spawns_spawn|]. destruct feature_quic; [|apply spawns_fail].
  apply spawns_then; [apply spawns_expect|intros _]. apply (spawns_bind flag [_] [_]); [apply spawns_spawn|intros _].
  apply spawns_then; [apply spawns_expect|intros _; apply spawns_spawn].
Qed.

Lemma spawns_subscribers flag ts : spawns flag (subscriber_workers ts) (spawn_subscribers flag ts).
Proof.
  induction ts as [|t ts IH]; [apply spawns_ret|]. cbn [spawn_subscribers]. unfold subscriber_workers. rewrite filter_cons.
  destruct (forward t); cbn [decide]; [apply (spawns_bind flag [_]); [apply spawns_spawn|intros _; exact IH]|].
  apply spawns_then; [apply spawns_ret|intros _; exact IH].
Qed.

Lemma spawns_receiving feature_quic flag (w : world ME IE G) cfg id :
  spawns flag (receive_workers feature_quic cfg) (start_receiving feature_quic flag w cfg id).
Proof.
  unfold start_receiving, receive_workers. cbv zeta. destruct (bool_decide _ || _); [|apply spawns_ret].
  apply (spawns_bind flag [_]); [apply spawns_spawn|intros _]. apply spawns_bind.
  - destruct (listen cfg) as [s|]; [|apply spawns_ret]. apply spawns_then; [apply spawns_lift|intros addr].
    apply spawns_after; [apply spawns_spawn|intros _; apply spawns_ret].
  - intros la. apply spawns_after; [|intros qa; apply spawns_ret]. destruct (feature_quic && _) eqn:Eq; [|apply spawns_ret].
    destruct (listen_quic cfg) as [s|]; [|by rewrite andb_false_r in Eq]. apply spawns_then; [apply spawns_lift|intros addr].
    apply spawns_then; [destruct id; [apply spawns_ret|apply spawns_fail]|intros i]. apply spawns_then; [apply spawns_lift|intros _].
    apply spawns_after; [apply spawns_spawn|intros _; apply spawns_ret].
Qed.

Lemma spawns_body feature_quic flag (w : world ME IE G) cfg :
  spawns flag (workers_of feature_quic cfg) (start_body feature_quic w cfg flag).
Proof.
  unfold start_body, workers_of. apply spawns_then; [destruct feature_quic; [apply spawns_ret|apply spawns_lift]|intros _].
  cbv zeta. apply spawns_then.
  { apply spawns_pure. intros [p f]. unfold build_quic. destruct feature_quic; [|done]. by destruct (build_quic_runtime_and_identity _ _ _ _ _ _ f). }
  intros [rt id]. apply spawns_bind; [apply spawns_peers|intros _]. apply spawns_bind; [apply spawns_subscribers|intros _].
  apply spawns_after; [apply spawns_receiving|]. intros [la qa]. apply spawns_ret.
Qed.

Lemma bind_inv {S E A B} (m : M S E A) (k : A -> M S E B) s s' b :
  bind m k s = (s', Ok b) -> exists a s1, m s = (s1, Ok a) /\ k a s1 = (s', Ok b).
Proof. unfold bind. destruct (m s) as [s1 [a|e]]; [eauto|by minv]. Qed.

Lemma start_body_flag feature_quic flag (w : world ME IE G) cfg s s' b :
  start_body feature_quic w cfg flag s = (s', Ok b) -> b_flag b = flag.
Proof.
  unfold start_body. intros E. apply bind_inv in E as (_ & s1 & _ & E). apply bind_inv in E as ([rt id] & s2 & _ & E).
  apply bind_inv in E as (_ & s3 & _ & E). apply bind_inv in E as (_ & s4 & _ & E).
  apply bind_inv in E as ([la qa] & s5 & _ & E). unfold ret in E. by minv.
Qed.

End spawning.

(** ** A start *)

(** Flags are used once. *)
Definition proc_ok (p : proc) : Prop := Forall (fun x => (x.1 < next_flag p)%nat) (live p) /\ set_Forall (fun n => (n < next_flag p)%nat) (stopping p).

(** What a start that failed after spawning [ws] leaves. *)
Definition orphans (ws : list worker) : list worker :=
  filter (fun w => ~ (is_task w = true \/ is_publisher w = true /\ existsb is_tcp_listener ws = false)) ws.

Lemma filter_tagged (P : nat * worker -> Prop) `{!forall x, Decision (P x)} (Q : worker -> Prop) `{!forall w, Decision (Q w)} flag ws :
  (forall w, P (flag, w) <-> Q w) -> filter P (tagged flag ws) = tagged flag (filter Q ws).
Proof.
  intros Hpq. unfold tagged. induction ws as [|w ws IH]; [done|]. cbn [map]. rewrite !filter_cons, IH.
  destruct (decide (P (flag, w))) as [Hp|Hp], (decide (Q w)) as [Hq|Hq]; try done; exfalso; naive_solver.
Qed.

Lemma filter_all {A} (P : A -> Prop) `{!forall x, Decision (P x)} l : Forall P l -> filter P l = l.
Proof. induction 1 as [|x l Hx _ IH]; [done|]. by rewrite filter_cons_True, IH. Qed.

Lemma filter_none {A} (P : A -> Prop) `{!forall x, Decision (P x)} l : Forall (fun x => ~ P x) l -> filter P l = [].
Proof. induction 1 as [|x l Hx _ IH]; [done|]. by rewrite filter_cons_False. Qed.

Lemma existsb_tagged flag ws : existsb (fun x => (x.1 =? flag)%nat && is_tcp_listener x.2) (tagged flag ws) = existsb is_tcp_listener ws.
Proof. unfold tagged. induction ws as [|w ws IH]; [done|]. cbn. by rewrite Nat.eqb_refl, IH. Qed.

Lemma existsb_other flag (l : list (nat * worker)) : Forall (fun x => (x.1 < flag)%nat) l -> existsb (fun x => (x.1 =? flag)%nat && is_tcp_listener x.2) l = false.
Proof. induction 1 as [|x l Hx _ IH]; [done|]. cbn. rewrite IH. destruct (Nat.eqb_spec x.1 flag); [lia|done]. Qed.

Lemma abandon_spec flag ws l st n : Forall (fun x => (x.1 < flag)%nat) l ->
  abandon flag (Proc (l ++ tagged flag ws) st n) = Proc (l ++ tagged flag (orphans ws)) st n.
Proof.
  intros Hl. unfold abandon. cbn [live stopping next_flag]. cbv zeta. rewrite existsb_app, existsb_other, existsb_tagged by done. cbn [orb].
  f_equal. rewrite filter_app. f_equal.
  - apply filter_all. eapply Forall_impl; [exact Hl|]. intros x Hx [E _]. cbn in Hx. lia.
  - apply filter_tagged. intros w. cbn. naive_solver.
Qed.

Lemma running_tagged flag ws (st : gset nat) : flag ∉ st -> filter (fun x => x.1 ∉ st) (tagged flag ws) = tagged flag ws.
Proof. intros Hf. apply filter_all. unfold tagged. by apply Forall_map, Forall_true. Qed.

Section starting.
Context `{Sha256} {ME IE G : Type}.

(** A start adds the workers of the configuration, or the orphans of a first part of them. *)
Lemma start_spec feature_quic (w : world ME IE G) cfg p f : proc_ok p ->
  exists ws p' f' r, start feature_quic w cfg (p, f) = ((p', f'), r) /\ ws `prefix_of` workers_of feature_quic cfg
    /\ proc_ok p' /\ stopping p' = stopping p /\ next_flag p' = S (next_flag p)
    /\ match r with
       | Ok b => b_flag b = next_flag p /\ ws = workers_of feature_quic cfg /\ running p' = running p ++ tagged (next_flag p) ws
       | Err _ => running p' = running p ++ tagged (next_flag p) (orphans ws)
       end.
Proof.
  intros [Hl Hs]. unfold start. destruct (spawns_body feature_quic (next_flag p) w cfg (Proc (live p) (stopping p) (S (next_flag p))) f)
    as (ws & f' & r & E & Hp & Hr). pose proof (start_body_flag feature_quic (next_flag p) w cfg (Proc (live p) (stopping p) (S (next_flag p)), f)) as Hb.
  rewrite E in *. unfold with_workers in *. cbn [live stopping next_flag] in *.
  assert (Hfresh : next_flag p ∉ stopping p) by (intros Hin; specialize (Hs _ Hin); cbn in Hs; lia).
  assert (Hok : forall ws', proc_ok (Proc (live p ++ tagged (next_flag p) ws') (stopping p) (S (next_flag p)))).
  { intros ws'. split; cbn.
    - apply Forall_app. split; [eapply Forall_impl; [exact Hl|]; cbn; lia|]. apply Forall_map, Forall_true. cbn. lia.
    - intros n Hn. specialize (Hs n Hn). cbn in *. lia. }
  assert (Hrun : forall ws', running (Proc (live p ++ tagged (next_flag p) ws') (stopping p) (S (next_flag p))) = running p ++ tagged (next_flag p) ws').
  { intros ws'. unfold running. cbn. by rewrite filter_app, running_tagged. }
  destruct r as [b|e].
  - exists ws, (Proc (live p ++ tagged (next_flag p) ws) (stopping p) (S (next_flag p))), f', (Ok b).
    split; [done|]. split; [done|]. split; [apply Hok|]. split; [done|]. split; [done|]. split; [by eapply Hb|]. split; [by apply Hr|apply Hrun].
  - exists ws, (Proc (live p ++ tagged (next_flag p) (orphans ws)) (stopping p) (S (next_flag p))), f', (Err e).
    split; [by rewrite abandon_spec|]. split; [done|]. split; [apply Hok|]. split; [done|]. split; [done|apply Hrun].
Qed.
End starting.
