(* ===== verification/PyBridge.v ===== *)
(** * The Python bridge ([crates/mmbus-bridge/src/python.rs])

    [PyBridge] as the state machine it is, over the starts and shutdowns of [BridgeStart.v].  Each method holds
    the mutex while it looks at the state, and is one step; a panic while it is held poisons it. *)

From Stdlib Require Import ZArith Lia Strings.Byte.
From stdpp Require Import base option strings gmap list.
From S2P Require Import Prelude Text ProducerLock Bus BridgeConfig Frame Queue Bridge OriginId QuicIdentity BridgeStart.

(** [Poisoned] is [Transitioning] behind a poisoned mutex. *)
Inductive state := Configured (cfg : bridge_config) | Running (b : bridge) | Shutdown | Poisoned.

Inductive py_error (ME IE : Type) :=
  | PyBridgeError (e : ME)
  | BridgeListenError (e : IE)
  | BridgeQuicError (why : option rstring)
  | PyRuntimeError
  | PyTimeoutError
  | PanicException.
Arguments PyBridgeError {ME IE}. Arguments BridgeListenError {ME IE}. Arguments BridgeQuicError {ME IE}.
Arguments PyRuntimeError {ME IE}. Arguments PyTimeoutError {ME IE}. Arguments PanicException {ME IE}.

Section methods.
Context `{Sha256} {ME IE G : Type}.
Variable feature_quic : bool.

Record py := Py { pstate : state; sys : proc * fs }.

#[local] Notation call := (M py (py_error ME IE)).

Definition bridge_err (e : bridge_error ME IE) : py_error ME IE :=
  match e with
  | Mmbus _ _ m => PyBridgeError m
  | Listen _ _ io => BridgeListenError io
  | QuicNotCompiled _ => BridgeQuicError None
  | QuicSetup _ _ msg => BridgeQuicError (Some msg)
  end.

(** [new], [from_toml] and [from_path], once the configuration is parsed. *)
Definition py_new (cfg : bridge_config) (s : proc * fs) : result config_error py :=
  match validate cfg with
  | Ok _ => Ok (Py (Configured cfg) s)
  | Err e => Err e
  end.

Definition py_start (w : world ME IE G) : call unit := fun y =>
  match pstate y with
  | Configured cfg =>
      match start feature_quic w cfg (sys y) with
      | (s, Ok b) => (Py (Running b) s, Ok tt)
      | (s, Err (Failed e)) => (Py (Configured cfg) s, Err (bridge_err e))
      | (s, Err Panicked) => (Py Poisoned s, Err PanicException)
      end
  | Running b => (y, Ok tt)
  | Shutdown => (y, Err PyRuntimeError)
  | Poisoned => (y, Err PanicException)
  end.

(** How a join with a deadline goes: it is over in time, the deadline passes first and the join goes on by
    itself, or the deadline is no duration: a panic, which drops the bridge, and so joins it. *)
Inductive join_outcome := JoinDone | TimedOut | BadTimeout.

Definition py_shutdown (how : join_outcome) : call unit := fun y =>
  match pstate y with
  | Running b =>
      let '(p, f) := sys y in
      match how with
      | JoinDone => (Py Shutdown (shutdown b p, f), Ok tt)
      | TimedOut => (Py Shutdown (stop b p, f), Err PyTimeoutError)
      | BadTimeout => (Py Shutdown (shutdown b p, f), Err PanicException)
      end
  | Configured _ | Shutdown => (Py Shutdown (sys y), Ok tt)
  | Poisoned => (y, Err PanicException)
  end.

Definition is_running (y : py) : result (py_error ME IE) bool :=
  match pstate y with Running _ => Ok true | Poisoned => Err PanicException | _ => Ok false end.

Definition py_origin_id (y : py) : result (py_error ME IE) (option Z) :=
  match pstate y with Running b => Ok (Some (b_origin_id b)) | Poisoned => Err PanicException | _ => Ok None end.

Definition py_listen_addr (y : py) : result (py_error ME IE) (option Z) :=
  match pstate y with Running b => Ok (b_listen_addr b) | Poisoned => Err PanicException | _ => Ok None end.

(** [wait]: between two looks other threads do something, and a signal may be pending. *)
Fixpoint py_wait (turns : list ((py -> py) * bool)) (y : py) : py * option (result (py_error ME IE) bool) :=
  match is_running y with
  | Err e => (y, Some (Err e))
  | Ok false => (y, Some (Ok true))
  | Ok true =>
      match turns with
      | [] => (y, None)
      | (turn, interrupt) :: turns => if interrupt then (turn y, Some (Ok false)) else py_wait turns (turn y)
      end
  end.

(** ** Any sequence of calls *)

(** [PyDrain]: the join that a shutdown left behind is over. *)
Inductive op := PyStart (w : world ME IE G) | PyShutdown (how : join_outcome) | PyDrain (b : bridge).

(** A drain joins workers that were told to stop. *)
Definition step (o : op) (y : py) : py * result (py_error ME IE) unit :=
  match o with
  | PyStart w => py_start w y
  | PyShutdown how => py_shutdown how y
  | PyDrain b => if bool_decide (b_flag b ∈ stopping (sys y).1) then (Py (pstate y) (join_workers b (sys y).1, (sys y).2), Ok tt) else (y, Ok tt)
  end.

Fixpoint run (os : list op) (y : py) : py * list (result (py_error ME IE) unit) :=
  match os with
  | [] => (y, [])
  | o :: os => let '(y, r) := step o y in let '(y, rs) := run os y in (y, r :: rs)
  end.

(** The workers of the bridge that is running. *)
Definition current (cfg : bridge_config) (y : py) : list (nat * worker) :=
  match pstate y with Running b => tagged (b_flag b) (workers_of feature_quic cfg) | _ => [] end.

(** Which of the object's starts went wrong. *)
Definition failed_start (o : op) (r : result (py_error ME IE) unit) : bool :=
  match o, r with
  | PyStart _, Err PyRuntimeError => false
  | PyStart _, Err _ => true
  | _, _ => false
  end.

(** [lost]: workers nobody looks after. *)
Record py_ok (cfg : bridge_config) (lost : list (nat * worker)) (y : py) : Prop := {
  y_proc : proc_ok (sys y).1;
  y_running : running (sys y).1 = lost ++ current cfg y;
  y_cfg : match pstate y with
          | Configured c => c = cfg
          | Running b => (b_flag b < next_flag (sys y).1)%nat /\ b_flag b ∉ stopping (sys y).1 /\ Forall (fun x => x.1 <> b_flag b) lost
          | _ => True
          end
}.

(** What a start that failed after spawning [ws] under a flag leaves. *)
Definition leftovers (fails : list (nat * list worker)) : list (nat * worker) := concat (map (fun x => tagged x.1 (orphans x.2)) fails).

Lemma leftovers_app fails fails' : leftovers (fails ++ fails') = leftovers fails ++ leftovers fails'.
Proof. unfold leftovers. by rewrite List.map_app, concat_app. Qed.

(** A failed start left at most this: its flag, and the first part of the configuration's workers it had spawned. *)
Definition failed_part (cfg : bridge_config) (failed : bool) (fails : list (nat * list worker)) : Prop :=
  Forall (fun x => x.2 `prefix_of` workers_of feature_quic cfg) fails /\ (length fails <= Nat.b2n failed)%nat.

Lemma running_lt p : proc_ok p -> Forall (fun x => (x.1 < next_flag p)%nat) (running p).
Proof. intros [Hl _]. apply Forall_forall. intros x Hx. apply list_elem_of_filter in Hx as [_ Hx]. rewrite Forall_forall in Hl. by apply Hl. Qed.

(** Telling a bridge to stop takes its workers, and no others, out of the running ones. *)
Lemma stop_running b p : running (stop b p) = filter (fun x => x.1 <> b_flag b) (running p).
Proof.
  unfold running, stop. cbn [live stopping]. rewrite list_filter_filter. apply list_filter_iff. intros x. set_solver.
Qed.

(** Joining workers that were told to stop takes out none that were not. *)
Lemma join_running b p : b_flag b ∈ stopping p -> running (join_workers b p) = running p.
Proof.
  intros Hb. unfold running, join_workers. cbn [live stopping]. rewrite list_filter_filter. apply list_filter_iff. intros x. split; [tauto|].
  intros Hx. split; [done|]. intros E. by rewrite E in Hx.
Qed.

Lemma stop_ok b p : proc_ok p -> (b_flag b < next_flag p)%nat -> proc_ok (stop b p).
Proof. intros [Hl Hs] Hb. split; [done|]. intros n Hn. cbn in *. apply elem_of_union in Hn as [Hn|Hn]; [set_solver|]. by apply Hs. Qed.

Lemma join_ok b p : proc_ok p -> proc_ok (join_workers b p).
Proof. intros [Hl Hs]. split; [|done]. cbn. apply Forall_forall. intros x Hx. apply list_elem_of_filter in Hx as [_ Hx]. rewrite Forall_forall in Hl. by apply Hl. Qed.

Lemma filter_own flag ws : filter (fun x => x.1 <> flag) (tagged flag ws) = [].
Proof. apply filter_none. unfold tagged. apply Forall_map, Forall_true. intros w Hw. by apply Hw. Qed.

Lemma shutdown_running cfg lost y b : py_ok cfg lost y -> pstate y = Running b -> running (stop b (sys y).1) = lost.
Proof.
  intros [Hp Hr Hc] E. rewrite stop_running, Hr. unfold current. rewrite E in *. destruct Hc as (_ & _ & Hl).
  rewrite filter_app, filter_own, app_nil_r. by apply filter_all.
Qed.

(** A step that leaves the process as it is. *)
Lemma same_step cfg lost failed y : py_ok cfg lost y -> exists fails, failed_part cfg failed fails /\ py_ok cfg (lost ++ leftovers fails) y.
Proof. intros Hy. exists []. split; [split; [done|cbn; lia]|]. unfold leftovers. cbn. by rewrite app_nil_r. Qed.

Lemma start_step cfg lost w y : py_ok cfg lost y ->
  exists fails, failed_part cfg (failed_start (PyStart w) (py_start w y).2) fails /\ py_ok cfg (lost ++ leftovers fails) (py_start w y).1.
Proof.
  intros Hy. pose proof Hy as [Hp Hr Hc]. unfold py_start. destruct (pstate y) as [c|b| |] eqn:Es; try by apply same_step.
  - subst c. destruct y as [st [p f]]. cbn [sys pstate fst] in *. subst st.
    destruct (start_spec feature_quic w cfg p f Hp) as (ws & p' & f' & r & E & Hpre & Hp' & Hst & Hn & Hres). rewrite E.
    unfold current in Hr. cbn [pstate] in Hr. rewrite app_nil_r in Hr. destruct r as [b|e].
    + destruct Hres as (Hb & -> & Hrun). exists []. split; [by split; [|cbn; lia]|]. cbn. rewrite app_nil_r. constructor; cbn [fst sys pstate]; [done| |].
      * unfold current. cbn [pstate]. by rewrite Hrun, Hr, Hb.
      * rewrite Hb, Hn, Hst. split; [lia|]. destruct Hp as [Hl Hs]. split; [intros Hin; specialize (Hs _ Hin); cbn in Hs; lia|].
        rewrite <- Hr. eapply Forall_impl; [apply running_lt; by split|]. cbn. lia.
    + exists [(next_flag p, ws)]. split.
      * split; [by apply Forall_singleton|]. destruct e as [[]|]; cbn; lia.
      * unfold leftovers. cbn [map concat fst snd]. rewrite app_nil_r.
        destruct e as [e|]; constructor; cbn [fst sys pstate]; try done; unfold current; cbn [pstate]; by rewrite app_nil_r, Hres, Hr.
Qed.

Lemma shutdown_step cfg lost how y : py_ok cfg lost y -> py_ok cfg lost (py_shutdown how y).1.
Proof.
  intros Hy. pose proof Hy as [Hp Hr Hc]. unfold py_shutdown. destruct (pstate y) as [c|b| |] eqn:Es; try done.
  - constructor; try done. cbn. by rewrite Hr; unfold current; rewrite Es.
  - pose proof (shutdown_running _ _ _ _ Hy Es) as Hs. destruct Hc as (Hb & _ & _). destruct y as [st [p f]]. cbn [sys pstate fst] in *.
    pose proof (stop_ok b p Hp Hb) as Hok.
    assert (Hj : running (join_workers b (stop b p)) = lost) by (rewrite join_running; [done|cbn; set_solver]).
    destruct how; constructor; cbn [fst sys pstate]; try done; unfold current; cbn [pstate]; try by rewrite app_nil_r.
    all: by apply join_ok.
  - constructor; try done. cbn. by rewrite Hr; unfold current; rewrite Es.
Qed.

Lemma drain_step cfg lost b y : py_ok cfg lost y -> py_ok cfg lost (step (PyDrain b) y).1.
Proof.
  intros Hy. pose proof Hy as [Hp Hr Hc]. cbn [step]. case_bool_decide as Hb; [|done]. constructor; cbn [fst sys pstate].
  - by apply join_ok.
  - by rewrite join_running.
  - done.
Qed.

Lemma step_ok cfg lost o y : py_ok cfg lost y ->
  exists fails, failed_part cfg (failed_start o (step o y).2) fails /\ py_ok cfg (lost ++ leftovers fails) (step o y).1.
Proof.
  intros Hy. destruct o as [w|how|b].
  - by apply start_step.
  - apply same_step. by apply shutdown_step.
  - apply same_step. by apply drain_step.
Qed.

(** How many of the starts failed. *)
Definition failures (os : list op) (rs : list (result (py_error ME IE) unit)) : nat :=
  length (filter (fun x => failed_start x.1 x.2 = true) (zip os rs)).

Lemma run_ok os : forall cfg lost y, py_ok cfg lost y ->
  exists fails, Forall (fun x => x.2 `prefix_of` workers_of feature_quic cfg) fails /\ (length fails <= failures os (run os y).2)%nat
    /\ py_ok cfg (lost ++ leftovers fails) (run os y).1.
Proof.
  induction os as [|o os IH]; intros cfg lost y Hy.
  - destruct (same_step cfg lost false y Hy) as (fails & [Hf Hl] & Hok). by exists fails.
  - destruct (step_ok cfg lost o y Hy) as (fails & [Hf Hl] & Hok). cbn [run]. destruct (step o y) as [y1 r] eqn:E.
    destruct (IH cfg _ y1 Hok) as (fails' & Hf' & Hl' & Hok'). destruct (run os y1) as [y2 rs]. exists (fails ++ fails').
    cbn [fst snd] in *. split; [by apply Forall_app|]. rewrite leftovers_app, app_assoc. split; [|done].
    rewrite length_app. unfold failures in *. cbn [zip_with]. rewrite filter_cons. cbn [fst snd].
    destruct (failed_start o r); destruct (decide _) as [Hd|Hd]; cbn [length Nat.b2n] in *; try done; lia.
Qed.

(** C18: Whatever starts and shutdowns a program makes of a [mmbus_bridge.Bridge], in whatever order and with
    whatever outcome, the workers that nobody has told to stop are those that were there before, those of the
    bridge that is running, each once, and what failed starts left: of each, the threads of a first part of the
    configuration's, which no later call can stop.  After a shutdown only such leftovers run on, and none do
    when no start failed. *)
Theorem bridge_workers_are_accounted_for cfg s os : proc_ok s.1 ->
  exists fails, running (sys (run os (Py (Configured cfg) s)).1).1 = running s.1 ++ leftovers fails ++ current cfg (run os (Py (Configured cfg) s)).1
    /\ Forall (fun x => x.2 `prefix_of` workers_of feature_quic cfg) fails
    /\ (length fails <= failures os (run os (Py (Configured cfg) s)).2)%nat.
Proof.
  intros Hp. destruct (run_ok os cfg (running s.1) (Py (Configured cfg) s)) as (fails & Hf & Hl & [_ Hr _]).
  - constructor; [done| |done]. unfold current. cbn. by rewrite app_nil_r.
  - exists fails. by rewrite Hr, <- app_assoc.
Qed.
End methods.

(** ** A port that is taken at the first start *)

#[local] Existing Instance demo_sha256.

Definition demo_cfg : bridge_config :=
  BridgeConfig [98] None (Some 7) (Some [104; 58; 50]) default_peer_buffer_max None None None default_quic_worker_threads
    [TopicConfig [116] true true] [demo_peer 97].
Definition demo_world (bound : result Z Z) : world unit Z Z :=
  World _ _ _ (Some 5) 9 (Ok tt) demo_rcgen no_faults [] (fun _ => []) (fun _ => bound) (fun _ => Err []) (fun _ => Ok tt) None.
Definition no_workers : proc := Proc [] ∅ 0.

(** A start that finds the port taken, one that does not, and a shutdown. *)
Definition two_starts : list (op (ME := unit) (IE := Z) (G := Z)) := [PyStart (demo_world (Err 98)); PyStart (demo_world (Ok 50))].

Lemma bridge_workers_are_accounted_for_witness :
  let y := (run false two_starts (Py (Configured demo_cfg) (no_workers, no_files))).1 in
  proc_ok no_workers /\ exists fails, running (sys y).1 = running no_workers ++ leftovers fails ++ current false demo_cfg y
    /\ Forall (fun x => x.2 `prefix_of` workers_of false demo_cfg) fails /\ (length fails <= 1)%nat.
Proof.
  intros y. assert (Hp : proc_ok no_workers) by (split; [by constructor|intros n Hn; set_solver]). split; [exact Hp|].
  exact (bridge_workers_are_accounted_for false demo_cfg (no_workers, no_files) two_starts Hp).
Defined.

(** After the second start each message is forwarded, and received, twice: the forwarder and the subscriber of
    the first start run on, and a shutdown does not stop them. *)
Example retry_after_a_bind_error_doubles_the_workers :
  let '(y, rs) := run false two_starts (Py (Configured demo_cfg) (no_workers, no_files)) in
  rs = [Err (BridgeListenError 98); Ok tt]
  /\ running (sys y).1 = [(0%nat, WForwarder (demo_peer 97)); (0%nat, WSubscriber [116]);
                         (1%nat, WForwarder (demo_peer 97)); (1%nat, WSubscriber [116]); (1%nat, WPublisher); (1%nat, WTcpListener)]
  /\ running (sys (step (ME := unit) (IE := Z) (G := Z) false (PyShutdown JoinDone) y).1).1 = [(0%nat, WForwarder (demo_peer 97)); (0%nat, WSubscriber [116])].
Proof. vm_compute. repeat split. Qed.

(** A buffer of no messages, which [validate] accepts, makes [start] panic, and every call after it. *)
Example empty_buffer_poisons_the_bridge :
  let cfg := BridgeConfig [98] None None None 0 None None None default_quic_worker_threads [] [demo_peer 97] in
  validate cfg = Ok tt
  /\ (run (ME := unit) (IE := Z) (G := Z) false [PyStart (demo_world (Ok 50)); PyStart (demo_world (Ok 50)); PyShutdown JoinDone] (Py (Configured cfg) (no_workers, no_files))).2
     = [Err PanicException; Err PanicException; Err PanicException].
Proof. vm_compute. by split. Qed.
