(* ===== verification/PyLocks.v ===== *)
(** * The locks of the Python bridge ([crates/mmbus-bridge/src/python.rs])

    Several Python threads call the methods of one [PyBridge].  A method is entered with the interpreter's lock,
    takes the mutex of the state, and gives the interpreter's lock up around what blocks.  Each method is the
    sequence of what it does with the two locks, and a thread runs one call after another. *)

From Stdlib Require Import Lia.
From stdpp Require Import base option list relations.
From S2P Require Import Prelude.

Inductive action := TakeGil | GiveGil | TakeMutex | GiveMutex | Block.

#[export] Instance action_eq_dec : EqDecision action.
Proof. solve_decision. Defined.

(** The methods, with what decides how they go: whether the state is [Configured] or [Running], and how often
    [wait] looks. *)
Inductive method := Start (configured : bool) | Shutdown (running : bool) | Wait (looks : nat) | Look.

(** [start]: [Bridge::start] runs with the mutex held and the interpreter's lock given up. *)
Definition start_locks (configured : bool) : list action :=
  if configured then [TakeMutex; GiveGil; Block; TakeGil; GiveMutex] else [TakeMutex; GiveMutex].

(** [shutdown]: the mutex is free again before the join. *)
Definition shutdown_locks (running : bool) : list action :=
  [TakeMutex; GiveMutex] ++ (if running then [GiveGil; Block; TakeGil] else []).

(** [is_running], and the getters. *)
Definition look_locks : list action := [TakeMutex; GiveMutex].

(** [wait]: a last look finds the bridge stopped. *)
Fixpoint wait_locks (looks : nat) : list action :=
  match looks with
  | O => look_locks
  | S looks => look_locks ++ [GiveGil; Block; TakeGil] ++ wait_locks looks
  end.

Definition method_locks (m : method) : list action :=
  match m with
  | Start configured => start_locks configured
  | Shutdown running => shutdown_locks running
  | Wait looks => wait_locks looks
  | Look => look_locks
  end.

(** A call: the interpreter has its lock when it enters the method, and may switch threads afterwards. *)
Definition call_locks (m : method) : list action := TakeGil :: method_locks m ++ [GiveGil].

(** ** Threads *)

(** Who holds the locks, and what each thread has still to do. *)
Record threads := Threads { gil : option nat; mutex : option nat; todo : list (list action) }.

Definition begin (programs : list (list method)) : threads := Threads None None (map (fun p => concat (map call_locks p)) programs).

(** What a thread's next action makes of the locks; it waits when there is no result. *)
Definition act (i : nat) (a : action) (g m : option nat) : option (option nat * option nat) :=
  match a with
  | TakeGil => match g with None => Some (Some i, m) | Some _ => None end
  | GiveGil => if bool_decide (g = Some i) then Some (None, m) else None
  | TakeMutex => match m with None => Some (g, Some i) | Some _ => None end
  | GiveMutex => if bool_decide (m = Some i) then Some (g, None) else None
  | Block => Some (g, m)
  end.

Definition thread_step (i : nat) (s : threads) : option threads :=
  match todo s !! i with
  | Some (a :: l) => match act i a (gil s) (mutex s) with
                     | Some (g, m) => Some (Threads g m (<[i := l]> (todo s)))
                     | None => None
                     end
  | _ => None
  end.

(** One thread goes on. *)
Definition goes (s s' : threads) : Prop := exists i, thread_step i s = Some s'.

Definition finished (s : threads) : Prop := Forall (eq []) (todo s).

(** Some thread waits, and none can go on. *)
Definition deadlocked (s : threads) : Prop := ~ finished s /\ forall i, thread_step i s = None.

(** ** The discipline of the methods *)

(** The mutex is taken and given with the interpreter's lock in hand, and the latter never taken or given with
    the mutex in hand; nothing is kept at the end. *)
Fixpoint disciplined (g m : bool) (l : list action) : bool :=
  match l with
  | [] => negb g && negb m
  | TakeGil :: l => negb g && negb m && disciplined true false l
  | GiveGil :: l => g && negb m && disciplined false false l
  | TakeMutex :: l => g && negb m && disciplined true true l
  | GiveMutex :: l => g && m && disciplined true false l
  | Block :: l => disciplined g m l
  end.

Lemma disciplined_mutex g l : disciplined g true l = true -> g = true.
Proof. induction l as [|[] l IH]; cbn; destruct g; try done. Qed.

Lemma disciplined_app l : forall g m l', disciplined g m (l ++ [GiveGil]) = true -> disciplined false false l' = true ->
  disciplined g m ((l ++ [GiveGil]) ++ l') = true.
Proof.
  induction l as [|a l IH]; intros g m l' Hl Hl'.
  - destruct g, m; cbn in *; done.
  - destruct a; cbn in *; destruct g, m; cbn in *; try done; by apply IH.
Qed.

Lemma wait_disciplined n : disciplined true false (wait_locks n ++ [GiveGil]) = true.
Proof. by induction n. Qed.

(** Every method keeps to it, but the start that starts. *)
Lemma call_disciplined m : m <> Start true -> disciplined false false (call_locks m) = true.
Proof. destruct m as [[]|[]|n|]; try done. intros _. cbn. apply wait_disciplined. Qed.

Lemma calls_disciplined p : Forall (fun m => m <> Start true) p -> disciplined false false (concat (map call_locks p)) = true.
Proof.
  induction 1 as [|m p Hm _ IH]; [done|]. cbn [map concat]. apply call_disciplined in Hm.
  apply (disciplined_app (TakeGil :: method_locks m) false false); done.
Qed.

(** Each thread keeps to it with the locks it holds. *)
Definition orderly (s : threads) : Prop := forall i l, todo s !! i = Some l ->
  disciplined (bool_decide (gil s = Some i)) (bool_decide (mutex s = Some i)) l = true.

(** Only threads hold locks. *)
Definition held (s : threads) : Prop :=
  (forall i, gil s = Some i -> is_Some (todo s !! i)) /\ (forall i, mutex s = Some i -> is_Some (todo s !! i)).

Lemma begin_orderly programs : Forall (Forall (fun m => m <> Start true)) programs -> orderly (begin programs) /\ held (begin programs).
Proof.
  intros Hp. split; [|by split]. intros i l Hi. cbn in Hi. rewrite list_lookup_fmap in Hi.
  destruct (programs !! i) as [p|] eqn:E; [|done]. cbn in Hi. minv. apply calls_disciplined. by eapply Forall_lookup_1.
Qed.

(** Another thread's step takes no lock from a thread, and gives it none. *)
Lemma act_other i j a g m g' m' : i <> j -> act i a g m = Some (g', m') ->
  bool_decide (g' = Some j) = bool_decide (g = Some j) /\ bool_decide (m' = Some j) = bool_decide (m = Some j).
Proof.
  intros Hij E. destruct a; cbn in E; repeat case_bool_decide; repeat case_match; minv; repeat case_bool_decide; naive_solver.
Qed.

Lemma step_orderly s s' : goes s s' -> orderly s -> held s -> orderly s' /\ held s'.
Proof.
  intros [i E] Ho [Hg Hm]. unfold thread_step in E. destruct (todo s !! i) as [[|a l]|] eqn:Ei; [done| |done].
  destruct (act i a (gil s) (mutex s)) as [[g m]|] eqn:Ea; [|done]. minv. pose proof (Ho i _ Ei) as Hi.
  assert (Hin : forall j, is_Some (todo s !! j) -> is_Some (<[i:=l]> (todo s) !! j)).
  { intros j Hj. destruct (decide (i = j)) as [->|Hn]; [|by rewrite list_lookup_insert_ne]. rewrite list_lookup_insert_eq; [done|].
    by eapply lookup_lt_is_Some_1. }
  split.
  - intros j lj Hj. cbn [todo gil mutex] in *. destruct (decide (i = j)) as [<-|Hn].
    + rewrite list_lookup_insert_eq in Hj by (by eapply lookup_lt_Some). minv.
      destruct a; cbn in Ea, Hi; repeat case_bool_decide; repeat case_match; minv; repeat case_bool_decide; cbn in *; naive_solver.
    + rewrite list_lookup_insert_ne in Hj by done. destruct (act_other i j _ _ _ _ _ Hn Ea) as [-> ->]. by apply Ho.
  - split; intros j Hj; cbn [todo gil mutex] in *; apply Hin; destruct a; cbn in Ea; repeat case_bool_decide; repeat case_match; minv; naive_solver.
Qed.

Lemma reachable_orderly s s' : rtc goes s s' -> orderly s -> held s -> orderly s' /\ held s'.
Proof. induction 1 as [s|s s1 s' Hs _ IH]; [done|]. intros Ho Hh. destruct (step_orderly _ _ Hs Ho Hh). by apply IH. Qed.

(** The mutex is only held by the thread that has the interpreter's lock. *)
Lemma mutex_needs_gil s i : orderly s -> held s -> mutex s = Some i -> gil s = Some i.
Proof.
  intros Ho [_ Hm] E. destruct (Hm i E) as [l Hl]. specialize (Ho i l Hl). rewrite E in Ho.
  rewrite (bool_decide_true (Some i = Some i)) in Ho by done. apply disciplined_mutex in Ho. by apply bool_decide_eq_true in Ho.
Qed.

Lemma thread_goes s i a l : todo s !! i = Some (a :: l) -> act i a (gil s) (mutex s) <> None -> exists s', goes s s'.
Proof.
  intros Ei Ha. destruct (act i a (gil s) (mutex s)) as [[g m]|] eqn:E; [|done].
  exists (Threads g m (<[i:=l]> (todo s))), i. unfold thread_step. by rewrite Ei, E.
Qed.

(** The thread that has the interpreter's lock can go on. *)
Lemma holder_goes s i : orderly s -> held s -> gil s = Some i -> exists s', goes s s'.
Proof.
  intros Ho Hh E. destruct (proj1 Hh i E) as [l Hl]. pose proof (Ho i l Hl) as Hd. rewrite E in Hd.
  rewrite (bool_decide_true (Some i = Some i)) in Hd by done. destruct l as [|a l]; [by cbn in Hd|].
  apply (thread_goes s i a l Hl). destruct a; cbn in Hd |- *; try done.
  - by rewrite bool_decide_true.
  - case_bool_decide as Hm; [done|]. destruct (mutex s) as [j|] eqn:Em; [|done].
    rewrite (mutex_needs_gil s j Ho Hh Em) in E. injection E as ->. done.
  - by case_bool_decide.
Qed.

(** When nobody has it, everybody who has something left can. *)
Lemma free_goes s i a l : orderly s -> held s -> gil s = None -> todo s !! i = Some (a :: l) -> exists s', goes s s'.
Proof.
  intros Ho Hh E Hl. pose proof (Ho i _ Hl) as Hd. apply (thread_goes s i a l Hl). rewrite E in *. destruct a; cbn in Hd; try done.
Qed.

Lemma orderly_goes s : orderly s -> held s -> ~ finished s -> exists s', goes s s'.
Proof.
  intros Ho Hh Hf. destruct (gil s) as [i|] eqn:E; [by apply (holder_goes s i)|].
  apply not_Forall_Exists in Hf; [|intros l; apply _]. apply Exists_exists in Hf as (l & Hl & Hne).
  apply list_elem_of_lookup in Hl as [i Hi]. destruct l as [|a l]; [done|]. by apply (free_goes s i a l).
Qed.

(** Each step uses one action up. *)
Definition left (s : threads) : nat := length (concat (todo s)).

Lemma left_insert (ls : list (list action)) i a l : ls !! i = Some (a :: l) -> length (concat ls) = S (length (concat (<[i:=l]> ls))).
Proof.
  revert i. induction ls as [|l0 ls IH]; intros [|i] E; try done; cbn in E.
  - by minv.
  - specialize (IH i E). change (<[S i:=l]> (l0 :: ls)) with (l0 :: <[i:=l]> ls). cbn [concat]. rewrite !length_app. lia.
Qed.

Lemma step_left s s' : goes s s' -> left s = S (left s').
Proof.
  intros [i E]. unfold thread_step in E. destruct (todo s !! i) as [[|a l]|] eqn:Ei; [done| |done].
  destruct (act i a (gil s) (mutex s)) as [[g m]|]; [|done]. minv. by apply (left_insert _ i a).
Qed.

(** All the threads can always be brought to their ends. *)
Lemma orderly_finishes n : forall s, left s = n -> orderly s -> held s -> exists s', nsteps goes n s s' /\ finished s'.
Proof.
  induction n as [|n IH]; intros s Hn Ho Hh.
  - destruct (decide (Forall (eq []) (todo s))) as [Hf|Hf]; [by exists s; split; [constructor|]|].
    destruct (orderly_goes s Ho Hh Hf) as [s' Hs]. apply step_left in Hs. lia.
  - destruct (decide (Forall (eq []) (todo s))) as [Hf|Hf].
    { exfalso. unfold left in Hn. clear -Hf Hn. induction Hf as [|l ls <- _ IH]; [done|]. by apply IH. }
    destruct (orderly_goes s Ho Hh Hf) as [s1 Hs]. pose proof (step_left _ _ Hs). destruct (step_orderly _ _ Hs Ho Hh) as [Ho1 Hh1].
    destruct (IH s1) as (s' & Hn' & Hf'); [lia|done|done|]. exists s'. split; [by econstructor|done].
Qed.

(** C20: Any number of Python threads may call [shutdown], [wait], [is_running], the getters, and [start] on a
    bridge that is not fresh, in any order and with any interleaving, and never deadlock on the interpreter's
    lock and the mutex: from whatever they reach, they all finish, after as many steps as they have left, and
    none of them has to be given up. *)
Theorem calls_never_deadlock programs s : Forall (Forall (fun m => m <> Start true)) programs ->
  rtc goes (begin programs) s -> ~ deadlocked s /\ exists s', nsteps goes (left s) s s' /\ finished s'.
Proof.
  intros Hp Hr. destruct (begin_orderly programs Hp) as [Ho Hh]. destruct (reachable_orderly _ _ Hr Ho Hh) as [Ho' Hh']. split.
  - intros [Hf Hno]. destruct (orderly_goes s Ho' Hh' Hf) as (s' & i & E). by rewrite Hno in E.
  - by apply orderly_finishes.
Qed.

(** Two threads: one shuts the bridge down while the other polls it. *)
Definition demo_programs : list (list method) := [[Shutdown true]; [Look; Look]].

(** The threads after the given ones have gone on, in that order. *)
Fixpoint goes_by (turns : list nat) (s : threads) : option threads :=
  match turns with
  | [] => Some s
  | i :: turns => match thread_step i s with Some s' => goes_by turns s' | None => None end
  end.

Lemma goes_by_spec turns : forall s s', goes_by turns s = Some s' -> rtc goes s s'.
Proof.
  induction turns as [|i turns IH]; cbn; intros s s' E; [minv; constructor|]. destruct (thread_step i s) as [s1|] eqn:E1; [|done].
  econstructor; [by exists i|by apply IH].
Qed.

(** The shutdown is at its join, and the other thread has the mutex. *)
Lemma calls_never_deadlock_witness : exists s,
  goes_by [0; 0; 0; 0; 1; 1]%nat (begin demo_programs) = Some s /\ mutex s = Some 1%nat
  /\ ~ deadlocked s /\ exists s', nsteps goes (left s) s s' /\ finished s'.
Proof.
  eexists. split; [reflexivity|]. split; [reflexivity|]. apply (calls_never_deadlock demo_programs).
  - repeat (apply Forall_cons; split; [repeat (apply Forall_cons; split; [discriminate|]); apply Forall_nil; exact I|]). apply Forall_nil. exact I.
  - by apply (goes_by_spec [0; 0; 0; 0; 1; 1]%nat).
Defined.

(** A thread that starts the bridge, and one that looks at it: the first waits for the interpreter's lock with
    the mutex in hand, the other for the mutex with the interpreter's lock. *)
Example start_deadlocks_with_a_look : exists s, rtc goes (begin [[Start true]; [Look]]) s /\ deadlocked s.
Proof.
  exists (Threads (Some 1%nat) (Some 0%nat) [[TakeGil; GiveMutex; GiveGil]; [TakeMutex; GiveMutex; GiveGil]]). split.
  - by apply (goes_by_spec [0; 0; 0; 1; 0]%nat).
  - split; [intros Hf; by inversion Hf|]. by intros [|[|i]].
Qed.
